(* ===== verification/_CoqProject ===== *)
-Q . S2P
Prelude.v
RingMem.v
RingSpec.v
Ring.v
RingSystem.v
RingRuns.v
RingOps.v
RingSolo.v
Protocol.v
Perfetto.v
Converter.v
ConverterProps.v
Symbolizer.v
SymbolizerProps.v
AgentIpc.v
Submission.v
AgentState.v
AgentLoop.v
AgentProps.v
AgentClient.v
AgentBuilder.v
Tracing.v
Text.v
Float.v
BpfConfig.v
BpfEvents.v
KernelRecords.v
BpfProcesses.v
SchedTrace.v
SchedKernel.v
SchedTimeline.v
BlockDevices.v
BlockTrack.v
BlockSamples.v
BlockProps.v
BlockNames.v
BlockReports.v
BlockKernel.v
BlockMemory.v
BlockLives.v
BlockSums.v
NetTrack.v
NetSamples.v
NetProps.v
NetSeries.v
NetKernel.v
NetCounts.v
NetReport.v
PerfCounter.v
PerfProps.v
PerfKernel.v
CpuUtil.v
CpuProps.v
CpuKernel.v
Profiler.v
ProfilerProps.v
ProfilerKernel.v
BpfCounts.v
Collectors.v
BpfConsumer.v
Recorder.v
EventPath.v
