(* ===== verification/Prelude.v ===== *)
(** * A verification of kinet-trace

    kinet-trace records what a machine does, from two sources.  A process hosts
    an agent; the recorder connects to it over a Unix socket, hands it the memory
    of a ring buffer and asks it to start; from then on the threads of the process
    write serialised events into the ring and the recorder reads them.  Collectors
    in the recorder read what programs in the kernel count and report: processes,
    the scheduler, processor times, performance counters, call stacks, networks and
    block devices.  Both kinds of messages go through one converter into a Perfetto
    trace.  This library models both paths, crate by crate, and proves what each
    part promises to the next.

    ** The parts

    The ring buffer, crate [mpscbuf] (src/mpscbuf/src):
    - [RingMem]: the errors (error.rs), the memory file that is mapped twice in
      a row behind the metadata page ([Memory], memory.rs), the header word of a
      record ([RecordHeader], common.rs), and the loads and stores of bytes and
      64-bit words through the double mapping.
    - [RingSpec]: the contract, a queue of records that are reserved, written,
      committed or discarded by their owner, and delivered in order of
      reservation ([spec_step]).
    - [Ring]: every operation as a function on the shared state: [Spinlock] and
      [Notification] (sync.rs), [RingBuf] (ringbuf.rs), [Producer] (producer.rs)
      and [Consumer] (consumer.rs).
    - [RingSystem]: any number of producers and the consumer, interleaved.  One
      access to the shared memory is one step ([tstep] for producers, [cstep]
      for the consumer, [step] for the system); the steps use the functions of
      [Ring].  Its invariant ([sys_ok]) relates a system to a queue, and each
      step is a step of the queue.
    - [RingRuns]: whole runs (C1 to C5).  An executable scheduler produces the
      runs of the witnesses.
    - [RingOps]: single calls, branch by branch (C6, C9, C36).
    - [RingSolo]: the functions of [Ring] are sequences of the steps of
      [RingSystem] when nobody interferes (lemma [operations_are_steps]), so that
      both models are of one program.

    The protocol, crate [protocol] (src/protocol/src/lib.rs):
    - [Protocol]: every event and message, over the integers of the native or of
      the archived form; the allocator of stream ids; the writers through which
      values are serialised and measured; the traits of interned data as type
      classes ([CallstackIterable] and so on) with the instances of both forms
      (C14).

    The trace, crates [perfetto-format] and [kinetrace]:
    - [Perfetto]: the packets and the writer (src/perfetto-format/src/lib.rs).
      [Write] is the interface to the byte stream, [Sink] the one to a packet
      log; [stream_sink] makes the first a case of the second.
    - [Converter]: [PerfettoConverter] and the label iterators
      (src/kinetrace/src/converter.rs, label_iter.rs).
    - [ConverterProps]: what reaches the stream, the tracks of a trace, the
      effect of each message, the agreement of both forms (C16, C17).

    Symbols, crate [interned-symbolizer] (src/interned-symbolizer/src/lib.rs):
    - [Symbolizer]: the cache of ids, sessions, the interned data of a stack.
    - [SymbolizerProps]: a reader that keeps the tables resolves every stack
      (C21).

    The agent, crate [agent] (src/agent/src):
    - [AgentIpc]: the channel of events and the handle of an extension (mpsc.rs,
      extension.rs), on top of [Ring] and [Protocol] (C24).
    - [Submission]: many threads that submit, interleaved with the consumer: the
      steps of [RingSystem], driven by [Producer::submit]; which event comes next is
      a parameter.  Its invariant ([submissions_ok]) ties every record in the ring
      to the event it is, and every thread to what it has submitted.
    - [AgentState]: clients, messages, disconnects and the timer
      (agent_state.rs); handlers return a new state, a new world and the actions
      they queue.
    - [AgentLoop]: the listener thread (epoll_thread.rs), one iteration against
      what epoll and the sockets deliver, and its runs.
    - [AgentProps]: the invariant of every run, what is answered, who is evicted,
      what is sent (C26, C27, C29).
    - [AgentClient]: the client (client.rs) against any peer behind the socket
      (class [Peer]), and the session of the client of the code with the agent
      of the code (C35): for that the thread of [AgentLoop] is an instance
      of [Peer] ([remote_peer]), behind a stream of which each side reads at most
      1024 bytes at a time.
    - [AgentBuilder]: the builder, the constructors, and the end of an agent
      (agent.rs), with the calls the thread makes before its loop.

    The tracing layer, crate [kinetracing] (src/kinetracing/src):
    - [Tracing]: the extension (extension.rs), the visitor of fields (visitor.rs)
      and the callbacks with their reentrancy guard (layer.rs) (C37, C38).

    The collectors, crate [bpf] (src/bpf/src):
    - [Text]: what they use of Rust's text functions.
    - [Float]: what they use of [f64].
    - [BpfConfig]: the configuration, its [build] (lib.rs), and the class of the
      configurations that can be restricted to processes.
    - [BpfEvents]: what all collectors share: the outbox ([Port]) with the messages
      they sent and the random ids they drew, kernel records as bytes, and the order
      they keep ([in_order]): a track is described before it is referred to.
    - [BpfProcesses]: the thread tracker (threadtrack.rs) down to its kernel
      programs (bpf/threadtrack.bpf.c), and the callback around it that enters
      processes into the filters of the other collectors (lib.rs) (C11, C13, C15).
    - [KernelRecords]: the structures the kernel programs write, field by field, and
      how they are read back.
    - [SchedTrace]: the events of the scheduler as spans (schedtrace.rs), on tracks
      that are described (lemma [sched_reported]).
    - [SchedKernel], [SchedTimeline]: the kernel programs behind it
      (bpf/schedtrace.bpf.c), the life of a thread they report, and what the
      collector makes of it (C7, C8).
    - [BlockDevices], [BlockTrack], [BlockSamples]: the block tracker
      (blocktrack.rs), its devices and their names, the statistics of a device and
      what is reported of them, and the collector at work; [BlockProps],
      [BlockNames] (C40) and [BlockReports] (C20, C22) are its properties.
    - [BlockKernel]: the kernel programs behind it (bpf/blocktrack.bpf.c);
      [BlockMemory]: what they keep is well typed and read back as it is (C33);
      [BlockLives], [BlockSums]: the lives of requests, interleaved, and what the
      programs count of them (C18, C30).
    - [NetTrack], [NetSamples], [NetProps]: the network tracker (nettrack.rs), its
      data, the collector at work and its properties (C32); [NetKernel]: the kernel
      programs behind it (bpf/nettrack.bpf.c); [NetCounts]: their maps as the
      collector reads them; [NetSeries]: what a round sends on the counter track of a
      series; [NetReport]: the rounds between what happens in the kernel, and what
      the values sent add up to (C19).
    - [PerfCounter], [PerfProps]: the performance counters (perfcounter.rs,
      perf_event.rs) (C31); [PerfKernel]: the kernel program that reads them
      (bpf/perfcounter.bpf.c), from the opened counters to the trace (C34).
    - [CpuUtil], [CpuProps]: the processor times (cpuutil.rs) (C25); [CpuKernel]: the
      kernel programs behind them (bpf/cpuutil.bpf.c), down to the switches of the
      scheduler (C10).
    - [Profiler], [ProfilerProps]: call stacks (profiler.rs), on top of
      [Symbolizer]; [ProfilerKernel]: the kernel program that takes them
      (bpf/profiler.bpf.c), from the stacks of threads to the trace (C28).
    - [BpfCounts]: differences of the kernel's counts, of devices and of networks,
      behind one class.
    - [Collectors]: what every collector promises to whoever runs it, as a class
      ([Collector]) with seven instances.
    - [BpfConsumer]: the consumer of a configuration and its rounds (lib.rs), over
      any collectors that keep the promise and for those of the code (C12).

    The program, crate [kinetrace] (src/kinetrace/src):
    - [Recorder]: the agents it starts, the loop that reads the ring and runs the
      collectors, and the trace (bin/kinetrace.rs, config.rs) (C39).
    - [EventPath]: [Submission] with the callers of [AgentHandle::submit] (a
      [caller] is a slot of its [ThreadLocal], with the threads that have it one after
      the other; it is the function of [AgentIpc], lemma [caller_is_handle]), and
      [Recorder] behind it (C23).

    ** What the theorems show

    - The queue: every interleaving of the ring refines [RingSpec], delivers the
      committed records in the order of their reservation, never overwrites a
      record in use and never exceeds the buffer (C1, C2, C4, C5), with one
      exception: a discard that the consumer overtakes, for which C3 exhibits
      the run that breaks the queue.  An attempt to take the lock ends, with a guard
      exactly behind a successful compare-and-exchange (C6), a reservation has the
      result and the effect of its branch (C36), a record comes back with its bytes
      (C9) unless it is of 4 GiB or more (lemma [large_record_truncated]).
    - From an event to the ring: the measured length is what serialisation needs
      (C14), so a submission puts exactly the serialised event into the queue or
      nothing (C24).
    - From the threads of an agent to the trace, whatever the interleaving: through
      every slot come the track of the first thread that got it in, once, and exactly
      the events whose calls succeeded; the recording converts the events in the order
      in which they got room, each once (C23).
    - From the ring to the trace: packets are written in order up to the first
      failed write (C16), every track is described before it is used, and once, with
      the exception of one that names itself as its parent (C17), an
      archived message gives the packets of the native one (lemma
      [archived_message_native]).
    - Stacks can be resolved from what was sent before (C21).
    - The agent has at most one started client, with the extension running
      exactly while there is one, and never panics (C26); a start is granted,
      refused or ends the connection as C27 states; silent clients lose the
      agent (C29); client and agent agree on start and stop, with messages that fit
      into one read (C35).
    - A span is reported with its times, labels and thread, once (C38; a thread whose
      number was another's before may be reported as that one); the layer cannot
      recurse into itself (C37).
    - The collectors follow exactly the processes of their filters (C11), those
      that run already (C13) and those the kernel reports, as far as what it
      reports is right (C15).
    - What the collectors report is what the kernel counted: percentiles of
      latencies below 2^32 us (C20), the values of a block device (C22) and of the
      network (C32),
      the times of the threads (C25), the counts of an event (C31).  Names of mounts
      are read as the kernel wrote them (C40).
    - From the kernel's tracepoints on: the spans on the track of a thread are its
      life, as long as nothing is lost (C7), and never overlap whatever is lost (C8);
      the time a thread is charged is the time it ran (C10); a sample of the profiler
      resolves to the stacks the thread had, if names are stable and no id is reused
      (C28); the values of a counter are those of its file and add up (C34); the values
      sent on the tracks of the network add up to what the calls moved (C19); the depths of a block device obey Little's law (C30), its statistics
      count every completed request once (C18), and what its programs keep is within
      its types (C33).
    - All collectors keep one order, in any configuration and any rounds (C12),
      which is what the converter needs to lose nothing of theirs (C39).
    - Where the code does not do what it means to, the theorem states what it
      does: C3, C15; see also the lemmas [large_record_truncated],
      [refused_start_leaks], [start_by_exchanges], [restarted_span_stale],
      [failed_reading_counted_twice] and [no_break_space_splits], and the examples
      [exit_preempted], [resumed_call_lost], [same_instant_stays],
      [unissued_requeue_span], [reused_id_wrong_stack], [described_twice] and
      [long_start_unanswered].

    ** Conventions, bounds and fuel

    Unsigned integers of width [w] are elements of [Z] below [2 ^ w]; [wrap],
    [+64], [-64] and [*64] of this file wrap around as release builds do.
    A message carries the 64 bits of a double; where the program computes with
    doubles, they are those of [Float] (binary64, round to nearest).  Bytes are
    elements of [Z] below 256.

    A panic is [None] in the collectors and a constructor of its own in the agent.
    The collectors share one callback: what they sent is one list, the log of their
    port, and the answers of the callback may depend on all of it.  Records of the
    kernel have the alignment their types need, as the rings guarantee.

    Memory accesses are sequentially consistent: the source orders them with
    release and acquire pairs on the positions, the headers and the lock, and
    weaker orders are not modelled.

    The theorems on runs of the ring bound the data area by 2^32 bytes (a header
    has 32 bits for a length; [large_record_truncated] is what happens beyond) and the bytes reserved
    in a run by 2^62, so that the 64-bit positions do not wrap around.  Those on
    single calls allow areas of up to 2^62 bytes.

    [Spinlock.try_lock] runs on [lock_fuel], twice the limit of iterations of
    the source, since each iteration makes at most two accesses; C6 shows that
    it always suffices.  [Consumer.consume] runs on one more than the number of
    discarded records in front of it (lemma [consume_spec]).  Every other recursion is structural:
    the loops of the source are over lists, and the listener thread runs once
    per delivery of epoll, of at most ten events, for any list of deliveries.
    The random ids of collectors are 64-bit numbers and may repeat; where a theorem
    needs those of a run to differ it says so ([distinct_draws], of the draws made).

    In [Text], trimming is bounded by the length of the text and printing in
    base 16 by the sixteen digits of a 64-bit integer.

    ** What is a parameter

    The helpers of the kernel programs (clock, stack, room in a ring or a map, what a
    map gives up, what a counter has counted, the id of a stack); a program is one step:
    it runs with preemption disabled, and what it changes is of its thread or its
    processor, under a lock, or changed atomically.

    System calls (their results, as arguments of the operations that make them),
    clocks, the derived serialisation and access of [rkyv] (a serialisation is a
    program of writes, positions and failures), the encoding of packets by
    [prost], the symbolizer of [blazesym], the unspecified hash of the standard
    library, the iteration order of a hash map (any permutation), the filter of
    [tracing_subscriber], the extension behind an agent, the kernel's answers to
    updates of a map, random ids; the file system ([FileSystem]) with sysfs and
    /proc, the contents of the kernel's rings and maps at each round, the numbers
    and calls of perf events ([PerfNumbers], [PerfSystem]), and whether the kernel
    takes a program.

    ** What is not modelled

    - Opening, loading and attaching kernel programs, which is libbpf's, and reading
      the TOML configuration, which is serde's; the command line, the signal handler
      and the timer of the binary.
    - Two kernel programs that enter the same key into a map at the same time: the
      second attempt of the network and block trackers is their way out of it, and a
      step of the model is a whole program.
    - The generated types of the trace format, test doubles, tests, benches and
      examples. *)

From Stdlib Require Export ZArith Lia.
From stdpp Require Export base tactics numbers list option gmap strings.

#[global] Set Default Goal Selector "!".

(** ** Notations of the development *)

Declare Scope kinet_scope.
Delimit Scope kinet_scope with kinet.

Open Scope Z_scope.

(** ** Machine integers

    Rust's unsigned integers are elements of [Z] in [0, 2^w); the release
    profile of the workspace (Cargo.toml) compiles without overflow checks, so
    [+], [-] and [*] on them wrap around. *)

Definition u16_max : Z := 65535.

Definition u32_max : Z := 4294967295.

Definition u64_max : Z := 18446744073709551615.

Definition i64_max : Z := 9223372036854775807.

Definition wrap (w x : Z) : Z := x mod 2 ^ w.

Definition in_u (w x : Z) : Prop := 0 <= x < 2 ^ w.

(** [x as iN] for a value [x]: the two's complement reading of the low bits. *)
Definition as_signed (w x : Z) : Z :=
  let y := x mod 2 ^ w in if y <? 2 ^ (w - 1) then y else y - 2 ^ w.

Definition sat_add (w a b : Z) : Z := Z.min (2 ^ w - 1) (a + b).

Definition sat_sub (a b : Z) : Z := Z.max 0 (a - b).

Definition sat_mul (w a b : Z) : Z := Z.min (2 ^ w - 1) (a * b).

Notation "x +64 y" := (wrap 64 (x + y)) (at level 50, left associativity) : kinet_scope.
Notation "x -64 y" := (wrap 64 (x - y)) (at level 50, left associativity) : kinet_scope.
Notation "x *64 y" := (wrap 64 (x * y)) (at level 40, left associativity) : kinet_scope.

Open Scope kinet_scope.

(** [usize::is_power_of_two] *)
Definition is_power_of_two (x : Z) : bool :=
  (0 <? x) && (Z.land x (x - 1) =? 0).

(** ** Fallible computations

    [result] is Rust's [Result]; [stM] is a method with [&mut self] that
    returns a [Result]: the state is kept also when the call fails, as [?]
    keeps it. *)

Inductive result (E A : Type) : Type :=
| Ok (a : A)
| Err (e : E).
Arguments Ok {E A} a.
Arguments Err {E A} e.

#[global] Instance result_mret {E} : MRet (result E) := fun A a => Ok a.

#[global] Instance result_mbind {E} : MBind (result E) := fun A B k m =>
  match m with Ok a => k a | Err e => Err e end.

Definition is_ok {E A} (r : result E A) : bool :=
  match r with Ok _ => true | Err _ => false end.

Definition map_err {E F A} (f : E -> F) (r : result E A) : result F A :=
  match r with Ok a => Ok a | Err e => Err (f e) end.

Definition stM (S E A : Type) : Type := S -> result E A * S.

#[global] Instance stM_mret {S E} : MRet (stM S E) := fun A a s => (Ok a, s).

#[global] Instance stM_mbind {S E} : MBind (stM S E) := fun A B k m s =>
  match m s with
  | (Ok a, s') => k a s'
  | (Err e, s') => (Err e, s')
  end.

Definition getS {S E} : stM S E S := fun s => (Ok s, s).

Definition putS {S E} (s : S) : stM S E unit := fun _ => (Ok tt, s).

Definition modifyS {S E} (f : S -> S) : stM S E unit := fun s => (Ok tt, f s).

Definition failS {S E A} (e : E) : stM S E A := fun s => (Err e, s).

(** ** Little-endian words *)

Fixpoint le_bytes (n : nat) (x : Z) : list Z :=
  match n with
  | O => []
  | S n => x mod 256 :: le_bytes n (x / 256)
  end.

Fixpoint le_word (bs : list Z) : Z :=
  match bs with
  | [] => 0
  | b :: bs => b + 256 * le_word bs
  end.

Definition is_byte (b : Z) : Prop := 0 <= b < 256.

(** ** Tactics *)

(** Split the conjunctions of the context and the goal, normalise map lookups
    and equations between constructors, then try the arithmetic solver. *)
Ltac crush :=
  repeat match goal with
  | H : _ /\ _ |- _ => destruct H
  | H : exists _, _ |- _ => destruct H
  end; simplify_eq/=; try done; try lia.

(** Case analysis on the first [match] or [if] of the goal. *)
Ltac break_goal :=
  match goal with
  | |- context [match ?x with _ => _ end] => destruct x eqn:?
  end; simplify_eq/=.

(** Case analysis on the first [match], [if] or bind of a hypothesis. *)
Ltac break_hyp H :=
  match type of H with
  | _ ≫= _ = Some _ => apply bind_Some in H as (? & ? & H)
  | context [match ?x with _ => _ end] => destruct x eqn:?
  end; simplify_eq/=.

(** Boolean comparisons of the source become inequalities. *)
Ltac to_prop :=
  repeat match goal with
  | H : (_ && _)%bool = true |- _ => apply andb_prop in H as [? ?]
  | H : (_ && _)%bool = false |- _ => apply andb_false_iff in H
  | H : (_ || _)%bool = true |- _ => apply orb_prop in H
  | H : (_ || _)%bool = false |- _ => apply orb_false_elim in H as [? ?]
  | H : negb _ = true |- _ => apply negb_true_iff in H
  | H : negb _ = false |- _ => apply negb_false_iff in H
  | H : (_ <=? _) = true |- _ => apply Z.leb_le in H
  | H : (_ <=? _) = false |- _ => apply Z.leb_gt in H
  | H : (_ <? _) = true |- _ => apply Z.ltb_lt in H
  | H : (_ <? _) = false |- _ => apply Z.ltb_ge in H
  | H : (_ =? _) = true |- _ => apply Z.eqb_eq in H
  | H : (_ =? _) = false |- _ => apply Z.eqb_neq in H
  | H : bool_decide _ = true |- _ => apply bool_decide_eq_true in H
  | H : bool_decide _ = false |- _ => apply bool_decide_eq_false in H
  end.

(** Side conditions of rewriting. *)
Ltac side := solve [done | lia | cbn; lia | eauto].

(** ** Lemmas on machine integers *)

Create HintDb kinet discriminated.
Create Rewrite HintDb kinet_len.

Lemma wrap_small (w x : Z) : 0 <= x < 2 ^ w -> wrap w x = x.
Proof. apply Z.mod_small. Qed.

Lemma wrap_bound (w x : Z) : 0 <= w -> 0 <= wrap w x < 2 ^ w.
Proof. intros ?. apply Z.mod_pos_bound, Z.pow_pos_nonneg; lia. Qed.

Lemma wrap64_small (x : Z) : 0 <= x <= u64_max -> wrap 64 x = x.
Proof. unfold u64_max. intros. apply wrap_small. lia. Qed.

Lemma sat_sub_le (a b : Z) : 0 <= a -> 0 <= b -> 0 <= sat_sub a b <= a.
Proof. unfold sat_sub. lia. Qed.

Lemma as_signed_inj w x y : 0 < w -> in_u w x -> in_u w y -> as_signed w x = as_signed w y -> x = y.
Proof.
  unfold in_u, as_signed. intros Hw Hx Hy. rewrite !Z.mod_small by done.
  assert (2 ^ w = 2 * 2 ^ (w - 1)) by (rewrite <-Z.pow_succ_r by lia; f_equal; lia).
  destruct (Z.ltb_spec x (2 ^ (w - 1))), (Z.ltb_spec y (2 ^ (w - 1))); lia.
Qed.

Lemma land_mask (n x : Z) : 0 <= n -> Z.land x (2 ^ n - 1) = x mod 2 ^ n.
Proof.
  intros Hn. rewrite <-Z.land_ones by done. f_equal.
  rewrite Z.ones_equiv. lia.
Qed.

Lemma is_power_of_two_spec (x : Z) :
  is_power_of_two x = true <-> exists n, 0 <= n /\ x = 2 ^ n.
Proof.
  unfold is_power_of_two. rewrite andb_true_iff, Z.ltb_lt, Z.eqb_eq. split.
  - intros [Hpos Hland]. exists (Z.log2 x). split; [apply Z.log2_nonneg|].
    destruct (Z.log2_spec x Hpos) as [Hlo Hhi].
    destruct (decide (x = 2 ^ Z.log2 x)) as [|Hne]; [done|exfalso].
    assert (Z.log2 (x - 1) = Z.log2 x) as Hlog.
    { apply Z.log2_unique; [apply Z.log2_nonneg|lia]. }
    assert (Z.testbit (Z.land x (x - 1)) (Z.log2 x) = true) as Hbit.
    { rewrite Z.land_spec, Z.bit_log2 by done.
      rewrite <-Hlog at 1. rewrite Z.bit_log2; [done|].
      pose proof (Z.pow_pos_nonneg 2 (Z.log2 x) ltac:(lia) (Z.log2_nonneg x)). lia. }
    rewrite Hland, Z.bits_0 in Hbit. done.
  - intros (n & Hn & ->).
    split; [apply Z.pow_pos_nonneg; lia|].
    rewrite land_mask by done. apply Z_mod_same_full.
Qed.

Lemma is_power_of_two_pos (x : Z) : is_power_of_two x = true -> 0 < x.
Proof. unfold is_power_of_two. intros H. to_prop. done. Qed.

(** A power of two that is at least eight is a multiple of eight. *)
Lemma power_of_two_mul8 (x : Z) :
  is_power_of_two x = true -> 8 <= x -> x mod 8 = 0.
Proof.
  intros (n & Hn & ->)%is_power_of_two_spec H8.
  assert (3 <= n) as H3.
  { destruct (decide (3 <= n)); [done|].
    assert (2 ^ n <= 2 ^ 2) by (apply Z.pow_le_mono_r; lia). lia. }
  replace n with ((n - 3) + 3) by lia.
  rewrite Z.pow_add_r by lia. apply Z.mod_mul. lia.
Qed.

(** ** Lemmas on little-endian words *)

Lemma length_le_bytes (n : nat) (x : Z) : length (le_bytes n x) = n.
Proof. revert x. induction n; intros; simpl; auto. Qed.

Lemma le_bytes_is_byte (n : nat) (x : Z) : Forall is_byte (le_bytes n x).
Proof.
  revert x. induction n; intros; simpl; constructor; auto.
  apply Z.mod_pos_bound. lia.
Qed.

Lemma le_word_bytes (n : nat) (x : Z) :
  le_word (le_bytes n x) = x mod 256 ^ Z.of_nat n.
Proof.
  revert x. induction n as [|n IH]; intros x; cbn [le_bytes le_word].
  - by rewrite Z.mod_1_r.
  - rewrite IH, Nat2Z.inj_succ, Z.pow_succ_r by lia.
    rewrite Z.rem_mul_r; [done|lia|]. apply Z.pow_pos_nonneg; lia.
Qed.

Lemma le_word_bytes64 (x : Z) : in_u 64 x -> le_word (le_bytes 8 x) = x.
Proof. intros H. rewrite le_word_bytes. apply Z.mod_small. apply H. Qed.

Lemma le_bytes_word (bs : list Z) :
  Forall is_byte bs -> le_bytes (length bs) (le_word bs) = bs.
Proof.
  unfold is_byte.
  induction 1 as [|b bs Hb _ IH]; cbn [le_word length le_bytes]; [done|].
  rewrite (Z.mul_comm 256), Z.mod_add, Z.div_add by lia.
  rewrite Z.mod_small, Z.div_small by done. rewrite Z.add_0_l, IH. done.
Qed.

Lemma le_word_bound (bs : list Z) :
  Forall is_byte bs -> 0 <= le_word bs < 256 ^ Z.of_nat (length bs).
Proof.
  unfold is_byte.
  induction 1 as [|b bs Hb _ IH]; cbn [le_word length]; [done|].
  rewrite Nat2Z.inj_succ, Z.pow_succ_r by lia. lia.
Qed.

#[export] Hint Resolve wrap_bound sat_sub_le le_bytes_is_byte : kinet.
#[export] Hint Rewrite length_le_bytes : kinet_len.

(** ** Lemmas on the monads *)

Lemma bind_ok {E A B} (m : result E A) (k : A -> result E B) (b : B) :
  m ≫= k = Ok b <-> exists a, m = Ok a /\ k a = Ok b.
Proof.
  destruct m as [a|e]; simpl; split.
  - eauto.
  - intros (? & ? & ?). by simplify_eq.
  - done.
  - by intros (? & ? & ?).
Qed.

Lemma stM_bind_ok {S E A B} (m : stM S E A) (k : A -> stM S E B) s b s' :
  (m ≫= k) s = (Ok b, s') <-> exists a s1, m s = (Ok a, s1) /\ k a s1 = (Ok b, s').
Proof.
  unfold mbind, stM_mbind. destruct (m s) as [[a|e] s1]; split.
  - eauto.
  - intros (? & ? & ? & ?). by simplify_eq.
  - done.
  - by intros (? & ? & ? & ?).
Qed.

Lemma stM_bind_err {S E A B} (m : stM S E A) (k : A -> stM S E B) s e s' :
  (m ≫= k) s = (Err e, s') <->
    m s = (Err e, s') \/ exists a s1, m s = (Ok a, s1) /\ k a s1 = (Err e, s').
Proof.
  unfold mbind, stM_mbind. destruct (m s) as [[a|e'] s1]; split.
  - eauto.
  - intros [?|(? & ? & ? & ?)]; by simplify_eq.
  - intros ?. simplify_eq. auto.
  - intros [?|(? & ? & ? & ?)]; by simplify_eq.
Qed.
