(* ===== verification/RingMem.v ===== *)
(** * Memory of the ring buffer

    The shared memory of [mpscbuf]: the errors of the crate (src/mpscbuf/src/error.rs),
    the double mapping of the data area (src/mpscbuf/src/memory.rs), the record
    header word (src/mpscbuf/src/common.rs) and byte and word accesses to the
    data area through the double mapping. *)

From S2P Require Import Prelude.

(** ** Errors *)

Inductive MpscBufError :=
| SizeTooSmall (page_size : Z)
| SizeNotAligned (data_size : Z)
| MmapFailed (errno : Z)
| MprotectFailed (errno : Z)
| InsufficientSpace (prod_pos cons_pos mask : Z)
| InvalidRecordSize (size : Z)
| EventfdCreation (message : string)
| EventfdWrite (message : string)
| EventfdRead (message : string)
| IoError (errno : Z)
| LockTimeout.

(** ** The mapping *)

Module Memory.

(** One [mmap] with [MAP_SHARED | MAP_FIXED]. *)
Record mapping := Mapping {
  map_addr : Z;
  map_len : Z;
  map_fd : Z;
  map_off : Z
}.

(** The system calls [Memory::new] and [Memory::from_fd] make: their results are
    the kernel's, so they are data of the model. *)
Record Os := {
  os_page_size : Z;
  os_memfd_create : option Z;
  os_ftruncate : Z -> Z -> bool;
  os_mmap_anonymous : Z -> option Z;
  os_mmap_fixed : Z -> Z -> Z -> Z -> bool
}.

Definition ENOMEM : Z := 12.

Definition EINVAL : Z := 22.

Record Memory := mkMemory {
  ptr : Z;
  data_size : Z;
  page_size : Z;
  fd : Z;
  (** the address space the two [mmap] calls leave behind, newest first *)
  mappings : list mapping
}.

Definition from_fd (os : Os) (fd data_size : Z) : result MpscBufError Memory :=
  let page_size := os_page_size os in
  if negb (is_power_of_two data_size) then Err (SizeNotAligned data_size)
  else if data_size <? page_size then Err (SizeTooSmall page_size)
  else
    let total_size := data_size +64 page_size in
    let total_virtual_size := page_size +64 (2 *64 data_size) in
    match os_mmap_anonymous os total_virtual_size with
    | None => Err (MmapFailed ENOMEM)
    | Some ptr =>
        if negb (os_mmap_fixed os ptr total_size fd 0) then Err (MmapFailed EINVAL)
        else if negb (os_mmap_fixed os (ptr +64 total_size) data_size fd page_size)
        then Err (MmapFailed EINVAL)
        else Ok {| ptr := ptr; data_size := data_size; page_size := page_size; fd := fd;
                   mappings :=
                     [ Mapping (ptr +64 total_size) data_size fd page_size;
                       Mapping ptr total_size fd 0 ] |}
    end.

Definition new (os : Os) (data_size : Z) : result MpscBufError Memory :=
  let page_size := os_page_size os in
  if negb (is_power_of_two data_size) then Err (SizeNotAligned data_size)
  else if data_size <? page_size then Err (SizeTooSmall page_size)
  else
    let total_size := data_size +64 page_size in
    match os_memfd_create os with
    | None => Err (MmapFailed ENOMEM)
    | Some fd =>
        if negb (os_ftruncate os fd total_size) then Err (MmapFailed EINVAL)
        else from_fd os fd data_size
    end.

Definition metadata_ptr (m : Memory) : Z := ptr m.

Definition data_ptr (m : Memory) : Z := ptr m +64 page_size m.

(** The range [Drop] unmaps: address and length. *)
Definition drop_range (m : Memory) : Z * Z :=
  (ptr m, page_size m +64 (2 *64 data_size m)).

(** The file byte an address refers to: the newest mapping that contains it. *)
Fixpoint resolve (ms : list mapping) (a : Z) : option (Z * Z) :=
  match ms with
  | [] => None
  | m :: ms =>
      if (map_addr m <=? a) && (a <? map_addr m + map_len m)
      then Some (map_fd m, map_off m + (a - map_addr m))
      else resolve ms a
  end.

End Memory.

(** ** The record header *)

Module RecordHeader.

Definition BUSY_FLAG : Z := Z.shiftl 1 31.

Definition DISCARD_FLAG : Z := Z.shiftl 1 30.

Definition HEADER_SIZE : Z := 8.

(** [new], [discard] and [commit] give the word that is stored; the argument of
    the last two is the word they load. *)
Definition new (len : Z) : Z := Z.lor len (Z.shiftl BUSY_FLAG 32).

Definition discard (current : Z) : Z :=
  let len := wrap 32 current in Z.lor len (Z.shiftl DISCARD_FLAG 32).

Definition commit (current : Z) : Z := wrap 32 current.

Definition is_discarded (current : Z) : bool :=
  let flags := wrap 32 (Z.shiftr current 32) in
  negb (Z.land flags DISCARD_FLAG =? 0).

Definition len_and_flags (current : Z) : Z * Z :=
  (wrap 32 current, wrap 32 (Z.shiftr current 32)).

End RecordHeader.

(** ** Accesses to the data area

    An access at [data_ptr + v] touches data byte [v mod data_size]
    ([Memory_double_mapping] below), so the data area is a map from offsets in
    [0, data_size) to bytes; a fresh memfd reads as zeros. *)

Definition phys (D v : Z) : Z := v mod D.

Definition byte_at (m : gmap Z Z) (o : Z) : Z := default 0 (m !! o).

Fixpoint store_bytes (D : Z) (m : gmap Z Z) (v : Z) (bs : list Z) : gmap Z Z :=
  match bs with
  | [] => m
  | b :: bs => store_bytes D (<[phys D v := b]> m) (v + 1) bs
  end.

Fixpoint load_bytes (D : Z) (m : gmap Z Z) (v : Z) (n : nat) : list Z :=
  match n with
  | O => []
  | S n => byte_at m (phys D v) :: load_bytes D m (v + 1) n
  end.

Definition load64 (D : Z) (m : gmap Z Z) (v : Z) : Z := le_word (load_bytes D m v 8).

Definition store64 (D : Z) (m : gmap Z Z) (v x : Z) : gmap Z Z :=
  store_bytes D m v (le_bytes 8 x).

(** ** Lemmas on the mapping *)

Lemma resolve_cons_in ms (mp : Memory.mapping) a :
  Memory.map_addr mp <= a < Memory.map_addr mp + Memory.map_len mp ->
  Memory.resolve (mp :: ms) a =
    Some (Memory.map_fd mp, Memory.map_off mp + (a - Memory.map_addr mp)).
Proof.
  intros [H1 H2]. cbn [Memory.resolve].
  apply Z.leb_le in H1. apply Z.ltb_lt in H2. by rewrite H1, H2.
Qed.

Lemma resolve_cons_out ms (mp : Memory.mapping) a :
  a < Memory.map_addr mp \/ Memory.map_addr mp + Memory.map_len mp <= a ->
  Memory.resolve (mp :: ms) a = Memory.resolve ms a.
Proof.
  intros H. cbn [Memory.resolve].
  destruct ((_ <=? a) && (a <? _)) eqn:E; [|done]. to_prop. lia.
Qed.

Lemma from_fd_ok os fd D m :
  Memory.from_fd os fd D = Ok m ->
  is_power_of_two D = true /\ Memory.os_page_size os <= D /\
  Memory.data_size m = D /\ Memory.page_size m = Memory.os_page_size os /\
  Memory.fd m = fd /\
  Memory.mappings m =
    [ Memory.Mapping (Memory.ptr m +64 (D +64 Memory.os_page_size os)) D fd (Memory.os_page_size os);
      Memory.Mapping (Memory.ptr m) (D +64 Memory.os_page_size os) fd 0 ].
Proof.
  unfold Memory.from_fd. intros H.
  repeat break_hyp H. to_prop. by subst.
Qed.

(** The layout of a mapped memory that does not wrap around the address space. *)
Lemma from_fd_resolve os fd D m :
  Memory.from_fd os fd D = Ok m ->
  0 < Memory.os_page_size os ->
  0 <= Memory.ptr m ->
  Memory.ptr m + Memory.os_page_size os + 2 * D <= u64_max ->
  (forall v, 0 <= v < Memory.os_page_size os ->
    Memory.resolve (Memory.mappings m) (Memory.metadata_ptr m + v) = Some (fd, v)) /\
  (forall v, 0 <= v < 2 * D ->
    Memory.resolve (Memory.mappings m) (Memory.data_ptr m + v)
    = Some (fd, Memory.os_page_size os + phys D v)).
Proof.
  intros (Hpow & Hpg & HD & Hps & Hfd & Hms)%from_fd_ok Hpage Hptr Htop.
  unfold Memory.metadata_ptr, Memory.data_ptr, phys.
  rewrite Hms, Hps, !wrap64_small by (rewrite ?wrap64_small; lia). split; intros v Hv.
  - rewrite resolve_cons_out, resolve_cons_in by (simpl; lia).
    simpl. do 2 f_equal. lia.
  - destruct (decide (v < D)) as [Hlt|Hge].
    + rewrite resolve_cons_out, resolve_cons_in by (simpl; lia).
      simpl. rewrite Z.mod_small by lia. do 2 f_equal. lia.
    + rewrite resolve_cons_in by (simpl; lia).
      simpl. replace (v mod D) with (v - D) by (apply (Z.mod_unique_pos _ _ 1); lia).
      do 2 f_equal. lia.
Qed.

(** ** Lemmas on accesses *)

Lemma phys_bound D v : 0 < D -> 0 <= phys D v < D.
Proof. intros. by apply Z.mod_pos_bound. Qed.

Lemma phys_idemp D v k : phys D (phys D v + k) = phys D (v + k).
Proof. unfold phys. apply Zplus_mod_idemp_l. Qed.

(** Positions less than a buffer apart are different bytes. *)
Lemma phys_inj D a b : 0 < D -> - D < a - b < D -> phys D a = phys D b -> a = b.
Proof.
  unfold phys. intros HD Hab Heq.
  rewrite (Z.div_mod a D), (Z.div_mod b D) in Hab |- * by lia.
  rewrite Heq in Hab |- *.
  assert (a / D = b / D) as ->; [|done]. nia.
Qed.

Lemma byte_at_insert_ne m o o' b : o <> o' -> byte_at (<[o := b]> m) o' = byte_at m o'.
Proof. intros. unfold byte_at. by rewrite lookup_insert_ne. Qed.

Lemma byte_at_insert_eq m o b : byte_at (<[o := b]> m) o = b.
Proof. unfold byte_at. by rewrite lookup_insert_eq. Qed.

Lemma length_load_bytes D m v n : length (load_bytes D m v n) = n.
Proof. revert v. induction n; intros; simpl; auto. Qed.

Lemma load_bytes_ext D m m' v n :
  (forall i, 0 <= i < Z.of_nat n -> byte_at m' (phys D (v + i)) = byte_at m (phys D (v + i))) ->
  load_bytes D m' v n = load_bytes D m v n.
Proof.
  revert v. induction n as [|n IH]; intros v H; [done|].
  cbn [load_bytes]. f_equal.
  - specialize (H 0). rewrite Z.add_0_r in H. apply H. lia.
  - apply IH. intros i Hi. replace (v + 1 + i) with (v + (i + 1)) by lia.
    apply H. lia.
Qed.

(** A store changes only the bytes of its range. *)
Lemma byte_at_store_ne D m v bs o :
  (forall j, 0 <= j < Z.of_nat (length bs) -> phys D (v + j) <> o) ->
  byte_at (store_bytes D m v bs) o = byte_at m o.
Proof.
  revert m v. induction bs as [|b bs IH]; intros m v H; [done|].
  cbn [store_bytes]. rewrite IH.
  - apply byte_at_insert_ne. specialize (H 0). rewrite Z.add_0_r in H.
    apply H. simpl. lia.
  - intros j Hj. replace (v + 1 + j) with (v + (j + 1)) by lia. apply H.
    simpl. lia.
Qed.

(** Two ranges of the positions of one window of at most [D] bytes do not
    interfere when they are disjoint. *)
Lemma load_store_disjoint D m a n v bs :
  0 < D ->
  (a + Z.of_nat n <= v /\ v + Z.of_nat (length bs) <= a + D) \/
  (v + Z.of_nat (length bs) <= a /\ a + Z.of_nat n <= v + D) ->
  load_bytes D (store_bytes D m v bs) a n = load_bytes D m a n.
Proof.
  intros HD Hdisj. apply load_bytes_ext. intros i Hi.
  apply byte_at_store_ne. intros j Hj Heq.
  apply phys_inj in Heq; lia.
Qed.

Lemma load_store_same D m v bs :
  0 < D -> Z.of_nat (length bs) <= D ->
  load_bytes D (store_bytes D m v bs) v (length bs) = bs.
Proof.
  intros HD. revert m v. induction bs as [|b bs IH]; intros m v Hlen; [done|].
  cbn [store_bytes length load_bytes] in *. f_equal.
  - rewrite byte_at_store_ne; [apply byte_at_insert_eq|].
    intros j Hj Heq. apply phys_inj in Heq; lia.
  - apply IH. lia.
Qed.

Lemma load_bytes_app D m v n k :
  load_bytes D m v (n + k) = load_bytes D m v n ++ load_bytes D m (v + Z.of_nat n) k.
Proof.
  revert v. induction n as [|n IH]; intros v; cbn [load_bytes Nat.add].
  - simpl. by rewrite Z.add_0_r.
  - rewrite IH. simpl. do 3 f_equal. lia.
Qed.

Lemma store_bytes_app D m v bs bs' :
  store_bytes D m v (bs ++ bs') =
  store_bytes D (store_bytes D m v bs) (v + Z.of_nat (length bs)) bs'.
Proof.
  revert m v. induction bs as [|b bs IH]; intros m v; cbn [store_bytes length app].
  - by rewrite Z.add_0_r.
  - rewrite IH. f_equal. lia.
Qed.

(** Accesses through the offset [v mod D] of the source are accesses at [v]. *)
Lemma load_bytes_phys D m v k n :
  load_bytes D m (phys D v + k) n = load_bytes D m (v + k) n.
Proof.
  revert k. induction n as [|n IH]; intros k; cbn [load_bytes]; [done|].
  rewrite phys_idemp, <-!Z.add_assoc, IH. done.
Qed.

Lemma store_bytes_phys D m v k bs :
  store_bytes D m (phys D v + k) bs = store_bytes D m (v + k) bs.
Proof.
  revert m k. induction bs as [|b bs IH]; intros m k; cbn [store_bytes]; [done|].
  rewrite phys_idemp, <-!Z.add_assoc, IH. done.
Qed.

Lemma load64_store64 D m v x :
  8 <= D -> in_u 64 x -> load64 D (store64 D m v x) v = x.
Proof.
  intros HD Hx. unfold load64, store64.
  replace 8%nat with (length (le_bytes 8 x)) at 2 by apply length_le_bytes.
  rewrite load_store_same by (rewrite ?length_le_bytes; lia).
  by apply le_word_bytes64.
Qed.

(** ** Lemmas on the header word *)

Lemma lor_high (len flags : Z) :
  in_u 32 len -> 0 <= flags -> Z.lor len (Z.shiftl flags 32) = len + flags * 2 ^ 32.
Proof.
  intros Hlen Hf. rewrite <-Z.shiftl_mul_pow2 by lia.
  rewrite Z.add_nocarry_lxor, Z.lxor_lor; [done| |]; apply Z.bits_inj'; intros i Hi;
    rewrite Z.land_spec, Z.bits_0; destruct (decide (i < 32)).
  1, 3: by rewrite Z.shiftl_spec_low, andb_false_r by done.
  all: assert (Z.testbit len i = false) as ->; [|done];
    destruct (decide (len = 0)) as [->|]; [apply Z.bits_0|];
    apply Z.bits_above_log2; [apply Hlen|];
    apply Z.log2_lt_pow2; [unfold in_u in Hlen; lia|];
    apply Z.lt_le_trans with (2 ^ 32); [apply Hlen|apply Z.pow_le_mono_r; lia].
Qed.

Lemma word_low (len flags : Z) : in_u 32 len -> wrap 32 (len + flags * 2 ^ 32) = len.
Proof. intros H. unfold wrap. rewrite Z.mod_add by lia. by apply Z.mod_small. Qed.

Lemma word_high (len flags : Z) :
  in_u 32 len -> in_u 32 flags -> wrap 32 (Z.shiftr (len + flags * 2 ^ 32) 32) = flags.
Proof.
  intros H Hf. unfold wrap. rewrite Z.shiftr_div_pow2, Z.div_add by lia.
  rewrite Z.div_small by done. by apply Z.mod_small.
Qed.

(** The three words a record header goes through, with the length they carry. *)
Inductive record_status := Busy | Committed | Discarded.

#[export] Instance record_status_eq_dec : EqDecision record_status.
Proof. solve_decision. Defined.

Definition status_flags (st : record_status) : Z :=
  match st with
  | Busy => RecordHeader.BUSY_FLAG
  | Committed => 0
  | Discarded => RecordHeader.DISCARD_FLAG
  end.

Definition header_word (len : Z) (st : record_status) : Z :=
  len + status_flags st * 2 ^ 32.

Lemma status_flags_u32 st : in_u 32 (status_flags st).
Proof. by destruct st. Qed.

Lemma header_word_u64 len st : in_u 32 len -> in_u 64 (header_word len st).
Proof.
  unfold header_word, in_u. intros H. pose proof (status_flags_u32 st) as Hf.
  unfold in_u in Hf. lia.
Qed.

Lemma header_new len : in_u 32 len -> RecordHeader.new len = header_word len Busy.
Proof. intros H. by apply lor_high. Qed.

Lemma header_commit len st : in_u 32 len -> RecordHeader.commit (header_word len st) = header_word len Committed.
Proof.
  intros H. unfold RecordHeader.commit, header_word. rewrite word_low by done. simpl. lia.
Qed.

Lemma header_discard len st : in_u 32 len -> RecordHeader.discard (header_word len st) = header_word len Discarded.
Proof.
  intros H. unfold RecordHeader.discard, header_word. rewrite word_low by done.
  by apply lor_high.
Qed.

Lemma header_len_and_flags len st :
  in_u 32 len -> RecordHeader.len_and_flags (header_word len st) = (len, status_flags st).
Proof.
  intros H. unfold RecordHeader.len_and_flags, header_word.
  rewrite word_low, word_high by (done || apply status_flags_u32). done.
Qed.

Lemma header_is_discarded len st :
  in_u 32 len -> RecordHeader.is_discarded (header_word len st) = bool_decide (st = Discarded).
Proof.
  intros H. unfold RecordHeader.is_discarded, header_word.
  rewrite word_high by (done || apply status_flags_u32). by destruct st.
Qed.

#[export] Hint Resolve header_word_u64 status_flags_u32 phys_bound : kinet.
#[export] Hint Rewrite length_load_bytes : kinet_len.

Lemma load64_phys D m v : load64 D m (phys D v) = load64 D m v.
Proof.
  unfold load64. f_equal. rewrite <-(Z.add_0_r (phys D v)), load_bytes_phys. f_equal. lia.
Qed.

Lemma store64_phys D m v x : store64 D m (phys D v) x = store64 D m v x.
Proof.
  unfold store64. rewrite <-(Z.add_0_r (phys D v)), store_bytes_phys. f_equal. lia.
Qed.

(** Rewriting part of a range. *)
Lemma load_store_within D m v n i b :
  0 < D -> Z.of_nat n <= D -> (i < n)%nat ->
  load_bytes D (store_bytes D m (v + Z.of_nat i) [b]) v n = <[i := b]> (load_bytes D m v n).
Proof.
  intros HD Hn Hi.
  replace n with (i + (1 + (n - S i)))%nat by lia.
  rewrite !load_bytes_app.
  rewrite insert_app_r_alt by (rewrite length_load_bytes; lia).
  rewrite length_load_bytes, Nat.sub_diag.
  rewrite (load_store_disjoint D m v), (load_store_disjoint D m (v + Z.of_nat i + Z.of_nat 1))
    by (cbn [length]; lia).
  f_equal. pose proof (load_store_same D m (v + Z.of_nat i) [b] HD) as Hsame.
  cbn [length] in Hsame. rewrite Hsame by lia. done.
Qed.

#[global] Arguments store_bytes : simpl never.
#[global] Arguments load_bytes : simpl never.
