(* ===== verification/RingSpec.v ===== *)
(** * What the ring buffer promises: a queue of records

    The abstract contract of [mpscbuf] (the crate documentation in
    src/mpscbuf/src/lib.rs): records are reserved at the tail, filled by their
    owner, committed or discarded, and delivered at the head, in reservation
    order.  [RingSystem] shows that the interleaved code implements it. *)

From S2P Require Import Prelude RingMem.

(** One record of the queue: who reserved it, its payload so far, its status. *)
Record slot := Slot {
  sl_owner : nat;
  sl_data : list Z;
  sl_status : record_status
}.

(** [q_gone] are the records behind the consumer position, [q_live] those in
    front of it; [q_held] tells that the consumer holds the first of them. *)
Record queue := Queue {
  q_gone : list slot;
  q_live : list slot;
  q_held : bool
}.

Definition empty_queue : queue := Queue [] [] false.

(** The events of a run: what producers and the consumer do to the queue. *)
Inductive label :=
| LReserve (t : nat) (d : list Z)
| LWrite (t : nat) (i : nat) (b : Z)
| LCommit (t : nat)
| LDiscard (t : nat)
| LDeliver (d : list Z)
| LRelease
| LSkip
| LTau.

Definition owned_busy (t : nat) (s : slot) : bool :=
  bool_decide (sl_status s = Busy) && Nat.eqb (sl_owner s) t.

(** Update the record [t] is filling. *)
Fixpoint update_busy (t : nat) (f : slot -> slot) (l : list slot) : option (list slot) :=
  match l with
  | [] => None
  | s :: l =>
      if owned_busy t s then Some (f s :: l)
      else l' ← update_busy t f l; Some (s :: l')
  end.

Definition set_status (st : record_status) (s : slot) : slot :=
  Slot (sl_owner s) (sl_data s) st.

Definition set_byte (i : nat) (b : Z) (s : slot) : slot :=
  Slot (sl_owner s) (<[i := b]> (sl_data s)) (sl_status s).

(** The queue after one event; [None] when the contract does not allow it. *)
Definition spec_step (q : queue) (l : label) : option queue :=
  match l with
  | LReserve t d =>
      if existsb (owned_busy t) (q_live q) then None
      else Some (Queue (q_gone q) (q_live q ++ [Slot t d Busy]) (q_held q))
  | LWrite t i b =>
      live ← update_busy t (set_byte i b) (q_live q);
      Some (Queue (q_gone q) live (q_held q))
  | LCommit t =>
      live ← update_busy t (set_status Committed) (q_live q);
      Some (Queue (q_gone q) live (q_held q))
  | LDiscard t =>
      live ← update_busy t (set_status Discarded) (q_live q);
      Some (Queue (q_gone q) live (q_held q))
  | LDeliver d =>
      match q_held q, q_live q with
      | false, s :: _ =>
          if bool_decide (sl_status s = Committed) && bool_decide (sl_data s = d)
          then Some (Queue (q_gone q) (q_live q) true) else None
      | _, _ => None
      end
  | LRelease =>
      match q_held q, q_live q with
      | true, s :: live => Some (Queue (q_gone q ++ [s]) live false)
      | _, _ => None
      end
  | LSkip =>
      match q_held q, q_live q with
      | false, s :: live =>
          if bool_decide (sl_status s = Discarded)
          then Some (Queue (q_gone q ++ [s]) live false) else None
      | _, _ => None
      end
  | LTau => Some q
  end.

(** The queue after a sequence of events. *)
Fixpoint replay (q : queue) (tr : list label) : option queue :=
  match tr with
  | [] => Some q
  | l :: tr => q' ← spec_step q l; replay q' tr
  end.

(** The payloads the consumer received, the owners in reservation order. *)
Definition deliveries (tr : list label) : list (list Z) :=
  omap (fun l => match l with LDeliver d => Some d | _ => None end) tr.

Definition reservations (tr : list label) : list nat :=
  omap (fun l => match l with LReserve t _ => Some t | _ => None end) tr.

(** The bytes of a record in the ring: its header and payload, rounded up. *)
Definition span (len : Z) : Z := (8 + len + 7) / 8 * 8.

Definition slot_span (s : slot) : Z := span (Z.of_nat (length (sl_data s))).

Fixpoint spans (l : list slot) : Z :=
  match l with
  | [] => 0
  | s :: l => slot_span s + spans l
  end.

Definition reserved_bytes (tr : list label) : Z :=
  foldr (fun l n => match l with
                    | LReserve _ d => span (Z.of_nat (length d)) + n
                    | _ => n
                    end) 0 tr.

Definition committed (l : list slot) : list (list Z) :=
  map sl_data (filter (fun s => sl_status s = Committed) l).

(** The records the consumer has got hold of, in order. *)
Definition received (q : queue) : list slot :=
  q_gone q ++ (if q_held q then take 1 (q_live q) else []).

(** ** Lemmas on spans *)

Lemma span_bounds len : 0 <= len -> 8 + len <= span len < 8 + len + 8.
Proof.
  intros H. unfold span. pose proof (Z.div_mod (8 + len + 7) 8). pose proof (Z.mod_pos_bound (8 + len + 7) 8). lia.
Qed.

Lemma slot_span_bounds s :
  8 + Z.of_nat (length (sl_data s)) <= slot_span s < 16 + Z.of_nat (length (sl_data s)).
Proof. unfold slot_span. pose proof (span_bounds (Z.of_nat (length (sl_data s)))). lia. Qed.

Lemma spans_nonneg l : 0 <= spans l.
Proof.
  induction l as [|s l IH]; simpl; [lia|].
  pose proof (slot_span_bounds s). lia.
Qed.

Lemma spans_mul8 l : (8 | spans l).
Proof.
  induction l as [|s l IH]; simpl; [by exists 0|].
  apply Z.divide_add_r; [|done]. unfold slot_span, span. apply Z.divide_factor_r.
Qed.

Lemma spans_app l l' : spans (l ++ l') = spans l + spans l'.
Proof. induction l; simpl; lia. Qed.

(** The records in front of the [i]-th. *)
Lemma spans_take_S l i s :
  l !! i = Some s -> spans (take (S i) l) = spans (take i l) + slot_span s.
Proof. intros H. rewrite (take_S_r _ _ s), spans_app by done. simpl. lia. Qed.

Lemma spans_take_le l i j : (i <= j)%nat -> spans (take i l) <= spans (take j l).
Proof.
  intros Hij. rewrite <-(take_drop i (take j l)), spans_app, take_take, Nat.min_l by done.
  pose proof (spans_nonneg (drop i (take j l))). lia.
Qed.

Lemma spans_take_total l i : spans (take i l) <= spans l.
Proof.
  rewrite <-(take_drop i l) at 2. rewrite spans_app. pose proof (spans_nonneg (drop i l)). lia.
Qed.

Lemma spans_take_lt l i j s :
  l !! i = Some s -> (i < j)%nat -> spans (take i l) + slot_span s <= spans (take j l).
Proof. intros H Hij. rewrite <-(spans_take_S l i s) by done. by apply spans_take_le. Qed.

Lemma spans_slot l i s :
  l !! i = Some s -> 0 <= spans (take i l) /\ spans (take i l) + slot_span s <= spans l.
Proof.
  intros H. pose proof (spans_nonneg (take i l)).
  rewrite <-(spans_take_S l i s) by done. pose proof (spans_take_total l (S i)). lia.
Qed.

Lemma spans_take_inj l i j s s' :
  l !! i = Some s -> l !! j = Some s' -> spans (take i l) = spans (take j l) -> i = j.
Proof.
  intros Hi Hj Heq. pose proof (slot_span_bounds s). pose proof (slot_span_bounds s').
  destruct (Nat.lt_trichotomy i j) as [Hlt|[|Hlt]]; [|done|].
  - pose proof (spans_take_lt _ _ _ _ Hi Hlt). lia.
  - pose proof (spans_take_lt _ _ _ _ Hj Hlt). lia.
Qed.

(** Replacing a record by one of the same length moves no other. *)
Lemma spans_insert l i s s' :
  l !! i = Some s -> slot_span s' = slot_span s -> spans (<[i := s']> l) = spans l.
Proof.
  revert i. induction l as [|x l IH]; intros [|i] H Hs; simplify_eq/=; [by rewrite Hs|].
  f_equal. eauto.
Qed.

Lemma spans_take_insert l i j s s' :
  l !! i = Some s -> slot_span s' = slot_span s ->
  spans (take j (<[i := s']> l)) = spans (take j l).
Proof.
  intros H Hs. destruct (decide (i < j)%nat).
  - rewrite take_insert_lt by done. eapply spans_insert; [|done].
    by rewrite lookup_take_lt.
  - rewrite take_insert_ge by lia. done.
Qed.

Lemma reserved_bytes_app tr tr' :
  reserved_bytes (tr ++ tr') = reserved_bytes tr + reserved_bytes tr'.
Proof. induction tr as [|[] tr IH]; simpl; lia. Qed.

Lemma reserved_bytes_nonneg tr : 0 <= reserved_bytes tr.
Proof.
  induction tr as [|[] tr IH]; simpl; try lia.
  pose proof (span_bounds (Z.of_nat (length d))). lia.
Qed.

(** ** Lemmas on the queue *)

Lemma owned_busy_spec t s :
  owned_busy t s = true <-> sl_status s = Busy /\ sl_owner s = t.
Proof.
  unfold owned_busy. rewrite andb_true_iff, bool_decide_eq_true, Nat.eqb_eq. done.
Qed.

(** [update_busy] changes one record, the first [t] is filling. *)
Lemma update_busy_some t f l l' :
  update_busy t f l = Some l' ->
  exists l1 s l2, l = l1 ++ s :: l2 /\ l' = l1 ++ f s :: l2 /\
    owned_busy t s = true /\ Forall (fun s => owned_busy t s = false) l1.
Proof.
  revert l'. induction l as [|s l IH]; intros l' H; [done|].
  cbn [update_busy] in H. destruct (owned_busy t s) eqn:E.
  - simplify_eq. by exists [], s, l.
  - destruct (update_busy t f l) as [l''|]; [|done]. simplify_eq/=.
    destruct (IH l'' eq_refl) as (l1 & s' & l2 & -> & -> & Hs' & Hl1).
    exists (s :: l1), s', l2. auto.
Qed.

Lemma update_busy_app t f l1 s l2 :
  Forall (fun s => owned_busy t s = false) l1 -> owned_busy t s = true ->
  update_busy t f (l1 ++ s :: l2) = Some (l1 ++ f s :: l2).
Proof.
  intros Hl1 Hs. induction Hl1 as [|s' l1 Hs' _ IH]; simpl.
  - by rewrite Hs.
  - by rewrite Hs', IH.
Qed.

(** The same with the record given by its index. *)
Lemma update_busy_lookup t f l i s :
  l !! i = Some s -> owned_busy t s = true ->
  (forall j s', l !! j = Some s' -> owned_busy t s' = true -> j = i) ->
  update_busy t f l = Some (<[i := f s]> l).
Proof.
  intros Hi Hs Huniq. rewrite <-(take_drop_middle l i s Hi) at 1.
  assert (i < length l)%nat as Hlt by by eapply lookup_lt_Some.
  rewrite update_busy_app; [|apply Forall_lookup; intros j s' Hj|done].
  - rewrite insert_take_drop by done. done.
  - apply lookup_take_Some in Hj as [Hj Hjlt]. apply not_true_iff_false.
    intros Hs'. specialize (Huniq j s' Hj Hs'). lia.
Qed.

Lemma replay_app q tr tr' :
  replay q (tr ++ tr') = (q' ← replay q tr; replay q' tr').
Proof.
  revert q. induction tr as [|l tr IH]; intros q; simpl; [done|].
  destruct (spec_step q l); simpl; [apply IH|done].
Qed.

Lemma committed_app l l' : committed (l ++ l') = committed l ++ committed l'.
Proof. unfold committed. by rewrite filter_app, map_app. Qed.

(** A held record is a committed one. *)
Definition wf_queue (q : queue) : Prop :=
  q_held q = true -> exists s live, q_live q = s :: live /\ sl_status s = Committed.

Lemma wf_received q s live :
  wf_queue q -> q_live q = s :: live -> q_held q = true -> sl_status s = Committed.
Proof. intros H Hl Hh. destruct (H Hh) as (s' & live' & ? & ?). congruence. Qed.

(** An update of a record that is being filled concerns no received record. *)
Lemma update_busy_wf t f q live :
  wf_queue q -> update_busy t f (q_live q) = Some live ->
  wf_queue (Queue (q_gone q) live (q_held q)) /\
  received (Queue (q_gone q) live (q_held q)) = received q.
Proof.
  intros Hwf Hup. apply update_busy_some in Hup as (l1 & s & l2 & Hl & -> & Hs & _).
  apply owned_busy_spec in Hs as [Hbusy _].
  unfold wf_queue, received in *. simpl. destruct (q_held q); [|done].
  destruct (Hwf eq_refl) as (s' & live' & Hl' & Hs'). rewrite Hl' in Hl |- *.
  destruct l1 as [|s1 l1]; simplify_eq/=; [congruence|]. eauto.
Qed.

(** What one event does to the received records. *)
Lemma spec_step_received q l q' :
  wf_queue q -> spec_step q l = Some q' ->
  wf_queue q' /\ committed (received q') = committed (received q) ++ deliveries [l].
Proof.
  intros Hwf H. destruct q as [gone live held].
  assert (forall t f live', update_busy t f live = Some live' ->
    wf_queue (Queue gone live' held) /\
    committed (received (Queue gone live' held))
      = committed (received (Queue gone live held)) ++ []) as Hupd.
  { intros t f live' Hup. destruct (update_busy_wf t f _ _ Hwf Hup) as [? Hr].
    simpl in Hr. by rewrite Hr, app_nil_r. }
  destruct l; cbn [spec_step q_live q_gone q_held] in H; simpl deliveries.
  - destruct (existsb _ _); simplify_eq. rewrite app_nil_r.
    unfold wf_queue, received in *. destruct held; [|done].
    destruct (Hwf eq_refl) as (s & l & ? & ?). simplify_eq/=. eauto.
  - destruct (update_busy _ _ _) eqn:E; simplify_eq/=; eauto.
  - destruct (update_busy _ _ _) eqn:E; simplify_eq/=; eauto.
  - destruct (update_busy _ _ _) eqn:E; simplify_eq/=; eauto.
  - destruct held, live as [|s live]; simplify_eq.
    destruct (_ && _) eqn:E; simplify_eq. to_prop. subst. split.
    + intros _. eauto.
    + unfold received. simpl. rewrite app_nil_r, committed_app. f_equal.
      unfold committed. by rewrite filter_cons_True.
  - destruct held, live as [|s live]; simplify_eq. split; [done|].
    unfold received. simpl. by rewrite !app_nil_r.
  - destruct held, live as [|s live]; simplify_eq.
    destruct (bool_decide _) eqn:E; simplify_eq. to_prop. split; [done|].
    unfold received. simpl. rewrite !app_nil_r, committed_app.
    unfold committed. rewrite filter_cons_False by (rewrite E; done).
    by rewrite app_nil_r.
  - simplify_eq. by rewrite app_nil_r.
Qed.

Lemma replay_received q tr q' :
  wf_queue q -> replay q tr = Some q' ->
  wf_queue q' /\ committed (received q') = committed (received q) ++ deliveries tr.
Proof.
  revert q. induction tr as [|l tr IH]; intros q Hwf H; simpl in H.
  - simplify_eq. simpl. by rewrite app_nil_r.
  - destruct (spec_step q l) as [q1|] eqn:E; [|done].
    destruct (spec_step_received q l q1 Hwf E) as [Hwf1 Hc1].
    destruct (IH q1 Hwf1 H) as [Hwf' Hc']. split; [done|].
    rewrite Hc', Hc1, <-app_assoc. f_equal. by destruct l.
Qed.

(** Records never change owner or place. *)
Lemma spec_step_owners q l q' :
  spec_step q l = Some q' ->
  map sl_owner (q_gone q' ++ q_live q') =
  map sl_owner (q_gone q ++ q_live q) ++ reservations [l].
Proof.
  destruct q as [gone live held]. intros H.
  assert (forall t f live', update_busy t f live = Some live' ->
    (forall s, sl_owner (f s) = sl_owner s) ->
    map sl_owner (gone ++ live') = map sl_owner (gone ++ live) ++ []) as Hupd.
  { intros t f live' (l1 & s & l2 & -> & -> & _)%update_busy_some Hf.
    rewrite app_nil_r, !map_app. simpl. by rewrite Hf. }
  destruct l; cbn [spec_step q_live q_gone q_held] in H; simpl reservations;
    repeat break_hyp H; simplify_eq/=; rewrite ?app_nil_r; eauto.
  - by rewrite app_assoc, (map_app _ (gone ++ live)).
  - rewrite <-(app_nil_r (map _ (gone ++ live))). eauto.
  - rewrite <-(app_nil_r (map _ (gone ++ live))). eauto.
  - rewrite <-(app_nil_r (map _ (gone ++ live))). eauto.
  - by rewrite <-app_assoc.
  - by rewrite <-app_assoc.
Qed.

Lemma replay_owners q tr q' :
  replay q tr = Some q' ->
  map sl_owner (q_gone q' ++ q_live q') =
  map sl_owner (q_gone q ++ q_live q) ++ reservations tr.
Proof.
  revert q. induction tr as [|l tr IH]; intros q H; simpl in H.
  - simplify_eq. simpl. by rewrite app_nil_r.
  - destruct (spec_step q l) as [q1|] eqn:E; [|done].
    rewrite (IH q1 H), (spec_step_owners q l q1 E), <-app_assoc. f_equal.
    by destruct l.
Qed.

#[export] Hint Resolve spans_nonneg reserved_bytes_nonneg : kinet.
