(* ===== verification/Ring.v ===== *)
(** * The ring buffer, operation by operation

    [Spinlock], [Notification], [RingBuf], [Producer] and [Consumer] of the
    crate [mpscbuf] (src/mpscbuf/src/sync.rs, ringbuf.rs, producer.rs,
    consumer.rs) as functions on an explicit shared state.  The interleaving of
    these operations is in [RingSystem]. *)

From S2P Require Import Prelude RingMem RingSpec.

(** ** The spinlock *)

Module Spinlock.

Definition SPIN_LIMIT : Z := 100000.

(** Where [try_lock] stands: about to compare-and-exchange, or about to load
    the lock in the inner loop. *)
Inductive spin_pc := AtCas | AtLoad.

Inductive spin_outcome :=
| Acquired
| TimedOut
| Spinning (pc : spin_pc) (iterations : Z).

(** One access of [try_lock]; [obs] is what it observed: the success of the
    (weak) compare-and-exchange, or the value the load returned. *)
Definition spin_step (pc : spin_pc) (iterations : Z) (obs : bool) : spin_outcome :=
  match pc with
  | AtCas =>
      if obs then Acquired
      else
        let iterations := iterations + 1 in
        if SPIN_LIMIT <=? iterations then TimedOut else Spinning AtLoad iterations
  | AtLoad =>
      if obs then
        let iterations := iterations + 1 in
        if SPIN_LIMIT <=? iterations then TimedOut else Spinning AtLoad iterations
      else Spinning AtCas iterations
  end.

Fixpoint spin (fuel : nat) (obs : nat -> bool) (k : nat) (pc : spin_pc) (iterations : Z)
    : option bool :=
  match fuel with
  | O => None
  | S fuel =>
      match spin_step pc iterations (obs k) with
      | Acquired => Some true
      | TimedOut => Some false
      | Spinning pc iterations => spin fuel obs (S k) pc iterations
      end
  end.

(** [try_lock] against the observations [obs] its accesses make, in order:
    [Some true] is a guard, [Some false] is [None] of the source. *)
Definition try_lock (fuel : nat) (obs : nat -> bool) : option bool :=
  spin fuel obs 0 AtCas 0.

(** Accesses left before the iteration limit is reached. *)
Definition spin_measure (pc : spin_pc) (iterations : Z) : Z :=
  2 * (SPIN_LIMIT - iterations) + match pc with AtCas => 0 | AtLoad => 1 end.

End Spinlock.

(** ** The notification *)

Module Notification.

(** The counter of the eventfd; [None] is a call that blocks. *)
Definition new : Z := 0.

Definition notify (counter : Z) : option Z :=
  if counter + 1 <? u64_max then Some (counter + 1) else None.

Definition wait (counter : Z) : option Z :=
  if counter =? 0 then None else Some 0.

End Notification.

(** ** The shared ring *)

Record Metadata := mkMetadata {
  spinlock : bool;
  producer : Z;
  consumer : Z;
  dropped : Z
}.

Definition Metadata_new : Metadata :=
  {| spinlock := false; producer := 0; consumer := 0; dropped := 0 |}.

Record RingBuf := mkRingBuf {
  data_size : Z;
  metadata : Metadata;
  bytes : gmap Z Z
}.

Module RingBuf.

(** A ring over the memory [Memory::new] returns; a fresh memfd is all zeros. *)
Definition new (os : Memory.Os) (data_size : Z) : result MpscBufError RingBuf :=
  m ← Memory.new os data_size;
  mret {| data_size := Memory.data_size m; metadata := Metadata_new; bytes := ∅ |}.

(** A ring over a memory another process initialised: [shared] is what the file
    holds. *)
Definition from_fd (os : Memory.Os) (fd data_size : Z) (shared : Metadata * gmap Z Z)
    : result MpscBufError RingBuf :=
  m ← Memory.from_fd os fd data_size;
  mret {| data_size := Memory.data_size m; metadata := shared.1; bytes := shared.2 |}.

Definition size_mask (r : RingBuf) : Z := wrap 64 (data_size r - 1).

Definition consumer_pos (r : RingBuf) : Z := consumer (metadata r).

Definition producer_pos (r : RingBuf) : Z := producer (metadata r).

Definition set_metadata (r : RingBuf) (m : Metadata) : RingBuf :=
  {| data_size := data_size r; metadata := m; bytes := bytes r |}.

Definition set_bytes (r : RingBuf) (b : gmap Z Z) : RingBuf :=
  {| data_size := data_size r; metadata := metadata r; bytes := b |}.

Definition advance_producer (r : RingBuf) (amount : Z) : RingBuf :=
  let m := metadata r in
  set_metadata r {| spinlock := spinlock m; producer := amount;
                    consumer := consumer m; dropped := dropped m |}.

Definition advance_consumer (r : RingBuf) (amount : Z) : RingBuf :=
  let m := metadata r in
  set_metadata r {| spinlock := spinlock m; producer := producer m;
                    consumer := amount; dropped := dropped m |}.

Definition increment_dropped (r : RingBuf) : RingBuf :=
  let m := metadata r in
  set_metadata r {| spinlock := spinlock m; producer := producer m;
                    consumer := consumer m; dropped := dropped m +64 1 |}.

(** The store of the lock word: [true] by the compare-and-exchange of
    [try_lock], [false] by the drop of the guard. *)
Definition set_lock (r : RingBuf) (b : bool) : RingBuf :=
  let m := metadata r in
  set_metadata r {| spinlock := b; producer := producer m;
                    consumer := consumer m; dropped := dropped m |}.

(** The header word at an offset of the data area. *)
Definition header_at (r : RingBuf) (offset : Z) : Z :=
  load64 (data_size r) (bytes r) offset.

Definition set_header (r : RingBuf) (offset w : Z) : RingBuf :=
  set_bytes r (store64 (data_size r) (bytes r) offset w).

End RingBuf.

(** [usize::div_ceil] does not overflow, the product can. *)
Definition round_up_to_8 (len : Z) : Z := ((len + 7) / 8) *64 8.

(** ** The producer *)

Inductive WakeupStrategy := Forced | NoWakeup.

Record ReservedBuffer := mkReserved {
  rb_data : Z;           (** offset of the payload slice *)
  rb_len : Z;            (** its length *)
  rb_header : Z;         (** offset of the header word *)
  record_pos : Z
}.

Module Producer.

(** [Producer::new]: the results of the two [fstat] calls come first. *)
Definition new (fstat_memory fstat_notification : result Z unit)
    (os : Memory.Os) (memory_fd data_size : Z) (shared : Metadata * gmap Z Z)
    : result MpscBufError RingBuf :=
  _ ← map_err IoError fstat_memory;
  _ ← map_err IoError fstat_notification;
  RingBuf.from_fd os memory_fd data_size shared.

Definition total_size (size : Z) : Z :=
  round_up_to_8 (size +64 RecordHeader.HEADER_SIZE).

(** [reserve] once [try_lock] has returned: [guard] tells whether it returned a
    guard, [cons_pos] is the consumer position loaded before. *)
Definition reserve_locked (guard : bool) (r : RingBuf) (cons_pos size : Z)
    : result MpscBufError ReservedBuffer * RingBuf :=
  if negb guard then (Err LockTimeout, r)
  else
    let r := RingBuf.set_lock r true in
    let prod_pos := RingBuf.producer_pos r in
    let new_prod_pos := prod_pos +64 total_size size in
    if RingBuf.size_mask r <? new_prod_pos -64 cons_pos then
      (Err (InsufficientSpace new_prod_pos cons_pos (RingBuf.size_mask r)),
       RingBuf.set_lock r false)
    else
      let offset := Z.land prod_pos (RingBuf.size_mask r) in
      let r := RingBuf.set_header r offset (RecordHeader.new (wrap 32 size)) in
      let r := RingBuf.advance_producer r new_prod_pos in
      (Ok {| rb_data := offset + RecordHeader.HEADER_SIZE; rb_len := size;
             rb_header := offset; record_pos := offset |},
       RingBuf.set_lock r false).

(** [reserve] without interference; [obs] are the observations of [try_lock]. *)
Definition reserve (fuel : nat) (obs : nat -> bool) (r : RingBuf) (size : Z)
    : option (result MpscBufError ReservedBuffer * RingBuf) :=
  let cons_pos := RingBuf.consumer_pos r in
  guard ← Spinlock.try_lock fuel obs;
  Some (reserve_locked guard r cons_pos size).

(** A write of one byte through [as_mut_slice]; an index past the end of the
    slice panics ([None]). *)
Definition write_byte (rb : ReservedBuffer) (r : RingBuf) (i b : Z) : option RingBuf :=
  if (0 <=? i) && (i <? rb_len rb)
  then Some (RingBuf.set_bytes r (store_bytes (data_size r) (bytes r) (rb_data rb + i) [b]))
  else None.

(** [copy_from_slice] on [as_mut_slice]: panics when the lengths differ. *)
Definition copy_from_slice (rb : ReservedBuffer) (r : RingBuf) (src : list Z) : option RingBuf :=
  if Z.of_nat (length src) =? rb_len rb
  then Some (RingBuf.set_bytes r (store_bytes (data_size r) (bytes r) (rb_data rb) src))
  else None.

(** [Drop for ReservedBuffer]: the ring and the eventfd afterwards ([None] when
    the write to the eventfd blocks). *)
Definition drop (strategy : WakeupStrategy) (rb : ReservedBuffer) (r : RingBuf) (event : Z)
    : option (RingBuf * Z) :=
  let is_discarded := RecordHeader.is_discarded (RingBuf.header_at r (rb_header rb)) in
  let r :=
    if negb is_discarded
    then RingBuf.set_header r (rb_header rb)
           (RecordHeader.commit (RingBuf.header_at r (rb_header rb)))
    else r in
  match strategy with
  | Forced => event ← Notification.notify event; Some (r, event)
  | NoWakeup => Some (r, event)
  end.

(** [discard] consumes the buffer, so [drop] runs at its end. *)
Definition discard (strategy : WakeupStrategy) (rb : ReservedBuffer) (r : RingBuf) (event : Z)
    : option (RingBuf * Z) :=
  let r := RingBuf.set_header r (rb_header rb)
             (RecordHeader.discard (RingBuf.header_at r (rb_header rb))) in
  drop strategy rb r event.

End Producer.

(** ** The consumer *)

(** [Record]: the payload slice and the consumer position its drop stores. *)
Record ConsumerRecord := mkRecord {
  rec_data : Z;
  rec_len : Z;
  rec_total : Z
}.

Module Consumer.

Definition as_slice (r : RingBuf) (rec : ConsumerRecord) : list Z :=
  load_bytes (data_size r) (bytes r) (rec_data rec) (Z.to_nat (rec_len rec)).

Definition drop_record (r : RingBuf) (rec : ConsumerRecord) : RingBuf :=
  RingBuf.advance_consumer r (rec_total rec).

(** [new]: the ring, with the eventfd that [Notification::new] creates. *)
Definition new (os : Memory.Os) (eventfd : result string Z) (data_size : Z)
    : result MpscBufError (RingBuf * Z) :=
  r ← RingBuf.new os data_size;
  e ← map_err EventfdCreation eventfd;
  mret (r, e).

Definition memory_size (os : Memory.Os) (r : RingBuf) : Z :=
  data_size r +64 Memory.os_page_size os.

(** What one pass of the loop of [consume] finds at the consumer position. *)
Inductive found :=
| NothingYet                       (** [return None] *)
| Found (rec : ConsumerRecord)     (** [return Some] *)
| SkipTo (pos : Z).                (** a discarded record: advance and loop *)

Definition record_span (record_len : Z) : Z :=
  round_up_to_8 (RecordHeader.HEADER_SIZE +64 record_len).

(** The part of the loop body after the two position loads. *)
Definition inspect (r : RingBuf) (cons_pos : Z) : found :=
  let offset := Z.land cons_pos (RingBuf.size_mask r) in
  let '(record_len, flags) := RecordHeader.len_and_flags (RingBuf.header_at r offset) in
  if negb (Z.land flags RecordHeader.BUSY_FLAG =? 0) then NothingYet
  else
    let total_len := record_span record_len in
    if Z.land flags RecordHeader.DISCARD_FLAG =? 0
    then Found {| rec_data := offset + RecordHeader.HEADER_SIZE; rec_len := record_len;
                  rec_total := cons_pos +64 total_len |}
    else SkipTo (cons_pos +64 total_len).

Fixpoint consume (fuel : nat) (r : RingBuf) : option (option ConsumerRecord * RingBuf) :=
  match fuel with
  | O => None
  | S fuel =>
      let cons_pos := RingBuf.consumer_pos r in
      let prod_pos := RingBuf.producer_pos r in
      if prod_pos <=? cons_pos then Some (None, r)
      else
        match inspect r cons_pos with
        | NothingYet => Some (None, r)
        | Found rec => Some (Some rec, r)
        | SkipTo pos => consume fuel (RingBuf.advance_consumer r pos)
        end
  end.

Definition available_records (r : RingBuf) : Z :=
  sat_sub (RingBuf.producer_pos r) (RingBuf.consumer_pos r).

End Consumer.

(** ** Lemmas on offsets and sizes *)

Section Offsets.

Context (r : RingBuf).
Hypothesis Hpow : is_power_of_two (data_size r) = true.
Hypothesis Hsize : 1 <= data_size r <= 2 ^ 63.

Lemma size_mask_eq : RingBuf.size_mask r = data_size r - 1.
Proof. unfold RingBuf.size_mask. rewrite wrap64_small; unfold u64_max; lia. Qed.

Lemma size_mask_phys v : Z.land v (RingBuf.size_mask r) = phys (data_size r) v.
Proof using Hpow Hsize.
  rewrite size_mask_eq. apply is_power_of_two_spec in Hpow as (n & Hn & ->).
  by apply land_mask.
Qed.

Lemma header_at_mask v :
  RingBuf.header_at r (Z.land v (RingBuf.size_mask r)) = load64 (data_size r) (bytes r) v.
Proof using Hpow Hsize. unfold RingBuf.header_at. by rewrite size_mask_phys, load64_phys. Qed.

Lemma set_header_mask v w :
  RingBuf.set_header r (Z.land v (RingBuf.size_mask r)) w =
  RingBuf.set_bytes r (store64 (data_size r) (bytes r) v w).
Proof using Hpow Hsize. unfold RingBuf.set_header. by rewrite size_mask_phys, store64_phys. Qed.

End Offsets.

Lemma round_up_span (len x : Z) :
  0 <= len <= i64_max -> x = 8 + len -> round_up_to_8 x = (8 + len + 7) / 8 * 8.
Proof.
  intros Hlen ->. unfold round_up_to_8. apply wrap64_small. unfold i64_max, u64_max in *.
  pose proof (Z.div_mod (8 + len + 7) 8). pose proof (Z.mod_pos_bound (8 + len + 7) 8). lia.
Qed.

Lemma total_size_span size : 0 <= size <= i64_max -> Producer.total_size size = span size.
Proof.
  intros H. unfold Producer.total_size, RecordHeader.HEADER_SIZE.
  rewrite wrap64_small by (unfold i64_max, u64_max in *; lia).
  apply round_up_span; lia.
Qed.

Lemma record_span_span len : in_u 32 len -> Consumer.record_span len = span len.
Proof.
  unfold in_u. intros H. unfold Consumer.record_span, RecordHeader.HEADER_SIZE.
  rewrite wrap64_small by (unfold u64_max; lia). apply round_up_span; unfold i64_max; lia.
Qed.
