(* ===== verification/RingSystem.v ===== *)
(** * Producers and the consumer, interleaved

    Any number of producers and one consumer share a ring; each access to the
    shared memory is one step, in any order (sequentially consistent, as the
    release/acquire pairs of the source order them).  The theorems show that
    every interleaving implements the queue of [RingSpec], and that the one
    place where the code touches a header it no longer owns breaks it. *)

From S2P Require Import Prelude RingMem RingSpec Ring.

(** ** Local states *)

(** Where a producer stands in [reserve], in the use of its [ReservedBuffer]
    and in the drop of it.  [size] is the argument of [reserve], [cp] the
    consumer position it loaded, [pp] the producer position. *)
Inductive tstate :=
| TIdle
| TSpin (size cp : Z) (pc : Spinlock.spin_pc) (iterations : Z)
| TLocked (size cp : Z)
| TGotProd (size cp pp : Z)
| TFull
| THeader (size pp : Z)
| TAdvanced (size pp : Z)
| TReserved (size pp : Z)
| TDrop (discarded : bool) (size pp : Z)
| TCommit (size pp : Z)
| TNotify.

(** Where the consumer stands in [consume] and with the [Record] it returned. *)
Inductive cstate :=
| CIdle
| CGotCons (cp : Z)
| CGotBoth (cp : Z)
| CSkip (pos : Z)
| CRecord (rec : ConsumerRecord).

Record sys := Sys {
  s_ring : RingBuf;
  s_event : Z;
  s_threads : gmap nat tstate;
  s_cons : cstate
}.

Definition state_of (T : gmap nat tstate) (t : nat) : tstate := default TIdle (T !! t).

(** The [ReservedBuffer] for [size] bytes at producer position [pp]. *)
Definition buffer (r : RingBuf) (size pp : Z) : ReservedBuffer :=
  let offset := Z.land pp (RingBuf.size_mask r) in
  {| rb_data := offset + RecordHeader.HEADER_SIZE; rb_len := size;
     rb_header := offset; record_pos := offset |}.

Definition holds_guard (st : tstate) : bool :=
  match st with
  | TLocked _ _ | TGotProd _ _ _ | TFull | THeader _ _ | TAdvanced _ _ => true
  | _ => false
  end.

(** ** Steps *)

(** What an access of [try_lock] can observe: a compare-and-exchange succeeds
    only on a free lock (a weak one may also fail on it), a load returns it. *)
Definition spin_obs (r : RingBuf) (pc : Spinlock.spin_pc) (obs : bool) : Prop :=
  match pc with
  | Spinlock.AtCas => obs = true -> spinlock (metadata r) = false
  | Spinlock.AtLoad => obs = spinlock (metadata r)
  end.

Section Steps.

(** The wakeup strategy of each producer. *)
Variable strategy : nat -> WakeupStrategy.

(** The accesses of producer [t]: ring, eventfd and local state before and
    after.  A reservation asks for at most [isize::MAX] bytes, the limit of a
    Rust slice.  [discard] and [commit] (common.rs) load the header and store it in
    one step: as long as the record is the producer's, nobody else writes it. *)
Inductive tstep (t : nat) : RingBuf -> Z -> tstate -> label -> RingBuf -> Z -> tstate -> Prop :=
| ts_start r e size :
    0 <= size <= i64_max ->
    tstep t r e TIdle LTau r e (TSpin size (RingBuf.consumer_pos r) Spinlock.AtCas 0)
| ts_spin r e size cp pc it obs pc' it' :
    spin_obs r pc obs -> Spinlock.spin_step pc it obs = Spinlock.Spinning pc' it' ->
    tstep t r e (TSpin size cp pc it) LTau r e (TSpin size cp pc' it')
| ts_timeout r e size cp pc it obs :
    spin_obs r pc obs -> Spinlock.spin_step pc it obs = Spinlock.TimedOut ->
    tstep t r e (TSpin size cp pc it) LTau r e TIdle
| ts_acquire r e size cp pc it obs :
    spin_obs r pc obs -> Spinlock.spin_step pc it obs = Spinlock.Acquired ->
    tstep t r e (TSpin size cp pc it) LTau (RingBuf.set_lock r true) e (TLocked size cp)
| ts_load_producer r e size cp :
    tstep t r e (TLocked size cp) LTau r e (TGotProd size cp (RingBuf.producer_pos r))
| ts_full r e size cp pp :
    RingBuf.size_mask r < (pp +64 Producer.total_size size) -64 cp ->
    tstep t r e (TGotProd size cp pp) LTau r e TFull
| ts_unlock_full r e :
    tstep t r e TFull LTau (RingBuf.set_lock r false) e TIdle
| ts_write_header r e size cp pp :
    (pp +64 Producer.total_size size) -64 cp <= RingBuf.size_mask r ->
    tstep t r e (TGotProd size cp pp) LTau
      (RingBuf.set_header r (Z.land pp (RingBuf.size_mask r)) (RecordHeader.new (wrap 32 size)))
      e (THeader size pp)
| ts_advance r e size pp :
    tstep t r e (THeader size pp)
      (LReserve t (load_bytes (data_size r) (bytes r) (rb_data (buffer r size pp)) (Z.to_nat size)))
      (RingBuf.advance_producer r (pp +64 Producer.total_size size)) e (TAdvanced size pp)
| ts_unlock r e size pp :
    tstep t r e (TAdvanced size pp) LTau (RingBuf.set_lock r false) e (TReserved size pp)
| ts_write r e size pp i b r' :
    is_byte b -> Producer.write_byte (buffer r size pp) r i b = Some r' ->
    tstep t r e (TReserved size pp) (LWrite t (Z.to_nat i) b) r' e (TReserved size pp)
| ts_discard r e size pp :
    tstep t r e (TReserved size pp) (LDiscard t)
      (RingBuf.set_header r (rb_header (buffer r size pp))
         (RecordHeader.discard (RingBuf.header_at r (rb_header (buffer r size pp)))))
      e (TDrop true size pp)
| ts_leave r e size pp :
    tstep t r e (TReserved size pp) LTau r e (TDrop false size pp)
| ts_check_live r e d size pp :
    RecordHeader.is_discarded (RingBuf.header_at r (rb_header (buffer r size pp))) = false ->
    tstep t r e (TDrop d size pp) LTau r e (TCommit size pp)
| ts_check_discarded r e d size pp :
    RecordHeader.is_discarded (RingBuf.header_at r (rb_header (buffer r size pp))) = true ->
    tstep t r e (TDrop d size pp) LTau r e TNotify
| ts_commit r e size pp :
    tstep t r e (TCommit size pp) (LCommit t)
      (RingBuf.set_header r (rb_header (buffer r size pp))
         (RecordHeader.commit (RingBuf.header_at r (rb_header (buffer r size pp)))))
      e TNotify
| ts_notify r e e' :
    strategy t = Forced -> Notification.notify e = Some e' ->
    tstep t r e TNotify LTau r e' TIdle
| ts_no_notify r e :
    strategy t = NoWakeup ->
    tstep t r e TNotify LTau r e TIdle.

(** The accesses of the consumer. *)
Inductive cstep : RingBuf -> Z -> cstate -> label -> RingBuf -> Z -> cstate -> Prop :=
| cs_load_consumer r e :
    cstep r e CIdle LTau r e (CGotCons (RingBuf.consumer_pos r))
| cs_empty r e cp :
    RingBuf.producer_pos r <= cp ->
    cstep r e (CGotCons cp) LTau r e CIdle
| cs_more r e cp :
    cp < RingBuf.producer_pos r ->
    cstep r e (CGotCons cp) LTau r e (CGotBoth cp)
| cs_busy r e cp :
    Consumer.inspect r cp = Consumer.NothingYet ->
    cstep r e (CGotBoth cp) LTau r e CIdle
| cs_found r e cp rec :
    Consumer.inspect r cp = Consumer.Found rec ->
    cstep r e (CGotBoth cp) (LDeliver (Consumer.as_slice r rec)) r e (CRecord rec)
| cs_discarded r e cp pos :
    Consumer.inspect r cp = Consumer.SkipTo pos ->
    cstep r e (CGotBoth cp) LTau r e (CSkip pos)
| cs_skip r e pos :
    cstep r e (CSkip pos) LSkip (RingBuf.advance_consumer r pos) e CIdle
| cs_release r e rec :
    cstep r e (CRecord rec) LRelease (Consumer.drop_record r rec) e CIdle
| cs_wait r e e' :
    Notification.wait e = Some e' ->
    cstep r e CIdle LTau r e' CIdle.

Inductive actor := Prod (t : nat) | Cons.

Inductive step : sys -> actor -> label -> sys -> Prop :=
| step_prod s t l r e st :
    tstep t (s_ring s) (s_event s) (state_of (s_threads s) t) l r e st ->
    step s (Prod t) l (Sys r e (<[t := st]> (s_threads s)) (s_cons s))
| step_cons s l r e c :
    cstep (s_ring s) (s_event s) (s_cons s) l r e c ->
    step s Cons l (Sys r e (s_threads s) c).

(** A producer that has discarded its record still reads the header in the drop
    that follows.  The quiet steps are those in which the consumer does not step
    over a discarded record in between. *)
Definition discarding (st : tstate) : bool :=
  match st with TDrop true _ _ => true | _ => false end.

Definition quiet_step (s : sys) (a : actor) (l : label) (s' : sys) : Prop :=
  step s a l s' /\ (l = LSkip -> forall t, discarding (state_of (s_threads s) t) = false).

(** Runs, with the events in order. *)
Inductive run (stp : sys -> actor -> label -> sys -> Prop) (s0 : sys) : list label -> sys -> Prop :=
| run_nil : run stp s0 [] s0
| run_snoc tr s a l s' : run stp s0 tr s -> stp s a l s' -> run stp s0 (tr ++ [l]) s'.

End Steps.

(** A fresh ring, no producer in a call, the consumer idle. *)
Definition fresh_ring (D : Z) : RingBuf :=
  {| data_size := D; metadata := Metadata_new; bytes := ∅ |}.

Definition init (D : Z) : sys := Sys (fresh_ring D) Notification.new ∅ CIdle.

(** ** The invariant *)

(** The record [s] lies at position [p] of the ring. *)
Definition slot_at (D : Z) (m : gmap Z Z) (p : Z) (s : slot) : Prop :=
  load64 D m p = header_word (Z.of_nat (length (sl_data s))) (sl_status s) /\
  load_bytes D m (p + 8) (length (sl_data s)) = sl_data s.

Definition layout (D : Z) (m : gmap Z Z) (p : Z) (l : list slot) : Prop :=
  forall i s, l !! i = Some s -> slot_at D m (p + spans (take i l)) s.

(** The record a producer may still write: its length and position. *)
Definition owns (st : tstate) : option (Z * Z) :=
  match st with
  | TAdvanced size pp | TReserved size pp | TDrop false size pp | TCommit size pp => Some (size, pp)
  | _ => None
  end.

Definition owned_slot (r : RingBuf) (q : queue) (t : nat) (st : record_status) (size pp : Z) : Prop :=
  exists i s, q_live q !! i = Some s /\ pp = RingBuf.consumer_pos r + spans (take i (q_live q)) /\
    sl_owner s = t /\ sl_status s = st /\ size = Z.of_nat (length (sl_data s)).

Definition thread_ok (r : RingBuf) (q : queue) (t : nat) (st : tstate) : Prop :=
  match st with
  | TIdle | TFull | TNotify => True
  | TSpin size cp _ _ | TLocked size cp =>
      0 <= size <= i64_max /\ 0 <= cp <= RingBuf.consumer_pos r
  | TGotProd size cp pp =>
      0 <= size <= i64_max /\ 0 <= cp <= RingBuf.consumer_pos r /\ pp = RingBuf.producer_pos r
  | THeader size pp =>
      0 <= size <= i64_max /\ pp = RingBuf.producer_pos r /\
      pp + span size - RingBuf.consumer_pos r < data_size r /\
      load64 (data_size r) (bytes r) pp = header_word size Busy
  | TAdvanced size pp | TReserved size pp | TDrop false size pp | TCommit size pp =>
      owned_slot r q t Busy size pp
  | TDrop true size pp => owned_slot r q t Discarded size pp
  end.

(** The record at the head as the consumer sees it. *)
Definition head_record (r : RingBuf) (s : slot) : ConsumerRecord :=
  {| rec_data := Z.land (RingBuf.consumer_pos r) (RingBuf.size_mask r) + 8;
     rec_len := Z.of_nat (length (sl_data s));
     rec_total := RingBuf.consumer_pos r + slot_span s |}.

Definition cons_ok (r : RingBuf) (q : queue) (c : cstate) : Prop :=
  match c with
  | CIdle => q_held q = false
  | CGotCons cp => q_held q = false /\ cp = RingBuf.consumer_pos r
  | CGotBoth cp =>
      q_held q = false /\ cp = RingBuf.consumer_pos r /\ exists s, q_live q !! O = Some s
  | CSkip pos =>
      q_held q = false /\ exists s, q_live q !! O = Some s /\ sl_status s = Discarded /\
        pos = RingBuf.consumer_pos r + slot_span s
  | CRecord rec =>
      q_held q = true /\ exists s, q_live q !! O = Some s /\ sl_status s = Committed /\
        rec = head_record r s
  end.

(** The lock word is set while a producer holds the guard, and one at most does. *)
Definition lock_ok (T : gmap nat tstate) (lock : bool) : Prop :=
  forall t, holds_guard (state_of T t) = true ->
    lock = true /\ forall t', holds_guard (state_of T t') = true -> t' = t.

(** Every record that is being filled belongs to a producer that knows it. *)
Definition busy_ok (T : gmap nat tstate) (q : queue) : Prop :=
  forall i s, q_live q !! i = Some s -> sl_status s = Busy ->
    owns (state_of T (sl_owner s)) =
      Some (Z.of_nat (length (sl_data s)), spans (q_gone q) + spans (take i (q_live q))).

Record ring_ok (r : RingBuf) (q : queue) : Prop := {
  ok_size : is_power_of_two (data_size r) = true /\ 8 <= data_size r <= 2 ^ 32;
  ok_cons_pos : RingBuf.consumer_pos r = spans (q_gone q);
  ok_prod_pos : RingBuf.producer_pos r = spans (q_gone q) + spans (q_live q);
  ok_room : spans (q_live q) < data_size r;
  ok_layout : layout (data_size r) (bytes r) (spans (q_gone q)) (q_live q)
}.

Record Inv (s : sys) (q : queue) : Prop := {
  inv_ring : ring_ok (s_ring s) q;
  inv_wf : wf_queue q;
  inv_threads : forall t, thread_ok (s_ring s) q t (state_of (s_threads s) t);
  inv_busy : busy_ok (s_threads s) q;
  inv_lock : lock_ok (s_threads s) (spinlock (metadata (s_ring s)));
  inv_cons : cons_ok (s_ring s) q (s_cons s)
}.

(** ** Records in memory *)

(** A store outside a record, within a window of one buffer size. *)
Lemma slot_at_store D m p s v bs :
  0 < D -> slot_at D m p s ->
  (p + slot_span s <= v /\ v + Z.of_nat (length bs) <= p + D) \/
  (v + Z.of_nat (length bs) <= p /\ p + slot_span s <= v + D) ->
  slot_at D (store_bytes D m v bs) p s.
Proof.
  intros HD [Hh Hd] Hv. pose proof (slot_span_bounds s). split.
  - unfold load64 in *. rewrite load_store_disjoint by lia. done.
  - rewrite load_store_disjoint by lia. done.
Qed.

(** A store inside the [i]-th record leaves the others alone. *)
Lemma layout_store D m p l i s s' v bs :
  0 < D -> spans l <= D -> layout D m p l -> l !! i = Some s ->
  slot_span s' = slot_span s ->
  p + spans (take i l) <= v -> v + Z.of_nat (length bs) <= p + spans (take i l) + slot_span s ->
  slot_at D (store_bytes D m v bs) (p + spans (take i l)) s' ->
  layout D (store_bytes D m v bs) p (<[i := s']> l).
Proof.
  intros HD Hl Hlay Hi Hs Hv1 Hv2 Hs' j sj Hj.
  rewrite (spans_take_insert l i j s s') by done.
  assert (i < length l)%nat by by eapply lookup_lt_Some.
  destruct (decide (i = j)) as [<-|Hij].
  - rewrite list_lookup_insert_eq in Hj by done. by simplify_eq.
  - rewrite list_lookup_insert_ne in Hj by done.
    apply slot_at_store; [done|by apply Hlay|].
    pose proof (spans_slot l i s Hi). pose proof (spans_slot l j sj Hj).
    destruct (decide (i < j)%nat).
    + pose proof (spans_take_lt l i j s Hi). lia.
    + pose proof (spans_take_lt l j i sj Hj). lia.
Qed.

(** A store behind the last record, within the buffer. *)
Lemma layout_store_free D m p l v bs :
  0 < D -> layout D m p l -> p + spans l <= v -> v + Z.of_nat (length bs) <= p + D ->
  layout D (store_bytes D m v bs) p l.
Proof.
  intros HD Hlay Hv1 Hv2 j sj Hj. pose proof (spans_slot l j sj Hj).
  apply slot_at_store; [done|by apply Hlay|lia].
Qed.

Lemma layout_snoc D m p l s :
  layout D m p l -> slot_at D m (p + spans l) s -> layout D m p (l ++ [s]).
Proof.
  intros Hl Hs j sj Hj. apply lookup_snoc_Some in Hj as [[Hlt Hj]|[-> ->]].
  - rewrite take_app_le by lia. by apply Hl.
  - by rewrite take_app_length.
Qed.

Lemma layout_tail D m p s l : layout D m p (s :: l) -> layout D m (p + slot_span s) l.
Proof.
  intros H j sj Hj. specialize (H (S j) sj Hj). cbn [take spans] in H.
  by rewrite <-Z.add_assoc.
Qed.

(** ** Preservation, by kind of step *)

Lemma state_of_eq T t st : state_of (<[t := st]> T) t = st.
Proof. unfold state_of. by rewrite lookup_insert_eq. Qed.

Lemma state_of_ne T t t' st : t <> t' -> state_of (<[t := st]> T) t' = state_of T t'.
Proof. intros. unfold state_of. by rewrite lookup_insert_ne. Qed.

Lemma lock_ok_keep T lock t st :
  lock_ok T lock -> (holds_guard st = true -> holds_guard (state_of T t) = true) ->
  lock_ok (<[t := st]> T) lock.
Proof.
  intros HT Hst.
  assert (forall t', holds_guard (state_of (<[t := st]> T) t') = true ->
    holds_guard (state_of T t') = true) as Hmono.
  { intros t'. destruct (decide (t = t')) as [<-|]; [by rewrite state_of_eq|by rewrite state_of_ne]. }
  intros t' Ht'. destruct (HT t' (Hmono t' Ht')) as [? Huniq]. split; [done|]. auto.
Qed.

Lemma lock_ok_acquire T t st : lock_ok T false -> lock_ok (<[t := st]> T) true.
Proof.
  intros HT.
  assert (forall t', holds_guard (state_of (<[t := st]> T) t') = true -> t' = t) as Hone.
  { intros t'. destruct (decide (t = t')); [done|]. rewrite state_of_ne by done.
    intros Ht'. by destruct (HT t' Ht'). }
  intros t' Ht'. split; [done|]. intros t'' Ht''. by rewrite (Hone t'), (Hone t'').
Qed.

Lemma lock_ok_release T lock t st lock' :
  lock_ok T lock -> holds_guard (state_of T t) = true -> holds_guard st = false ->
  lock_ok (<[t := st]> T) lock'.
Proof.
  intros HT Hold Hst t'. destruct (decide (t = t')) as [<-|].
  - rewrite state_of_eq. congruence.
  - rewrite state_of_ne by done. intros Ht'. destruct (HT t Hold) as [_ Hu].
    by rewrite (Hu t' Ht') in *.
Qed.

(** What the invariant reads of the ring, the lock word apart. *)
Definition same_ring (r r' : RingBuf) : Prop :=
  data_size r' = data_size r /\ bytes r' = bytes r /\
  RingBuf.consumer_pos r' = RingBuf.consumer_pos r /\
  RingBuf.producer_pos r' = RingBuf.producer_pos r.

Lemma thread_ok_same r r' q t st : same_ring r r' -> thread_ok r q t st -> thread_ok r' q t st.
Proof.
  intros (H1 & H2 & H3 & H4). unfold thread_ok, owned_slot. by rewrite H1, H2, H3, H4.
Qed.

Lemma ring_ok_same r r' q : same_ring r r' -> ring_ok r q -> ring_ok r' q.
Proof. intros (H1 & H2 & H3 & H4) []. split; by rewrite ?H1, ?H2, ?H3, ?H4. Qed.

Lemma cons_ok_same r r' q c : same_ring r r' -> cons_ok r q c -> cons_ok r' q c.
Proof.
  intros (H1 & H2 & H3 & H4). unfold cons_ok, head_record, RingBuf.size_mask.
  by rewrite H1, H3.
Qed.

(** A producer's step that leaves the records alone. *)
Lemma inv_local r e T c q t st r' e' :
  Inv (Sys r e T c) q -> same_ring r r' ->
  owns st = owns (state_of T t) -> thread_ok r q t st ->
  lock_ok (<[t := st]> T) (spinlock (metadata r')) ->
  Inv (Sys r' e' (<[t := st]> T) c) q.
Proof.
  intros [Hr Hwf Ht Hb Hl Hc] Hsame Howns Hst Hlock. split; cbn [s_ring s_threads s_cons] in *.
  - by eapply ring_ok_same.
  - done.
  - intros t'. eapply thread_ok_same; [done|].
    destruct (decide (t = t')) as [<-|]; [by rewrite state_of_eq|by rewrite state_of_ne].
  - intros i s Hi Hs. specialize (Hb i s Hi Hs).
    destruct (decide (t = sl_owner s)) as [->|]; [|by rewrite state_of_ne].
    rewrite state_of_eq. congruence.
  - done.
  - by eapply cons_ok_same.
Qed.

(** A producer fills at most one record. *)
Lemma busy_unique T q i j s s' :
  busy_ok T q -> q_live q !! i = Some s -> q_live q !! j = Some s' ->
  sl_status s = Busy -> sl_status s' = Busy -> sl_owner s' = sl_owner s -> j = i.
Proof.
  intros Hb Hi Hj Hs Hs' Ho.
  pose proof (Hb i s Hi Hs) as Hbi. pose proof (Hb j s' Hj Hs') as Hbj.
  rewrite Ho, Hbi in Hbj. injection Hbj as _ Hsp.
  symmetry. eapply spans_take_inj; [done..|lia].
Qed.

(** The queue after a change of one record. *)
Definition with_slot (q : queue) (i : nat) (s : slot) : queue :=
  Queue (q_gone q) (<[i := s]> (q_live q)) (q_held q).

Lemma update_with_slot T q t f i s :
  busy_ok T q -> q_live q !! i = Some s -> sl_status s = Busy -> sl_owner s = t ->
  (live ← update_busy t f (q_live q); Some (Queue (q_gone q) live (q_held q))) =
  Some (with_slot q i (f s)).
Proof.
  intros Hb Hi Hs Ho. erewrite update_busy_lookup; [done|done|by apply owned_busy_spec|].
  intros j s' Hj [Hs' Ho']%owned_busy_spec. apply (busy_unique T q i j s s'); congruence || done.
Qed.

Lemma owned_slot_ne r r' q t st size pp i s s' :
  RingBuf.consumer_pos r' = RingBuf.consumer_pos r ->
  q_live q !! i = Some s -> sl_owner s <> t -> slot_span s' = slot_span s ->
  owned_slot r q t st size pp -> owned_slot r' (with_slot q i s') t st size pp.
Proof.
  intros Hcp Hi Ho Hsp (j & sj & Hj & -> & Hoj & Hsj & Hlen). exists j, sj.
  unfold with_slot. cbn [q_live].
  assert (i <> j) by (intros ->; congruence).
  by rewrite Hcp, (spans_take_insert _ _ _ s), list_lookup_insert_ne.
Qed.

Lemma cons_ok_with_slot r r' q c i s s' :
  data_size r' = data_size r -> RingBuf.consumer_pos r' = RingBuf.consumer_pos r ->
  q_live q !! i = Some s -> sl_status s = Busy ->
  cons_ok r q c -> cons_ok r' (with_slot q i s') c.
Proof.
  intros HD Hcp Hi Hs. destruct c; cbn [cons_ok with_slot q_live q_held];
    unfold head_record, RingBuf.size_mask; rewrite ?HD, ?Hcp; try done.
  - intros (? & ? & s0 & Hs0). split_and!; [done..|].
    destruct (q_live q), i; simplify_eq/=; eauto.
  - intros (? & s0 & Hs0 & Hst & ->). split; [done|]. exists s0.
    destruct i; [congruence|]. by rewrite list_lookup_insert_ne.
  - intros (? & s0 & Hs0 & Hst & ->). split; [done|]. exists s0.
    destruct i; [congruence|]. by rewrite list_lookup_insert_ne.
Qed.

Lemma wf_with_slot q i s s' :
  wf_queue q -> q_live q !! i = Some s -> sl_status s = Busy -> wf_queue (with_slot q i s').
Proof.
  intros Hwf Hi Hs Hheld. destruct (Hwf Hheld) as (s0 & live & Hl & Hs0).
  unfold with_slot. cbn [q_live]. rewrite Hl in Hi |- *.
  destruct i; simplify_eq/=; [congruence|eauto].
Qed.

(** A producer's change of its own record: a byte of it, or its status. *)
Lemma inv_own_slot r e T c q t st m' e' i s s' :
  Inv (Sys r e T c) q ->
  q_live q !! i = Some s -> sl_status s = Busy -> sl_owner s = t ->
  sl_owner s' = t -> slot_span s' = slot_span s -> length (sl_data s') = length (sl_data s) ->
  layout (data_size r) m' (spans (q_gone q)) (<[i := s']> (q_live q)) ->
  load64 (data_size r) m' (RingBuf.producer_pos r) =
    load64 (data_size r) (bytes r) (RingBuf.producer_pos r) ->
  thread_ok (RingBuf.set_bytes r m') (with_slot q i s') t st ->
  (sl_status s' = Busy -> owns st = owns (state_of T t)) ->
  holds_guard st = false ->
  Inv (Sys (RingBuf.set_bytes r m') e' (<[t := st]> T) c) (with_slot q i s').
Proof.
  intros [Hr Hwf Ht Hb Hl Hc] Hi Hs Ho Ho' Hsp Hlen Hlay Hp Hst Howns Hg.
  cbn [s_ring s_threads s_cons] in *.
  assert (i < length (q_live q))%nat as Hlt by by eapply lookup_lt_Some.
  split; cbn [s_ring s_threads s_cons].
  - destruct Hr. split; cbn [with_slot q_gone q_live]; rewrite ?(spans_insert _ _ s) by done; done.
  - by eapply wf_with_slot.
  - intros t'. destruct (decide (t = t')) as [<-|Hne]; [by rewrite state_of_eq|].
    rewrite state_of_ne by done. specialize (Ht t').
    destruct (state_of T t') as [| | | | | | | |[]| |]; cbn [thread_ok] in *; try done.
    1: { destruct Ht as (Hsz & -> & Hroom & Hhead). rewrite <-Hhead.
         split; [done|split; [done|split; [exact Hroom|exact Hp]]]. }
    all: eapply owned_slot_ne; [done|done|by rewrite Ho|done|done].
  - intros j sj Hj Hsj. cbn [with_slot q_live q_gone] in *.
    rewrite (spans_take_insert _ _ _ s) by done.
    destruct (decide (i = j)) as [<-|Hij].
    + rewrite list_lookup_insert_eq in Hj by done. injection Hj as <-.
      rewrite Ho', state_of_eq, Hlen, Howns by done. rewrite <-Ho. by apply Hb.
    + rewrite list_lookup_insert_ne in Hj by done. rewrite state_of_ne; [by apply Hb|].
      intros Heq. apply Hij. symmetry. eapply (busy_unique T q i j s sj); congruence || done.
  - apply lock_ok_keep; [done|]. by rewrite Hg.
  - by eapply cons_ok_with_slot.
Qed.

(** A reservation becomes visible. *)
Lemma inv_append r e T c q t size :
  Inv (Sys r e T c) q -> state_of T t = THeader size (RingBuf.producer_pos r) ->
  Inv (Sys (RingBuf.advance_producer r (RingBuf.producer_pos r + span size)) e
         (<[t := TAdvanced size (RingBuf.producer_pos r)]> T) c)
      (Queue (q_gone q)
         (q_live q ++ [Slot t (load_bytes (data_size r) (bytes r) (RingBuf.producer_pos r + 8)
                                 (Z.to_nat size)) Busy]) (q_held q)).
Proof.
  intros [Hr Hwf Ht Hb Hl Hc] Hstate. cbn [s_ring s_threads s_cons] in *.
  pose proof (Ht t) as Htt. rewrite Hstate in Htt. destruct Htt as (Hsize & _ & Hroom & Hhead).
  destruct Hr as [HD Hcp Hpp Hrm Hlay].
  set (s := Slot t _ Busy).
  assert (Z.of_nat (length (sl_data s)) = size) as Hlen.
  { cbn. rewrite length_load_bytes. lia. }
  assert (slot_span s = span size) as Hspan by (unfold slot_span; by rewrite Hlen).
  pose proof (slot_span_bounds s).
  split; cbn [s_ring s_threads s_cons].
  - split; cbn [q_gone q_live data_size bytes RingBuf.advance_producer RingBuf.set_metadata];
      [done|done| | |].
    + rewrite spans_app. cbn -[slot_span]. unfold RingBuf.producer_pos in *. lia.
    + rewrite spans_app. cbn -[slot_span]. lia.
    + apply layout_snoc; [done|]. rewrite <-Hpp. split; [by rewrite Hlen|].
      cbn [sl_data s]. rewrite length_load_bytes. done.
  - intros Hheld. destruct (Hwf Hheld) as (s0 & live & -> & ?). simpl. eauto.
  - intros t'. destruct (decide (t = t')) as [<-|Hne].
    + rewrite state_of_eq. exists (length (q_live q)), s. cbn [q_live].
      rewrite lookup_app_r, Nat.sub_diag, take_app_length by done. split_and!; try done.
      unfold RingBuf.consumer_pos, RingBuf.producer_pos in *. cbn. lia.
    + rewrite state_of_ne by done. specialize (Ht t').
      assert (holds_guard (state_of T t') = false) as Hg.
      { apply not_true_iff_false. intros Hg. destruct (Hl t) as [_ Hu]; [by rewrite Hstate|].
        apply Hne. symmetry. by apply Hu. }
      destruct (state_of T t') as [| | | | | | | |[]| |]; try done;
        destruct Ht as (i & si & Hi & -> & ?); exists i, si; cbn [q_live];
        pose proof (lookup_lt_Some _ _ _ Hi);
        rewrite lookup_app_l, take_app_le by lia; done.
  - intros i si Hi Hsi. cbn [q_live q_gone] in *. apply lookup_snoc_Some in Hi as [[Hlt Hi]|[-> <-]].
    + rewrite take_app_le by lia. rewrite state_of_ne; [by apply Hb|].
      intros ->. specialize (Hb i si Hi Hsi). by rewrite Hstate in Hb.
    + rewrite take_app_length, <-Hpp, Hlen. cbn [sl_owner s]. by rewrite state_of_eq.
  - apply lock_ok_keep; [done|]. by rewrite Hstate.
  - assert (forall s0 l, q_live q !! O = Some s0 -> (q_live q ++ l) !! O = Some s0) as Hzero.
    { intros s0 l H0. rewrite lookup_app_l by (by eapply lookup_lt_Some). done. }
    destruct c; cbn [cons_ok q_live q_held] in *; try done.
    + destruct Hc as (? & ? & s0 & Hs0). eauto 6.
    + destruct Hc as (? & s0 & Hs0 & ? & ?). eauto 8.
    + destruct Hc as (? & s0 & Hs0 & ? & ?). eauto 8.
Qed.

(** The consumer advances past the first record. *)
Lemma inv_pop r e e' T c q s live :
  Inv (Sys r e T c) q -> q_live q = s :: live -> sl_status s <> Busy ->
  (sl_status s = Discarded -> forall t, discarding (state_of T t) = false) ->
  Inv (Sys (RingBuf.advance_consumer r (RingBuf.consumer_pos r + slot_span s)) e' T CIdle)
      (Queue (q_gone q ++ [s]) live false).
Proof.
  intros [Hr Hwf Ht Hb Hl Hc] Hlive Hs Hquiet. cbn [s_ring s_threads s_cons] in *.
  pose proof (slot_span_bounds s) as Hsp. destruct Hr as [HD Hcp Hpp Hrm Hlay].
  rewrite Hlive in *. cbn [spans] in Hpp, Hrm.
  assert (spans (q_gone q ++ [s]) = spans (q_gone q) + slot_span s) as Hgone.
  { rewrite spans_app. cbn -[slot_span]. lia. }
  split; cbn [s_ring s_threads s_cons].
  - split; cbn [q_gone q_live data_size bytes RingBuf.advance_consumer RingBuf.set_metadata];
      [done|..]; rewrite ?Hgone.
    + unfold RingBuf.consumer_pos in *. cbn -[slot_span]. lia.
    + unfold RingBuf.producer_pos in *. cbn -[slot_span]. lia.
    + lia.
    + by apply layout_tail.
  - done.
  - intros t. specialize (Ht t).
    assert (forall stt size pp, stt <> sl_status s -> owned_slot r q t stt size pp ->
      owned_slot (RingBuf.advance_consumer r (RingBuf.consumer_pos r + slot_span s))
        (Queue (q_gone q ++ [s]) live false) t stt size pp) as Hown.
    { intros stt size pp Hne ([|i] & si & Hi & -> & ? & ? & ?); rewrite Hlive in *; simplify_eq/=.
      exists i, si. unfold RingBuf.consumer_pos. cbn -[slot_span]. split_and!; try done. lia. }
    assert (Busy <> sl_status s) by congruence.
    destruct (state_of T t) as [| | | | | | | |[]| |] eqn:Est; cbn [thread_ok] in *; auto; try done.
    5: { apply Hown; [|done]. intros Heq. specialize (Hquiet (eq_sym Heq) t). by rewrite Est in Hquiet. }
    all: destruct Ht as (Hsz & Ht); (split; [done|]);
      unfold RingBuf.consumer_pos, RingBuf.producer_pos in *; cbn -[slot_span span] in *;
      destruct Ht; split_and?; try done; lia.
  - intros i si Hi Hsi. cbn [q_live q_gone] in *. specialize (Hb (S i) si).
    rewrite Hlive in Hb. cbn [take spans lookup] in Hb.
    rewrite Hgone, <-Z.add_assoc. by apply Hb.
  - done.
  - done.
Qed.

(** The consumer picks up or inspects records. *)
Lemma inv_cons_local r e e' T c gone live held held' c' :
  Inv (Sys r e T c) (Queue gone live held) ->
  wf_queue (Queue gone live held') ->
  cons_ok r (Queue gone live held') c' ->
  Inv (Sys r e' T c') (Queue gone live held').
Proof. intros [[] Hwf Ht Hb Hl Hc] Hwf' Hc'. by split. Qed.

(** ** What accesses find *)

Section Found.

Context (r : RingBuf) (q : queue).
Hypothesis Hr : ring_ok r q.

Lemma ring_data_pos : 0 < data_size r.
Proof using Hr. destruct Hr as [[_ ?] _ _ _ _]. lia. Qed.

Lemma slot_len_u32 i s : q_live q !! i = Some s -> in_u 32 (Z.of_nat (length (sl_data s))).
Proof using Hr.
  intros Hi. destruct Hr as [[_ ?] _ _ ? _]. pose proof (spans_slot _ _ _ Hi).
  pose proof (slot_span_bounds s). unfold in_u. lia.
Qed.

(** A ring that is not full has room for a header. *)
Lemma ring_room8 : spans (q_live q) + 8 <= data_size r.
Proof using Hr.
  destruct Hr as [[Hpow HD] _ _ Hroom _].
  destruct (spans_mul8 (q_live q)) as [k Hk].
  pose proof (power_of_two_mul8 _ Hpow ltac:(lia)) as Hm.
  apply Z.mod_divide in Hm as [n Hn]; [|lia]. lia.
Qed.

(** The header of a record, read at its position. *)
Lemma slot_header i s :
  q_live q !! i = Some s ->
  RingBuf.header_at r
    (Z.land (RingBuf.consumer_pos r + spans (take i (q_live q))) (RingBuf.size_mask r)) =
  header_word (Z.of_nat (length (sl_data s))) (sl_status s).
Proof using Hr.
  intros Hi. destruct Hr as [[Hpow HD] Hcp _ _ Hlay].
  rewrite header_at_mask, Hcp by side. by apply Hlay.
Qed.

Lemma slot_payload i s :
  q_live q !! i = Some s ->
  load_bytes (data_size r) (bytes r)
    (Z.land (RingBuf.consumer_pos r + spans (take i (q_live q))) (RingBuf.size_mask r) + 8)
    (length (sl_data s)) = sl_data s.
Proof using Hr.
  intros Hi. destruct Hr as [[Hpow HD] Hcp _ _ Hlay].
  rewrite size_mask_phys, load_bytes_phys, Hcp by side. by apply Hlay.
Qed.

(** What the consumer finds at the head. *)
Lemma inspect_head s live :
  q_live q = s :: live -> RingBuf.producer_pos r <= u64_max ->
  Consumer.inspect r (RingBuf.consumer_pos r) =
  match sl_status s with
  | Busy => Consumer.NothingYet
  | Committed => Consumer.Found (head_record r s)
  | Discarded => Consumer.SkipTo (RingBuf.consumer_pos r + slot_span s)
  end.
Proof using Hr.
  intros Hl Hp.
  pose proof (slot_header O s) as Hh. pose proof (slot_len_u32 O s) as Hu.
  rewrite Hl in Hh, Hu. cbn [take spans lookup] in Hh, Hu. rewrite Z.add_0_r in Hh.
  unfold Consumer.inspect. rewrite Hh, header_len_and_flags by auto.
  assert (RingBuf.consumer_pos r + slot_span s <= RingBuf.producer_pos r) as Hle.
  { destruct Hr as [_ Hcp Hpp _ _]. rewrite Hl in Hpp. cbn [spans] in Hpp.
    pose proof (spans_nonneg live). lia. }
  rewrite record_span_span, wrap64_small by
    (auto; destruct Hr as [_ Hcp _ _ _]; pose proof (spans_nonneg (q_gone q));
     pose proof (slot_span_bounds s); unfold slot_span in *; lia).
  by destruct (sl_status s).
Qed.

(** There is a record at the head when the positions differ. *)
Lemma head_exists :
  RingBuf.consumer_pos r < RingBuf.producer_pos r -> exists s live, q_live q = s :: live.
Proof using Hr.
  destruct Hr as [_ Hcp Hpp _ _]. intros Hlt. destruct (q_live q); [simpl in Hpp; lia|eauto].
Qed.

Lemma as_slice_head s live :
  q_live q = s :: live -> Consumer.as_slice r (head_record r s) = sl_data s.
Proof using Hr.
  intros Hl. pose proof (slot_payload O s) as Hd. rewrite Hl in Hd.
  cbn [take spans lookup] in Hd. rewrite Z.add_0_r in Hd.
  unfold Consumer.as_slice, head_record. cbn [rec_data rec_len].
  rewrite Nat2Z.id. by apply Hd.
Qed.

End Found.

(** ** One step *)

Lemma same_ring_refl r : same_ring r r.
Proof. done. Qed.

Lemma same_ring_lock r b : same_ring r (RingBuf.set_lock r b).
Proof. done. Qed.

#[local] Hint Resolve same_ring_refl same_ring_lock : core.

(** The header of a new record is written in front of the producer position. *)
Lemma inv_header r e T c q t size cp :
  Inv (Sys r e T c) q -> state_of T t = TGotProd size cp (RingBuf.producer_pos r) ->
  RingBuf.producer_pos r + span size - cp < data_size r ->
  Inv (Sys (RingBuf.set_bytes r
              (store64 (data_size r) (bytes r) (RingBuf.producer_pos r) (header_word size Busy)))
         e (<[t := THeader size (RingBuf.producer_pos r)]> T) c) q.
Proof.
  intros [Hr Hwf Ht Hb Hl Hc] Hstate Hroom. cbn [s_ring s_threads s_cons] in *.
  pose proof (Ht t) as Htt. rewrite Hstate in Htt. destruct Htt as (Hsize & Hcp & _).
  pose proof (span_bounds size).
  destruct Hr as [HD Hcpos Hpp Hrm Hlay]. pose proof (spans_nonneg (q_live q)).
  split; cbn [s_ring s_threads s_cons].
  - split; cbn [data_size bytes RingBuf.set_bytes]; try done.
    apply layout_store_free; [lia|done|lia|]. rewrite length_le_bytes. lia.
  - done.
  - intros t'. destruct (decide (t = t')) as [<-|Hne].
    + rewrite state_of_eq. cbn [thread_ok data_size bytes RingBuf.set_bytes].
      split; [done|]. split; [done|]. split; [unfold RingBuf.consumer_pos in *; simpl; lia|].
      apply load64_store64; [lia|]. apply header_word_u64. unfold in_u. lia.
    + rewrite state_of_ne by done. specialize (Ht t').
      assert (holds_guard (state_of T t') = false) as Hg.
      { apply not_true_iff_false. intros Hg. destruct (Hl t) as [_ Hu]; [by rewrite Hstate|].
        apply Hne. symmetry. by apply Hu. }
      destruct (state_of T t') as [| | | | | | | |[]| |]; done.
  - intros i s Hi Hs. rewrite state_of_ne; [by apply Hb|].
    intros ->. specialize (Hb i s Hi Hs). by rewrite Hstate in Hb.
  - apply lock_ok_keep; [done|]. by rewrite Hstate.
  - by eapply cons_ok_same.
Qed.

(** Commit and discard. *)
Lemma inv_set_status r e T c q t st size pp status e' w :
  Inv (Sys r e T c) q -> owned_slot r q t Busy size pp ->
  w = header_word size status -> status <> Busy ->
  (st = TNotify \/ st = TDrop true size pp /\ status = Discarded) ->
  exists q',
    (live ← update_busy t (set_status status) (q_live q); Some (Queue (q_gone q) live (q_held q)))
      = Some q' /\
    Inv (Sys (RingBuf.set_header r (Z.land pp (RingBuf.size_mask r)) w) e' (<[t := st]> T) c) q'.
Proof.
  intros HI (i & s & Hi & -> & Ho & Hs & ->) -> Hstatus Hst.
  pose proof (inv_ring _ _ HI) as Hr. cbn [s_ring] in Hr.
  exists (with_slot q i (set_status status s)). split.
  { eapply update_with_slot; [exact (inv_busy _ _ HI)|done..]. }
  pose proof (ring_data_pos _ _ Hr). pose proof (slot_len_u32 _ _ Hr i s Hi).
  pose proof (ring_room8 _ _ Hr).
  destruct (Hr) as [[Hpow HD] Hcp Hpp Hrm Hlay]. rewrite set_header_mask by side.
  pose proof (spans_slot _ _ _ Hi). pose proof (slot_span_bounds s).
  rewrite Hcp in *.
  eapply inv_own_slot with (s := s); try done.
  - unfold store64. apply (layout_store _ _ _ _ i s); try done; rewrite ?length_le_bytes; try lia.
    split; [|].
    + apply load64_store64; [lia|]. by apply header_word_u64.
    + rewrite load_store_disjoint; [exact (proj2 (Hlay i s Hi))|lia|]. rewrite length_le_bytes. cbn [sl_data set_status]. lia.
  - unfold load64, store64. rewrite load_store_disjoint; [done|lia|].
    rewrite length_le_bytes, Hpp. lia.
  - destruct Hst as [->|[-> ->]]; [done|]. cbn [thread_ok].
    exists i, (set_status Discarded s). cbn [with_slot q_live].
    rewrite (spans_take_insert _ _ _ s), list_lookup_insert_eq by
      (done || by eapply lookup_lt_Some).
    by rewrite <-Hcp.
  - by destruct Hst as [->|[-> _]].
Qed.

(** A byte of the payload. *)
Lemma inv_write_byte r e T c q t size pp i b r' :
  Inv (Sys r e T c) q -> state_of T t = TReserved size pp ->
  Producer.write_byte (buffer r size pp) r i b = Some r' ->
  exists q',
    (live ← update_busy t (set_byte (Z.to_nat i) b) (q_live q);
     Some (Queue (q_gone q) live (q_held q))) = Some q' /\
    Inv (Sys r' e (<[t := TReserved size pp]> T) c) q'.
Proof.
  intros HI Hstate Hw. pose proof (inv_threads _ _ HI t) as Hown. cbn [s_threads s_ring] in Hown.
  rewrite Hstate in Hown. cbn [thread_ok] in Hown.
  destruct Hown as (k & s & Hk & -> & Ho & Hs & ->).
  unfold Producer.write_byte in Hw. cbn [rb_len rb_data buffer] in Hw. break_hyp Hw. to_prop.
  pose proof (inv_ring _ _ HI) as Hr. cbn [s_ring] in Hr.
  set (t := sl_owner s) in *.
  exists (with_slot q k (set_byte (Z.to_nat i) b s)). split.
  { eapply update_with_slot; [exact (inv_busy _ _ HI)|done..]. }
  pose proof (ring_data_pos _ _ Hr). pose proof (ring_room8 _ _ Hr).
  destruct (Hr) as [[Hpow HD] Hcp Hpp Hrm Hlay].
  pose proof (spans_slot _ _ _ Hk). pose proof (slot_span_bounds s).
  assert (length (sl_data (set_byte (Z.to_nat i) b s)) = length (sl_data s)) as Hlen.
  { cbn. apply length_insert. }
  assert (slot_span (set_byte (Z.to_nat i) b s) = slot_span s) as Hspan.
  { unfold slot_span. by rewrite Hlen. }
  unfold RecordHeader.HEADER_SIZE. rewrite size_mask_phys, <-Z.add_assoc, store_bytes_phys, Hcp by side.
  eapply inv_own_slot with (s := s); try done.
  - apply (layout_store _ _ _ _ k s); try done; cbn [length]; try lia.
    destruct (Hlay k s Hk) as [Hh Hd]. split; rewrite Hlen.
    + unfold load64 in *. rewrite load_store_disjoint by (cbn [length]; lia). done.
    + cbn [sl_data set_byte]. rewrite <-Hd at 2.
      replace (8 + i) with (8 + Z.of_nat (Z.to_nat i)) by lia. rewrite Z.add_assoc.
      apply load_store_within; lia.
  - unfold load64. rewrite load_store_disjoint; [done|lia|]. cbn [length]. lia.
  - cbn [thread_ok]. exists k, (set_byte (Z.to_nat i) b s). cbn [with_slot q_live].
    rewrite (spans_take_insert _ _ _ s), list_lookup_insert_eq by
      (done || by eapply lookup_lt_Some).
    rewrite <-Hcp, Hlen. done.
  - by rewrite Hstate, Hcp.
Qed.

(** The drop of a buffer finds the header as its owner left it. *)
Lemma drop_sees r q t d size pp :
  ring_ok r q -> thread_ok r q t (TDrop d size pp) ->
  RecordHeader.is_discarded (RingBuf.header_at r (rb_header (buffer r size pp))) = d.
Proof.
  intros Hr Ht. cbn [rb_header buffer].
  destruct d; destruct Ht as (i & s & Hi & -> & Ho & Hs & ->);
    rewrite (slot_header _ _ Hr i s), Hs, header_is_discarded by eauto using slot_len_u32; done.
Qed.

(** A step that changes only the producer's own state. *)
Ltac stay :=
  eexists; split; [done|]; eapply inv_local; try done;
  match goal with H : state_of _ _ = _ |- _ => rewrite ?H end; try done;
  try (apply lock_ok_keep; [done|]);
  match goal with H : state_of _ _ = _ |- _ => rewrite ?H end; try done.

(** The steps of a producer. *)
Lemma spin_acquired pc it obs lock r :
  lock = spinlock (metadata r) -> spin_obs r pc obs ->
  Spinlock.spin_step pc it obs = Spinlock.Acquired -> lock = false.
Proof.
  intros -> Hobs H. destruct pc, obs; cbn in *; repeat break_hyp H; auto; done.
Qed.

Lemma tstep_preserves strategy r e T c q t l r' e' st' :
  Inv (Sys r e T c) q -> spans (q_gone q) + spans (q_live q) <= 2 ^ 62 ->
  tstep strategy t r e (state_of T t) l r' e' st' ->
  exists q', spec_step q l = Some q' /\ Inv (Sys r' e' (<[t := st']> T) c) q'.
Proof.
  intros HI Hbound Hstep.
  pose proof (inv_ring _ _ HI) as Hr. pose proof (inv_threads _ _ HI t) as Ht.
  pose proof (inv_lock _ _ HI) as Hlock. cbn [s_ring s_threads] in Hr, Ht, Hlock.
  destruct (Hr) as [[Hpow HD] Hcp Hpp Hroom Hlay].
  pose proof (spans_nonneg (q_gone q)) as Hg0. pose proof (spans_nonneg (q_live q)) as Hl0.
  remember (state_of T t) as st eqn:Hst. symmetry in Hst.
  destruct Hstep; cbn [thread_ok spec_step] in *.
  - stay. cbn. lia.
  - stay.
  - stay.
  - eexists; split; [done|]. eapply inv_local; try done; [by rewrite Hst|].
    apply lock_ok_acquire. by erewrite <-spin_acquired.
  - stay. cbn. tauto.
  - stay.
  - eexists; split; [done|]. eapply inv_local; try done; [by rewrite Hst|].
    eapply lock_ok_release; [done|by rewrite Hst|done].
  - destruct Ht as (Hsize & Hcp' & ->). eexists; split; [done|].
    pose proof (span_bounds size) as Hspan. unfold i64_max in Hsize.
    rewrite total_size_span, size_mask_eq, (wrap64_small (_ + _)), wrap64_small in H
      by (side || unfold u64_max; rewrite ?wrap64_small; unfold u64_max; lia).
    rewrite (wrap_small 32 size), header_new by (unfold in_u; lia).
    rewrite set_header_mask by side. apply (inv_header _ _ _ _ _ _ _ cp); [done..|lia].
  - destruct Ht as (Hsize & -> & Hrm & Hhead).
    pose proof (span_bounds size). rewrite total_size_span, wrap64_small by
      (done || unfold u64_max, i64_max in *; lia).
    cbn [rb_data buffer]. unfold RecordHeader.HEADER_SIZE.
    rewrite size_mask_phys, load_bytes_phys by side.
    destruct (existsb _ _) eqn:Eex.
    { apply existsb_exists in Eex as (s & Hs & [Hbusy <-]%owned_busy_spec).
      apply list_elem_of_In, list_elem_of_lookup in Hs as [i Hi].
      pose proof (inv_busy _ _ HI i s Hi Hbusy) as Hb. cbn in Hb. by rewrite Hst in Hb. }
    eexists; split; [done|]. by apply inv_append.
  - eexists; split; [done|]. eapply inv_local; try done; [by rewrite Hst|].
    eapply lock_ok_release; [done|by rewrite Hst|done].
  - by eapply inv_write_byte.
  - eapply inv_set_status; try done; [|by eauto].
    destruct Ht as (i & s & Hi & -> & Ho & Hs & ->). cbn [rb_header buffer].
    rewrite (slot_header _ _ Hr i s) by done. by apply header_discard; eauto using slot_len_u32.
  - stay.
  - rewrite (drop_sees _ _ _ _ _ _ Hr Ht) in H. subst d. stay.
  - rewrite (drop_sees _ _ _ _ _ _ Hr Ht) in H. subst d. stay.
  - eapply inv_set_status; try done; [|by eauto].
    destruct Ht as (i & s & Hi & -> & Ho & Hs & ->). cbn [rb_header buffer].
    rewrite (slot_header _ _ Hr i s) by done. by apply header_commit; eauto using slot_len_u32.
  - stay.
  - stay.
Qed.

(** The steps of the consumer. *)
Lemma cstep_preserves r e T c q l r' e' c' :
  Inv (Sys r e T c) q -> spans (q_gone q) + spans (q_live q) <= 2 ^ 62 ->
  (l = LSkip -> forall t, discarding (state_of T t) = false) ->
  cstep r e c l r' e' c' ->
  exists q', spec_step q l = Some q' /\ Inv (Sys r' e' T c') q'.
Proof.
  intros HI Hbound Hquiet Hstep.
  pose proof (inv_ring _ _ HI) as Hr. pose proof (inv_cons _ _ HI) as Hc.
  pose proof (inv_wf _ _ HI) as Hwf. cbn [s_ring s_cons] in Hr, Hc.
  assert (RingBuf.producer_pos r <= u64_max) as Hp.
  { destruct Hr as [_ _ -> _ _]. unfold u64_max. lia. }
  destruct q as [gone live held]. cbn [q_live q_gone] in *.
  destruct Hstep; cbn [cons_ok spec_step q_held q_live q_gone] in *.
  - subst held. eexists; split; [done|]. by eapply inv_cons_local.
  - destruct Hc as [-> ->]. eexists; split; [done|]. by eapply inv_cons_local.
  - destruct Hc as [-> ->]. eexists; split; [done|]. eapply inv_cons_local; [done..|].
    split; [done|]. split; [done|].
    destruct (head_exists _ _ Hr) as (s & l & Hl); [done|]. cbn in *. rewrite Hl. by exists s.
  - destruct Hc as (-> & -> & _). eexists; split; [done|]. by eapply inv_cons_local.
  - destruct Hc as (-> & -> & s & Hs). destruct live as [|s0 live]; [done|]. injection Hs as ->.
    rewrite (inspect_head _ _ Hr s live eq_refl Hp) in H.
    destruct (sl_status s) eqn:Est; simplify_eq.
    rewrite !bool_decide_true; [|by erewrite as_slice_head|done].
    eexists; split; [done|]. eapply inv_cons_local; [done|intros _; by eauto|].
    split; [done|]. by exists s.
  - destruct Hc as (-> & -> & s & Hs). destruct live as [|s0 live]; [done|]. injection Hs as ->.
    rewrite (inspect_head _ _ Hr s live eq_refl Hp) in H.
    destruct (sl_status s) eqn:Est; simplify_eq.
    eexists; split; [done|]. eapply inv_cons_local; [done|done|].
    split; [done|]. by exists s.
  - destruct Hc as (-> & s & Hs & Est & ->). destruct live as [|s0 live]; [done|]. injection Hs as ->.
    rewrite bool_decide_true by done. eexists; split; [done|].
    eapply (inv_pop _ _ _ _ _ (Queue gone (s :: live) _)); [done|done|congruence|auto].
  - destruct Hc as (-> & s & Hs & Est & ->). destruct live as [|s0 live]; [done|]. injection Hs as ->.
    eexists; split; [done|]. unfold Consumer.drop_record, head_record. cbn [rec_total].
    eapply (inv_pop _ _ _ _ _ (Queue gone (s :: live) _)); [done|done|congruence|congruence].
  - subst held. eexists; split; [done|]. by eapply inv_cons_local.
Qed.

Lemma quiet_step_preserves strategy s q a l s' :
  Inv s q -> spans (q_gone q) + spans (q_live q) <= 2 ^ 62 ->
  quiet_step strategy s a l s' ->
  exists q', spec_step q l = Some q' /\ Inv s' q'.
Proof.
  intros HI Hbound [Hstep Hquiet]. destruct Hstep; destruct s as [r0 e0 T0 c0]; cbn in *.
  - by eapply tstep_preserves.
  - by eapply cstep_preserves.
Qed.

Lemma inv_init D :
  is_power_of_two D = true -> 8 <= D <= 2 ^ 32 -> Inv (init D) empty_queue.
Proof.
  intros Hpow HD. split; cbn [s_ring s_threads s_cons init].
  - by split; try (cbn; lia).
  - done.
  - done.
  - done.
  - done.
  - done.
Qed.

(** The bytes of all records are those reserved so far. *)
Lemma spec_step_spans q l q' :
  spec_step q l = Some q' ->
  spans (q_gone q') + spans (q_live q') = spans (q_gone q) + spans (q_live q) + reserved_bytes [l].
Proof.
  destruct q as [gone live held]. intros H.
  assert (forall t f live', update_busy t f live = Some live' ->
    (forall s, length (sl_data (f s)) = length (sl_data s)) -> spans live' = spans live) as Hupd.
  { intros t f live' (l1 & s & l2 & -> & -> & _)%update_busy_some Hf.
    rewrite !spans_app. cbn [spans]. unfold slot_span. by rewrite Hf. }
  destruct l; cbn [spec_step q_live q_gone q_held reserved_bytes foldr] in *;
    repeat break_hyp H; simplify_eq/=; rewrite ?spans_app; cbn [spans]; try lia.
  - unfold slot_span. cbn [sl_data]. lia.
  - rewrite (Hupd _ _ _ H0); [lia|]. intros. apply length_insert.
  - rewrite (Hupd _ _ _ H0); [lia|done].
  - rewrite (Hupd _ _ _ H0); [lia|done].
Qed.

Lemma replay_spans q tr q' :
  replay q tr = Some q' ->
  spans (q_gone q') + spans (q_live q') = spans (q_gone q) + spans (q_live q) + reserved_bytes tr.
Proof.
  revert q. induction tr as [|l tr IH]; intros q H; simpl in H.
  - simplify_eq. cbn. lia.
  - destruct (spec_step q l) as [q1|] eqn:E; [|done].
    rewrite (IH q1 H), (spec_step_spans q l q1 E).
    change (l :: tr) with ([l] ++ tr). rewrite reserved_bytes_app. lia.
Qed.

Lemma run_inv strategy D tr s :
  is_power_of_two D = true -> 8 <= D <= 2 ^ 32 ->
  run (quiet_step strategy) (init D) tr s -> reserved_bytes tr <= 2 ^ 62 ->
  exists q, replay empty_queue tr = Some q /\ Inv s q.
Proof.
  intros Hpow HD Hrun. induction Hrun as [|tr s a l s' Hrun IH Hstep]; intros Hbytes.
  - exists empty_queue. split; [done|]. by apply inv_init.
  - rewrite reserved_bytes_app in Hbytes. pose proof (reserved_bytes_nonneg [l]).
    destruct IH as (q & Hq & HI); [lia|].
    destruct (quiet_step_preserves strategy s q a l s') as (q' & Hl & HI'); try done.
    { rewrite (replay_spans _ _ _ Hq). cbn. lia. }
    exists q'. split; [|done]. rewrite replay_app, Hq. cbn. by rewrite Hl.
Qed.
