(* ===== verification/RingRuns.v ===== *)
(** * Runs of the ring buffer

    An executable scheduler for the steps of [RingSystem] and the theorems on
    whole runs: every interleaving of producers and the consumer implements the
    queue of [RingSpec], with the one exception of a discard that the consumer
    overtakes. *)

From S2P Require Import Prelude RingMem RingSpec Ring RingSystem.

(** ** Schedules *)

(** The next access of a producer where it has a choice: the size to reserve,
    what an access to the lock observes, a byte to write, to discard or to drop
    the buffer; [Go] where it has none. *)
Inductive choice :=
| Start (size : Z)
| Access (obs : bool)
| WriteByte (i b : Z)
| Discard
| Go.

Inductive move :=
| MProd (t : nat) (c : choice)
| MCons
| MWait.

Section Schedule.

Variable strategy : nat -> WakeupStrategy.

Definition exec_prod (t : nat) (c : choice) (r : RingBuf) (e : Z) (st : tstate)
    : option (label * RingBuf * Z * tstate) :=
  match st, c with
  | TIdle, Start size =>
      if (0 <=? size) && (size <=? i64_max)
      then Some (LTau, r, e, TSpin size (RingBuf.consumer_pos r) Spinlock.AtCas 0) else None
  | TSpin size cp pc it, Access obs =>
      let allowed := match pc with
                     | Spinlock.AtCas => negb (obs && spinlock (metadata r))
                     | Spinlock.AtLoad => eqb obs (spinlock (metadata r))
                     end in
      if allowed then
        match Spinlock.spin_step pc it obs with
        | Spinlock.Acquired => Some (LTau, RingBuf.set_lock r true, e, TLocked size cp)
        | Spinlock.TimedOut => Some (LTau, r, e, TIdle)
        | Spinlock.Spinning pc it => Some (LTau, r, e, TSpin size cp pc it)
        end
      else None
  | TLocked size cp, Go => Some (LTau, r, e, TGotProd size cp (RingBuf.producer_pos r))
  | TGotProd size cp pp, Go =>
      if RingBuf.size_mask r <? (pp +64 Producer.total_size size) -64 cp
      then Some (LTau, r, e, TFull)
      else Some (LTau,
                 RingBuf.set_header r (Z.land pp (RingBuf.size_mask r)) (RecordHeader.new (wrap 32 size)),
                 e, THeader size pp)
  | TFull, Go => Some (LTau, RingBuf.set_lock r false, e, TIdle)
  | THeader size pp, Go =>
      Some (LReserve t (load_bytes (data_size r) (bytes r) (rb_data (buffer r size pp)) (Z.to_nat size)),
            RingBuf.advance_producer r (pp +64 Producer.total_size size), e, TAdvanced size pp)
  | TAdvanced size pp, Go => Some (LTau, RingBuf.set_lock r false, e, TReserved size pp)
  | TReserved size pp, WriteByte i b =>
      if (0 <=? b) && (b <? 256) then
        r' ← Producer.write_byte (buffer r size pp) r i b;
        Some (LWrite t (Z.to_nat i) b, r', e, TReserved size pp)
      else None
  | TReserved size pp, Discard =>
      Some (LDiscard t,
            RingBuf.set_header r (rb_header (buffer r size pp))
              (RecordHeader.discard (RingBuf.header_at r (rb_header (buffer r size pp)))),
            e, TDrop true size pp)
  | TReserved size pp, Go => Some (LTau, r, e, TDrop false size pp)
  | TDrop d size pp, Go =>
      if RecordHeader.is_discarded (RingBuf.header_at r (rb_header (buffer r size pp)))
      then Some (LTau, r, e, TNotify) else Some (LTau, r, e, TCommit size pp)
  | TCommit size pp, Go =>
      Some (LCommit t,
            RingBuf.set_header r (rb_header (buffer r size pp))
              (RecordHeader.commit (RingBuf.header_at r (rb_header (buffer r size pp)))),
            e, TNotify)
  | TNotify, Go =>
      match strategy t with
      | Forced => e ← Notification.notify e; Some (LTau, r, e, TIdle)
      | NoWakeup => Some (LTau, r, e, TIdle)
      end
  | _, _ => None
  end.

Definition exec_cons (r : RingBuf) (e : Z) (c : cstate) : label * RingBuf * Z * cstate :=
  match c with
  | CIdle => (LTau, r, e, CGotCons (RingBuf.consumer_pos r))
  | CGotCons cp =>
      if RingBuf.producer_pos r <=? cp then (LTau, r, e, CIdle) else (LTau, r, e, CGotBoth cp)
  | CGotBoth cp =>
      match Consumer.inspect r cp with
      | Consumer.NothingYet => (LTau, r, e, CIdle)
      | Consumer.Found rec => (LDeliver (Consumer.as_slice r rec), r, e, CRecord rec)
      | Consumer.SkipTo pos => (LTau, r, e, CSkip pos)
      end
  | CSkip pos => (LSkip, RingBuf.advance_consumer r pos, e, CIdle)
  | CRecord rec => (LRelease, Consumer.drop_record r rec, e, CIdle)
  end.

Definition exec_move (s : sys) (m : move) : option (actor * label * sys) :=
  match m with
  | MProd t c =>
      '(l, r, e, st) ← exec_prod t c (s_ring s) (s_event s) (state_of (s_threads s) t);
      Some (Prod t, l, Sys r e (<[t := st]> (s_threads s)) (s_cons s))
  | MCons =>
      let '(l, r, e, c) := exec_cons (s_ring s) (s_event s) (s_cons s) in
      Some (Cons, l, Sys r e (s_threads s) c)
  | MWait =>
      match s_cons s with
      | CIdle =>
          e ← Notification.wait (s_event s);
          Some (Cons, LTau, Sys (s_ring s) e (s_threads s) CIdle)
      | _ => None
      end
  end.

(** The step is quiet. *)
Definition quiet (s : sys) (l : label) : bool :=
  match l with
  | LSkip => forallb (fun x => negb (discarding x.2)) (map_to_list (s_threads s))
  | _ => true
  end.

Fixpoint exec (s : sys) (ms : list move) : option (list label * bool * sys) :=
  match ms with
  | [] => Some ([], true, s)
  | m :: ms =>
      '(a, l, s1) ← exec_move s m;
      '(tr, ok, s2) ← exec s1 ms;
      Some (l :: tr, quiet s l && ok, s2)
  end.

Lemma exec_prod_sound t c r e st l r' e' st' :
  exec_prod t c r e st = Some (l, r', e', st') -> tstep strategy t r e st l r' e' st'.
Proof.
  intros H. destruct st, c; cbn [exec_prod] in H; try done; repeat break_hyp H; simplify_eq; to_prop;
    try (by apply ts_no_notify); econstructor; eauto; try lia; try (split; done).
  all: destruct pc, obs; cbn in *; destruct (spinlock _); done.
Qed.

Lemma exec_cons_sound r e c l r' e' c' :
  exec_cons r e c = (l, r', e', c') -> cstep r e c l r' e' c'.
Proof.
  intros H. destruct c; cbn [exec_cons] in H; repeat break_hyp H; simplify_eq; to_prop; by econstructor.
Qed.

Lemma exec_move_sound s m a l s' : exec_move s m = Some (a, l, s') -> step strategy s a l s'.
Proof.
  destruct m as [t c| |]; cbn [exec_move].
  - intros ([[[l1 r] e] st] & Hp & H)%bind_Some. simplify_eq.
    apply step_prod. by eapply exec_prod_sound.
  - destruct (exec_cons _ _ _) as [[[l1 r] e] c] eqn:Hc. intros. simplify_eq.
    apply step_cons. by eapply exec_cons_sound.
  - destruct (s_cons s) eqn:Hc; try done. intros (e & Hw & H)%bind_Some. simplify_eq.
    apply step_cons. rewrite Hc. by constructor.
Qed.

Lemma quiet_sound s a l s' :
  step strategy s a l s' -> quiet s l = true -> quiet_step strategy s a l s'.
Proof.
  intros Hstep Hq. split; [done|]. intros -> t. cbn in Hq.
  unfold state_of. destruct (s_threads s !! t) as [st|] eqn:Ht; [|done]. cbn.
  rewrite forallb_forall in Hq. specialize (Hq (t, st)). apply negb_true_iff, Hq.
  by apply list_elem_of_In, elem_of_map_to_list.
Qed.

Lemma run_cons (stp : sys -> actor -> label -> sys -> Prop) s0 a l s1 tr s :
  stp s0 a l s1 -> run stp s1 tr s -> run stp s0 (l :: tr) s.
Proof.
  intros Hstep Hrun. induction Hrun as [|tr s a' l' s' Hrun IH Hs].
  - apply (run_snoc stp s0 [] s0 a l s1); [constructor|done].
  - change (l :: tr ++ [l']) with ((l :: tr) ++ [l']). by eapply run_snoc.
Qed.

(** Schedules are runs; quiet ones, quiet runs. *)
Lemma exec_run s ms tr ok s' : exec s ms = Some (tr, ok, s') -> run (step strategy) s tr s'.
Proof.
  revert s tr ok. induction ms as [|m ms IH]; intros s tr ok H; cbn [exec] in H.
  - simplify_eq. constructor.
  - apply bind_Some in H as ([[a l] s1] & Hm & H).
    apply bind_Some in H as ([[tr1 ok1] s2] & Hms & H). simplify_eq.
    eapply run_cons; [by eapply exec_move_sound|by eapply IH].
Qed.

Lemma exec_quiet_run s ms tr s' :
  exec s ms = Some (tr, true, s') -> run (quiet_step strategy) s tr s'.
Proof.
  revert s tr. induction ms as [|m ms IH]; intros s tr H; cbn [exec] in H.
  - simplify_eq. constructor.
  - apply bind_Some in H as ([[a l] s1] & Hm & H).
    apply bind_Some in H as ([[tr1 ok1] s2] & Hms & H). simplify_eq. to_prop. subst.
    eapply run_cons; [|by eapply IH].
    eapply quiet_sound; [by eapply exec_move_sound|done].
Qed.

End Schedule.

(** ** Properties of runs *)

(** The moves of one successful access after another. *)
Definition reserve_moves (t : nat) (size : Z) : list move :=
  [MProd t (Start size); MProd t (Access true)] ++ repeat (MProd t Go) 4.

Definition write_moves (t : nat) (bs : list Z) : list move :=
  imap (fun i b => MProd t (WriteByte (Z.of_nat i) b)) bs.

Definition drop_moves (t : nat) : list move := repeat (MProd t Go) 4.

Definition consume_moves : list move := repeat MCons 4.

(** Two producers, interleaved; the first record is committed last, the third
    is discarded. *)
Definition demo_schedule : list move :=
  reserve_moves 0 3 ++ [MCons; MCons; MCons] ++ reserve_moves 1 2 ++ write_moves 1 [7; 8] ++
  drop_moves 1 ++ write_moves 0 [1; 2; 3] ++ consume_moves ++ drop_moves 0 ++
  consume_moves ++ reserve_moves 0 5 ++ [MProd 0 Discard; MProd 0 Go; MProd 0 Go] ++
  [MCons; MCons; MCons].

Definition demo : option (list label * bool * sys) :=
  exec (fun _ => Forced) (init 64) demo_schedule.

Definition demo_trace : list label := match demo with Some (tr, _, _) => tr | None => [] end.

Definition demo_end : sys := match demo with Some (_, _, s) => s | None => init 64 end.

Lemma demo_run : run (quiet_step (fun _ => Forced)) (init 64) demo_trace demo_end.
Proof. apply (exec_quiet_run _ _ demo_schedule). by vm_compute. Qed.

(** The size of the buffer is fixed. *)
Lemma run_data_size strategy s0 tr s :
  run (quiet_step strategy) s0 tr s -> data_size (s_ring s) = data_size (s_ring s0).
Proof.
  induction 1 as [|tr s a l s' H IH [Hs _]]; [done|].
  rewrite <-IH. destruct Hs as [s t l r e st Hs|s l r e c Hs]; cbn.
  - destruct Hs as [| | | | | | | | | |???????? Hw| | | | | | | ]; try done.
    unfold Producer.write_byte in Hw. by break_hyp Hw.
  - by destruct Hs.
Qed.

Section Runs.

Context (strategy : nat -> WakeupStrategy) (D : Z) (tr : list label) (s : sys).
Hypothesis Hpow : is_power_of_two D = true.
Hypothesis HD : 8 <= D <= 2 ^ 32.
Hypothesis Hrun : run (quiet_step strategy) (init D) tr s.
Hypothesis Hbytes : reserved_bytes tr <= 2 ^ 62.

(** C1. Every interleaving of any number of producers and the consumer
    implements the queue: the events of the run are events the queue allows, and
    the memory, the positions, the lock and what each thread is about to do agree
    with the queue they lead to.  (The ring holds at most 4 GiB, the positions
    have not passed [2^62], and the consumer does not overtake a discard, see
    C3.) *)
Theorem ring_refines_queue :
  exists q, replay empty_queue tr = Some q /\ Inv s q.
Proof using All. by eapply run_inv. Qed.

(** C2. First in, first out, exactly once: the payloads the consumer receives
    are those of the committed records among the records it has passed or holds,
    in the order of the reservations, which is the order of the records in the
    ring. *)
Theorem ring_fifo :
  exists q, replay empty_queue tr = Some q /\
    deliveries tr = committed (received q) /\
    (received q) `prefix_of` (q_gone q ++ q_live q) /\
    map sl_owner (q_gone q ++ q_live q) = reservations tr.
Proof using All.
  destruct (run_inv strategy D tr s) as (q & Hq & HI); try done.
  exists q. split; [done|].
  assert (wf_queue empty_queue) as Hwf by done.
  destruct (replay_received _ _ _ Hwf Hq) as [_ Hrec]. split; [by rewrite Hrec|]. split.
  - unfold received. apply prefix_app. destruct (q_held q).
    + exists (drop 1 (q_live q)). by rewrite take_drop.
    + apply prefix_nil.
  - by rewrite (replay_owners _ _ _ Hq).
Qed.

(** C4. The slice of a [Record] stays what was delivered for as long as the
    consumer holds the record, whatever the producers do. *)
Theorem ring_record_stable rec :
  s_cons s = CRecord rec -> last (deliveries tr) = Some (Consumer.as_slice (s_ring s) rec).
Proof using All.
  intros Hc. destruct (run_inv strategy D tr s) as (q & Hq & HI); try done.
  pose proof (inv_cons _ _ HI) as Hcons. rewrite Hc in Hcons.
  destruct Hcons as (Hheld & sl & Hsl & Hst & ->).
  assert (wf_queue empty_queue) as Hwf by done.
  destruct (replay_received _ _ _ Hwf Hq) as [_ Hrec]. cbn in Hrec. rewrite <-Hrec.
  destruct (q_live q) as [|s0 live] eqn:Hl; [done|]. injection Hsl as ->.
  rewrite (as_slice_head _ _ (inv_ring _ _ HI) sl live Hl).
  unfold received. rewrite Hheld, Hl, committed_app. cbn [take].
  unfold committed at 2. rewrite filter_cons_True by done. apply last_snoc.
Qed.

(** C5. At most one producer is between taking and releasing the lock, the
    lock word is set while one is, and the records between the two positions
    fill less than the buffer, in whole words. *)
Theorem ring_capacity :
  lock_ok (s_threads s) (spinlock (metadata (s_ring s))) /\
  0 <= RingBuf.producer_pos (s_ring s) - RingBuf.consumer_pos (s_ring s) < D /\
  (8 | RingBuf.producer_pos (s_ring s)) /\ (8 | RingBuf.consumer_pos (s_ring s)).
Proof using All.
  destruct (run_inv strategy D tr s) as (q & Hq & HI); try done.
  pose proof (inv_lock _ _ HI). destruct (inv_ring _ _ HI) as [_ Hcp Hpp Hroom _].
  assert (data_size (s_ring s) = D) as HDs.
  { by rewrite (run_data_size _ _ _ _ Hrun). }
  split; [done|]. rewrite Hcp, Hpp, HDs in *.
  pose proof (spans_nonneg (q_live q)). split; [lia|].
  split; [apply Z.divide_add_r; apply spans_mul8|apply spans_mul8].
Qed.

End Runs.

(** The demo run received the third record's predecessors in reservation order
    although they were committed in the other order. *)
Example demo_deliveries : deliveries demo_trace = [[1; 2; 3]; [7; 8]].
Proof. by vm_compute. Qed.

Lemma ring_refines_queue_witness :
  length demo_trace = 48%nat /\ exists q, replay empty_queue demo_trace = Some q /\ Inv demo_end q.
Proof.
  split; [by vm_compute|].
  apply (ring_refines_queue (fun _ => Forced) 64); [reflexivity|lia|exact demo_run|].
  vm_compute. discriminate.
Defined.

Lemma ring_fifo_witness :
  exists q, replay empty_queue demo_trace = Some q /\
    [[1; 2; 3]; [7; 8]] = committed (received q) /\
    (received q) `prefix_of` (q_gone q ++ q_live q) /\
    map sl_owner (q_gone q ++ q_live q) = [0; 1; 0]%nat.
Proof.
  apply (ring_fifo (fun _ => Forced) 64 demo_trace demo_end); [reflexivity|lia|exact demo_run|].
  vm_compute. discriminate.
Defined.

Lemma ring_record_stable_witness :
  exists s rec, exec (fun _ => Forced) (init 64)
      (reserve_moves 0 2 ++ write_moves 0 [5; 6] ++ drop_moves 0 ++ [MCons; MCons; MCons] ++
       reserve_moves 1 8 ++ write_moves 1 [9]) = Some s /\
    s_cons s.2 = CRecord rec /\ last (deliveries s.1.1) = Some (Consumer.as_slice (s_ring s.2) rec).
Proof.
  eexists _, _. split; [vm_compute; reflexivity|]. split; [reflexivity|].
  apply (ring_record_stable (fun _ => Forced) 64); [reflexivity|lia| |vm_compute; discriminate|reflexivity].
  apply (exec_quiet_run _ _ (reserve_moves 0 2 ++ write_moves 0 [5; 6] ++ drop_moves 0 ++
    [MCons; MCons; MCons] ++ reserve_moves 1 8 ++ write_moves 1 [9])). reflexivity.
Defined.

Lemma ring_capacity_witness :
  lock_ok (s_threads demo_end) (spinlock (metadata (s_ring demo_end))) /\
  0 <= RingBuf.producer_pos (s_ring demo_end) - RingBuf.consumer_pos (s_ring demo_end) < 64 /\
  (8 | RingBuf.producer_pos (s_ring demo_end)) /\ (8 | RingBuf.consumer_pos (s_ring demo_end)).
Proof.
  apply (ring_capacity (fun _ => Forced) 64 demo_trace); [reflexivity|lia|exact demo_run|].
  vm_compute. discriminate.
Defined.

(** ** The discard race *)

(** Producer 0 discards; before its drop looks at the header again, the consumer
    steps over the record and the ring wraps around to it. *)
Definition race_schedule : list move :=
  reserve_moves 0 8 ++ [MProd 0 Discard] ++ consume_moves ++
  reserve_moves 1 40 ++ drop_moves 1 ++ consume_moves ++
  reserve_moves 2 8 ++ write_moves 2 [1; 2] ++
  repeat (MProd 0 Go) 3 ++ [MCons; MCons; MCons].

(** C3. [ReservedBuffer::discard] runs the destructor, which reads the header
    once more.  When the consumer has stepped over the record in between and the
    ring has wrapped around, that header belongs to another producer's record:
    the destructor commits it, and the consumer delivers a record its owner is
    still writing (producer 2 holds its buffer for the record at position 64
    while the consumer holds the slice of the same bytes).  The queue has no such
    run. *)
Theorem discard_race_breaks_queue :
  exists tr s rec,
    run (step (fun _ => NoWakeup)) (init 64) tr s /\
    replay empty_queue tr = None /\
    state_of (s_threads s) 2 = TReserved 8 64 /\
    ~ In (LCommit 2) tr /\
    s_cons s = CRecord rec /\
    rec_data rec = rb_data (buffer (s_ring s) 8 64) /\
    last (deliveries tr) = Some [1; 2; 0; 0; 0; 0; 0; 0].
Proof.
  destruct (exec (fun _ => NoWakeup) (init 64) race_schedule) as [[[tr ok] s]|] eqn:E;
    [|vm_compute in E; discriminate].
  exists tr, s. pose proof (exec_run _ _ _ _ _ _ E) as Hrun.
  vm_compute in E. injection E as <- _ <-.
  eexists. split; [exact Hrun|]. vm_compute.
  split_and!; try reflexivity. intros H. repeat destruct H as [H|H]; done.
Qed.
