(* ===== verification/RingOps.v ===== *)
(** * Single calls on the ring buffer

    The operations of [Ring] one call at a time: what each returns on every
    branch, that the loops end, and the round trip of one record. *)

From S2P Require Import Prelude RingMem RingSpec Ring RingSystem.

(** ** The spinlock *)

Lemma spin_step_measure pc it obs pc' it' :
  Spinlock.spin_step pc it obs = Spinlock.Spinning pc' it' -> it < Spinlock.SPIN_LIMIT ->
  Spinlock.spin_measure pc' it' < Spinlock.spin_measure pc it /\ it' < Spinlock.SPIN_LIMIT.
Proof.
  unfold Spinlock.spin_step, Spinlock.spin_measure. intros H Hit.
  destruct pc, obs; repeat break_hyp H; simplify_eq; to_prop; lia.
Qed.

(** What the accesses are, by what the ones before observed: the first attempts to
    take the lock, and so does each that follows a load that found it free; the
    others are loads. *)
Fixpoint attempts (obs : nat -> bool) (k : nat) : bool :=
  match k with O => true | S k => negb (attempts obs k) && negb (obs k) end.

(** An attempt that succeeds, and an access that finds the lock taken: an attempt that
    fails or a load that returns it. *)
Definition succeeds (obs : nat -> bool) (k : nat) : bool := attempts obs k && obs k.

Definition finds_taken (obs : nat -> bool) (k : nat) : bool := eqb (attempts obs k) (negb (obs k)).

(** How often the lock was found taken by the first [k] accesses. *)
Fixpoint times_taken (obs : nat -> bool) (k : nat) : Z :=
  match k with O => 0 | S k => times_taken obs k + if finds_taken obs k then 1 else 0 end.

(** The access number [k] is the last one, and decides. *)
Definition decided (obs : nat -> bool) (k : nat) (b : bool) : Prop :=
  (forall j, (j < k)%nat -> succeeds obs j = false) /\ times_taken obs k < Spinlock.SPIN_LIMIT /\
  if b then succeeds obs k = true
  else succeeds obs k = false /\ times_taken obs (S k) = Spinlock.SPIN_LIMIT.

Definition standing (obs : nat -> bool) (k : nat) : Spinlock.spin_pc :=
  if attempts obs k then Spinlock.AtCas else Spinlock.AtLoad.

Lemma spin_step_access obs k :
  times_taken obs k < Spinlock.SPIN_LIMIT ->
  match Spinlock.spin_step (standing obs k) (times_taken obs k) (obs k) with
  | Spinlock.Acquired => succeeds obs k = true
  | Spinlock.TimedOut => succeeds obs k = false /\ times_taken obs (S k) = Spinlock.SPIN_LIMIT
  | Spinlock.Spinning pc it =>
      succeeds obs k = false /\ pc = standing obs (S k) /\ it = times_taken obs (S k)
  end.
Proof.
  intros Hk. unfold standing, succeeds. cbn [attempts times_taken]. unfold finds_taken.
  destruct (attempts obs k), (obs k); cbn [Spinlock.spin_step negb andb eqb]; rewrite ?Z.add_0_r; try done;
    destruct (Z.leb_spec Spinlock.SPIN_LIMIT (times_taken obs k + 1)); (split; [done|]); try done; lia.
Qed.

Lemma spin_total n obs k :
  times_taken obs k < Spinlock.SPIN_LIMIT -> (forall j, (j < k)%nat -> succeeds obs j = false) ->
  Spinlock.spin_measure (standing obs k) (times_taken obs k) <= Z.of_nat n ->
  exists m b, (k + m < k + n)%nat /\ decided obs (k + m) b /\
    forall fuel, Spinlock.spin fuel obs k (standing obs k) (times_taken obs k) =
      if (m <? fuel)%nat then Some b else None.
Proof.
  revert k. induction n as [|n IH]; intros k Hk Hno Hn.
  { unfold Spinlock.spin_measure in Hn. destruct (standing obs k); lia. }
  pose proof (spin_step_access obs k Hk) as Hs.
  destruct (Spinlock.spin_step _ _ _) as [| |pc it] eqn:E.
  - exists O, true. rewrite Nat.add_0_r. split; [lia|]. split; [done|]. intros [|fuel]; [done|]. cbn. by rewrite E.
  - exists O, false. rewrite Nat.add_0_r. split; [lia|]. split; [done|]. intros [|fuel]; [done|]. cbn. by rewrite E.
  - destruct (spin_step_measure _ _ _ _ _ E Hk) as [Hlt Hit]. destruct Hs as (Hf & -> & ->).
    destruct (IH (S k)) as (m & b & Hm & Hd & Hfuel); [done| |lia|].
    { intros j Hj. destruct (decide (j = k)) as [->|]; [done|]. apply Hno. lia. }
    exists (S m), b. rewrite <-Nat.add_succ_comm. split; [lia|]. split; [done|].
    intros [|fuel]; [done|]. cbn [Spinlock.spin]. rewrite E, Hfuel. done.
Qed.

Definition lock_fuel : nat := Z.to_nat (2 * Spinlock.SPIN_LIMIT).

Lemma try_lock_decided obs :
  exists k b, (k < lock_fuel)%nat /\ decided obs k b /\
    forall fuel, Spinlock.try_lock fuel obs = if (k <? fuel)%nat then Some b else None.
Proof.
  destruct (spin_total lock_fuel obs 0) as (k & b & Hk & Hd & Hf); [done|lia| |].
  { cbn [standing attempts times_taken]. unfold Spinlock.spin_measure, lock_fuel. rewrite Z2Nat.id; unfold Spinlock.SPIN_LIMIT; lia. }
  exists k, b. split; [lia|]. by split.
Qed.

Lemma try_lock_returns obs :
  exists b, Spinlock.try_lock lock_fuel obs = Some b /\
    (b = true -> exists k, succeeds obs k = true) /\ (obs O = true -> b = true).
Proof.
  destruct (try_lock_decided obs) as (k & b & Hk & (Hno & _ & Hb) & Hf). exists b. rewrite Hf.
  rewrite (proj2 (Nat.ltb_lt _ _) Hk). split; [done|]. split; [intros ->; by exists k|].
  intros H0. destruct b; [done|]. destruct Hb as [Hb _]. destruct k as [|k]; [|specialize (Hno O ltac:(lia))];
    unfold succeeds in *; cbn in *; congruence.
Qed.

(** C6. [try_lock] returns, and exactly when and what it is meant to.  Whatever its
    accesses observe, there is a last one, within twice the iteration limit; no access
    before it was a successful compare-and-exchange, and the lock was found taken less
    than [SPIN_LIMIT] times by then.  If [try_lock] returns a guard, the last access is
    a compare-and-exchange that succeeds; otherwise it is one that finds the lock taken
    for the [SPIN_LIMIT]-th time.  The first access is a compare-and-exchange, so a lock
    it takes is taken at once; later ones follow a load that found the lock free. *)
Theorem try_lock_total obs :
  exists k b, (k < Z.to_nat (2 * Spinlock.SPIN_LIMIT))%nat /\
    (forall fuel, Spinlock.try_lock fuel obs = if (k <? fuel)%nat then Some b else None) /\
    (forall j, (j < k)%nat -> attempts obs j = true -> obs j = false) /\
    times_taken obs k < Spinlock.SPIN_LIMIT /\
    (if b then attempts obs k = true /\ obs k = true
     else succeeds obs k = false /\ times_taken obs (S k) = Spinlock.SPIN_LIMIT) /\
    (obs O = true -> k = O /\ b = true).
Proof.
  destruct (try_lock_decided obs) as (k & b & Hk & (Hno & Ht & Hb) & Hf). exists k, b. split_and!; try done.
  - intros j Hj Ha. specialize (Hno j Hj). unfold succeeds in Hno. by rewrite Ha in Hno.
  - destruct b; [|done]. by apply andb_true_iff in Hb.
  - intros H0. destruct k as [|k]; [|specialize (Hno O ltac:(lia)); unfold succeeds in Hno; cbn in Hno; congruence].
    split; [done|]. destruct b; [done|]. destruct Hb as [Hb _]. unfold succeeds in Hb. cbn in Hb. congruence.
Qed.

(** ** Reserving *)

Section Reserve.

Context (r : RingBuf) (cp size : Z).
Hypothesis Hpow : is_power_of_two (data_size r) = true.
Hypothesis HD : 8 <= data_size r <= 2 ^ 62.
Hypothesis Hsize : 0 <= size <= i64_max.
Hypothesis Hpos : 0 <= cp <= RingBuf.producer_pos r /\ RingBuf.producer_pos r <= 2 ^ 62.

Let prod := RingBuf.producer_pos r.
Let D := data_size r.

Lemma new_prod_pos_eq : prod +64 Producer.total_size size = prod + span size.
Proof using Hsize Hpos.
  pose proof (span_bounds size). unfold i64_max in Hsize.
  rewrite total_size_span by done. apply wrap64_small. unfold u64_max, prod. lia.
Qed.

Lemma used_eq : (prod +64 Producer.total_size size) -64 cp = prod + span size - cp.
Proof using Hsize Hpos.
  rewrite new_prod_pos_eq. pose proof (span_bounds size). unfold i64_max in Hsize.
  apply wrap64_small. unfold u64_max, prod. lia.
Qed.

Lemma reserve_locked_fits :
  prod + span size - cp < D ->
  Producer.reserve_locked true r cp size =
    (Ok (buffer r size prod),
     RingBuf.set_lock (RingBuf.advance_producer
        (RingBuf.set_bytes r (store64 D (bytes r) prod (header_word (wrap 32 size) Busy)))
        (prod + span size)) false).
Proof using All.
  intros Hfit. unfold Producer.reserve_locked. cbn [negb].
  change (RingBuf.producer_pos (RingBuf.set_lock r true)) with prod.
  change (RingBuf.size_mask (RingBuf.set_lock r true)) with (RingBuf.size_mask r).
  rewrite used_eq, new_prod_pos_eq. pose proof (span_bounds size).
  assert ((RingBuf.size_mask r <? prod + span size - cp) = false) as ->.
  { apply Z.ltb_ge. rewrite size_mask_eq by side. fold D. lia. }
  unfold RingBuf.set_header. cbn [data_size bytes RingBuf.set_lock RingBuf.set_metadata].
  rewrite header_new by (apply wrap_bound; lia).
  unfold buffer. rewrite !size_mask_phys by side. by rewrite store64_phys.
Qed.

Lemma reserve_locked_full :
  spinlock (metadata r) = false -> D <= prod + span size - cp ->
  Producer.reserve_locked true r cp size =
    (Err (InsufficientSpace (prod + span size) cp (D - 1)), r).
Proof using All.
  intros Hfree Hfull. unfold Producer.reserve_locked. cbn [negb].
  change (RingBuf.producer_pos (RingBuf.set_lock r true)) with prod.
  change (RingBuf.size_mask (RingBuf.set_lock r true)) with (RingBuf.size_mask r).
  rewrite used_eq, new_prod_pos_eq.
  assert ((RingBuf.size_mask r <? prod + span size - cp) = true) as ->.
  { apply Z.ltb_lt. rewrite size_mask_eq by side. fold D. lia. }
  rewrite size_mask_eq by side. fold D. f_equal.
  destruct r as [? [] ?]. cbn in *. by subst.
Qed.

(** [Producer::reserve] on every branch.  Without a guard the ring is as
    before.  With one, the lock is free again at the end; if the record with its
    header, rounded up, fits in front of the consumer position that was read, the
    call returns the buffer at the producer position, its header is busy with the
    low 32 bits of the size that was asked for, the producer position moves by the rounded size and
    no byte outside the header changes; otherwise the error carries the positions
    and the ring is as before. *)
Lemma reserve_spec (r' : RingBuf) res :
  spinlock (metadata r) = false ->
  Producer.reserve_locked true r cp size = (res, r') ->
  Producer.reserve_locked false r cp size = (Err LockTimeout, r) /\
  if prod + span size - cp <? D then
    res = Ok (buffer r size prod) /\
    metadata r' = {| spinlock := false; producer := prod + span size;
                     consumer := RingBuf.consumer_pos r; dropped := dropped (metadata r) |} /\
    RingBuf.header_at r' (rb_header (buffer r size prod)) = header_word (wrap 32 size) Busy /\
    (forall v, ~ (prod <= v < prod + 8) -> prod + 8 - D <= v < prod + D ->
      byte_at (bytes r') (phys D v) = byte_at (bytes r) (phys D v))
  else
    res = Err (InsufficientSpace (prod + span size) cp (D - 1)) /\ r' = r.
Proof using All.
  intros Hfree Hres. split; [done|].
  destruct (Z.ltb_spec (prod + span size - cp) D) as [Hfit|Hfull].
  - rewrite reserve_locked_fits in Hres by done. injection Hres as <- <-.
    pose proof (span_bounds size). split_and!; try done.
    + unfold RingBuf.header_at. cbn. rewrite size_mask_phys, load64_phys by side.
      apply load64_store64; [lia|]. apply header_word_u64, wrap_bound. lia.
    + intros v Hv Hw. cbn. apply byte_at_store_ne. rewrite length_le_bytes. intros j Hj Heq.
      apply phys_inj in Heq; fold D; lia.
  - rewrite reserve_locked_full in Hres by (done || lia). by injection Hres as <- <-.
Qed.


End Reserve.

Definition demo_ring : RingBuf := fresh_ring 64.


(** ** Consuming *)

(** The records of the queue behind the discarded ones at its head. *)
Fixpoint skip_discarded (l : list slot) : list slot * list slot :=
  match l with
  | [] => ([], [])
  | s :: l' =>
      match sl_status s with
      | Discarded => let '(skipped, rest) := skip_discarded l' in (s :: skipped, rest)
      | _ => ([], l)
      end
  end.

Lemma ring_ok_pop r gone live s held :
  ring_ok r (Queue gone (s :: live) held) ->
  ring_ok (RingBuf.advance_consumer r (RingBuf.consumer_pos r + slot_span s))
    (Queue (gone ++ [s]) live held).
Proof.
  intros [HD Hcp Hpp Hrm Hlay]. cbn [q_gone q_live spans] in *.
  assert (spans (gone ++ [s]) = spans gone + slot_span s) as Hgone.
  { rewrite spans_app. cbn -[slot_span]. lia. }
  pose proof (slot_span_bounds s).
  split; cbn [q_gone q_live data_size bytes RingBuf.advance_consumer RingBuf.set_metadata];
    rewrite ?Hgone; [done|..].
  - unfold RingBuf.consumer_pos in *. cbn -[slot_span]. lia.
  - unfold RingBuf.producer_pos in *. cbn -[slot_span]. lia.
  - lia.
  - by apply layout_tail.
Qed.

(** [Consumer::consume] returns, after as many turns of its loop as there
    are discarded records at the head of the queue and one more: it has advanced
    the consumer position past exactly those, and it returns the record behind
    them when that is committed, with its payload, and nothing when it is still
    being filled or there is none. *)
Lemma consume_spec r q :
  ring_ok r q -> RingBuf.producer_pos r <= u64_max ->
  let '(skipped, rest) := skip_discarded (q_live q) in
  exists r',
    Consumer.consume (S (length skipped)) r =
      Some (match rest with
            | s :: _ => if decide (sl_status s = Committed) then Some (head_record r' s) else None
            | [] => None
            end, r') /\
    RingBuf.consumer_pos r' = RingBuf.consumer_pos r + spans skipped /\
    ring_ok r' (Queue (q_gone q ++ skipped) rest (q_held q)) /\
    (forall s l, rest = s :: l -> Consumer.as_slice r' (head_record r' s) = sl_data s).
Proof.
  destruct q as [gone live held]. cbn [q_live q_gone q_held].
  revert r gone. induction live as [|s live IH]; intros r gone Hr Hp.
  - cbn. exists r. destruct (Hr) as [_ Hcp Hpp _ _]. cbn [q_gone q_live spans] in *.
    assert ((RingBuf.producer_pos r <=? RingBuf.consumer_pos r) = true) as ->.
    { apply Z.leb_le. lia. }
    rewrite app_nil_r. split; [done|]. split; [lia|]. done.
  - assert ((RingBuf.producer_pos r <=? RingBuf.consumer_pos r) = false) as Hmore.
    { destruct Hr as [_ Hcp Hpp _ _]. cbn [q_gone q_live spans] in *. apply Z.leb_gt.
      pose proof (slot_span_bounds s). pose proof (spans_nonneg live). lia. }
    pose proof (inspect_head _ _ Hr s live eq_refl Hp) as Hinspect.
    cbn [skip_discarded]. destruct (sl_status s) eqn:Est.
    1, 2: exists r; cbn [length Consumer.consume]; rewrite Hmore, Hinspect, app_nil_r, Est;
      split; [done|]; split; [cbn; lia|]; split; [done|];
      intros s' l' Heq; injection Heq as <- <-; by eapply as_slice_head.
    destruct (skip_discarded live) as [skipped rest] eqn:Eskip.
    destruct (IH _ (gone ++ [s]) (ring_ok_pop _ _ _ _ _ Hr) Hp)
      as (r' & Hcons & Hpos & Hr' & Hdata).
    exists r'. cbn [length Consumer.consume]. rewrite Hmore, Hinspect.
    cbn [length Consumer.consume] in Hcons. rewrite <-app_assoc in Hr'. split; [exact Hcons|].
    split; [|done]. rewrite Hpos. unfold RingBuf.consumer_pos. cbn -[slot_span]. lia.
Qed.

(** ** One record, from the producer to the consumer *)

Section OneRecord.

Context (D p len : Z) (meta : Metadata).
Hypothesis Hpow : is_power_of_two D = true.
Hypothesis HD : 8 <= D <= 2 ^ 62.
Hypothesis Hlen : in_u 32 len.
Hypothesis Hp : 0 <= p <= 2 ^ 62.
Hypothesis Hprod : p + span len <= producer meta.
Hypothesis Hcons : consumer meta = p.

Let ring (m : gmap Z Z) : RingBuf := {| data_size := D; metadata := meta; bytes := m |}.
Let rec : ConsumerRecord :=
  {| rec_data := Z.land p (RingBuf.size_mask (ring ∅)) + 8; rec_len := len; rec_total := p + span len |}.

(** What the consumer returns in a ring with one record. *)
Lemma consume_one m st :
  load64 D m p = header_word len st -> st <> Discarded ->
  Consumer.consume 1 (ring m) = Some (if decide (st = Committed) then Some rec else None, ring m).
Proof using All.
  intros Hm Hst. pose proof (span_bounds len) as Hspan. unfold in_u in Hlen.
  cbn [Consumer.consume].
  change (RingBuf.consumer_pos (ring m)) with (consumer meta).
  change (RingBuf.producer_pos (ring m)) with (producer meta).
  rewrite Hcons. destruct (Z.leb_spec (producer meta) p); [lia|].
  unfold Consumer.inspect. rewrite header_at_mask by side. cbn [data_size bytes ring]. rewrite Hm.
  rewrite header_len_and_flags, record_span_span, wrap64_small by (done || unfold u64_max; lia).
  by destruct st.
Qed.

Lemma drop_one m :
  load64 D m p = header_word len Busy ->
  Producer.drop NoWakeup (buffer (ring ∅) len p) (ring m) 0 =
    Some (ring (store64 D m p (header_word len Committed)), 0).
Proof using All.
  intros Hm. unfold Producer.drop. cbn [rb_header buffer].
  change (RingBuf.size_mask (ring ∅)) with (RingBuf.size_mask (ring m)).
  rewrite header_at_mask by side. cbn [data_size bytes ring]. rewrite Hm.
  rewrite header_is_discarded, header_commit by done. cbn [negb bool_decide].
  by rewrite set_header_mask by side.
Qed.

End OneRecord.

(** C9. A record makes the round trip: in any empty ring into which it fits, the
    bytes a producer copies into the buffer it reserved are those the consumer
    reads from the record, which it does not see before the buffer is dropped;
    once the record is dropped the ring is empty again. *)
Theorem record_roundtrip r p bs :
  is_power_of_two (data_size r) = true -> 8 <= data_size r <= 2 ^ 32 ->
  RingBuf.consumer_pos r = p -> RingBuf.producer_pos r = p -> 0 <= p <= 2 ^ 62 ->
  span (Z.of_nat (length bs)) < data_size r ->
  exists rb r1 r2 r3 rec,
    Producer.reserve_locked true r p (Z.of_nat (length bs)) = (Ok rb, r1) /\
    Consumer.consume 1 r1 = Some (None, r1) /\
    Producer.copy_from_slice rb r1 bs = Some r2 /\
    Consumer.consume 1 r2 = Some (None, r2) /\
    Producer.drop NoWakeup rb r2 0 = Some (r3, 0) /\
    Consumer.consume 1 r3 = Some (Some rec, r3) /\
    Consumer.as_slice r3 rec = bs /\
    Consumer.consume 1 (Consumer.drop_record r3 rec) = Some (None, Consumer.drop_record r3 rec).
Proof.
  intros Hpow HD Hcp Hpp Hp Hfit. set (len := Z.of_nat (length bs)) in *.
  pose proof (span_bounds len) as Hspan.
  assert (in_u 32 len) as Hlen by (unfold in_u; lia).
  assert (8 <= data_size r <= 2 ^ 62) as HD' by lia.
  set (m1 := store64 (data_size r) (bytes r) p (header_word len Busy)).
  set (m2 := store_bytes (data_size r) m1 (p + 8) bs).
  set (m3 := store64 (data_size r) m2 p (header_word len Committed)).
  set (meta := {| spinlock := false; producer := p + span len;
                  consumer := p; dropped := dropped (metadata r) |}).
  set (ring m := {| data_size := data_size r; metadata := meta; bytes := m |}).
  assert (load64 (data_size r) m1 p = header_word len Busy) as H1.
  { apply load64_store64; [lia|]. by apply header_word_u64. }
  assert (load64 (data_size r) m2 p = header_word len Busy) as H2.
  { unfold load64, m2. rewrite load_store_disjoint by lia. exact H1. }
  assert (load64 (data_size r) m3 p = header_word len Committed) as H3.
  { apply load64_store64; [lia|]. by apply header_word_u64. }
  exists (buffer r len p), (ring m1), (ring m2), (ring m3).
  eexists. split_and!.
  - rewrite reserve_locked_fits, wrap_small; try done; try (unfold i64_max; lia). do 2 f_equal; [by rewrite Hpp|].
    unfold ring, meta, RingBuf.set_lock, RingBuf.advance_producer, RingBuf.set_metadata.
    cbn -[span]. unfold RingBuf.consumer_pos in Hcp. by rewrite Hpp, Hcp.
  - exact (consume_one _ p len meta Hpow HD' Hlen Hp (Z.le_refl _) eq_refl m1 Busy H1 ltac:(done)).
  - unfold Producer.copy_from_slice. cbn [rb_len rb_data buffer]. fold len. rewrite Z.eqb_refl.
    unfold RecordHeader.HEADER_SIZE. rewrite size_mask_phys by side.
    cbn [data_size bytes ring]. by rewrite store_bytes_phys.
  - exact (consume_one _ p len meta Hpow HD' Hlen Hp (Z.le_refl _) eq_refl m2 Busy H2 ltac:(done)).
  - exact (drop_one _ p len meta Hpow HD' Hlen Hp (Z.le_refl _) eq_refl m2 H2).
  - exact (consume_one _ p len meta Hpow HD' Hlen Hp (Z.le_refl _) eq_refl m3 Committed H3 ltac:(done)).
  - unfold Consumer.as_slice. cbn [rec_data rec_len]. rewrite size_mask_phys by side.
    cbn [data_size bytes ring]. rewrite load_bytes_phys. unfold len. rewrite Nat2Z.id.
    unfold m3, store64. rewrite load_store_disjoint by (rewrite ?length_le_bytes; lia).
    apply load_store_same; lia.
  - cbn [Consumer.consume]. unfold Consumer.drop_record, RingBuf.producer_pos, RingBuf.consumer_pos.
    cbn -[span]. by rewrite Z.leb_refl.
Qed.

(** The header holds 32 bits of length, and nothing bounds a reservation by
    them: in a ring of more than 4 GiB a record of [2^32] bytes or more is
    reserved with its full size, but the consumer sees only the low 32 bits of
    it, and the position it advances to is inside the record. *)
Lemma large_record_truncated r p size :
  is_power_of_two (data_size r) = true -> 8 <= data_size r <= 2 ^ 62 ->
  RingBuf.consumer_pos r = p -> RingBuf.producer_pos r = p -> 0 <= p <= 2 ^ 62 ->
  2 ^ 32 <= size -> span size < data_size r ->
  exists rb r1 r2 rec,
    Producer.reserve_locked true r p size = (Ok rb, r1) /\ rb_len rb = size /\
    Producer.drop NoWakeup rb r1 0 = Some (r2, 0) /\
    Consumer.consume 1 r2 = Some (Some rec, r2) /\
    rec_len rec = size mod 2 ^ 32 /\
    RingBuf.consumer_pos (Consumer.drop_record r2 rec) = p + span (size mod 2 ^ 32) /\
    p + span (size mod 2 ^ 32) < RingBuf.producer_pos (Consumer.drop_record r2 rec).
Proof.
  intros Hpow HD Hcp Hpp Hp Hbig Hfit.
  pose proof (span_bounds size ltac:(lia)) as Hspan.
  pose proof (wrap_bound 32 size ltac:(lia)) as Hlen. fold (in_u 32 (wrap 32 size)) in Hlen.
  assert (span (wrap 32 size) < span size) as Hlt.
  { pose proof (span_bounds (wrap 32 size)). unfold in_u in Hlen.
    assert (wrap 32 size <= size - 2 ^ 32).
    { unfold wrap. pose proof (Z.div_mod size (2 ^ 32)).
      assert (1 <= size / 2 ^ 32) by (apply Z.div_le_lower_bound; lia). lia. }
    lia. }
  set (m1 := store64 (data_size r) (bytes r) p (header_word (wrap 32 size) Busy)).
  set (meta := {| spinlock := false; producer := p + span size;
                  consumer := p; dropped := dropped (metadata r) |}).
  assert (p + span (wrap 32 size) <= producer meta) as Hprod by (cbn; lia).
  assert (load64 (data_size r) m1 p = header_word (wrap 32 size) Busy) as H1.
  { apply load64_store64; [lia|]. by apply header_word_u64. }
  exists (buffer r size p), {| data_size := data_size r; metadata := meta; bytes := m1 |}.
  do 2 eexists. split_and!.
  - rewrite reserve_locked_fits; try done; try (unfold i64_max; lia). do 2 f_equal; [by rewrite Hpp|].
    unfold meta, RingBuf.set_lock, RingBuf.advance_producer, RingBuf.set_metadata.
    cbn -[span wrap]. unfold RingBuf.consumer_pos in Hcp. by rewrite Hpp, Hcp.
  - done.
  - exact (drop_one _ p _ meta Hpow HD Hlen Hp Hprod eq_refl m1 H1).
  - refine (consume_one _ p _ meta Hpow HD Hlen Hp Hprod eq_refl _ Committed _ _); [|done].
    apply load64_store64; [lia|]. by apply header_word_u64.
  - done.
  - done.
  - unfold Consumer.drop_record, RingBuf.producer_pos. cbn -[span wrap]. by apply Z.add_lt_mono_l.
Qed.

(** ** The header word *)

(** The header word through the life of a record: the length it was created
    with is kept by [commit] and [discard], whatever the flags are, the busy flag
    is set in a new one only and the discard flag in a discarded one only. *)
Lemma header_lifecycle len :
  0 <= len <= u32_max ->
  let h := RecordHeader.new len in
  RecordHeader.len_and_flags h = (len, 2147483648) /\
  RecordHeader.len_and_flags (RecordHeader.commit h) = (len, 0) /\
  RecordHeader.len_and_flags (RecordHeader.discard h) = (len, 1073741824) /\
  RecordHeader.commit (RecordHeader.discard h) = RecordHeader.commit h /\
  RecordHeader.is_discarded h = false /\
  RecordHeader.is_discarded (RecordHeader.commit h) = false /\
  RecordHeader.is_discarded (RecordHeader.discard h) = true.
Proof.
  intros Hlen h. assert (in_u 32 len) as Hu by (unfold in_u, u32_max in *; lia).
  unfold h. rewrite header_new by done.
  rewrite header_commit, header_discard, header_commit by done.
  rewrite !header_len_and_flags, !header_is_discarded by done. done.
Qed.

(** ** The double mapping *)

(** A memory that [Memory::from_fd] returns has a power of two of data
    bytes, at least a page; when the mapping does not wrap around the address
    space, the page in front is the start of the file, and every access to the
    two adjacent copies of the data area reaches the file byte of its offset
    modulo the size, so that a record that runs over the end of the buffer is
    contiguous. *)
Lemma memory_double_mapping os fd D m :
  Memory.from_fd os fd D = Ok m ->
  0 < Memory.os_page_size os -> 0 <= Memory.ptr m ->
  Memory.ptr m + Memory.os_page_size os + 2 * D <= u64_max ->
  is_power_of_two D = true /\ Memory.os_page_size os <= D /\
  (forall v, 0 <= v < Memory.os_page_size os ->
    Memory.resolve (Memory.mappings m) (Memory.metadata_ptr m + v) = Some (fd, v)) /\
  (forall v, 0 <= v < 2 * D ->
    Memory.resolve (Memory.mappings m) (Memory.data_ptr m + v) =
      Some (fd, Memory.os_page_size os + v mod D)).
Proof.
  intros Hok Hpage Hptr Htop.
  destruct (from_fd_ok _ _ _ _ Hok) as (Hpow & Hle & _).
  destruct (from_fd_resolve _ _ _ _ Hok Hpage Hptr Htop) as [Hmeta Hdata].
  by split_and!.
Qed.

(** When [Memory::new] refuses: a size that is not a power of two, one below
    the page size, or a failed system call, in this order; otherwise it maps the
    file it created. *)
Lemma memory_new_cases os D :
  match Memory.new os D with
  | Ok m =>
      exists fd, is_power_of_two D = true /\ Memory.os_page_size os <= D /\
        Memory.os_memfd_create os = Some fd /\
        Memory.os_ftruncate os fd (D +64 Memory.os_page_size os) = true /\
        Memory.from_fd os fd D = Ok m
  | Err (SizeNotAligned n) => n = D /\ is_power_of_two D = false
  | Err (SizeTooSmall n) => n = Memory.os_page_size os /\ is_power_of_two D = true /\ D < n
  | Err (MmapFailed errno) =>
      is_power_of_two D = true /\ Memory.os_page_size os <= D /\
      (errno = Memory.ENOMEM \/ errno = Memory.EINVAL)
  | Err _ => False
  end.
Proof.
  unfold Memory.new. destruct (is_power_of_two D) eqn:Hpow; cbn [negb]; [|done].
  destruct (Z.ltb_spec D (Memory.os_page_size os)) as [|Hle]; [done|].
  destruct (Memory.os_memfd_create os) as [fd|]; [|by auto].
  destruct (Memory.os_ftruncate os fd _) eqn:Htr; cbn [negb]; [|by auto].
  destruct (Memory.from_fd os fd D) as [m|e] eqn:Hfd; [by exists fd|].
  unfold Memory.from_fd in Hfd. rewrite Hpow in Hfd. cbn [negb] in Hfd.
  destruct (Z.ltb_spec D (Memory.os_page_size os)); [lia|].
  repeat break_hyp Hfd; auto.
Qed.

(** ** Witnesses *)

Lemma reserved_ring_ok : ring_ok
  {| data_size := 64; metadata := {| spinlock := false; producer := 32; consumer := 0; dropped := 0 |};
     bytes := store64 64 (store64 64 ∅ 0 (header_word 8 Discarded)) 16 (header_word 8 Committed) |}
  (Queue [] [Slot 0 (repeat 0 8) Discarded; Slot 1 (repeat 0 8) Committed] false).
Proof.
  split; [split; [reflexivity|cbn; lia]|reflexivity..|].
  intros [|[|i]] s Hs; [| |done]; injection Hs as <-; split; by vm_compute.
Qed.

Lemma consume_spec_witness :
  exists r r',
    Consumer.consume 2 r = Some (Some (head_record r' (Slot 1 (repeat 0 8) Committed)), r') /\
    RingBuf.consumer_pos r = 0 /\ RingBuf.consumer_pos r' = 16.
Proof.
  pose proof (consume_spec _ _ reserved_ring_ok ltac:(vm_compute; discriminate)) as H.
  cbn [skip_discarded q_live sl_status] in H. destruct H as (r' & Hc & Hpos & _).
  eexists _, r'. split; [exact Hc|]. split; [reflexivity|exact Hpos].
Defined.

Lemma record_roundtrip_witness :
  exists rb r1 r2 r3 rec,
    Producer.reserve_locked true demo_ring 0 3 = (Ok rb, r1) /\
    Consumer.consume 1 r1 = Some (None, r1) /\
    Producer.copy_from_slice rb r1 [4; 5; 6] = Some r2 /\
    Consumer.consume 1 r2 = Some (None, r2) /\
    Producer.drop NoWakeup rb r2 0 = Some (r3, 0) /\
    Consumer.consume 1 r3 = Some (Some rec, r3) /\
    Consumer.as_slice r3 rec = [4; 5; 6] /\
    Consumer.consume 1 (Consumer.drop_record r3 rec) = Some (None, Consumer.drop_record r3 rec).
Proof. apply (record_roundtrip demo_ring 0 [4; 5; 6]); cbn; try reflexivity; lia. Defined.

Lemma large_record_truncated_witness :
  exists rb r1 r2 rec,
    Producer.reserve_locked true (fresh_ring (2 ^ 33)) 0 (2 ^ 32 + 1) = (Ok rb, r1) /\
    rb_len rb = 2 ^ 32 + 1 /\
    Producer.drop NoWakeup rb r1 0 = Some (r2, 0) /\
    Consumer.consume 1 r2 = Some (Some rec, r2) /\
    rec_len rec = 1 /\
    RingBuf.consumer_pos (Consumer.drop_record r2 rec) = 16 /\
    16 < RingBuf.producer_pos (Consumer.drop_record r2 rec).
Proof.
  apply (large_record_truncated (fresh_ring (2 ^ 33)) 0 (2 ^ 32 + 1));
    [reflexivity|split; vm_compute; discriminate|reflexivity..|lia|lia|reflexivity].
Defined.

Lemma header_lifecycle_witness :
  RecordHeader.len_and_flags (RecordHeader.discard (RecordHeader.new 77)) = (77, 1073741824).
Proof. apply (header_lifecycle 77). unfold u32_max. lia. Defined.

Definition demo_os : Memory.Os :=
  {| Memory.os_page_size := 4096; Memory.os_memfd_create := Some 3;
     Memory.os_ftruncate := fun _ _ => true; Memory.os_mmap_anonymous := fun _ => Some 65536;
     Memory.os_mmap_fixed := fun _ _ _ _ => true |}.

Lemma memory_double_mapping_witness :
  exists m, Memory.from_fd demo_os 3 8192 = Ok m /\
    Memory.resolve (Memory.mappings m) (Memory.data_ptr m + 8200) = Some (3, 4104).
Proof.
  eexists. split; [reflexivity|].
  refine (proj2 (proj2 (proj2 (memory_double_mapping demo_os 3 8192 _ eq_refl _ _ _))) 8200 _);
    cbn; unfold u64_max; lia.
Defined.
