(* ===== verification/RingSolo.v ===== *)
(** * The operations as sequences of accesses

    The functions of [Ring] are what the steps of [RingSystem] amount to when
    nobody interferes: every call of a producer or of the consumer is a sequence
    of accesses of one thread. *)

From S2P Require Import Prelude RingMem RingSpec Ring RingSystem.

Section Solo.

Variable strategy : nat -> WakeupStrategy.

(** The accesses of one producer, with nobody else in between. *)
Inductive tsteps (t : nat) : RingBuf -> Z -> tstate -> RingBuf -> Z -> tstate -> Prop :=
| tsteps_refl r e st : tsteps t r e st r e st
| tsteps_cons r e st l r1 e1 st1 r2 e2 st2 :
    tstep strategy t r e st l r1 e1 st1 -> tsteps t r1 e1 st1 r2 e2 st2 ->
    tsteps t r e st r2 e2 st2.

(** The accesses of the consumer, with nobody else in between. *)
Inductive csteps : RingBuf -> Z -> cstate -> RingBuf -> Z -> cstate -> Prop :=
| csteps_refl r e c : csteps r e c r e c
| csteps_cons r e c l r1 e1 c1 r2 e2 c2 :
    cstep r e c l r1 e1 c1 -> csteps r1 e1 c1 r2 e2 c2 -> csteps r e c r2 e2 c2.

Lemma reserve_steps t r e size :
  spinlock (metadata r) = false -> 0 <= size <= i64_max ->
  match Producer.reserve_locked true r (RingBuf.consumer_pos r) size with
  | (Ok rb, r') =>
      rb = buffer r size (RingBuf.producer_pos r) /\
      tsteps t r e TIdle r' e (TReserved size (RingBuf.producer_pos r))
  | (Err _, r') => tsteps t r e TIdle r' e TIdle
  end.
Proof.
  intros Hfree Hsize. unfold Producer.reserve_locked. cbn [negb].
  change (RingBuf.producer_pos (RingBuf.set_lock r true)) with (RingBuf.producer_pos r).
  change (RingBuf.size_mask (RingBuf.set_lock r true)) with (RingBuf.size_mask r).
  assert (forall st r' st', tsteps t (RingBuf.set_lock r true) e
      (TGotProd size (RingBuf.consumer_pos r) (RingBuf.producer_pos r)) r' e st' ->
    st = TIdle -> tsteps t r e st r' e st') as Hprefix.
  { intros st r' st' H ->. eapply tsteps_cons; [by apply ts_start|].
    eapply tsteps_cons; [apply (ts_acquire _ _ _ _ _ _ Spinlock.AtCas 0 true); [by intros _|done]|].
    eapply tsteps_cons; [apply ts_load_producer|]. exact H. }
  destruct (Z.ltb_spec (RingBuf.size_mask r)
    ((RingBuf.producer_pos r +64 Producer.total_size size) -64 RingBuf.consumer_pos r)) as [Hfull|Hfits].
  - apply (Hprefix TIdle); [|done]. eapply tsteps_cons; [by apply ts_full|].
    eapply tsteps_cons; [apply ts_unlock_full|]. apply tsteps_refl.
  - split; [done|]. apply (Hprefix TIdle); [|done].
    eapply tsteps_cons; [by apply ts_write_header|].
    eapply tsteps_cons; [apply ts_advance|]. eapply tsteps_cons; [apply ts_unlock|]. apply tsteps_refl.
Qed.

Lemma drop_steps t d r e size pp r' e' st :
  st = TDrop d size pp \/ (d = false /\ st = TReserved size pp) ->
  Producer.drop (strategy t) (buffer r size pp) r e = Some (r', e') ->
  tsteps t r e st r' e' TIdle.
Proof.
  intros Hst Hdrop.
  assert (tsteps t r e (TDrop d size pp) r' e' TIdle) as H.
  { revert Hdrop. unfold Producer.drop.
    assert (forall r1 r2 e2,
      match strategy t with
      | Forced => e1 ← Notification.notify e; Some (r1, e1)
      | NoWakeup => Some (r1, e)
      end = Some (r2, e2) -> tsteps t r1 e TNotify r2 e2 TIdle) as Hnotify.
    { intros r1 r2 e2. destruct (strategy t) eqn:Es.
      - intros Hn. apply bind_Some in Hn as (e1 & Hn & [= <- <-]).
        eapply tsteps_cons; [by apply ts_notify|apply tsteps_refl].
      - intros [= <- <-]. eapply tsteps_cons; [by apply ts_no_notify|apply tsteps_refl]. }
    destruct (RecordHeader.is_discarded _) eqn:Ed; cbn [negb]; intros H.
    - eapply tsteps_cons; [by apply ts_check_discarded|]. by apply Hnotify.
    - eapply tsteps_cons; [by apply ts_check_live|].
      eapply tsteps_cons; [apply ts_commit|]. by apply Hnotify. }
  destruct Hst as [->|[-> ->]]; [done|]. eapply tsteps_cons; [apply ts_leave|done].
Qed.

Lemma consume_steps fuel r e found r' :
  Consumer.consume fuel r = Some (found, r') ->
  csteps r e CIdle r' e (match found with Some rec => CRecord rec | None => CIdle end).
Proof.
  revert r. induction fuel as [|fuel IH]; intros r; [done|]. cbn [Consumer.consume].
  destruct (Z.leb_spec (RingBuf.producer_pos r) (RingBuf.consumer_pos r)) as [Hempty|Hmore].
  - intros [= <- <-]. eapply csteps_cons; [apply cs_load_consumer|].
    eapply csteps_cons; [by apply cs_empty|apply csteps_refl].
  - intros H. eapply csteps_cons; [apply cs_load_consumer|].
    eapply csteps_cons; [by apply cs_more|].
    destruct (Consumer.inspect r (RingBuf.consumer_pos r)) as [|rec|pos] eqn:E.
    + injection H as <- <-. eapply csteps_cons; [by apply cs_busy|apply csteps_refl].
    + injection H as <- <-. eapply csteps_cons; [by apply cs_found|apply csteps_refl].
    + eapply csteps_cons; [by apply cs_discarded|]. eapply csteps_cons; [apply cs_skip|]. by apply IH.
Qed.

(** The operations and the steps agree: a reservation on a free lock, with its
    result, the drop and the discard of the reserved buffer, and a call of
    [consume], with its result, are sequences of the accesses whose interleavings
    the theorems on runs are about. *)
Lemma operations_are_steps t r e size :
  spinlock (metadata r) = false -> 0 <= size <= i64_max ->
  match Producer.reserve_locked true r (RingBuf.consumer_pos r) size with
  | (Ok rb, r') =>
      rb = buffer r size (RingBuf.producer_pos r) /\
      tsteps t r e TIdle r' e (TReserved size (RingBuf.producer_pos r))
  | (Err _, r') => tsteps t r e TIdle r' e TIdle
  end /\
  (forall pp r' e', Producer.drop (strategy t) (buffer r size pp) r e = Some (r', e') ->
    tsteps t r e (TReserved size pp) r' e' TIdle) /\
  (forall pp r' e', Producer.discard (strategy t) (buffer r size pp) r e = Some (r', e') ->
    tsteps t r e (TReserved size pp) r' e' TIdle) /\
  (forall fuel found r', Consumer.consume fuel r = Some (found, r') ->
    csteps r e CIdle r' e (match found with Some rec => CRecord rec | None => CIdle end)).
Proof.
  intros Hfree Hsize. split; [by apply reserve_steps|]. split; [|split].
  - intros pp r' e' H. eapply drop_steps; [|exact H]. by right.
  - intros pp r' e' H. unfold Producer.discard in H.
    eapply tsteps_cons; [apply ts_discard|]. eapply drop_steps; [by left|]. exact H.
  - intros fuel found r' H. by eapply consume_steps.
Qed.

End Solo.

(** A reservation in a fresh ring. *)
Example reserve_is_steps :
  tsteps (fun _ => NoWakeup) 7 (fresh_ring 64) 0 TIdle
    (Producer.reserve_locked true (fresh_ring 64) 0 10).2 0 (TReserved 10 0).
Proof.
  destruct (operations_are_steps (fun _ => NoWakeup) 7 (fresh_ring 64) 0 10 eq_refl ltac:(unfold i64_max; lia)) as [H _].
  exact (proj2 H).
Qed.
