(* ===== verification/Protocol.v ===== *)
(** * The protocol of events

    The data of the crate [protocol] (src/protocol/src/lib.rs): tracks, events,
    control messages, the writers of its serialisation and the traits the
    consumers of interned data use.  The forms [rkyv] derives for a type that is
    archived in place have the constructors and fields of the type itself with
    archived integers in them, so the types that are read in both forms are
    parametric in their integers.  Floating-point values are never computed
    with here, only moved; they are their bits. *)

From S2P Require Import Prelude.

Definition VERSION : string := "0.1".

(** ** Stream ids *)

Definition StreamId : Type := Z.

Record StreamIdAllocator := mkStreamIdAllocator { next_id : StreamId }.

Module StreamIdAllocator.

Definition new : StreamIdAllocator := {| next_id := 1 |}.

Definition allocate (self : StreamIdAllocator) : StreamId * StreamIdAllocator :=
  let id := next_id self in
  (id, {| next_id := sat_add 16 (next_id self) 1 |}).

(** The ids of [n] allocations in a row. *)
Fixpoint allocate_n (n : nat) (self : StreamIdAllocator) : list StreamId :=
  match n with
  | O => []
  | S n => let '(id, self) := allocate self in id :: allocate_n n self
  end.

End StreamIdAllocator.

(** ** Archived integers *)

(** The integers of archived data and their [to_native]; they are [rkyv]'s. *)
Class ArchivedInts := {
  u16_le : Type;  u16_native : u16_le -> Z;
  u32_le : Type;  u32_native : u32_le -> Z;
  i32_le : Type;  i32_native : i32_le -> Z;
  u64_le : Type;  u64_native : u64_le -> Z;
  i64_le : Type;  i64_native : i64_le -> Z;
  f64_le : Type;  f64_native : f64_le -> Z
}.

(** ** Data *)

(** A label map is the list of its entries in the order the map iterates. *)
Module Labels.

Record t (I64 F64 : Type) := mk {
  strings : list (string * string);
  ints : list (string * I64);
  bools : list (string * bool);
  floats : list (string * F64)
}.

Arguments strings {I64 F64} _.
Arguments ints {I64 F64} _.
Arguments bools {I64 F64} _.
Arguments floats {I64 F64} _.

Definition new {I64 F64 : Type} : t I64 F64 := mk _ _ [] [] [] [].

End Labels.

Module TrackId.

Inductive t (U32 I32 U64 : Type) :=
| Cpu (cpu : U32)
| Thread (tid pid : I32)
| Process (pid : I32)
| Custom (id : U64)
| Counter (id : U64).

Arguments Cpu {U32 I32 U64} cpu.
Arguments Thread {U32 I32 U64} tid pid.
Arguments Process {U32 I32 U64} pid.
Arguments Custom {U32 I32 U64} id.
Arguments Counter {U32 I32 U64} id.

End TrackId.

Abbreviation TrackId := (TrackId.t Z Z Z).

Module TrackType.

Inductive t (U32 I32 U64 : Type) :=
| Cpu (cpu : U32)
| Thread (tid pid : I32)
| Process (pid : I32)
| Custom (id : U64)
| Counter (id : U64) (unit : option string).

Arguments Cpu {U32 I32 U64} cpu.
Arguments Thread {U32 I32 U64} tid pid.
Arguments Process {U32 I32 U64} pid.
Arguments Custom {U32 I32 U64} id.
Arguments Counter {U32 I32 U64} id unit.

Definition to_id (self : t Z Z Z) : TrackId :=
  match self with
  | Cpu cpu => TrackId.Cpu cpu
  | Thread tid pid => TrackId.Thread tid pid
  | Process pid => TrackId.Process pid
  | Custom id => TrackId.Custom id
  | Counter id _ => TrackId.Counter id
  end.

End TrackType.

Abbreviation TrackType := (TrackType.t Z Z Z).

Module Track.

Record t (U32 I32 U64 : Type) := mk {
  name : string;
  track_type : TrackType.t U32 I32 U64;
  parent : option (TrackType.t U32 I32 U64)
}.

Arguments name {U32 I32 U64} _.
Arguments track_type {U32 I32 U64} _.
Arguments parent {U32 I32 U64} _.

End Track.

Module Counter.

Record t (U32 I32 U64 I64 F64 : Type) := mk {
  name : string;
  value : F64;
  timestamp : U64;
  track_id : TrackId.t U32 I32 U64;
  labels : Labels.t I64 F64;
  unit : option string
}.

Arguments name {U32 I32 U64 I64 F64} _.
Arguments value {U32 I32 U64 I64 F64} _.
Arguments timestamp {U32 I32 U64 I64 F64} _.
Arguments track_id {U32 I32 U64 I64 F64} _.

End Counter.

Module Span.

Record t (U32 I32 U64 I64 F64 : Type) := mk {
  name : string;
  span_id : U64;
  start_timestamp : U64;
  end_timestamp : U64;
  track_id : TrackId.t U32 I32 U64;
  labels : Labels.t I64 F64
}.

Arguments name {U32 I32 U64 I64 F64} _.
Arguments start_timestamp {U32 I32 U64 I64 F64} _.
Arguments end_timestamp {U32 I32 U64 I64 F64} _.
Arguments track_id {U32 I32 U64 I64 F64} _.
Arguments labels {U32 I32 U64 I64 F64} _.

End Span.

Module Instant.

Record t (U32 I32 U64 I64 F64 : Type) := mk {
  name : string;
  timestamp : U64;
  track_id : TrackId.t U32 I32 U64;
  labels : Labels.t I64 F64
}.

Arguments name {U32 I32 U64 I64 F64} _.
Arguments timestamp {U32 I32 U64 I64 F64} _.
Arguments track_id {U32 I32 U64 I64 F64} _.
Arguments labels {U32 I32 U64 I64 F64} _.

End Instant.

Module InternedString.

Record t (U64 : Type) := mk { iid : U64; str : string }.

Arguments iid {U64} _.
Arguments str {U64} _.

End InternedString.

Module Frame.

Record t (U64 : Type) := mk {
  iid : U64;
  function_name_id : U64;
  mapping_id : U64;
  rel_pc : U64
}.

Arguments iid {U64} _.
Arguments function_name_id {U64} _.
Arguments mapping_id {U64} _.
Arguments rel_pc {U64} _.

End Frame.

Module Callstack.

Record t (U64 : Type) := mk { iid : U64; frame_ids : list U64 }.

Arguments iid {U64} _.
Arguments frame_ids {U64} _.

End Callstack.

Module Mapping.

Record t (U64 : Type) := mk {
  iid : U64;
  build_id : U64;
  exact_offset : U64;
  start_offset : U64;
  start : U64;
  end_ : U64;
  load_bias : U64;
  path_string_ids : list U64
}.

Arguments iid {U64} _.
Arguments build_id {U64} _.
Arguments exact_offset {U64} _.
Arguments start_offset {U64} _.
Arguments start {U64} _.
Arguments end_ {U64} _.
Arguments load_bias {U64} _.
Arguments path_string_ids {U64} _.

End Mapping.

Module InternedData.

Record t (U64 : Type) := mk {
  function_names : list (InternedString.t U64);
  frames : list (Frame.t U64);
  callstacks : list (Callstack.t U64);
  mappings : list (Mapping.t U64);
  build_ids : list (InternedString.t U64);
  continuation : bool
}.

Arguments function_names {U64} _.
Arguments frames {U64} _.
Arguments callstacks {U64} _.
Arguments mappings {U64} _.
Arguments build_ids {U64} _.
Arguments continuation {U64} _.

Definition new {U64 : Type} : t U64 := mk _ [] [] [] [] [] false.

End InternedData.

Inductive CpuMode := CpuMode_Unknown | CpuMode_Kernel | CpuMode_User.

Module Sample.

Record t (U32 I32 U64 : Type) := mk {
  cpu : U32;
  track_id : TrackId.t U32 I32 U64;
  timestamp : U64;
  callstack_iid : U64;
  cpu_mode : CpuMode
}.

Arguments cpu {U32 I32 U64} _.
Arguments track_id {U32 I32 U64} _.
Arguments timestamp {U32 I32 U64} _.
Arguments callstack_iid {U32 I32 U64} _.

End Sample.

Module Event.

Inductive t (U32 I32 U64 I64 F64 : Type) :=
| Counter (c : Counter.t U32 I32 U64 I64 F64)
| Span (s : Span.t U32 I32 U64 I64 F64)
| Instant (i : Instant.t U32 I32 U64 I64 F64)
| InternedData (d : InternedData.t U64)
| Sample (s : Sample.t U32 I32 U64)
| Track (t : Track.t U32 I32 U64).

Arguments Counter {U32 I32 U64 I64 F64} c.
Arguments Span {U32 I32 U64 I64 F64} s.
Arguments Instant {U32 I32 U64 I64 F64} i.
Arguments InternedData {U32 I32 U64 I64 F64} d.
Arguments Sample {U32 I32 U64 I64 F64} s.
Arguments Track {U32 I32 U64 I64 F64} t.

End Event.

Module Message.

Inductive t (U16 U32 I32 U64 I64 F64 : Type) :=
| Event (event : Event.t U32 I32 U64 I64 F64)
| Stream (stream_id : U16) (event : Event.t U32 I32 U64 I64 F64).

Arguments Event {U16 U32 I32 U64 I64 F64} event.
Arguments Stream {U16 U32 I32 U64 I64 F64} stream_id event.

End Message.

Abbreviation Event := (Event.t Z Z Z Z Z).
Abbreviation Message := (Message.t Z Z Z Z Z Z).

(** ** Arguments and control messages *)

Inductive TimestampType := Monotonic | Boottime | Realtime.

Inductive Value :=
| VString (s : string)
| VInt (i : Z)
| VFloat (f : Z)
| VBool (b : bool).

Record TracingArgs := mkTracingArgs {
  log_filter : string;
  timestamp_type : TimestampType
}.

Record Args := mkArgs {
  tracing : option TracingArgs;
  options : list (string * Value)
}.

Definition Args_validate (self : Args) : result string unit :=
  match tracing self with
  | None => Err "at least one arg must be non-empty"
  | Some _ => Ok tt
  end.

Inductive ControlMessage :=
| Start (buffer_size : Z) (args : Args)
| Stop
| Continue
| Ack
| Nack (error : string)
| Version
| VersionResponse (version : string).

(** ** Track ids as keys *)

#[export] Instance TrackId_eq_dec : EqDecision TrackId.
Proof. solve_decision. Defined.

#[export] Program Instance TrackId_countable : Countable TrackId :=
  inj_countable'
    (fun id => match id with
               | TrackId.Cpu cpu => inl cpu
               | TrackId.Thread tid pid => inr (inl (tid, pid))
               | TrackId.Process pid => inr (inr (inl pid))
               | TrackId.Custom id => inr (inr (inr (inl id)))
               | TrackId.Counter id => inr (inr (inr (inr id)))
               end)
    (fun x => match x with
              | inl cpu => TrackId.Cpu cpu
              | inr (inl (tid, pid)) => TrackId.Thread tid pid
              | inr (inr (inl pid)) => TrackId.Process pid
              | inr (inr (inr (inl id))) => TrackId.Custom id
              | inr (inr (inr (inr id))) => TrackId.Counter id
              end) _.
Next Obligation. by intros []. Qed.

(** ** The archived forms *)

Section Archived.

Context `{ArchivedInts}.

Abbreviation ArchivedTrackId := (TrackId.t u32_le i32_le u64_le).
Abbreviation ArchivedTrackType := (TrackType.t u32_le i32_le u64_le).

Definition TrackId_to_native (self : ArchivedTrackId) : TrackId :=
  match self with
  | TrackId.Cpu cpu => TrackId.Cpu (u32_native cpu)
  | TrackId.Thread tid pid => TrackId.Thread (i32_native tid) (i32_native pid)
  | TrackId.Process pid => TrackId.Process (i32_native pid)
  | TrackId.Custom id => TrackId.Custom (u64_native id)
  | TrackId.Counter id => TrackId.Counter (u64_native id)
  end.

Definition TrackType_to_native (self : ArchivedTrackType) : TrackType :=
  match self with
  | TrackType.Cpu cpu => TrackType.Cpu (u32_native cpu)
  | TrackType.Thread tid pid => TrackType.Thread (i32_native tid) (i32_native pid)
  | TrackType.Process pid => TrackType.Process (i32_native pid)
  | TrackType.Custom id => TrackType.Custom (u64_native id)
  | TrackType.Counter id unit => TrackType.Counter (u64_native id) unit
  end.

End Archived.

(** ** Reading interned data in either form *)

Class CallstackIterable (C : Type) := {
  callstack_iid : C -> Z;
  callstack_frame_ids : C -> list Z
}.

Class FrameIterable (F : Type) := {
  frame_iid : F -> Z;
  frame_function_name_id : F -> Z;
  frame_mapping_id : F -> Z;
  frame_rel_pc : F -> Z
}.

Class InternedStringIterable (S : Type) := {
  string_iid : S -> Z;
  str_ref : S -> string
}.

Class MappingIterable (M : Type) := {
  mapping_iid : M -> Z;
  mapping_build_id : M -> Z;
  mapping_exact_offset : M -> Z;
  mapping_start_offset : M -> Z;
  mapping_start : M -> Z;
  mapping_end : M -> Z;
  mapping_load_bias : M -> Z;
  mapping_path_string_ids : M -> list Z
}.

Class InternedDataIterable (D : Type) := {
  callstack_type : Type;
  frame_type : Type;
  function_name_type : Type;
  mapping_type : Type;
  build_id_type : Type;
  #[global] callstack_iterable :: CallstackIterable callstack_type;
  #[global] frame_iterable :: FrameIterable frame_type;
  #[global] function_name_iterable :: InternedStringIterable function_name_type;
  #[global] mapping_iterable :: MappingIterable mapping_type;
  #[global] build_id_iterable :: InternedStringIterable build_id_type;
  data_callstacks : D -> list callstack_type;
  data_frames : D -> list frame_type;
  data_function_names : D -> list function_name_type;
  data_mappings : D -> list mapping_type;
  data_build_ids : D -> list build_id_type;
  data_continuation : D -> bool
}.

#[export] Instance Callstack_iterable : CallstackIterable (Callstack.t Z) := {
  callstack_iid := Callstack.iid;
  callstack_frame_ids := Callstack.frame_ids
}.

#[export] Instance Frame_iterable : FrameIterable (Frame.t Z) := {
  frame_iid := Frame.iid;
  frame_function_name_id := Frame.function_name_id;
  frame_mapping_id := Frame.mapping_id;
  frame_rel_pc := Frame.rel_pc
}.

#[export] Instance InternedString_iterable : InternedStringIterable (InternedString.t Z) := {
  string_iid := InternedString.iid;
  str_ref := InternedString.str
}.

#[export] Instance Mapping_iterable : MappingIterable (Mapping.t Z) := {
  mapping_iid := Mapping.iid;
  mapping_build_id := Mapping.build_id;
  mapping_exact_offset := Mapping.exact_offset;
  mapping_start_offset := Mapping.start_offset;
  mapping_start := Mapping.start;
  mapping_end := Mapping.end_;
  mapping_load_bias := Mapping.load_bias;
  mapping_path_string_ids := Mapping.path_string_ids
}.

#[export] Instance InternedData_iterable : InternedDataIterable (InternedData.t Z) := {
  data_callstacks := InternedData.callstacks;
  data_frames := InternedData.frames;
  data_function_names := InternedData.function_names;
  data_mappings := InternedData.mappings;
  data_build_ids := InternedData.build_ids;
  data_continuation := InternedData.continuation
}.

Section ArchivedIterables.

Context `{ArchivedInts}.

#[export] Instance ArchivedCallstack_iterable : CallstackIterable (Callstack.t u64_le) := {
  callstack_iid c := u64_native (Callstack.iid c);
  callstack_frame_ids c := map u64_native (Callstack.frame_ids c)
}.

#[export] Instance ArchivedFrame_iterable : FrameIterable (Frame.t u64_le) := {
  frame_iid f := u64_native (Frame.iid f);
  frame_function_name_id f := u64_native (Frame.function_name_id f);
  frame_mapping_id f := u64_native (Frame.mapping_id f);
  frame_rel_pc f := u64_native (Frame.rel_pc f)
}.

#[export] Instance ArchivedInternedString_iterable :
    InternedStringIterable (InternedString.t u64_le) := {
  string_iid s := u64_native (InternedString.iid s);
  str_ref := InternedString.str
}.

#[export] Instance ArchivedMapping_iterable : MappingIterable (Mapping.t u64_le) := {
  mapping_iid m := u64_native (Mapping.iid m);
  mapping_build_id m := u64_native (Mapping.build_id m);
  mapping_exact_offset m := u64_native (Mapping.exact_offset m);
  mapping_start_offset m := u64_native (Mapping.start_offset m);
  mapping_start m := u64_native (Mapping.start m);
  mapping_end m := u64_native (Mapping.end_ m);
  mapping_load_bias m := u64_native (Mapping.load_bias m);
  mapping_path_string_ids m := map u64_native (Mapping.path_string_ids m)
}.

#[export] Instance ArchivedInternedData_iterable : InternedDataIterable (InternedData.t u64_le) := {
  data_callstacks := InternedData.callstacks;
  data_frames := InternedData.frames;
  data_function_names := InternedData.function_names;
  data_mappings := InternedData.mappings;
  data_build_ids := InternedData.build_ids;
  data_continuation := InternedData.continuation
}.

End ArchivedIterables.

(** ** Serialisation

    [rkyv] serialises a value by writing pieces to a writer and asking it for its
    position, in code that is the same for every writer: a program over these
    two requests, which is a parameter wherever a value is serialised. *)

Inductive RkyvError :=
| OutOfSpaceError
| SerializeFailed (code : Z).

Inductive serializer :=
| SDone
| SFail (code : Z)
| SWrite (bytes : list Z) (k : serializer)
| SPos (k : Z -> serializer).

Class Writer (W : Type) := {
  writer_pos : W -> Z;
  writer_write : W -> list Z -> result RkyvError unit * W
}.

(** [rkyv::api::high::to_bytes_in] *)
Fixpoint to_bytes_in {W} `{Writer W} (value : serializer) (w : W) : result RkyvError unit * W :=
  match value with
  | SDone => (Ok tt, w)
  | SFail code => (Err (SerializeFailed code), w)
  | SWrite bytes k =>
      match writer_write w bytes with
      | (Ok _, w) => to_bytes_in k w
      | (Err e, w) => (Err e, w)
      end
  | SPos k => to_bytes_in (k (writer_pos w)) w
  end.

Record CountingWriter := mkCountingWriter { write_count : Z; total_bytes : Z }.

Definition CountingWriter_new : CountingWriter := {| write_count := 0; total_bytes := 0 |}.

#[export] Instance CountingWriter_writer : Writer CountingWriter := {
  writer_pos self := total_bytes self;
  writer_write self bytes :=
    (Ok tt, {| write_count := write_count self +64 1;
               total_bytes := total_bytes self +64 Z.of_nat (length bytes) |})
}.

Record SliceWriter := mkSliceWriter { buf : list Z; pos : Z }.

Definition SliceWriter_new (buf : list Z) : SliceWriter := {| buf := buf; pos := 0 |}.

(** [self.buf[at..at + src.len()].copy_from_slice(src)] *)
Definition copy_into (dst : list Z) (at_ : Z) (src : list Z) : list Z :=
  take (Z.to_nat at_) dst ++ src ++ drop (Z.to_nat at_ + length src) dst.

#[export] Instance SliceWriter_writer : Writer SliceWriter := {
  writer_pos self := pos self;
  writer_write self bytes :=
    if Z.of_nat (length (buf self)) <? (pos self +64 Z.of_nat (length bytes))
    then (Err OutOfSpaceError, self)
    else (Ok tt, {| buf := copy_into (buf self) (pos self) bytes;
                    pos := pos self +64 Z.of_nat (length bytes) |})
}.

(** The result, and the buffer as it is left. *)
Definition serialize_to_buf (value : serializer) (buf_ : list Z) : result RkyvError unit * list Z :=
  let '(r, w) := to_bytes_in value (SliceWriter_new buf_) in (r, buf w).

Definition compute_length (value : serializer) : result RkyvError Z :=
  let '(r, w) := to_bytes_in value CountingWriter_new in
  match r with
  | Ok _ => Ok (total_bytes w)
  | Err e => Err e
  end.

(** ** Lemmas on the writers *)

(** What a value writes from position [p] on: the bytes, and how it ends. *)
Fixpoint written (value : serializer) (p : Z) : list Z * result RkyvError unit :=
  match value with
  | SDone => ([], Ok tt)
  | SFail code => ([], Err (SerializeFailed code))
  | SWrite bytes k =>
      let '(bs, r) := written k (p + Z.of_nat (length bytes)) in (bytes ++ bs, r)
  | SPos k => written (k p) p
  end.

(** Each piece is a Rust slice. *)
Fixpoint pieces_ok (value : serializer) : Prop :=
  match value with
  | SDone | SFail _ => True
  | SWrite bytes k => Z.of_nat (length bytes) <= i64_max /\ pieces_ok k
  | SPos k => forall p, pieces_ok (k p)
  end.

Lemma counting_writer_written value c p :
  0 <= p -> p + Z.of_nat (length (written value p).1) <= u64_max ->
  exists c', to_bytes_in value {| write_count := c; total_bytes := p |} =
    ((written value p).2,
     {| write_count := c'; total_bytes := p + Z.of_nat (length (written value p).1) |}).
Proof.
  revert c p. induction value as [| |bytes k IH|k IH]; intros c p Hp Hlen; cbn [written to_bytes_in].
  - exists c. cbn. by rewrite Z.add_0_r.
  - exists c. cbn. by rewrite Z.add_0_r.
  - cbn [written] in Hlen. cbn [writer_write CountingWriter_writer write_count total_bytes].
    destruct (written k (p + Z.of_nat (length bytes))) as [bs r] eqn:E.
    cbn [fst snd] in *. rewrite length_app in *. rewrite (wrap64_small (p + _)) by lia.
    destruct (IH (c +64 1) (p + Z.of_nat (length bytes))) as [c' Hc']; rewrite ?E; cbn [fst]; [lia..|].
    exists c'. rewrite Hc', E. cbn [fst snd]. do 2 f_equal. lia.
  - by apply IH.
Qed.

Lemma copy_into_app dst at_ src src' :
  0 <= at_ -> at_ + Z.of_nat (length (src ++ src')) <= Z.of_nat (length dst) ->
  copy_into (copy_into dst at_ src) (at_ + Z.of_nat (length src)) src' =
  copy_into dst at_ (src ++ src').
Proof.
  intros Hat Hlen. rewrite length_app in Hlen. unfold copy_into.
  replace (Z.to_nat (at_ + Z.of_nat (length src))) with (Z.to_nat at_ + length src)%nat by lia.
  assert (length (take (Z.to_nat at_) dst) = Z.to_nat at_) as Ht by (rewrite length_take; lia).
  rewrite <-(app_assoc src), !(app_assoc (take _ _) src), length_app.
  rewrite take_app_length' by (rewrite length_app; lia). rewrite <-!app_assoc. do 3 f_equal.
  rewrite (app_assoc _ src), drop_app_ge by (rewrite length_app; lia).
  rewrite drop_drop. f_equal. rewrite length_app. lia.
Qed.

Lemma length_copy_into dst at_ src :
  0 <= at_ -> at_ + Z.of_nat (length src) <= Z.of_nat (length dst) ->
  length (copy_into dst at_ src) = length dst.
Proof.
  intros. unfold copy_into. rewrite !length_app, length_take, length_drop. lia.
Qed.

Lemma slice_writer_written value b p :
  pieces_ok value -> 0 <= p <= Z.of_nat (length b) -> Z.of_nat (length b) <= i64_max ->
  let '(bs, r) := written value p in
  if p + Z.of_nat (length bs) <=? Z.of_nat (length b) then
    to_bytes_in value {| buf := b; pos := p |} =
      (r, {| buf := copy_into b p bs; pos := p + Z.of_nat (length bs) |})
  else (to_bytes_in value {| buf := b; pos := p |}).1 = Err OutOfSpaceError.
Proof.
  assert (forall b0 p0, 0 <= p0 -> copy_into b0 p0 [] = b0) as Hnil.
  { intros. unfold copy_into. cbn. by rewrite Nat.add_0_r, take_drop. }
  revert b p. induction value as [| |bytes k IH|k IH]; intros b p Hok Hp Hb; cbn [written to_bytes_in].
  - cbn [length]. rewrite (proj2 (Z.leb_le _ _)), Hnil by lia. do 2 f_equal. lia.
  - cbn [length]. rewrite (proj2 (Z.leb_le _ _)), Hnil by lia. do 2 f_equal. lia.
  - destruct Hok as [Hbytes Hok]. specialize (IH (copy_into b p bytes) (p + Z.of_nat (length bytes)) Hok).
    destruct (written k (p + Z.of_nat (length bytes))) as [bs r].
    cbn [writer_write SliceWriter_writer buf pos].
    rewrite wrap64_small by (unfold i64_max, u64_max in *; lia).
    destruct (Z.ltb_spec (Z.of_nat (length b)) (p + Z.of_nat (length bytes))) as [Hfull|Hroom].
    + rewrite length_app. destruct (Z.leb_spec (p + Z.of_nat (length bytes + length bs)) (Z.of_nat (length b)));
        [lia|done].
    + rewrite length_copy_into in IH by lia. specialize (IH ltac:(lia) Hb).
      rewrite length_app, Nat2Z.inj_add, Z.add_assoc.
      destruct (Z.leb_spec (p + Z.of_nat (length bytes) + Z.of_nat (length bs)) (Z.of_nat (length b))).
      * rewrite IH. rewrite copy_into_app by (rewrite ?length_app; lia). done.
      * done.
  - by apply IH.
Qed.

(** ** Properties *)

Section Exact.

Context (value : serializer).
Hypothesis Hpieces : pieces_ok value.
Hypothesis Hlen : Z.of_nat (length (written value 0).1) <= i64_max.

Lemma compute_length_written :
  compute_length value =
    match (written value 0).2 with
    | Ok _ => Ok (Z.of_nat (length (written value 0).1))
    | Err e => Err e
    end.
Proof using Hlen.
  unfold compute_length, CountingWriter_new.
  destruct (counting_writer_written value 0 0) as [c' ->]; [lia|unfold i64_max, u64_max in *; lia|].
  by destruct (written value 0) as [bs [[]|e]].
Qed.

(** Into a buffer of the computed length. *)
Lemma serialize_exact b :
  Z.of_nat (length b) = Z.of_nat (length (written value 0).1) -> (written value 0).2 = Ok tt ->
  serialize_to_buf value b = (Ok tt, (written value 0).1).
Proof using Hpieces Hlen.
  intros Hb Hok. pose proof (slice_writer_written value b 0 Hpieces ltac:(lia)) as H.
  destruct (written value 0) as [bs res]. cbn [fst snd] in *. subst res.
  rewrite Z.add_0_l, (proj2 (Z.leb_le _ _)) in H by lia. unfold serialize_to_buf, SliceWriter_new.
  rewrite H by lia. cbn [buf]. f_equal. unfold copy_into. cbn.
  rewrite drop_ge by lia. by rewrite app_nil_r.
Qed.

End Exact.

(** C14. [compute_length] and [serialize_to_buf] agree: when the first returns a
    length, the second succeeds in every buffer of at least that many bytes,
    writes exactly that many at its start and leaves the rest of it alone, and
    reports that it is out of space in every smaller one; a value that cannot be
    serialised fails in both. *)
Theorem compute_length_sufficient value :
  pieces_ok value -> Z.of_nat (length (written value 0).1) <= i64_max ->
  match compute_length value with
  | Ok n =>
      exists bs, Z.of_nat (length bs) = n /\
        forall b, Z.of_nat (length b) <= i64_max ->
          if n <=? Z.of_nat (length b)
          then serialize_to_buf value b = (Ok tt, bs ++ drop (Z.to_nat n) b)
          else (serialize_to_buf value b).1 = Err OutOfSpaceError
  | Err e => forall b, Z.of_nat (length b) <= i64_max -> is_ok (serialize_to_buf value b).1 = false
  end.
Proof.
  intros Hok Hlen. unfold compute_length, CountingWriter_new.
  destruct (counting_writer_written value 0 0) as [c' ->];
    [lia|unfold i64_max, u64_max in *; lia|]. rewrite Z.add_0_l.
  assert (forall b, Z.of_nat (length b) <= i64_max ->
    let '(bs, r) := written value 0 in
    if Z.of_nat (length bs) <=? Z.of_nat (length b)
    then serialize_to_buf value b = (r, bs ++ drop (length bs) b)
    else (serialize_to_buf value b).1 = Err OutOfSpaceError) as Hser.
  { intros b Hb. pose proof (slice_writer_written value b 0 Hok ltac:(lia) Hb) as H.
    destruct (written value 0) as [bs r]. rewrite Z.add_0_l in H.
    unfold serialize_to_buf, SliceWriter_new. destruct (Z.leb _ _).
    - by rewrite H.
    - by destruct (to_bytes_in _ _). }
  destruct (written value 0) as [bs [[]|e]]; cbn [fst snd total_bytes].
  - exists bs. split; [done|]. intros b Hb. rewrite Nat2Z.id. by apply Hser.
  - intros b Hb. specialize (Hser b Hb). destruct (Z.leb _ _); by rewrite Hser.
Qed.

(** A value that asks for its position to align what it writes. *)
Definition demo_value : serializer :=
  SWrite [1; 2; 3] (SPos (fun p => SWrite (if p =? 3 then repeat 0 5 else []) (SWrite [p] SDone))).

Lemma compute_length_sufficient_witness :
  compute_length demo_value = Ok 9 /\
  exists bs, length bs = 9%nat /\
    serialize_to_buf demo_value (repeat 7 10) = (Ok tt, bs ++ [7]) /\
    (serialize_to_buf demo_value (repeat 7 8)).1 = Err OutOfSpaceError.
Proof.
  split; [reflexivity|].
  pose proof (compute_length_sufficient demo_value) as H.
  change (compute_length demo_value) with (@Ok RkyvError Z 9) in H.
  destruct H as (bs & Hlen & H).
  - split; [vm_compute; discriminate|]. intros p. cbn [pieces_ok].
    split; [|split; [vm_compute; discriminate|exact I]]. destruct (p =? 3); vm_compute; discriminate.
  - vm_compute. discriminate.
  - exists bs. split; [lia|]. split.
    + exact (H (repeat 7 10) ltac:(vm_compute; discriminate)).
    + exact (H (repeat 7 8) ltac:(vm_compute; discriminate)).
Defined.

Lemma allocate_n_nth n k self :
  0 <= next_id self <= u16_max -> (k < n)%nat ->
  StreamIdAllocator.allocate_n n self !! k = Some (Z.min u16_max (next_id self + Z.of_nat k)).
Proof.
  unfold u16_max. revert k self. induction n as [|n IH]; intros k self Hid Hk; [lia|].
  cbn [StreamIdAllocator.allocate_n StreamIdAllocator.allocate]. destruct k as [|k].
  - cbn. f_equal. lia.
  - cbn [lookup list_lookup]. rewrite IH by (cbn; unfold sat_add; lia).
    cbn [next_id]. unfold sat_add. f_equal. lia.
Qed.

Lemma length_allocate_n n self : length (StreamIdAllocator.allocate_n n self) = n.
Proof. revert self. induction n; intros; cbn; auto. Qed.

(** The ids of a row of allocations are pairwise distinct exactly as long as
    there are at most 65535 of them; from then on the last id is repeated. *)
Lemma stream_ids_distinct n :
  NoDup (StreamIdAllocator.allocate_n n StreamIdAllocator.new) <-> Z.of_nat n <= u16_max.
Proof.
  assert (forall k, (k < n)%nat -> StreamIdAllocator.allocate_n n StreamIdAllocator.new !! k =
    Some (Z.min u16_max (1 + Z.of_nat k))) as Hnth.
  { intros k Hk. apply allocate_n_nth; [cbn; unfold u16_max; lia|done]. }
  split.
  - intros Hdup. destruct (decide (Z.of_nat n <= u16_max)) as [|Hn]; [done|exfalso].
    unfold u16_max in *. rewrite NoDup_alt in Hdup.
    enough (Z.to_nat 65534 = Z.to_nat 65535) by lia. apply (Hdup _ _ 65535).
    + rewrite Hnth by lia. f_equal; lia.
    + rewrite Hnth by lia. f_equal; lia.
  - intros Hn. apply NoDup_alt. intros i j x Hi Hj.
    pose proof (lookup_lt_Some _ _ _ Hi) as Hil. pose proof (lookup_lt_Some _ _ _ Hj) as Hjl.
    rewrite length_allocate_n in Hil, Hjl. rewrite Hnth in Hi, Hj by done.
    unfold u16_max in *. simplify_eq. lia.
Qed.
