(* ===== verification/Perfetto.v ===== *)
(** * The writer of trace packets

    [PerfettoStreamWriter] (src/perfetto-format/src/lib.rs).  The messages are
    those [prost] generates from the trace format; of their fields the ones the
    source sets are modelled, the others stay at their defaults. *)

From S2P Require Import Prelude Protocol.

(** ** Messages *)

Record PThreadDescriptor := mkThreadDescriptor {
  td_pid : option Z;
  td_tid : option Z;
  td_thread_name : option string
}.

Record PProcessDescriptor := mkProcessDescriptor {
  pd_pid : option Z;
  pd_process_name : option string
}.

Record PTrackDescriptor := mkTrackDescriptor {
  tr_uuid : option Z;
  tr_parent_uuid : option Z;
  tr_name : option string;
  tr_thread : option PThreadDescriptor;
  tr_process : option PProcessDescriptor;
  tr_counter : option (option string)     (** the [unit_name] of the counter descriptor *)
}.

(** [track_event::Type] *)
Inductive EventType := SliceBegin | SliceEnd | TypeInstant | TypeCounter.

Definition event_type_code (t : EventType) : Z :=
  match t with SliceBegin => 1 | SliceEnd => 2 | TypeInstant => 3 | TypeCounter => 4 end.

Inductive DebugValue :=
| DString (s : string)
| DInt (i : Z)
| DDouble (d : Z)
| DBool (b : bool).

Record DebugAnnotation := mkDebugAnnotation {
  da_name : option string;
  da_value : option DebugValue
}.

Definition create_debug_annotation (name : string) (value : DebugValue) : DebugAnnotation :=
  {| da_name := Some name;
     da_value := Some (match value with
                       | DString s => DString s
                       | DInt i => DInt i
                       | DDouble d => DDouble d
                       | DBool b => DBool b
                       end) |}.

Inductive CounterValueField := CounterValue (v : Z) | DoubleCounterValue (v : Z).

Record PTrackEvent := mkTrackEvent {
  ev_name : option string;
  ev_track_uuid : option Z;
  ev_type : option Z;
  ev_counter : option CounterValueField;
  ev_debug_annotations : list DebugAnnotation
}.

Record PPerfSample := mkPerfSample {
  ps_cpu : option Z;
  ps_pid : option Z;
  ps_tid : option Z;
  ps_callstack_iid : option Z;
  ps_timebase_count : option Z
}.

Record PInternedString := mkPInternedString { is_iid : option Z; is_str : option string }.

Record PFrame := mkPFrame {
  fr_iid : option Z;
  fr_function_name_id : option Z;
  fr_mapping_id : option Z;
  fr_rel_pc : option Z
}.

Record PCallstack := mkPCallstack { ca_iid : option Z; ca_frame_ids : list Z }.

Record PMapping := mkPMapping {
  ma_iid : option Z;
  ma_build_id : option Z;
  ma_exact_offset : option Z;
  ma_start_offset : option Z;
  ma_start : option Z;
  ma_end : option Z;
  ma_load_bias : option Z;
  ma_path_string_ids : list Z
}.

Record PInternedData := mkPInternedData {
  in_function_names : list PInternedString;
  in_frames : list PFrame;
  in_callstacks : list PCallstack;
  in_mappings : list PMapping;
  in_build_ids : list PInternedString
}.

Inductive PacketData :=
| DTrackDescriptor (d : PTrackDescriptor)
| DTrackEvent (e : PTrackEvent)
| DPerfSample (s : PPerfSample).

Record TracePacket := mkTracePacket {
  tp_data : option PacketData;
  tp_timestamp : option Z;
  tp_interned_data : option PInternedData;
  tp_sequence_flags : option Z;
  tp_trusted_pid : option Z;
  tp_sequence_id : option Z
}.

Definition SeqIncrementalStateCleared : Z := 1.

Definition SeqNeedsIncrementalState : Z := 2.

Definition packet_default : TracePacket := mkTracePacket None None None None None None.

Definition track_default : PTrackDescriptor := mkTrackDescriptor None None None None None None.

Definition descriptor_packet (d : PTrackDescriptor) : TracePacket :=
  mkTracePacket (Some (DTrackDescriptor d)) None None None None None.

Definition event_packet (e : PTrackEvent) (timestamp_ns : Z) : TracePacket :=
  mkTracePacket (Some (DTrackEvent e)) (Some timestamp_ns) None None None None.

(** ** Sinks *)

(** [std::io::Write]; errors are their codes. *)
Class Write (W : Type) := {
  write_all : W -> list Z -> result Z unit * W;
  write_flush : W -> result Z unit * W
}.

(** What the writer does with a packet, and with a flush. *)
Class Sink (W : Type) := {
  sink_packet : W -> TracePacket -> result Z unit * W;
  sink_flush : W -> result Z unit * W
}.

(** The sink of the source: a trace of one packet is encoded ([prost]'s [encode]
    is a parameter) and its bytes are written. *)
Definition stream_sink {W} `{Write W} (encode : list TracePacket -> result Z (list Z)) : Sink W := {|
  sink_packet w packet :=
    match encode [packet] with
    | Err e => (Err e, w)
    | Ok buf => write_all w buf
    end;
  sink_flush := write_flush
|}.

(** ** The writer *)

Record PerfettoStreamWriter (W : Type) := mkWriter {
  writer : W;
  track_uuid_counter : Z
}.
Arguments mkWriter {W} _ _.
Arguments writer {W} _.
Arguments track_uuid_counter {W} _.

Module Writer.

Section Writer.

Context {W : Type} `{Sink W}.

Definition M (A : Type) : Type := stM (PerfettoStreamWriter W) Z A.

Definition new (w : W) : PerfettoStreamWriter W := mkWriter w 1000.

Definition next_track_uuid : M Z :=
  self ← getS;
  let uuid := track_uuid_counter self in
  _ ← putS (mkWriter (writer self) (track_uuid_counter self +64 1));
  mret uuid.

Definition write_packet (packet : TracePacket) (stream_id : option StreamId) : M unit :=
  let packet :=
    mkTracePacket (tp_data packet) (tp_timestamp packet) (tp_interned_data packet)
      (tp_sequence_flags packet) (tp_trusted_pid packet)
      (Some (default u32_max stream_id)) in
  fun self =>
    let '(r, w) := sink_packet (writer self) packet in
    (r, mkWriter w (track_uuid_counter self)).

Definition flush : M unit :=
  fun self =>
    let '(r, w) := sink_flush (writer self) in
    (r, mkWriter w (track_uuid_counter self)).

Definition write_thread_descriptor_with_uuid (thread_track_uuid pid tid : Z)
    (thread_name : option string) (parent_uuid : Z) : M unit :=
  let thread_desc := mkThreadDescriptor (Some (as_signed 32 pid)) (Some (as_signed 32 tid)) thread_name in
  let track_desc :=
    mkTrackDescriptor (Some thread_track_uuid) (Some parent_uuid) None (Some thread_desc) None None in
  write_packet (descriptor_packet track_desc) None.

Definition write_thread_descriptor (pid tid : Z) (thread_name : option string) (parent_uuid : Z) : M Z :=
  thread_track_uuid ← next_track_uuid;
  _ ← write_thread_descriptor_with_uuid thread_track_uuid pid tid thread_name parent_uuid;
  mret thread_track_uuid.

Definition write_process_descriptor (pid : Z) (process_name : option string) : M Z :=
  process_track_uuid ← next_track_uuid;
  let process_desc := mkProcessDescriptor (Some (as_signed 32 pid)) process_name in
  let track_desc :=
    mkTrackDescriptor (Some process_track_uuid) None None None (Some process_desc) None in
  _ ← write_packet (descriptor_packet track_desc) None;
  mret process_track_uuid.

Definition write_slice_begin (track_uuid : Z) (name : string) (timestamp_ns : Z)
    (debug_annotations : list DebugAnnotation) : M unit :=
  let event := mkTrackEvent (Some name) (Some track_uuid) (Some (event_type_code SliceBegin)) None
                 debug_annotations in
  write_packet (event_packet event timestamp_ns) None.

Definition write_slice_end (track_uuid timestamp_ns : Z) : M unit :=
  let event := mkTrackEvent None (Some track_uuid) (Some (event_type_code SliceEnd)) None [] in
  write_packet (event_packet event timestamp_ns) None.

Definition write_instant_event (track_uuid : Z) (name : string) (timestamp_ns : Z)
    (debug_annotations : list DebugAnnotation) : M unit :=
  let event := mkTrackEvent (Some name) (Some track_uuid) (Some (event_type_code TypeInstant)) None
                 debug_annotations in
  write_packet (event_packet event timestamp_ns) None.

Definition write_generic_track (name : string) (parent_track_uuid : Z) : M Z :=
  track_uuid ← next_track_uuid;
  let track_desc :=
    mkTrackDescriptor (Some track_uuid)
      (if 0 <? parent_track_uuid then Some parent_track_uuid else None)
      (Some name) None None None in
  _ ← write_packet (descriptor_packet track_desc) None;
  mret track_uuid.

Definition write_counter_track (name : string) (unit_name : option string) (parent_track_uuid : Z) : M Z :=
  track_uuid ← next_track_uuid;
  let track_desc :=
    mkTrackDescriptor (Some track_uuid) (Some parent_track_uuid) (Some name) None None
      (Some unit_name) in
  _ ← write_packet (descriptor_packet track_desc) None;
  mret track_uuid.

Definition write_counter_value (track_uuid value timestamp_ns : Z) : M unit :=
  let event := mkTrackEvent None (Some track_uuid) (Some (event_type_code TypeCounter))
                 (Some (CounterValue value)) [] in
  write_packet (event_packet event timestamp_ns) None.

Definition write_double_counter_value (track_uuid value timestamp_ns : Z) : M unit :=
  let event := mkTrackEvent None (Some track_uuid) (Some (event_type_code TypeCounter))
                 (Some (DoubleCounterValue value)) [] in
  write_packet (event_packet event timestamp_ns) None.

Definition write_perf_sample (cpu pid tid timestamp_ns callstack_iid : Z)
    (stream_id : option StreamId) : M unit :=
  let sample := mkPerfSample (Some cpu) (Some pid) (Some tid) (Some callstack_iid) (Some 1) in
  write_packet
    (mkTracePacket (Some (DPerfSample sample)) (Some timestamp_ns) None None
       (Some (as_signed 32 pid)) None)
    stream_id.

Definition write_interned_data (interned_data : PInternedData) (stream_id : option StreamId) : M unit :=
  write_packet
    (mkTracePacket None None (Some interned_data) (Some SeqIncrementalStateCleared) None None)
    stream_id.

Definition write_interned_data_next (interned_data : PInternedData) (stream_id : option StreamId)
    : M unit :=
  write_packet
    (mkTracePacket None None (Some interned_data) (Some SeqNeedsIncrementalState) None None)
    stream_id.

(** The message built from interned data in either form. *)
Definition interned_message {D} `{InternedDataIterable D} (data : D) : PInternedData :=
  {| in_function_names :=
       map (fun f => mkPInternedString (Some (string_iid f)) (Some (str_ref f))) (data_function_names data);
     in_frames :=
       map (fun f => mkPFrame (Some (frame_iid f)) (Some (frame_function_name_id f))
                       (Some (frame_mapping_id f)) (Some (frame_rel_pc f))) (data_frames data);
     in_callstacks :=
       map (fun c => mkPCallstack (Some (callstack_iid c)) (callstack_frame_ids c)) (data_callstacks data);
     in_mappings :=
       map (fun m => mkPMapping (Some (mapping_iid m)) (Some (mapping_build_id m))
                       (Some (mapping_exact_offset m)) (Some (mapping_start_offset m))
                       (Some (mapping_start m)) (Some (mapping_end m))
                       (Some (mapping_load_bias m)) (mapping_path_string_ids m)) (data_mappings data);
     in_build_ids :=
       map (fun b => mkPInternedString (Some (string_iid b)) (Some (str_ref b))) (data_build_ids data) |}.

Definition write_protocol_interned_data {D} `{InternedDataIterable D} (data : D)
    (stream_id : option StreamId) : M unit :=
  if data_continuation data
  then write_interned_data_next (interned_message data) stream_id
  else write_interned_data (interned_message data) stream_id.

End Writer.

End Writer.

(** ** The log of packets

    A sink that keeps the packets and never fails: what a writer does is what it
    does to this one, fed to the real sink ([follows] below). *)

#[export] Instance log_sink : Sink (list TracePacket) := {
  sink_packet w packet := (Ok tt, w ++ [packet]);
  sink_flush w := (Ok tt, w)
}.

(** Packets to a sink, up to the first failure. *)
Fixpoint feed {W} `{Sink W} (w : W) (ps : list TracePacket) : result Z unit * W :=
  match ps with
  | [] => (Ok tt, w)
  | p :: ps =>
      match sink_packet w p with
      | (Ok _, w) => feed w ps
      | (Err e, w) => (Err e, w)
      end
  end.

Lemma feed_app {W} `{Sink W} (w : W) ps ps' :
  feed w (ps ++ ps') =
  match feed w ps with
  | (Ok _, w) => feed w ps'
  | (Err e, w) => (Err e, w)
  end.
Proof.
  revert w. induction ps as [|p ps IH]; intros w; cbn [feed app]; [done|].
  destruct (sink_packet w p) as [[]]; [apply IH|done].
Qed.

(** Chunks to a writer, up to the first failure. *)
Fixpoint write_all_list {W} `{Write W} (w : W) (bs : list (list Z)) : result Z unit * W :=
  match bs with
  | [] => (Ok tt, w)
  | b :: bs =>
      match write_all w b with
      | (Ok _, w) => write_all_list w bs
      | (Err e, w) => (Err e, w)
      end
  end.

(** Feeding the stream sink writes the encodings. *)
Lemma feed_stream {W} `{Write W} (enc : TracePacket -> list Z) encode (w : W) ps :
  (forall p, encode [p] = Ok (enc p)) ->
  @feed W (stream_sink encode) w ps = write_all_list w (map enc ps).
Proof.
  intros Henc. revert w. induction ps as [|p ps IH]; intros w; cbn [feed map write_all_list]; [done|].
  cbn [sink_packet stream_sink]. rewrite Henc.
  destruct (write_all w (enc p)) as [[]]; [apply IH|done].
Qed.

(** ** Following the log *)

Section Follows.

Context {W : Type} `{Sink W}.
(** A state with a writer in it and something else. *)
Context {X E : Type} (S : Type -> Type) (mk : forall W, W -> X -> S W) (inj : Z -> E).

(** A computation does to the sink what it does to the log, up to the first
    failure of the sink, which it returns. *)
Definition follows {A} (mW : stM (S W) E A) (mL : stM (S (list TracePacket)) E A) : Prop :=
  forall w x log, exists ps x' r,
    mL (mk _ log x) = (r, mk _ (log ++ ps) x') /\
    match feed w ps with
    | (Ok _, w') => mW (mk _ w x) = (r, mk _ w' x')
    | (Err e, w') => exists x'', mW (mk _ w x) = (Err (inj e), mk _ w' x'')
    end.

Lemma follows_quiet {A} (mW : stM (S W) E A) (mL : stM (S (list TracePacket)) E A) :
  (forall x, exists r x', (forall w, mW (mk _ w x) = (r, mk _ w x')) /\
                     (forall log, mL (mk _ log x) = (r, mk _ log x'))) ->
  follows mW mL.
Proof.
  intros Hq w x log. destruct (Hq x) as (r & x' & HW & HL).
  exists [], x', r. rewrite app_nil_r. split; [apply HL|apply HW].
Qed.

Lemma follows_ret {A} (a : A) : follows (mret a) (mret a).
Proof. apply follows_quiet. intros x. by exists (Ok a), x. Qed.

Lemma follows_fail {A} (e : E) : follows (A := A) (failS e) (failS e).
Proof. apply follows_quiet. intros x. by exists (Err e), x. Qed.

Lemma follows_bind {A B} mW mL (kW : A -> stM (S W) E B) kL :
  follows mW mL -> (forall a, follows (kW a) (kL a)) -> follows (mW ≫= kW) (mL ≫= kL).
Proof.
  intros Hm Hk w x log. destruct (Hm w x log) as (ps & x1 & r & HL & HW).
  unfold mbind, stM_mbind. rewrite HL. destruct r as [a|e].
  - destruct (feed w ps) as [[[]|e] w1] eqn:Hf.
    + destruct (Hk a w1 x1 (log ++ ps)) as (ps' & x2 & r' & HL' & HW').
      exists (ps ++ ps'), x2, r'. rewrite app_assoc, feed_app, Hf, HW. by split.
    + destruct HW as [x'' ->].
      destruct (Hk a w1 x1 (log ++ ps)) as (ps' & x2 & r' & HL' & _).
      exists (ps ++ ps'), x2, r'. rewrite app_assoc, feed_app, Hf, HL'. eauto.
  - exists ps, x1, (Err e). split; [done|].
    destruct (feed w ps) as [[[]|e'] w1]; [by rewrite HW|]. destruct HW as [x'' ->]. eauto.
Qed.

End Follows.

Create HintDb follows discriminated.

(** Compositional proofs of [follows]. *)
Ltac follow :=
  repeat first
    [ solve [auto with follows]
    | apply follows_ret | apply follows_fail
    | apply follows_bind; [|intros ?]
    | progress cbv zeta
    | match goal with
      | |- follows _ _ _ (match ?x with _ => _ end) _ => destruct x
      end ].

Section WriterFollows.

Context {W : Type} `{Sink W}.

Abbreviation wfollows := (follows PerfettoStreamWriter (fun W (w : W) (x : Z) => mkWriter w x) (fun e => e)).

Lemma write_packet_follows p sid :
  wfollows (Writer.write_packet (W := W) p sid) (Writer.write_packet p sid).
Proof.
  intros w x log. unfold Writer.write_packet. cbn [writer track_uuid_counter].
  set (packet := mkTracePacket _ _ _ _ _ _).
  exists [packet], x, (Ok tt). split; [done|]. cbn [feed].
  destruct (sink_packet w packet) as [[[]|e] w']; cbn; eauto.
Qed.

Lemma next_track_uuid_follows :
  wfollows (Writer.next_track_uuid (W := W)) Writer.next_track_uuid.
Proof. apply follows_quiet. intros x. by exists (Ok x), (x +64 1). Qed.

#[local] Hint Resolve write_packet_follows next_track_uuid_follows : follows.

Lemma write_thread_descriptor_follows pid tid name parent :
  wfollows (Writer.write_thread_descriptor (W := W) pid tid name parent)
    (Writer.write_thread_descriptor pid tid name parent).
Proof. unfold Writer.write_thread_descriptor, Writer.write_thread_descriptor_with_uuid. follow. Qed.

Lemma write_process_descriptor_follows pid name :
  wfollows (Writer.write_process_descriptor (W := W) pid name)
    (Writer.write_process_descriptor pid name).
Proof. unfold Writer.write_process_descriptor. follow. Qed.

Lemma write_generic_track_follows name parent :
  wfollows (Writer.write_generic_track (W := W) name parent) (Writer.write_generic_track name parent).
Proof. unfold Writer.write_generic_track. follow. Qed.

Lemma write_counter_track_follows name unit parent :
  wfollows (Writer.write_counter_track (W := W) name unit parent)
    (Writer.write_counter_track name unit parent).
Proof. unfold Writer.write_counter_track. follow. Qed.

Lemma write_protocol_interned_data_follows {D} `{InternedDataIterable D} (data : D) sid :
  wfollows (Writer.write_protocol_interned_data (W := W) data sid)
    (Writer.write_protocol_interned_data data sid).
Proof.
  unfold Writer.write_protocol_interned_data, Writer.write_interned_data_next,
    Writer.write_interned_data. follow.
Qed.

End WriterFollows.

#[export] Hint Resolve write_packet_follows write_thread_descriptor_follows
  write_process_descriptor_follows write_generic_track_follows write_counter_track_follows
  write_protocol_interned_data_follows : follows.
