(* ===== verification/Converter.v ===== *)
(** * From events to trace packets

    [PerfettoConverter] and the label iterators of the crate [kinetrace]
    (src/kinetrace/src/converter.rs, label_iter.rs): the converter assigns a
    track to every id it meets and writes the packets of each event to the
    writer of [Perfetto]. *)

From S2P Require Import Prelude Protocol Perfetto.

(** ** Labels *)

Class LabelIterator (L : Type) := {
  iter_strings : L -> list (string * string);
  iter_ints : L -> list (string * Z);
  iter_bools : L -> list (string * bool);
  iter_floats : L -> list (string * Z)
}.

#[export] Instance Labels_iterator : LabelIterator (Labels.t Z Z) := {
  iter_strings l := map (fun '(k, v) => (k, v)) (Labels.strings l);
  iter_ints l := map (fun '(k, v) => (k, v)) (Labels.ints l);
  iter_bools l := map (fun '(k, v) => (k, v)) (Labels.bools l);
  iter_floats l := map (fun '(k, v) => (k, v)) (Labels.floats l)
}.

#[export] Instance ArchivedLabels_iterator `{ArchivedInts} : LabelIterator (Labels.t i64_le f64_le) := {
  iter_strings l := map (fun '(k, v) => (k, v)) (Labels.strings l);
  iter_ints l := map (fun '(k, v) => (k, i64_native v)) (Labels.ints l);
  iter_bools l := map (fun '(k, v) => (k, v)) (Labels.bools l);
  iter_floats l := map (fun '(k, v) => (k, f64_native v)) (Labels.floats l)
}.

(** ** The converter *)

(** [eyre::Report]: an error of the writer; [Panicked] is the [unwrap] of a
    missing map entry. *)
Inductive ConvertError :=
| Io (code : Z)
| Panicked.

Record PerfettoConverter (W : Type) := mkConverter {
  cv_writer : PerfettoStreamWriter W;
  track_map : gmap TrackId Z
}.
Arguments mkConverter {W} _ _.
Arguments cv_writer {W} _.
Arguments track_map {W} _.

Module Converter.

Section Converter.

Context {W : Type} `{Sink W}.

Definition M (A : Type) : Type := stM (PerfettoConverter W) ConvertError A.

Definition new (w : W) : PerfettoConverter W := mkConverter (Writer.new w) ∅.

(** [self.writer.f(...)?] *)
Definition on_writer {A} (m : Writer.M A) : M A :=
  fun self =>
    let '(r, w) := m (cv_writer self) in
    (map_err Io r, mkConverter w (track_map self)).

Definition get_track (id : TrackId) : M (option Z) :=
  self ← getS; mret (track_map self !! id).

Definition insert_track (id : TrackId) (uuid : Z) : M unit :=
  modifyS (fun self => mkConverter (cv_writer self) (<[id := uuid]> (track_map self))).

Definition ensure_process_track (pid : Z) (name : option string) : M Z :=
  let track_id := TrackId.Process pid in
  found ← get_track track_id;
  match found with
  | Some track_uuid => mret track_uuid
  | None =>
      track_uuid ← on_writer (Writer.write_process_descriptor (wrap 32 pid) name);
      _ ← insert_track track_id track_uuid;
      mret track_uuid
  end.

Definition ensure_thread_track (pid tid : Z) (name : option string) : M Z :=
  let track_id := TrackId.Thread tid pid in
  found ← get_track track_id;
  match found with
  | Some track_uuid =>
      match name with
      | Some _ =>
          process_track_uuid ← ensure_process_track pid None;
          _ ← on_writer (Writer.write_thread_descriptor_with_uuid track_uuid (wrap 32 pid) (wrap 32 tid)
                           name process_track_uuid);
          mret track_uuid
      | None => mret track_uuid
      end
  | None =>
      process_track_uuid ← ensure_process_track pid None;
      track_uuid ← on_writer (Writer.write_thread_descriptor (wrap 32 pid) (wrap 32 tid)
                                name process_track_uuid);
      _ ← insert_track track_id track_uuid;
      mret track_uuid
  end.

Definition create_debug_annotations {L} `{LabelIterator L} (labels : L) : list DebugAnnotation :=
  map (fun '(key, value) => create_debug_annotation key (DString value)) (iter_strings labels) ++
  map (fun '(key, value) => create_debug_annotation key (DInt value)) (iter_ints labels) ++
  map (fun '(key, value) => create_debug_annotation key (DBool value)) (iter_bools labels) ++
  map (fun '(key, value) => create_debug_annotation key (DDouble value)) (iter_floats labels).

Definition convert_interned_data {D} `{InternedDataIterable D} (data : D) (stream_id : option StreamId)
    : M unit :=
  on_writer (Writer.write_protocol_interned_data data stream_id).

Definition convert_counter (counter : Counter.t Z Z Z Z Z) : M unit :=
  found ← get_track (Counter.track_id counter);
  match found with
  | Some track_uuid =>
      on_writer (Writer.write_double_counter_value track_uuid (Counter.value counter)
                   (Counter.timestamp counter))
  | None => mret tt
  end.

Definition convert_archived_counter `{ArchivedInts}
    (counter : Counter.t u32_le i32_le u64_le i64_le f64_le) : M unit :=
  let track_id := TrackId_to_native (Counter.track_id counter) in
  found ← get_track track_id;
  match found with
  | Some track_uuid =>
      on_writer (Writer.write_double_counter_value track_uuid (f64_native (Counter.value counter))
                   (u64_native (Counter.timestamp counter)))
  | None => mret tt
  end.

(** The start of [convert_span] and [convert_instant]: the track of the id;
    [None] where the source returns early. *)
Definition event_track (track_id : TrackId) : M (option Z) :=
  found ← get_track track_id;
  match found with
  | Some uuid => mret (Some uuid)
  | None =>
      match track_id with
      | TrackId.Thread tid pid =>
          uuid ← ensure_thread_track pid tid None;
          _ ← insert_track track_id uuid;
          mret (Some uuid)
      | TrackId.Process pid =>
          uuid ← ensure_process_track pid None;
          _ ← insert_track track_id uuid;
          mret (Some uuid)
      | _ => mret None
      end
  end.

Definition convert_span {L} `{LabelIterator L} (track_id : TrackId) (name : string)
    (start_timestamp end_timestamp : Z) (labels : L) : M unit :=
  track ← event_track track_id;
  match track with
  | None => mret tt
  | Some track_uuid =>
      let debug_annotations := create_debug_annotations labels in
      _ ← on_writer (Writer.write_slice_begin track_uuid name start_timestamp debug_annotations);
      on_writer (Writer.write_slice_end track_uuid end_timestamp)
  end.

Definition convert_instant {L} `{LabelIterator L} (track_id : TrackId) (name : string)
    (timestamp : Z) (labels : L) : M unit :=
  track ← event_track track_id;
  match track with
  | None => mret tt
  | Some track_uuid =>
      let debug_annotations := create_debug_annotations labels in
      on_writer (Writer.write_instant_event track_uuid name timestamp debug_annotations)
  end.

(** The uuid [convert_track] uses for the parent. *)
Definition parent_track (parent : option TrackType) : M Z :=
  match parent with
  | Some parent =>
      let parent_id := TrackType.to_id parent in
      found ← get_track parent_id;
      match found with
      | None =>
          match parent with
          | TrackType.Thread tid pid =>
              uuid ← ensure_thread_track pid tid None;
              _ ← insert_track parent_id uuid;
              mret uuid
          | TrackType.Process pid =>
              uuid ← ensure_process_track pid None;
              _ ← insert_track parent_id uuid;
              mret uuid
          | TrackType.Cpu _ | TrackType.Custom _ | TrackType.Counter _ _ =>
              uuid ← get_track parent_id;
              mret (default 0 uuid)
          end
      | Some _ =>
          uuid ← get_track parent_id;
          match uuid with
          | Some uuid => mret uuid
          | None => failS Panicked
          end
      end
  | None => mret 0
  end.

Definition convert_track (track : Track.t Z Z Z) : M unit :=
  let track_id := TrackType.to_id (Track.track_type track) in
  found ← get_track track_id;
  match found with
  | Some _ => mret tt
  | None =>
      parent_uuid ← parent_track (Track.parent track);
      track_uuid ←
        match Track.track_type track with
        | TrackType.Cpu _ | TrackType.Custom _ =>
            on_writer (Writer.write_generic_track (Track.name track) parent_uuid)
        | TrackType.Counter _ unit =>
            on_writer (Writer.write_counter_track (Track.name track) unit parent_uuid)
        | TrackType.Thread tid pid => ensure_thread_track pid tid (Some (Track.name track))
        | TrackType.Process pid => ensure_process_track pid (Some (Track.name track))
        end;
      insert_track track_id track_uuid
  end.

Definition convert_event (event : Event) (stream_id : option StreamId) : M unit :=
  match event with
  | Event.InternedData data => convert_interned_data data stream_id
  | Event.Sample sample =>
      match Sample.track_id sample with
      | TrackId.Thread tid pid =>
          on_writer (Writer.write_perf_sample (Sample.cpu sample) (wrap 32 pid) (wrap 32 tid)
                       (Sample.timestamp sample) (Sample.callstack_iid sample) stream_id)
      | _ => mret tt
      end
  | Event.Counter counter => convert_counter counter
  | Event.Span span =>
      convert_span (Span.track_id span) (Span.name span) (Span.start_timestamp span)
        (Span.end_timestamp span) (Span.labels span)
  | Event.Instant instant =>
      convert_instant (Instant.track_id instant) (Instant.name instant) (Instant.timestamp instant)
        (Instant.labels instant)
  | Event.Track track => convert_track track
  end.

Definition convert_message (message : Message) : M unit :=
  match message with
  | Message.Event e => convert_event e None
  | Message.Stream stream_id event => convert_event event (Some stream_id)
  end.

Definition convert_archived_event `{ArchivedInts}
    (event : Event.t u32_le i32_le u64_le i64_le f64_le) (stream_id : option StreamId) : M unit :=
  match event with
  | Event.InternedData data => convert_interned_data data stream_id
  | Event.Sample sample =>
      match Sample.track_id sample with
      | TrackId.Thread tid pid =>
          on_writer (Writer.write_perf_sample (u32_native (Sample.cpu sample))
                       (wrap 32 (i32_native pid)) (wrap 32 (i32_native tid))
                       (u64_native (Sample.timestamp sample))
                       (u64_native (Sample.callstack_iid sample)) stream_id)
      | _ => mret tt
      end
  | Event.Counter counter => convert_archived_counter counter
  | Event.Span span =>
      let track_id := TrackId_to_native (Span.track_id span) in
      convert_span track_id (Span.name span) (u64_native (Span.start_timestamp span))
        (u64_native (Span.end_timestamp span)) (Span.labels span)
  | Event.Instant instant =>
      let track_id := TrackId_to_native (Instant.track_id instant) in
      convert_instant track_id (Instant.name instant) (u64_native (Instant.timestamp instant))
        (Instant.labels instant)
  | Event.Track track =>
      let track_type := TrackType_to_native (Track.track_type track) in
      let parent := TrackType_to_native <$> Track.parent track in
      convert_track (Track.mk _ _ _ (Track.name track) track_type parent)
  end.

Definition convert_archived_message `{ArchivedInts}
    (message : Message.t u16_le u32_le i32_le u64_le i64_le f64_le) : M unit :=
  match message with
  | Message.Event e => convert_archived_event e None
  | Message.Stream stream_id event => convert_archived_event event (Some (u16_native stream_id))
  end.

Definition flush : M unit := on_writer Writer.flush.

(** A trace, message by message, up to the first error. *)
Fixpoint convert_messages (messages : list Message) : M unit :=
  match messages with
  | [] => mret tt
  | m :: messages => _ ← convert_message m; convert_messages messages
  end.

End Converter.

End Converter.
