(* ===== verification/ConverterProps.v ===== *)
(** * Properties of the converter

    What reaches the writer ([converter_streams]), the tracks of a trace
    ([trace_tracks]), the agreement of the two forms of a message
    ([archived_message_native]) and the effect of single events. *)

From S2P Require Import Prelude Protocol Perfetto Converter.

(** ** The converter follows the log *)

Section ConverterFollows.

Context {W : Type} `{Sink W}.

Abbreviation cfollows :=
  (follows PerfettoConverter
     (fun W (w : W) (x : Z * gmap TrackId Z) => mkConverter (mkWriter w x.1) x.2) Io).

Lemma on_writer_follows {A} (mW : Writer.M (W := W) A) mL :
  follows PerfettoStreamWriter (fun W (w : W) (x : Z) => mkWriter w x) (fun e => e) mW mL ->
  cfollows (Converter.on_writer mW) (Converter.on_writer mL).
Proof.
  intros Hm w [c tm] log. destruct (Hm w c log) as (ps & c' & r & HL & HW).
  exists ps, (c', tm), (map_err Io r). unfold Converter.on_writer. cbn [cv_writer track_map fst snd] in *.
  rewrite HL. split; [done|]. destruct (feed w ps) as [[[]|e] w']; [by rewrite HW|].
  destruct HW as [c'' ->]. by exists (c'', tm).
Qed.

Lemma get_track_follows id : cfollows (Converter.get_track (W := W) id) (Converter.get_track id).
Proof. apply follows_quiet. intros [c tm]. by exists (Ok (tm !! id)), (c, tm). Qed.

Lemma insert_track_follows id u :
  cfollows (Converter.insert_track (W := W) id u) (Converter.insert_track id u).
Proof. apply follows_quiet. intros [c tm]. by exists (Ok tt), (c, <[id := u]> tm). Qed.

#[local] Hint Resolve on_writer_follows get_track_follows insert_track_follows : follows.

Lemma ensure_process_track_follows pid name :
  cfollows (Converter.ensure_process_track (W := W) pid name) (Converter.ensure_process_track pid name).
Proof. unfold Converter.ensure_process_track. follow. Qed.

#[local] Hint Resolve ensure_process_track_follows : follows.

Lemma ensure_thread_track_follows pid tid name :
  cfollows (Converter.ensure_thread_track (W := W) pid tid name)
    (Converter.ensure_thread_track pid tid name).
Proof.
  unfold Converter.ensure_thread_track, Writer.write_thread_descriptor_with_uuid. follow.
Qed.

#[local] Hint Resolve ensure_thread_track_follows : follows.

Lemma event_track_follows id :
  cfollows (Converter.event_track (W := W) id) (Converter.event_track id).
Proof. unfold Converter.event_track. follow. Qed.

Lemma parent_track_follows parent :
  cfollows (Converter.parent_track (W := W) parent) (Converter.parent_track parent).
Proof. unfold Converter.parent_track. follow. Qed.

#[local] Hint Resolve event_track_follows parent_track_follows : follows.

Lemma convert_event_follows event sid :
  cfollows (Converter.convert_event (W := W) event sid) (Converter.convert_event event sid).
Proof.
  unfold Converter.convert_event, Converter.convert_counter, Converter.convert_span,
    Converter.convert_instant, Converter.convert_track, Converter.convert_interned_data,
    Writer.write_slice_begin, Writer.write_slice_end, Writer.write_instant_event,
    Writer.write_double_counter_value, Writer.write_perf_sample. follow.
Qed.

Lemma convert_message_follows message :
  cfollows (Converter.convert_message (W := W) message) (Converter.convert_message message).
Proof. destruct message; apply convert_event_follows. Qed.

Lemma convert_messages_follows messages :
  cfollows (Converter.convert_messages (W := W) messages) (Converter.convert_messages messages).
Proof.
  induction messages as [|m messages IH]; cbn [Converter.convert_messages].
  - apply follows_ret.
  - apply follows_bind; [apply convert_message_follows|done].
Qed.

End ConverterFollows.

(** ** The tracks of a log *)

(** The track a packet describes, and as what. *)
Definition descriptor_of (p : TracePacket) : option PTrackDescriptor :=
  match tp_data p with Some (DTrackDescriptor d) => Some d | _ => None end.

Definition described_uuid (p : TracePacket) : option Z := descriptor_of p ≫= tr_uuid.

Definition descriptor_matches (d : PTrackDescriptor) (id : TrackId) : Prop :=
  match id with
  | TrackId.Thread tid pid =>
      exists name, tr_thread d =
        Some (mkThreadDescriptor (Some (as_signed 32 (wrap 32 pid))) (Some (as_signed 32 (wrap 32 tid))) name)
  | TrackId.Process pid =>
      exists name, tr_process d = Some (mkProcessDescriptor (Some (as_signed 32 (wrap 32 pid))) name)
  | TrackId.Counter _ => tr_counter d <> None
  | TrackId.Cpu _ | TrackId.Custom _ =>
      tr_thread d = None /\ tr_process d = None /\ tr_counter d = None
  end.

Definition described_as (log : list TracePacket) (u : Z) (id : TrackId) : Prop :=
  exists p d, p ∈ log /\ descriptor_of p = Some d /\ tr_uuid d = Some u /\ descriptor_matches d id.

(** The tracks a packet refers to; 0 is the root. *)
Definition refs (p : TracePacket) : list Z :=
  filter (fun u => u <> 0)
    match tp_data p with
    | Some (DTrackEvent e) => option_list (ev_track_uuid e)
    | Some (DTrackDescriptor d) => option_list (tr_parent_uuid d)
    | _ => []
    end.

(** No packet refers to a track that is not described before it. *)
Definition closed (log : list TracePacket) : Prop :=
  forall l1 p l2 u, log = l1 ++ p :: l2 -> u ∈ refs p -> exists p', p' ∈ l1 /\ described_uuid p' = Some u.

(** The tracks that are described, one entry per descriptor. *)
Definition described_tracks (log : list TracePacket) : list Z := omap described_uuid log.

Abbreviation state c tm log := (mkConverter (W := list TracePacket) (mkWriter log c) tm).

(** [once] says that no track is described twice. *)
Section Once.

Context (once : bool).

Definition tracks_ok (c : Z) (tm : gmap TrackId Z) (log : list TracePacket) : Prop :=
  (closed log /\ (once = true -> NoDup (described_tracks log)) /\
   (forall u, u ∈ described_tracks log -> exists id, tm !! id = Some u)) /\
  (forall id u, tm !! id = Some u -> 1000 <= u < c /\ described_as log u id) /\
  (forall id id' u, tm !! id = Some u -> tm !! id' = Some u -> id = id').

Lemma closed_nil : closed [].
Proof. intros [] ? ? ? ?; done. Qed.

Lemma closed_snoc log p :
  closed log -> (forall u, u ∈ refs p -> exists p', p' ∈ log /\ described_uuid p' = Some u) ->
  closed (log ++ [p]).
Proof.
  intros Hlog Hp l1 p0 l2 u Heq Hu. destruct l2 as [|x l2] using rev_ind.
  - apply app_inj_tail in Heq as [-> ->]. by apply Hp.
  - clear IHl2. rewrite app_comm_cons, app_assoc in Heq. apply app_inj_tail in Heq as [-> ->].
    by eapply Hlog.
Qed.

Lemma described_as_app log log' u id : described_as log u id -> described_as (log ++ log') u id.
Proof. intros (p & d & Hp & ?). exists p, d. split; [set_solver|done]. Qed.

Lemma described_as_uuid log u id :
  described_as log u id -> exists p, p ∈ log /\ described_uuid p = Some u.
Proof.
  intros (p & d & Hp & Hd & Hu & _). exists p. split; [done|]. unfold described_uuid. by rewrite Hd.
Qed.

Lemma log_described_snoc log p :
  described_tracks (log ++ [p]) = described_tracks log ++ option_list (described_uuid p).
Proof. unfold described_tracks. rewrite omap_app. cbn. by destruct (described_uuid p). Qed.

Lemma closed_refs (tm : gmap TrackId Z) c log p :
  closed log -> (forall id u, tm !! id = Some u -> 1000 <= u < c /\ described_as log u id) ->
  (forall u, u ∈ refs p -> exists id, tm !! id = Some u) -> closed (log ++ [p]).
Proof.
  intros Hcl Htm Hp. apply closed_snoc; [done|]. intros u Hu. destruct (Hp u Hu) as [id Hid].
  destruct (Htm id u Hid) as [_ Hd]. by eapply described_as_uuid.
Qed.

(** More packets that refer to known tracks. *)
Lemma tracks_ok_packet c tm log p c' :
  tracks_ok c tm log -> c <= c' ->
  (forall u, u ∈ refs p -> exists id, tm !! id = Some u) ->
  (forall u, described_uuid p = Some u -> once = false /\ exists id, tm !! id = Some u) ->
  tracks_ok c' tm (log ++ [p]).
Proof.
  intros ((Hcl & Hnd & Hall) & Htm & Hinj) Hc Hp Hdesc. split_and!.
  - by apply (closed_refs tm c).
  - intros Ho. rewrite log_described_snoc. destruct (described_uuid p) as [u|]; [|rewrite app_nil_r; auto].
    destruct (Hdesc u eq_refl). congruence.
  - intros u. rewrite log_described_snoc, elem_of_app. intros [Hu|Hu]; [by apply Hall|].
    destruct (described_uuid p) as [v|]; [|by apply elem_of_nil in Hu].
    apply list_elem_of_singleton in Hu as ->. by apply Hdesc.
  - intros id u Hid. destruct (Htm id u Hid) as [? Hd]. split; [lia|]. by apply described_as_app.
  - done.
Qed.

(** A new track. *)
Lemma tracks_ok_new c tm log p id d :
  tracks_ok c tm log -> 1000 <= c -> tm !! id = None ->
  descriptor_of p = Some d -> tr_uuid d = Some c -> descriptor_matches d id ->
  (forall u, u ∈ refs p -> exists id, tm !! id = Some u) ->
  tracks_ok (c + 1) (<[id := c]> tm) (log ++ [p]).
Proof.
  intros ((Hcl & Hnd & Hall) & Htm & Hinj) Hc Hid Hp Hu Hm Hrefs.
  assert (described_uuid p = Some c) as Hdu by (unfold described_uuid; by rewrite Hp).
  split_and!.
  - by apply (closed_refs tm c).
  - intros Ho. rewrite log_described_snoc, Hdu. apply NoDup_app. split; [by apply Hnd|]. split; [|apply NoDup_singleton].
    intros u [id0 Hid0]%Hall Hc0. apply list_elem_of_singleton in Hc0 as ->. destruct (Htm _ _ Hid0). lia.
  - intros u. rewrite log_described_snoc, Hdu, elem_of_app. intros [[id0 Hid0]%Hall|Hc0].
    + exists id0. rewrite lookup_insert_ne; [done|]. intros ->. congruence.
    + apply list_elem_of_singleton in Hc0 as ->. exists id. by rewrite lookup_insert_eq.
  - intros id' u Hid'. destruct (decide (id = id')) as [<-|].
    + rewrite lookup_insert_eq in Hid'. injection Hid' as <-. split; [lia|].
      exists p, d. split; [set_solver|done].
    + rewrite lookup_insert_ne in Hid' by done. destruct (Htm _ _ Hid') as [? Hd]. split; [lia|].
      by apply described_as_app.
  - intros id1 id2 u H1 H2.
    apply lookup_insert_Some in H1 as [[<- <-]|[Hne1 H1]], H2 as [[<- Heq]|[Hne2 H2]]; try done.
    + destruct (Htm _ _ H2). lia.
    + subst. destruct (Htm _ _ H1). lia.
    + by eapply Hinj.
Qed.

(** ** Runs on the log *)

(** The computation succeeds, assigns at most [k] new tracks, keeps the assigned
    ones and leaves a well-formed log. *)
Definition runs {A} (m : Converter.M (W := list TracePacket) A) (c : Z) (tm : gmap TrackId Z)
    (log : list TracePacket) (k : Z) (Q : A -> gmap TrackId Z -> list TracePacket -> Prop) : Prop :=
  exists a c' tm' ps, m (state c tm log) = (Ok a, state c' tm' (log ++ ps)) /\
    c <= c' <= c + k /\ tm ⊆ tm' /\ tracks_ok c' tm' (log ++ ps) /\ Q a tm' ps.

Lemma runs_bind {A B} (m : Converter.M A) (f : A -> Converter.M B) c tm log k1 k2 Q1 Q :
  runs m c tm log k1 Q1 ->
  (forall a c' tm' ps, Q1 a tm' ps -> tracks_ok c' tm' (log ++ ps) -> c <= c' <= c + k1 ->
    tm ⊆ tm' -> runs (f a) c' tm' (log ++ ps) k2 (fun b tm'' ps' => Q b tm'' (ps ++ ps'))) ->
  runs (m ≫= f) c tm log (k1 + k2) Q.
Proof.
  intros (a & c1 & tm1 & ps1 & Hm & Hc1 & Hsub1 & Hok1 & HQ1) Hf.
  destruct (Hf a c1 tm1 ps1 HQ1 Hok1 Hc1 Hsub1)
    as (b & c2 & tm2 & ps2 & Hb & Hc2 & Hsub2 & Hok2 & HQ).
  exists b, c2, tm2, (ps1 ++ ps2). rewrite app_assoc. split_and!; try done; try lia.
  - unfold mbind, stM_mbind. by rewrite Hm.
  - by etrans.
Qed.

Lemma runs_weaken {A} (m : Converter.M A) c tm log k k' (Q Q' : A -> _ -> _ -> Prop) :
  runs m c tm log k Q -> k <= k' -> (forall a tm' ps, tm ⊆ tm' -> Q a tm' ps -> Q' a tm' ps) ->
  runs m c tm log k' Q'.
Proof.
  intros (a & c' & tm' & ps & ? & ? & ? & ? & ?) Hk HQ. exists a, c', tm', ps.
  split_and!; try done; try lia. auto.
Qed.

(** Use fewer tracks than allowed. *)
Ltac at_most k :=
  match goal with
  | |- runs _ _ _ _ _ ?Q => apply (runs_weaken _ _ _ _ k _ Q Q); [|lia|done]
  end.

Lemma runs_ret {A} (a : A) c tm log (Q : A -> _ -> _ -> Prop) :
  tracks_ok c tm log -> Q a tm [] -> runs (mret a) c tm log 0 Q.
Proof.
  intros Hok HQ. exists a, c, tm, []. rewrite app_nil_r. split_and!; done || lia.
Qed.

Lemma runs_get id c tm log (Q : _ -> _ -> _ -> Prop) :
  tracks_ok c tm log -> Q (tm !! id) tm [] -> runs (Converter.get_track id) c tm log 0 Q.
Proof.
  intros Hok HQ. exists (tm !! id), c, tm, []. rewrite app_nil_r. split_and!; done || lia.
Qed.

(** Inserting an id that has this track already. *)
Lemma runs_insert id u c tm log (Q : _ -> _ -> _ -> Prop) :
  tracks_ok c tm log -> tm !! id = Some u -> Q tt tm [] ->
  runs (Converter.insert_track id u) c tm log 0 Q.
Proof.
  intros Hok Hid HQ. exists tt, c, tm, []. rewrite app_nil_r. split_and!; try done; try lia.
  unfold Converter.insert_track, modifyS. cbn. by rewrite insert_id.
Qed.

(** The packet as it is written. *)
Definition sequenced (p : TracePacket) (sid : option StreamId) : TracePacket :=
  mkTracePacket (tp_data p) (tp_timestamp p) (tp_interned_data p) (tp_sequence_flags p)
    (tp_trusted_pid p) (Some (default u32_max sid)).

Definition is_descriptor (p : TracePacket) : Prop := descriptor_of p <> None.

(** A packet about known tracks. *)
Lemma runs_packet p sid c tm log (Q : _ -> _ -> _ -> Prop) :
  tracks_ok c tm log ->
  (forall u, u ∈ refs p -> exists id, tm !! id = Some u) ->
  (forall u, described_uuid p = Some u -> once = false /\ exists id, tm !! id = Some u) ->
  Q tt tm [sequenced p sid] ->
  runs (Converter.on_writer (Writer.write_packet p sid)) c tm log 0 Q.
Proof.
  intros Hok Hrefs Hdesc HQ. exists tt, c, tm, [sequenced p sid]. split; [reflexivity|].
  split_and!; [lia|lia|done| |done].
  by apply (tracks_ok_packet c).
Qed.

Lemma bind_eq {A B} (m : Converter.M A) (f : A -> Converter.M B) s a (s' : PerfettoConverter (list TracePacket)) :
  m s = (Ok a, s') -> (m ≫= f) s = f a s'.
Proof. intros H. unfold mbind, stM_mbind. by rewrite H. Qed.

Lemma get_track_eq id c tm log :
  Converter.get_track id (state c tm log) = (Ok (tm !! id), state c tm log).
Proof. done. Qed.

Lemma insert_track_eq id u c tm log :
  Converter.insert_track id u (state c tm log) = (Ok tt, state c (<[id := u]> tm) log).
Proof. done. Qed.

(** A new track: described, then entered in the map. *)
Lemma runs_new {A} (m : Converter.M A) a p d id c tm log (Q : _ -> _ -> _ -> Prop) :
  m (state c tm log) = (Ok a, state (c +64 1) (<[id := c]> tm) (log ++ [p])) ->
  tracks_ok c tm log -> 1000 <= c -> c + 1 <= u64_max -> tm !! id = None ->
  descriptor_of p = Some d -> tr_uuid d = Some c -> descriptor_matches d id ->
  (forall u, u ∈ refs p -> exists id, tm !! id = Some u) ->
  Q a (<[id := c]> tm) [p] -> runs m c tm log 1 Q.
Proof.
  intros Hm Hok Hc Hmax Hid Hp Hu Hmatch Hrefs HQ.
  exists a, (c + 1), (<[id := c]> tm), [p]. rewrite wrap64_small in Hm by lia.
  split_and!; try done; try lia; [by apply insert_subseteq|by eapply tracks_ok_new].
Qed.

Lemma runs_process pid name c tm log (Q : _ -> _ -> _ -> Prop) :
  tracks_ok c tm log -> 1000 <= c -> c + 1 <= u64_max ->
  (forall u tm' ps, tm' !! TrackId.Process pid = Some u ->
    (forall id, id <> TrackId.Process pid -> tm' !! id = tm !! id) ->
    Forall is_descriptor ps -> Q u tm' ps) ->
  runs (Converter.ensure_process_track pid name) c tm log 1 Q.
Proof.
  intros Hok Hc Hmax HQ. unfold Converter.ensure_process_track.
  apply (runs_bind _ _ _ _ _ 0 1 (fun a tm' ps => a = tm !! TrackId.Process pid /\ tm' = tm /\ ps = [])).
  { by apply runs_get. }
  intros _ c' _ _ (-> & -> & ->) Hok' Hc' _. destruct (tm !! TrackId.Process pid) as [u|] eqn:Hid.
  - apply (runs_weaken _ _ _ _ 0 1 (fun a tm' ps => a = u /\ tm' = tm /\ ps = [])); [by apply runs_ret|lia|].
    intros _ _ ps' _ (-> & -> & ->). by apply HQ.
  - eapply runs_new; [reflexivity|done|lia|lia|done|reflexivity|reflexivity|by eexists| |].
    + by intros u Hu%elem_of_nil.
    + apply HQ; [by rewrite lookup_insert_eq| |by repeat constructor].
      intros id Hne. by rewrite lookup_insert_ne.
Qed.

(** Only threads and processes get tracks on demand. *)
Definition on_demand (id : TrackId) : bool :=
  match id with TrackId.Thread _ _ | TrackId.Process _ => true | _ => false end.

Definition agree (tm tm' : gmap TrackId Z) : Prop :=
  forall id, on_demand id = false -> tm' !! id = tm !! id.

(** At most one thread gets a track. *)
Definition threads_but (except : option TrackId) (tm tm' : gmap TrackId Z) : Prop :=
  forall tid pid, except <> Some (TrackId.Thread tid pid) -> tm' !! TrackId.Thread tid pid = tm !! TrackId.Thread tid pid.

(** The parent of a new descriptor. *)
Lemma refs_parent d parent u (tm : gmap TrackId Z) :
  tr_parent_uuid d = parent -> (forall v, parent = Some v -> v <> 0 -> exists id, tm !! id = Some v) ->
  u ∈ refs (descriptor_packet d) -> exists id, tm !! id = Some u.
Proof.
  intros Hd Hp Hu. unfold refs in Hu. apply list_elem_of_filter in Hu as [Hne Hu].
  cbn in Hu. rewrite Hd in Hu. destruct parent as [v|]; cbn in Hu; [|by apply elem_of_nil in Hu].
  apply list_elem_of_singleton in Hu as ->. by apply Hp.
Qed.

Lemma runs_thread pid tid name c tm log (Q : _ -> _ -> _ -> Prop) :
  tracks_ok c tm log -> 1000 <= c -> c + 2 <= u64_max ->
  (tm !! TrackId.Thread tid pid = None \/ name = None \/ once = false) ->
  (forall u tm' ps, tm' !! TrackId.Thread tid pid = Some u -> agree tm tm' /\ threads_but (Some (TrackId.Thread tid pid)) tm tm' ->
    Forall is_descriptor ps -> Q u tm' ps) ->
  runs (Converter.ensure_thread_track pid tid name) c tm log 2 Q.
Proof.
  intros Hok Hc Hmax Honce HQ. unfold Converter.ensure_thread_track.
  apply (runs_bind _ _ _ _ _ 0 2 (fun a tm' ps => a = tm !! TrackId.Thread tid pid /\ tm' = tm /\ ps = [])).
  { by apply runs_get. }
  intros _ c' _ _ (-> & -> & ->) Hok' Hc' _.
  assert (forall name c ps, tracks_ok c tm (log ++ ps) -> 1000 <= c -> c + 1 <= u64_max ->
    runs (Converter.ensure_process_track pid name) c tm (log ++ ps) 1
      (fun u tm' ps => tm' !! TrackId.Process pid = Some u /\
        (forall id, id <> TrackId.Process pid -> tm' !! id = tm !! id) /\ Forall is_descriptor ps)) as Hproc.
  { intros. by apply runs_process. }
  destruct (tm !! TrackId.Thread tid pid) as [u|] eqn:Hid.
  - destruct name as [name|].
    + apply (runs_bind _ _ _ _ _ 1 1 _ _ (Hproc _ _ _ Hok' ltac:(lia) ltac:(lia))).
      intros up c1 tm1 ps1 (Hup & Hother & Hps1) Hok1 Hc1 Hsub. apply (runs_weaken _ _ _ _ (0 + 0) 1
        (fun a tm' ps => a = u /\ tm' = tm1 /\ Forall is_descriptor ps)); [|lia|].
      * eapply runs_bind; [apply (runs_packet _ _ _ _ _ (fun _ tm' ps => tm' = tm1 /\ Forall is_descriptor ps));
          [done| | |]|].
        -- intros v Hv. eapply refs_parent; [reflexivity| |exact Hv]. intros ? [= <-] _. eauto.
        -- intros v [= <-]. destruct Honce as [?|[?|?]]; [done..|]. split; [done|]. exists (TrackId.Thread tid pid).
           by rewrite Hother.
        -- split; [done|]. by repeat constructor.
        -- intros _ c2 _ ps2 [-> Hps2] Hok2 _ _. apply runs_ret; [done|]. by rewrite app_nil_r.
      * intros a tm' ps' _ (-> & -> & Hps'). apply HQ; [by rewrite Hother| |cbn [app]; by apply Forall_app].
        split; [intros id Hd|intros t' p' Hd]; apply Hother; by try intros ->.
    + apply (runs_weaken _ _ _ _ 0 2 (fun a tm' ps => a = u /\ tm' = tm /\ ps = [])); [by apply runs_ret|lia|].
      intros _ _ _ _ (-> & -> & ->). by apply HQ.
  - apply (runs_bind _ _ _ _ _ 1 1 _ _ (Hproc _ _ _ Hok' ltac:(lia) ltac:(lia))).
    intros up c1 tm1 ps1 (Hup & Hother & Hps1) Hok1 Hc1 Hsub.
    eapply runs_new; [reflexivity|done|lia|lia|by rewrite Hother|reflexivity|reflexivity|by eexists| |].
    + intros v Hv. eapply refs_parent; [reflexivity| |exact Hv]. intros ? [= <-] _. eauto.
    + apply HQ; [by rewrite lookup_insert_eq| |].
      * split; [intros id Hd|intros t' p' Hd]; (rewrite lookup_insert_ne; [apply Hother; by try intros ->|first [congruence|by intros <-]]).
      * cbn [app]. apply Forall_app. split; [done|]. by repeat constructor.
Qed.

Lemma runs_get_bind {B} id (f : option Z -> Converter.M B) c tm log k Q :
  runs (f (tm !! id)) c tm log k Q -> runs (Converter.get_track id ≫= f) c tm log k Q.
Proof. done. Qed.

(** Ensuring a track whose id is then entered once more. *)
Lemma runs_again {B} (m : Converter.M Z) id (f : Z -> B) c tm log k (Q : _ -> _ -> _ -> Prop) :
  runs m c tm log k (fun u tm' ps => tm' !! id = Some u /\ Q (f u) tm' ps) ->
  runs (u ← m; _ ← Converter.insert_track id u; mret (f u)) c tm log k Q.
Proof.
  intros Hm. apply (runs_weaken _ _ _ _ (k + (0 + 0)) k Q); [|lia|done].
  eapply runs_bind; [exact Hm|]. intros u c1 tm1 ps1 [Hu HQ] Hok1 _ _.
  eapply runs_bind; [by apply (runs_insert id u _ _ _ (fun _ tm' ps => tm' = tm1 /\ ps = []))|].
  intros _ c2 _ _ [-> ->] Hok2 _ _. apply runs_ret; [done|]. by rewrite app_nil_r.
Qed.

Lemma runs_event_track id c tm log :
  tracks_ok c tm log -> 1000 <= c -> c + 2 <= u64_max ->
  runs (Converter.event_track id) c tm log 2
    (fun o tm' ps => o = tm' !! id /\ agree tm tm' /\ Forall is_descriptor ps /\
       (on_demand id = true -> o <> None)).
Proof.
  intros Hok Hc Hmax. unfold Converter.event_track. apply runs_get_bind.
  destruct (tm !! id) as [u|] eqn:Hid.
  - eapply runs_weaken; [by apply (runs_ret _ _ _ _ (fun o tm' ps => o = Some u /\ tm' = tm /\ ps = []))|lia|].
    intros o _ _ _ (-> & -> & ->). done.
  - destruct id; try (eapply runs_weaken;
      [by apply (runs_ret _ _ _ _ (fun o tm' ps => o = None /\ tm' = tm /\ ps = []))|lia|];
      intros o _ _ _ (-> & -> & ->); done).
    + apply (runs_again _ _ Some). apply runs_thread; try done; [by right; left|]. by intros u tm' ps Hu [Ha _] ?.
    + apply (runs_again _ _ Some).
      eapply runs_weaken; [apply (runs_process _ _ _ _ _ (fun u tm' ps =>
        tm' !! TrackId.Process pid = Some u /\ agree tm tm' /\ Forall is_descriptor ps)); try done; try lia|lia|].
      * intros u tm' ps Hu Hother Hps. split_and!; try done. intros id Hd. apply Hother. by intros ->.
      * intros u tm' ps _ (Hu & ? & ?). by rewrite Hu.
Qed.

Lemma runs_parent parent c tm log :
  tracks_ok c tm log -> 1000 <= c -> c + 2 <= u64_max ->
  runs (Converter.parent_track parent) c tm log 2
    (fun u tm' ps => (u <> 0 -> exists id, tm' !! id = Some u) /\
       (agree tm tm' /\ threads_but (TrackType.to_id <$> parent) tm tm') /\ Forall is_descriptor ps).
Proof.
  intros Hok Hc Hmax. unfold Converter.parent_track.
  assert (forall u, (u <> 0 -> exists id, tm !! id = Some u) ->
    runs (mret u) c tm log 2 (fun u tm' ps =>
      (u <> 0 -> exists id, tm' !! id = Some u) /\
      (agree tm tm' /\ threads_but (TrackType.to_id <$> parent) tm tm') /\ Forall is_descriptor ps)) as Hret.
  { intros u Hu. eapply runs_weaken; [by apply (runs_ret _ _ _ _ (fun o tm' ps => o = u /\ tm' = tm /\ ps = []))|lia|].
    intros o _ _ _ (-> & -> & ->). done. }
  destruct parent as [p|]; [|by apply Hret]. apply runs_get_bind.
  destruct (tm !! TrackType.to_id p) as [u|] eqn:Hid.
  - apply runs_get_bind. rewrite Hid. apply Hret. eauto.
  - destruct p as [|tid pid|pid| |]; try (apply runs_get_bind; rewrite Hid; by apply Hret).
    + apply (runs_again _ _ (fun u => u)). apply runs_thread; try done; [by right; left|].
      intros u tm' ps Hu [? ?] ?. split_and!; try done. eauto.
    + apply (runs_again _ _ (fun u => u)).
      eapply runs_weaken; [apply (runs_process _ _ _ _ _ (fun u tm' ps =>
        tm' !! TrackId.Process pid = Some u /\ (agree tm tm' /\ threads_but (Some (TrackId.Process pid)) tm tm') /\
        Forall is_descriptor ps)); try done; try lia|lia|].
      * intros u tm' ps Hu Hother Hps. split_and!; try done; [intros id Hd|intros t' p' Hd]; apply Hother; by try intros ->.
      * intros u tm' ps _ (Hu & [? ?] & ?). split_and!; try done. eauto.
Qed.

Lemma runs_described p {A} (m : Converter.M A) a d id c tm log :
  m (state c tm log) = (Ok a, state (c +64 1) (<[id := c]> tm) (log ++ [sequenced p None])) ->
  tracks_ok c tm log -> 1000 <= c -> c + 1 <= u64_max -> tm !! id = None ->
  descriptor_of p = Some d -> tr_uuid d = Some c -> descriptor_matches d id ->
  (forall u, u ∈ refs p -> exists id, tm !! id = Some u) ->
  runs m c tm log 1 (fun _ tm' ps => (exists u, tm' !! id = Some u) /\ Forall is_descriptor ps).
Proof.
  intros Hm Hok Hc Hmax Hid Hp Hu Hmatch Hrefs. eapply runs_new; try done.
  split; [by rewrite lookup_insert_eq; eauto|]. repeat constructor. unfold is_descriptor.
  change (descriptor_of (sequenced p None)) with (descriptor_of p). by rewrite Hp.
Qed.

(** A track that is its own parent: its thread is described for the parent, and once
    more with its name. *)
Definition names_itself (track : Track.t Z Z Z) : bool :=
  match Track.parent track with
  | Some parent => bool_decide (TrackType.to_id parent = TrackType.to_id (Track.track_type track))
  | None => false
  end.

(** What [convert_track] does to the map and the log. *)
Definition track_effect (track : Track.t Z Z Z) (tm tm' : gmap TrackId Z) (ps : list TracePacket) : Prop :=
  let id := TrackType.to_id (Track.track_type track) in
  match tm !! id with
  | Some _ => tm' = tm /\ ps = []
  | None => (exists u, tm' !! id = Some u) /\ Forall is_descriptor ps
  end.

Lemma runs_track track c tm log :
  tracks_ok c tm log -> 1000 <= c -> c + 4 <= u64_max -> (names_itself track = true -> once = false) ->
  runs (Converter.convert_track track) c tm log 4 (fun _ tm' ps => track_effect track tm tm' ps).
Proof.
  intros Hok Hc Hmax Hself. unfold Converter.convert_track, track_effect. apply runs_get_bind.
  destruct (tm !! TrackType.to_id (Track.track_type track)) as [u|] eqn:Hid.
  { eapply runs_weaken; [by apply (runs_ret _ _ _ _ (fun _ tm' ps => tm' = tm /\ ps = []))|lia|].
    by intros _ _ _ _ (-> & ->). }
  apply (runs_bind _ _ _ _ _ 2 2 _ _ (runs_parent _ _ _ _ Hok Hc ltac:(lia))).
  intros up c1 tm1 ps1 (Hup & [Hagree Hbut] & Hps1) Hok1 Hc1 _.
  assert (forall d u, tr_parent_uuid d = Some up \/ tr_parent_uuid d = None ->
    u ∈ refs (descriptor_packet d) -> exists id, tm1 !! id = Some u) as Hrefs.
  { intros d u Hd Hu. eapply refs_parent; [reflexivity| |exact Hu].
    intros v Hv Hne. destruct Hd as [Hd|Hd]; rewrite Hd in Hv; [injection Hv as <-; by apply Hup|done]. }
  destruct (Track.track_type track) as [cpu|tid pid|pid|tid|tid unit] eqn:Ett; cbn [TrackType.to_id] in *.
  2: { apply (runs_bind _ _ _ _ _ 2 0 (fun u tm' ps => tm' !! TrackId.Thread tid pid = Some u /\
         Forall is_descriptor ps)).
       { apply runs_thread; try done; try lia. unfold names_itself in Hself. rewrite Ett in Hself.
         destruct (decide (TrackType.to_id <$> Track.parent track = Some (TrackId.Thread tid pid))) as [E|E].
         - do 2 right. apply Hself. destruct (Track.parent track); [|done]. injection E as E. by apply bool_decide_eq_true.
         - left. by rewrite Hbut. }
       intros u c2 tm2 ps2 [Hu Hps2] Hok2 _ _. apply runs_insert; [done..|].
       rewrite app_nil_r. split; [eauto|]. by apply Forall_app. }
  2: { apply (runs_weaken _ _ _ _ (1 + 0) 2 (fun _ tm' ps => (exists u, tm' !! TrackId.Process pid = Some u) /\
         Forall is_descriptor ps)); [|lia|].
       - apply (runs_bind _ _ _ _ _ 1 0 (fun u tm' ps => tm' !! TrackId.Process pid = Some u /\
           Forall is_descriptor ps)).
         { apply runs_process; done || lia. }
         intros u c2 tm2 ps2 [Hu Hps2] Hok2 _ _. apply runs_insert; [done..|].
         rewrite app_nil_r. eauto.
       - intros _ tm' ps _ [Hu Hps]. split; [done|]. by apply Forall_app. }
  all: eapply runs_weaken; [eapply (runs_described (descriptor_packet _));
    [reflexivity|done|lia|lia|by rewrite Hagree|reflexivity|reflexivity|done| ]|lia|].
  all: try (intros u; apply Hrefs; cbn; destruct (0 <? up); auto).
  all: intros _ tm' ps _ [Hu Hps]; split; [done|]; by apply Forall_app.
Qed.

(** The packets of an event on its track, if it has one. *)
Definition counter_packets (c : Counter.t Z Z Z Z Z) (track : option Z) : list TracePacket :=
  match track with
  | Some u =>
      [sequenced (event_packet (mkTrackEvent None (Some u) (Some 4)
         (Some (DoubleCounterValue (Counter.value c))) []) (Counter.timestamp c)) None]
  | None => []
  end.

Definition span_packets (s : Span.t Z Z Z Z Z) (track : option Z) : list TracePacket :=
  match track with
  | Some u =>
      [sequenced (event_packet (mkTrackEvent (Some (Span.name s)) (Some u) (Some 1) None
         (Converter.create_debug_annotations (Span.labels s))) (Span.start_timestamp s)) None;
       sequenced (event_packet (mkTrackEvent None (Some u) (Some 2) None [])
         (Span.end_timestamp s)) None]
  | None => []
  end.

Definition instant_packets (i : Instant.t Z Z Z Z Z) (track : option Z) : list TracePacket :=
  match track with
  | Some u =>
      [sequenced (event_packet (mkTrackEvent (Some (Instant.name i)) (Some u) (Some 3) None
         (Converter.create_debug_annotations (Instant.labels i))) (Instant.timestamp i)) None]
  | None => []
  end.

Definition sample_packets (s : Sample.t Z Z Z) (sid : option StreamId) : list TracePacket :=
  match Sample.track_id s with
  | TrackId.Thread tid pid =>
      [sequenced (mkTracePacket
         (Some (DPerfSample (mkPerfSample (Some (Sample.cpu s)) (Some (wrap 32 pid))
            (Some (wrap 32 tid)) (Some (Sample.callstack_iid s)) (Some 1))))
         (Some (Sample.timestamp s)) None None (Some (as_signed 32 (wrap 32 pid))) None) sid]
  | _ => []
  end.

Definition interned_packets (d : InternedData.t Z) (sid : option StreamId) : list TracePacket :=
  [sequenced (mkTracePacket None None (Some (Writer.interned_message d))
     (Some (if InternedData.continuation d then 2 else 1)) None None) sid].

(** Descriptors, then the packets of an event on the track its id has then; a
    thread or a process has one. *)
Definition on_track (id : TrackId) (packets : option Z -> list TracePacket)
    (tm' : gmap TrackId Z) (ps : list TracePacket) : Prop :=
  exists tracks, Forall is_descriptor tracks /\ ps = tracks ++ packets (tm' !! id) /\
    (on_demand id = true -> tm' !! id <> None).

(** What an event does: [tm] is the map before, [tm'] the one after, [ps] the
    packets written. *)
Definition event_effect (event : Event) (sid : option StreamId) (tm tm' : gmap TrackId Z)
    (ps : list TracePacket) : Prop :=
  match event with
  | Event.Counter c => tm' = tm /\ ps = counter_packets c (tm !! Counter.track_id c)
  | Event.Span s => on_track (Span.track_id s) (span_packets s) tm' ps
  | Event.Instant i => on_track (Instant.track_id i) (instant_packets i) tm' ps
  | Event.InternedData d => tm' = tm /\ ps = interned_packets d sid
  | Event.Sample s => tm' = tm /\ ps = sample_packets s sid
  | Event.Track t => track_effect t tm tm' ps
  end.

Lemma refs_event e t u v (tm : gmap TrackId Z) id :
  ev_track_uuid e = Some u -> tm !! id = Some u -> v ∈ refs (event_packet e t) ->
  exists id, tm !! id = Some v.
Proof.
  intros He Hid Hv. unfold refs in Hv. apply list_elem_of_filter in Hv as [_ Hv].
  cbn in Hv. rewrite He in Hv. apply list_elem_of_singleton in Hv as ->. eauto.
Qed.

(** An event about a known track. *)
Lemma runs_about e t u id c tm log (Q : _ -> _ -> _ -> Prop) :
  tracks_ok c tm log -> ev_track_uuid e = Some u -> tm !! id = Some u ->
  Q tt tm [sequenced (event_packet e t) None] ->
  runs (Converter.on_writer (Writer.write_packet (event_packet e t) None)) c tm log 0 Q.
Proof.
  intros Hok He Hid HQ. apply runs_packet; [done| |done|done]. intros v Hv. by eapply refs_event.
Qed.

Lemma runs_on_track id (f : option Z -> Converter.M unit) rest c tm log :
  tracks_ok c tm log -> 1000 <= c -> c + 4 <= u64_max ->
  (forall o c tm log, tracks_ok c tm log -> o = tm !! id ->
     runs (f o) c tm log 0 (fun _ tm' ps => tm' = tm /\ ps = rest o)) ->
  runs (o ← Converter.event_track id; f o) c tm log 4 (fun _ tm' ps => on_track id rest tm' ps).
Proof.
  intros Hok Hc Hmax Hf. at_most (2 + 0).
  eapply runs_bind; [apply (runs_event_track id c tm log Hok Hc); lia|].
  intros o c1 tm1 ps1 (Ho & _ & Hps1 & Hsome) Hok1 _ _.
  eapply runs_weaken; [by apply Hf|lia|]. intros _ _ _ _ [-> ->].
  exists ps1. rewrite <-Ho. by split_and!.
Qed.

Definition own_parent (event : Event) : bool := match event with Event.Track t => names_itself t | _ => false end.

Lemma runs_event event sid c tm log :
  tracks_ok c tm log -> 1000 <= c -> c + 4 <= u64_max -> (own_parent event = true -> once = false) ->
  runs (Converter.convert_event event sid) c tm log 4
    (fun _ tm' ps => event_effect event sid tm tm' ps).
Proof.
  intros Hok Hc Hmax Hself. destruct event as [cnt|s|i|d|s|t]; cbn [Converter.convert_event event_effect].
  - unfold Converter.convert_counter. apply runs_get_bind.
    destruct (tm !! Counter.track_id cnt) as [u|] eqn:Hid; at_most 0.
    + by eapply runs_about.
    + by apply runs_ret.
  - apply runs_on_track; [done..|]. intros [u|] c1 tm1 log1 Hok1 Hid; [|by apply runs_ret].
    eapply (runs_bind _ _ _ _ _ 0 0 (fun _ tm' ps => tm' = tm1 /\ ps = take 1 (span_packets s (Some u)))).
    { by eapply runs_about. }
    intros _ c2 _ _ [-> ->] Hok2 _ _. by eapply runs_about.
  - apply runs_on_track; [done..|]. intros [u|] c1 tm1 log1 Hok1 Hid; [|by apply runs_ret].
    by eapply runs_about.
  - at_most 0. unfold Converter.convert_interned_data, Writer.write_protocol_interned_data, interned_packets.
    cbn [data_continuation InternedData_iterable]. destruct (InternedData.continuation d);
      (apply runs_packet; [done|by intros u Hu%elem_of_nil|done|done]).
  - unfold sample_packets. destruct (Sample.track_id s); at_most 0; try by apply runs_ret.
    apply runs_packet; [done|by intros u Hu%elem_of_nil|done|done].
  - by apply runs_track.
Qed.

Lemma tracks_ok_init : tracks_ok 1000 ∅ [].
Proof.
  split_and!; [apply closed_nil|intros _; apply NoDup_nil_2|by intros u Hu%elem_of_nil|done|done].
Qed.

(** Message after message. *)
Definition message_event (m : Message) : Event * option StreamId :=
  match m with
  | Message.Event e => (e, None)
  | Message.Stream sid e => (e, Some sid)
  end.

Lemma runs_message m c tm log :
  tracks_ok c tm log -> 1000 <= c -> c + 4 <= u64_max -> (own_parent (message_event m).1 = true -> once = false) ->
  runs (Converter.convert_message m) c tm log 4
    (fun _ tm' ps => event_effect (message_event m).1 (message_event m).2 tm tm' ps).
Proof. intros. destruct m; by apply runs_event. Qed.

Lemma runs_messages ms c tm log :
  tracks_ok c tm log -> 1000 <= c -> c + 4 * Z.of_nat (length ms) <= u64_max ->
  Forall (fun m => own_parent (message_event m).1 = true -> once = false) ms ->
  runs (Converter.convert_messages ms) c tm log (4 * Z.of_nat (length ms)) (fun _ _ _ => True).
Proof.
  intros Hok Hc Hmax Hself. revert c tm log Hok Hc Hmax. induction Hself as [|m ms Hm Hself IH]; intros c tm log Hok Hc Hmax;
    cbn [length] in *.
  - by apply runs_ret.
  - at_most (4 + 4 * Z.of_nat (length ms)). cbn [Converter.convert_messages].
    eapply runs_bind; [apply runs_message; try done; lia|].
    intros _ c1 tm1 ps1 _ Hok1 Hc1 _. apply IH; [done|lia|lia].
Qed.

End Once.

(** ** Properties *)

(** Converting from the start, whatever the messages. *)
Lemma runs_from_start ms :
  Z.of_nat (length ms) <= 2 ^ 61 ->
  runs false (Converter.convert_messages ms) 1000 ∅ [] (4 * Z.of_nat (length ms)) (fun _ _ _ => True).
Proof.
  intros Hlen. apply runs_messages; [apply tracks_ok_init|lia|unfold u64_max; lia|]. by apply Forall_forall.
Qed.

(** C16. What reaches the output: for every writer and every encoder, converting
    a trace writes the encodings of the packets the converter decides on, one
    after the other and in order; the first write that fails ends the conversion
    with its error, and nothing is written after it.  In particular the
    converter itself never fails. *)
Theorem converter_streams {W} `{Write W} enc encode (w : W) ms :
  (forall p, encode [p] = Ok (enc p)) -> Z.of_nat (length ms) <= 2 ^ 61 ->
  exists ps c tm,
    Converter.convert_messages ms (Converter.new []) = (Ok tt, state c tm ps) /\
    match write_all_list w (map enc ps) with
    | (Ok _, w') =>
        @Converter.convert_messages W (stream_sink encode) ms (Converter.new w) =
          (Ok tt, mkConverter (mkWriter w' c) tm)
    | (Err e, w') =>
        exists c' tm',
          @Converter.convert_messages W (stream_sink encode) ms (Converter.new w) =
            (Err (Io e), mkConverter (mkWriter w' c') tm')
    end.
Proof.
  intros Henc Hlen.
  destruct (runs_from_start ms) as (? & c & tm & ps & Hrun & _); [lia|].
  destruct (@convert_messages_follows W (stream_sink encode) ms w (1000, ∅) [])
    as (ps' & [c' tm'] & r & HL & HW).
  cbn [fst snd app] in *. rewrite HL in Hrun. injection Hrun as -> -> -> ->. destruct x.
  exists ps, c, tm. split; [exact HL|].
  rewrite (feed_stream enc encode w ps Henc) in HW.
  destruct (write_all_list w (map enc ps)) as [[[]|e] w']; [exact HW|].
  destruct HW as [[c' tm'] HW]. exists c', tm'. exact HW.
Qed.

Lemma trace_once once ms :
  Z.of_nat (length ms) <= 2 ^ 61 ->
  Forall (fun m => own_parent (message_event m).1 = true -> once = false) ms ->
  runs once (Converter.convert_messages ms) 1000 ∅ [] (4 * Z.of_nat (length ms)) (fun _ _ _ => True).
Proof. intros Hlen Hself. apply runs_messages; [apply tracks_ok_init|lia|unfold u64_max; lia|done]. Qed.

(** C17. The tracks of a trace: distinct ids have distinct tracks; every track is
    described as what its id says (a thread with its pid and tid, a process with
    its pid, a counter as a counter), and nothing else is described: each descriptor
    is of the one track its id has; no packet refers to a track, as the track of an
    event or the parent of another track, that was not described before it.  Every
    track is described once, unless a message gives a track itself as the parent (see
    [described_twice]). *)
Theorem trace_tracks ms c tm ps r :
  Z.of_nat (length ms) <= 2 ^ 61 ->
  Converter.convert_messages ms (Converter.new []) = (r, state c tm ps) ->
  r = Ok tt /\
  (forall id id' u, tm !! id = Some u -> tm !! id' = Some u -> id = id') /\
  (forall id u, tm !! id = Some u -> 1000 <= u < c /\ described_as ps u id) /\
  (forall u, u ∈ described_tracks ps <-> exists id, tm !! id = Some u) /\
  (Forall (fun m => own_parent (message_event m).1 = false) ms -> NoDup (described_tracks ps)) /\
  closed ps.
Proof.
  intros Hlen Hrun. change (Converter.new []) with (state 1000 ∅ ([] : list TracePacket)) in Hrun.
  destruct (trace_once false ms) as ([] & c' & tm' & ps' & Hrun' & _ & _ & ((Hcl & _ & Hall) & Htm & Hinj) & _);
    [done|by apply Forall_forall|].
  rewrite Hrun in Hrun'. injection Hrun' as -> -> -> ->. split_and!; try done.
  - intros u. split; [apply Hall|]. intros [id Hid]. destruct (Htm id u Hid) as [_ Hd].
    apply described_as_uuid in Hd as (p & Hp & Hu). apply list_elem_of_omap. by exists p.
  - intros Hself.
    destruct (trace_once true ms) as ([] & c1 & tm1 & ps1 & Hrun1 & _ & _ & ((_ & Hnd & _) & _) & _); [done| |].
    { eapply Forall_impl; [exact Hself|]. intros m. cbn. by intros ->. }
    rewrite Hrun in Hrun1. injection Hrun1 as <- <- <-. by apply Hnd.
Qed.

(** The effect of one message, at any point of a trace: a counter value is
    written on the track of its id and dropped if there is none; a span writes
    its begin and its end on one track and an instant itself, after the
    descriptors of the tracks they need; a thread or process without a track gets
    one; a sample of a thread and interned data are written on the sequence of
    their stream; a track that is known already writes nothing.  Tracks keep
    their ids. *)
Lemma message_effect ms m c tm log r s r' :
  Z.of_nat (length ms) < 2 ^ 61 ->
  Converter.convert_messages ms (Converter.new []) = (r, state c tm log) ->
  Converter.convert_message m (state c tm log) = (r', s) ->
  r' = Ok tt /\ exists c' tm' ps,
    s = state c' tm' (log ++ ps) /\ tm ⊆ tm' /\
    event_effect (message_event m).1 (message_event m).2 tm tm' ps.
Proof.
  intros Hlen Hrun Hm.
  destruct (runs_from_start ms)
    as ([] & c0 & tm0 & ps0 & Hrun' & Hc0 & _ & Hok & _); [lia|].
  change (Converter.new []) with (state 1000 ∅ ([] : list TracePacket)) in Hrun.
  rewrite Hrun in Hrun'. injection Hrun' as -> -> -> ->.
  destruct (runs_message false m c0 tm0 ps0 Hok) as ([] & c' & tm' & ps & Hm' & _ & Hsub & _ & Heff);
    [lia|unfold u64_max; lia|done|].
  rewrite Hm in Hm'. injection Hm' as -> ->. split; [done|]. by exists c', tm', ps.
Qed.

(** A thread or process that has been given a track on demand is never
    named: when its [Track] message comes later, the converter returns before
    the code that would write the name. *)
Lemma late_track_ignored ms m c tm log r s r' track :
  Z.of_nat (length ms) < 2 ^ 61 ->
  Converter.convert_messages ms (Converter.new []) = (r, state c tm log) ->
  Converter.convert_message m (state c tm log) = (r', s) ->
  match (message_event m).1 with
  | Event.Span sp => Span.track_id sp = TrackType.to_id (Track.track_type track)
  | Event.Instant i => Instant.track_id i = TrackType.to_id (Track.track_type track)
  | _ => False
  end ->
  on_demand (TrackType.to_id (Track.track_type track)) = true ->
  Converter.convert_message (Message.Event (Event.Track track)) s = (Ok tt, s).
Proof.
  intros Hlen Hrun Hm Hid Hdemand.
  destruct (runs_from_start ms)
    as ([] & c0 & tm0 & ps0 & Hrun' & Hc0 & _ & Hok & _); [lia|].
  change (Converter.new []) with (state 1000 ∅ ([] : list TracePacket)) in Hrun.
  rewrite Hrun in Hrun'. injection Hrun' as -> -> -> ->.
  destruct (runs_message false m c0 tm0 ps0 Hok) as ([] & c' & tm' & ps & Hm' & _ & _ & _ & Heff);
    [lia|unfold u64_max; lia|done|].
  rewrite Hm in Hm'. injection Hm' as -> ->.
  cbn [Converter.convert_message Converter.convert_event]. unfold Converter.convert_track.
  rewrite (bind_eq _ _ _ _ _ (get_track_eq _ _ _ _)).
  destruct (message_event m).1; try done; destruct Heff as (tracks & _ & _ & Hsome);
    rewrite Hid in Hsome; destruct (tm' !! _); done || by destruct (Hsome Hdemand).
Qed.

(** ** The two forms of a message *)

Section Native.

Context `{ArchivedInts}.

Definition native_labels (l : Labels.t i64_le f64_le) : Labels.t Z Z :=
  Labels.mk _ _ (Labels.strings l)
    (map (fun '(k, v) => (k, i64_native v)) (Labels.ints l))
    (Labels.bools l)
    (map (fun '(k, v) => (k, f64_native v)) (Labels.floats l)).

Definition native_string (s : InternedString.t u64_le) : InternedString.t Z :=
  InternedString.mk _ (u64_native (InternedString.iid s)) (InternedString.str s).

Definition native_interned_data (d : InternedData.t u64_le) : InternedData.t Z :=
  InternedData.mk _
    (map native_string (InternedData.function_names d))
    (map (fun f => Frame.mk _ (u64_native (Frame.iid f)) (u64_native (Frame.function_name_id f))
            (u64_native (Frame.mapping_id f)) (u64_native (Frame.rel_pc f))) (InternedData.frames d))
    (map (fun c => Callstack.mk _ (u64_native (Callstack.iid c))
            (map u64_native (Callstack.frame_ids c))) (InternedData.callstacks d))
    (map (fun m => Mapping.mk _ (u64_native (Mapping.iid m)) (u64_native (Mapping.build_id m))
            (u64_native (Mapping.exact_offset m)) (u64_native (Mapping.start_offset m))
            (u64_native (Mapping.start m)) (u64_native (Mapping.end_ m))
            (u64_native (Mapping.load_bias m)) (map u64_native (Mapping.path_string_ids m)))
       (InternedData.mappings d))
    (map native_string (InternedData.build_ids d))
    (InternedData.continuation d).

Definition native_event (e : Event.t u32_le i32_le u64_le i64_le f64_le) : Event :=
  match e with
  | Event.Counter c =>
      Event.Counter (Counter.mk _ _ _ _ _ (Counter.name c) (f64_native (Counter.value c))
        (u64_native (Counter.timestamp c)) (TrackId_to_native (Counter.track_id c))
        (native_labels (Counter.labels _ _ _ _ _ c)) (Counter.unit _ _ _ _ _ c))
  | Event.Span s =>
      Event.Span (Span.mk _ _ _ _ _ (Span.name s) (u64_native (Span.span_id _ _ _ _ _ s))
        (u64_native (Span.start_timestamp s)) (u64_native (Span.end_timestamp s))
        (TrackId_to_native (Span.track_id s)) (native_labels (Span.labels s)))
  | Event.Instant i =>
      Event.Instant (Instant.mk _ _ _ _ _ (Instant.name i) (u64_native (Instant.timestamp i))
        (TrackId_to_native (Instant.track_id i)) (native_labels (Instant.labels i)))
  | Event.InternedData d => Event.InternedData (native_interned_data d)
  | Event.Sample s =>
      Event.Sample (Sample.mk _ _ _ (u32_native (Sample.cpu s)) (TrackId_to_native (Sample.track_id s))
        (u64_native (Sample.timestamp s)) (u64_native (Sample.callstack_iid s))
        (Sample.cpu_mode _ _ _ s))
  | Event.Track t =>
      Event.Track (Track.mk _ _ _ (Track.name t) (TrackType_to_native (Track.track_type t))
        (TrackType_to_native <$> Track.parent t))
  end.

Definition native_message (m : Message.t u16_le u32_le i32_le u64_le i64_le f64_le) : Message :=
  match m with
  | Message.Event e => Message.Event (native_event e)
  | Message.Stream sid e => Message.Stream (u16_native sid) (native_event e)
  end.

Lemma native_annotations l :
  Converter.create_debug_annotations (native_labels l) = Converter.create_debug_annotations l.
Proof.
  unfold Converter.create_debug_annotations. cbn [iter_strings iter_ints iter_bools iter_floats
    Labels_iterator ArchivedLabels_iterator native_labels Labels.strings Labels.ints Labels.bools
    Labels.floats]. rewrite !map_map.
  f_equal; f_equal; [apply map_ext; by intros []|f_equal; apply map_ext; by intros []].
Qed.

Lemma native_interned d : Writer.interned_message (native_interned_data d) = Writer.interned_message d.
Proof.
  unfold Writer.interned_message, native_interned_data. cbn. by rewrite !map_map.
Qed.

Context {W : Type} `{Sink W}.

Lemma archived_event_native e sid (s : PerfettoConverter W) :
  Converter.convert_archived_event e sid s = Converter.convert_event (native_event e) sid s.
Proof.
  destruct e as [c|sp|i|d|sa|t]; cbn [Converter.convert_archived_event Converter.convert_event native_event].
  - done.
  - unfold Converter.convert_span. cbn [Span.labels]. by rewrite native_annotations.
  - unfold Converter.convert_instant. cbn [Instant.labels]. by rewrite native_annotations.
  - unfold Converter.convert_interned_data, Writer.write_protocol_interned_data.
    by rewrite native_interned.
  - cbn [Sample.track_id]. by destruct (Sample.track_id sa).
  - done.
Qed.

(** A message that is read in place from the ring buffer converts to the
    same packets as the same message in its native form, from every state and
    with every writer. *)
Lemma archived_message_native m (s : PerfettoConverter W) :
  Converter.convert_archived_message m s = Converter.convert_message (native_message m) s.
Proof. destruct m; apply archived_event_native. Qed.

End Native.

(** ** Witnesses *)

(** A vector of bytes as a writer, and an encoder that keeps the kind of a
    packet. *)
Definition vec_write : Write (list Z) := {|
  write_all w b := (Ok tt, w ++ b);
  write_flush w := (Ok tt, w)
|}.

Definition kind_enc (p : TracePacket) : list Z :=
  match tp_data p with
  | Some (DTrackDescriptor _) => [100]
  | Some (DTrackEvent e) => [default 0 (ev_type e)]
  | Some (DPerfSample _) => [101]
  | None => [102]
  end.

Definition demo_span : Span.t Z Z Z Z Z :=
  Span.mk _ _ _ _ _ "work" 1 100 200 (TrackId.Thread 7 5) Labels.new.

Definition demo_track : Track.t Z Z Z := Track.mk _ _ _ "main" (TrackType.Thread 7 5) None.

Definition demo_messages : list Message :=
  [Message.Event (Event.Span demo_span);
   Message.Event (Event.Track (Track.mk _ _ _ "load" (TrackType.Counter 3 (Some "ms")) (Some (TrackType.Process 5))));
   Message.Event (Event.Counter (Counter.mk _ _ _ _ _ "load" 4607182418800017408 150
     (TrackId.Counter 3) Labels.new None))].

Lemma converter_streams_witness :
  exists ps c tm,
    Converter.convert_messages demo_messages (Converter.new []) = (Ok tt, state c tm ps) /\
    @Converter.convert_messages (list Z)
      (@stream_sink _ vec_write (fun ps => Ok (kind_enc (hd packet_default ps))))
      demo_messages (Converter.new []) =
      (Ok tt, mkConverter (mkWriter [100; 100; 1; 2; 100; 4] c) tm).
Proof.
  destruct (@converter_streams (list Z) vec_write kind_enc
    (fun ps => Ok (kind_enc (hd packet_default ps))) [] demo_messages (fun p => eq_refl)
    ltac:(vm_compute; discriminate)) as (ps & c & tm & Hlog & Hw).
  exists ps, c, tm. split; [exact Hlog|].
  assert (map kind_enc ps = [[100]; [100]; [1]; [2]; [100]; [4]]) as Hps.
  { vm_compute in Hlog. injection Hlog as <- _ _. reflexivity. }
  rewrite Hps in Hw. exact Hw.
Defined.

Definition demo_log : PerfettoConverter (list TracePacket) :=
  (Converter.convert_messages demo_messages (Converter.new [])).2.

Lemma trace_tracks_witness :
  track_map demo_log !! TrackId.Thread 7 5 = Some 1001 /\
  described_tracks (writer (cv_writer demo_log)) = [1000; 1001; 1002] /\
  NoDup (described_tracks (writer (cv_writer demo_log))) /\ closed (writer (cv_writer demo_log)).
Proof.
  split; [reflexivity|]. split; [vm_compute; reflexivity|].
  destruct (trace_tracks demo_messages (track_uuid_counter (cv_writer demo_log)) (track_map demo_log)
    (writer (cv_writer demo_log)) (Ok tt)) as (_ & _ & _ & _ & Hnd & Hcl); [vm_compute; discriminate|reflexivity|].
  split; [apply Hnd; repeat constructor|exact Hcl].
Defined.

(** A thread whose track names itself as the parent is described for the parent, and
    again with its name. *)
Example described_twice :
  let self := Track.mk _ _ _ "main" (TrackType.Thread 7 5) (Some (TrackType.Thread 7 5)) in
  described_tracks (writer (cv_writer (Converter.convert_messages [Message.Event (Event.Track self)]
    (Converter.new ([] : list TracePacket))).2)) = [1000; 1001; 1001].
Proof. vm_compute. reflexivity. Qed.

Lemma message_effect_witness :
  exists ps, event_effect (Event.Span demo_span) None (track_map demo_log) (track_map demo_log) ps.
Proof.
  destruct (message_effect demo_messages (Message.Event (Event.Span demo_span))
    (track_uuid_counter (cv_writer demo_log)) (track_map demo_log)
    (writer (cv_writer demo_log)) (Ok tt) _ _ ltac:(vm_compute; reflexivity) eq_refl eq_refl)
    as (_ & c' & tm' & ps & Hs & _ & Heff).
  exists ps. assert (tm' = track_map demo_log) as ->; [|exact Heff].
  vm_compute in Hs. injection Hs as _ _ <-. reflexivity.
Defined.

Lemma late_track_ignored_witness :
  Converter.convert_message (Message.Event (Event.Track demo_track)) 
    (Converter.convert_message (Message.Event (Event.Span demo_span)) (state 1000 ∅ [])).2 =
  (Ok tt, (Converter.convert_message (Message.Event (Event.Span demo_span)) (state 1000 ∅ [])).2).
Proof.
  apply (late_track_ignored [] (Message.Event (Event.Span demo_span)) 1000 ∅ [] (Ok tt) _ (Ok tt));
    [reflexivity..|].
  reflexivity.
Defined.
