(* ===== verification/Symbolizer.v ===== *)
(** * Interned symbols

    The crate [interned-symbolizer] (src/interned-symbolizer/src/lib.rs): call
    stacks are sent as ids, and the frames, functions and stacks behind the ids
    once each.  The hash of the standard library's [DefaultHasher], which it does
    not specify, and the symbolizer of [blazesym] are parameters. *)

From S2P Require Import Prelude Protocol.

Definition FAKE_MAPPING_ID : Z := 1.

(** ** The cache *)

Record InternedCache := mkCache {
  next_callstack_sequence : Z;
  callstack_hash_to_sequence : gmap Z Z;
  next_frame_sequence : Z;
  pid_frame_to_sequence : gmap (Z * Z) Z;
  unknown_function_id : option Z;
  next_function_id : Z;
  fake_mapping_id : option Z;
  next_mapping_id : Z;
  is_first_interned_data : bool
}.

Inductive SymbolizerError :=
| Blazesym (code : Z)
| EmptySymbols.

Module Cache.

Section Cache.

(** [hash_callstack] *)
Variable hash_callstack : list Z -> Z.

Definition new : InternedCache := mkCache 0 ∅ 0 ∅ None 0 None 0 true.

Definition cached_frame (self : InternedCache) (pid frame : Z) : option Z :=
  pid_frame_to_sequence self !! (pid, frame).

Definition cached_callstack (self : InternedCache) (callstack : list Z) : option Z :=
  callstack_hash_to_sequence self !! hash_callstack callstack.

Definition reserve_frame (self : InternedCache) (pid frame : Z) : Z * InternedCache :=
  match pid_frame_to_sequence self !! (pid, frame) with
  | Some id => (id, self)
  | None =>
      let id := next_frame_sequence self in
      (id, mkCache (next_callstack_sequence self) (callstack_hash_to_sequence self)
             (next_frame_sequence self +64 1)
             (<[(pid, frame) := id]> (pid_frame_to_sequence self))
             (unknown_function_id self) (next_function_id self) (fake_mapping_id self)
             (next_mapping_id self) (is_first_interned_data self))
  end.

Definition reserve_callstack (self : InternedCache) (callstack : list Z) : Z * InternedCache :=
  let hash := hash_callstack callstack in
  match callstack_hash_to_sequence self !! hash with
  | Some id => (id, self)
  | None =>
      let id := next_callstack_sequence self in
      (id, mkCache (next_callstack_sequence self +64 1)
             (<[hash := id]> (callstack_hash_to_sequence self))
             (next_frame_sequence self) (pid_frame_to_sequence self)
             (unknown_function_id self) (next_function_id self) (fake_mapping_id self)
             (next_mapping_id self) (is_first_interned_data self))
  end.

Definition set_functions (self : InternedCache) (unknown : option Z) (next : Z) : InternedCache :=
  mkCache (next_callstack_sequence self) (callstack_hash_to_sequence self)
    (next_frame_sequence self) (pid_frame_to_sequence self) unknown next
    (fake_mapping_id self) (next_mapping_id self) (is_first_interned_data self).

Definition get_or_create_unknown_function_id (self : InternedCache) : Z * InternedCache :=
  match unknown_function_id self with
  | Some id => (id, self)
  | None =>
      let id := next_function_id self in
      (id, set_functions self (Some id) (next_function_id self +64 1))
  end.

Definition get_or_create_fake_mapping_id (self : InternedCache) : Z * InternedCache :=
  match fake_mapping_id self with
  | Some id => (id, self)
  | None =>
      (FAKE_MAPPING_ID,
       mkCache (next_callstack_sequence self) (callstack_hash_to_sequence self)
         (next_frame_sequence self) (pid_frame_to_sequence self) (unknown_function_id self)
         (next_function_id self) (Some FAKE_MAPPING_ID) (FAKE_MAPPING_ID +64 1)
         (is_first_interned_data self))
  end.

Definition reserve_function_id (self : InternedCache) : Z * InternedCache :=
  let id := next_function_id self in
  (id, set_functions self (unknown_function_id self) (next_function_id self +64 1)).

Definition take_is_first_interned_data (self : InternedCache) : bool * InternedCache :=
  let was_first := is_first_interned_data self in
  (was_first,
   mkCache (next_callstack_sequence self) (callstack_hash_to_sequence self)
     (next_frame_sequence self) (pid_frame_to_sequence self) (unknown_function_id self)
     (next_function_id self) (fake_mapping_id self) (next_mapping_id self) false).

End Cache.

End Cache.

(** ** The data of a call stack *)

Definition is_empty {A} (l : list A) : bool := match l with [] => true | _ => false end.

(** A symbol as [as_sym] gives it: its name, if it is known. *)
Definition Symbolized : Type := option string.

Record Interned := mkInterned {
  in_pid : Z;
  user_addresses : list Z;
  kernel_addresses : list Z;
  user_symbols : list Symbolized;
  kernel_symbols : list Symbolized
}.

(** What the loops of [data] carry along. *)
Record FrameAcc := mkAcc {
  all_frame_ids : list Z;
  new_function_names : list (InternedString.t Z);
  new_frames : list (Frame.t Z);
  acc_cache : InternedCache
}.

(** The body of the two loops; the pid of a kernel frame is -1. *)
Definition intern_frame (pid : Z) (acc : FrameAcc) (sym : Symbolized) (addr : Z) : FrameAcc :=
  let is_new_frame := bool_decide (Cache.cached_frame (acc_cache acc) pid addr = None) in
  let '(frame_id, cache) := Cache.reserve_frame (acc_cache acc) pid addr in
  let ids := all_frame_ids acc ++ [frame_id] in
  if is_new_frame then
    let '(func_id, names, cache) :=
      match sym with
      | Some name =>
          let '(id, cache) := Cache.reserve_function_id cache in
          (id, new_function_names acc ++ [InternedString.mk _ id name], cache)
      | None =>
          let '(id, cache) := Cache.get_or_create_unknown_function_id cache in
          (id, new_function_names acc, cache)
      end in
    mkAcc ids names
      (new_frames acc ++ [Frame.mk _ frame_id func_id FAKE_MAPPING_ID addr]) cache
  else mkAcc ids (new_function_names acc) (new_frames acc) cache.

Definition intern_frames (pid : Z) (acc : FrameAcc) (syms : list (Symbolized * Z)) : FrameAcc :=
  foldl (fun acc '(sym, addr) => intern_frame pid acc sym addr) acc syms.

(** The first part of [data]: the function and the mapping every frame may
    need, then the two loops. *)
Definition data_frames (self : Interned) (cache : InternedCache)
    : FrameAcc * list (Mapping.t Z) * list (InternedString.t Z) :=
  let need_unknown_function := bool_decide (unknown_function_id cache = None) in
  let need_fake_mapping := bool_decide (fake_mapping_id cache = None) in
  let '(names, cache) :=
    if need_unknown_function then
      let '(unknown_id, cache) := Cache.get_or_create_unknown_function_id cache in
      ([InternedString.mk _ unknown_id "<unknown>"], cache)
    else ([], cache) in
  let '(mappings, build_ids, cache) :=
    if need_fake_mapping then
      let '(mapping_id, cache) := Cache.get_or_create_fake_mapping_id cache in
      ([Mapping.mk _ mapping_id 1 0 0 0 0x7fffffffffffffff 0 []],
       [InternedString.mk _ 1 "unknown"], cache)
    else ([], [], cache) in
  let acc := mkAcc [] names [] cache in
  let acc := intern_frames (in_pid self) acc (rev (zip (user_symbols self) (user_addresses self))) in
  let acc := intern_frames (-1) acc (zip (kernel_symbols self) (kernel_addresses self)) in
  (acc, mappings, build_ids).

Definition data (hash_callstack : list Z -> Z) (self : Interned) (cache : InternedCache)
    : Z * option (InternedData.t Z) * InternedCache :=
  let '(acc, mappings, build_ids) := data_frames self cache in
  let new_callstack :=
    bool_decide (Cache.cached_callstack hash_callstack (acc_cache acc) (all_frame_ids acc) = None) in
  let '(callstack_id, cache) :=
    Cache.reserve_callstack hash_callstack (acc_cache acc) (all_frame_ids acc) in
  if new_callstack || negb (is_empty (new_function_names acc))
     || negb (is_empty (new_frames acc)) || negb (is_empty mappings) then
    let '(was_first, cache) := Cache.take_is_first_interned_data cache in
    let interned_data :=
      InternedData.mk _ (new_function_names acc) (new_frames acc)
        [Callstack.mk _ callstack_id (all_frame_ids acc)] mappings build_ids (negb was_first) in
    (callstack_id, Some interned_data, cache)
  else (callstack_id, None, cache).

(** ** Sessions *)

Record ProcessConfig := mkProcessConfig {
  debug_syms : bool;
  perf_map : bool;
  map_files : bool
}.

Definition ProcessConfig_default : ProcessConfig :=
  {| debug_syms := true; perf_map := false; map_files := false |}.

Inductive Source :=
| SourceProcess (pid : Z) (cfg : ProcessConfig)
| SourceKernel.

Record Symbolizer := mkSymbolizer { sy_cache : InternedCache; sy_cfg : ProcessConfig }.

Definition Symbolizer_new (cfg : ProcessConfig) : Symbolizer :=
  {| sy_cache := Cache.new; sy_cfg := cfg |}.

Section Session.

(** [blazesym]'s [symbolize] *)
Variable blaze : Source -> list Z -> result Z (list Symbolized).

Definition symbolize (cfg : ProcessConfig) (pid : Z) (user kernel : list Z)
    : result SymbolizerError Interned :=
  if is_empty user && is_empty kernel then Err EmptySymbols
  else
    user_symbols ←
      (if negb (is_empty user) then map_err Blazesym (blaze (SourceProcess (wrap 32 pid) cfg) user)
       else Ok []);
    kernel_symbols ←
      (if negb (is_empty kernel) then map_err Blazesym (blaze SourceKernel kernel) else Ok []);
    if is_empty user_symbols && is_empty kernel_symbols then Err EmptySymbols
    else Ok {| in_pid := pid; user_addresses := user; kernel_addresses := kernel;
               user_symbols := user_symbols; kernel_symbols := kernel_symbols |}.

End Session.

(** ** The receiver

    The tables a reader of the trace keeps: interned data that is no continuation
    starts them afresh. *)

Record tables := mkTables {
  t_functions : gmap Z string;
  t_frames : gmap Z (Frame.t Z);
  t_callstacks : gmap Z (list Z);
  t_mappings : gmap Z (Mapping.t Z)
}.

Definition no_tables : tables := mkTables ∅ ∅ ∅ ∅.

Definition add_functions (m : gmap Z string) (l : list (InternedString.t Z)) : gmap Z string :=
  foldl (fun m s => <[InternedString.iid s := InternedString.str s]> m) m l.

Definition add_frames (m : gmap Z (Frame.t Z)) (l : list (Frame.t Z)) : gmap Z (Frame.t Z) :=
  foldl (fun m f => <[Frame.iid f := f]> m) m l.

Definition add_callstacks (m : gmap Z (list Z)) (l : list (Callstack.t Z)) : gmap Z (list Z) :=
  foldl (fun m c => <[Callstack.iid c := Callstack.frame_ids c]> m) m l.

Definition add_mappings (m : gmap Z (Mapping.t Z)) (l : list (Mapping.t Z)) : gmap Z (Mapping.t Z) :=
  foldl (fun m x => <[Mapping.iid x := x]> m) m l.

Definition receive (t : tables) (d : option (InternedData.t Z)) : tables :=
  match d with
  | None => t
  | Some d =>
      let t := if InternedData.continuation d then t else no_tables in
      mkTables (add_functions (t_functions t) (InternedData.function_names d))
        (add_frames (t_frames t) (InternedData.frames d))
        (add_callstacks (t_callstacks t) (InternedData.callstacks d))
        (add_mappings (t_mappings t) (InternedData.mappings d))
  end.

(** The frame [id] stands for the address [addr] in the function [name]. *)
Definition resolves (t : tables) (id addr : Z) (name : string) : Prop :=
  exists f, t_frames t !! id = Some f /\ Frame.rel_pc f = addr /\
    t_functions t !! Frame.function_name_id f = Some name /\
    is_Some (t_mappings t !! Frame.mapping_id f).

(** Everything a reader could look up it still can. *)
Definition tables_le (t t' : tables) : Prop :=
  t_functions t ⊆ t_functions t' /\ t_frames t ⊆ t_frames t' /\
  t_callstacks t ⊆ t_callstacks t' /\ t_mappings t ⊆ t_mappings t'.
