(* ===== verification/SymbolizerProps.v ===== *)
(** * Properties of interned symbols

    A reader of the stream can resolve every id it meets ([stacks_resolve]); what
    a call of [data] sends and when ([data_sends]); sessions. *)

From S2P Require Import Prelude Protocol Symbolizer.

(** ** Tables *)

Lemma add_functions_snoc m l s :
  add_functions m (l ++ [s]) = <[InternedString.iid s := InternedString.str s]> (add_functions m l).
Proof. unfold add_functions. by rewrite foldl_app. Qed.

Lemma add_frames_snoc m l f : add_frames m (l ++ [f]) = <[Frame.iid f := f]> (add_frames m l).
Proof. unfold add_frames. by rewrite foldl_app. Qed.

Lemma resolves_le t t' id addr name : tables_le t t' -> resolves t id addr name -> resolves t' id addr name.
Proof.
  intros (Hf & Hfr & _ & Hm) (f & H1 & H2 & H3 & [x Hx]). exists f. split_and!; try done.
  - by eapply lookup_weaken.
  - by eapply lookup_weaken.
  - exists x. by eapply lookup_weaken.
Qed.

Lemma tables_le_refl t : tables_le t t.
Proof. by split_and!. Qed.

Lemma tables_le_trans t1 t2 t3 : tables_le t1 t2 -> tables_le t2 t3 -> tables_le t1 t3.
Proof. intros (? & ? & ? & ?) (? & ? & ? & ?). split_and!; by etrans. Qed.

(** ** The loops *)

Section Names.

(** The name of a symbol, whenever it is asked for. *)
Variable name_of : Z -> Z -> Symbolized.

Definition fname (pid addr : Z) : string := default "<unknown>" (name_of pid addr).

(** The frames of the cache are in the tables of functions [F] and frames [FR];
    ids to come are not. *)
Record frames_ok (c : InternedCache) (F : gmap Z string) (FR : gmap Z (Frame.t Z)) : Prop := {
  fo_known : forall pid a id, pid_frame_to_sequence c !! (pid, a) = Some id ->
    id < next_frame_sequence c /\
    exists f, FR !! id = Some f /\ Frame.rel_pc f = a /\ Frame.mapping_id f = FAKE_MAPPING_ID /\
      F !! Frame.function_name_id f = Some (fname pid a);
  fo_frames : forall k, is_Some (FR !! k) -> k < next_frame_sequence c;
  fo_functions : forall k, is_Some (F !! k) -> k < next_function_id c;
  fo_unknown : exists u, unknown_function_id c = Some u /\ F !! u = Some "<unknown>";
  fo_inj : forall k k' id, pid_frame_to_sequence c !! k = Some id ->
    pid_frame_to_sequence c !! k' = Some id -> k = k'
}.

(** The fields the loops leave alone. *)
Definition same_rest (c c' : InternedCache) : Prop :=
  next_callstack_sequence c' = next_callstack_sequence c /\
  callstack_hash_to_sequence c' = callstack_hash_to_sequence c /\
  unknown_function_id c' = unknown_function_id c /\
  fake_mapping_id c' = fake_mapping_id c /\
  is_first_interned_data c' = is_first_interned_data c.

(** From [c], [F], [FR] to [c'], [F'], [FR'] in at most [n] frames. *)
Record frames_step (n : Z) (c : InternedCache) F FR (c' : InternedCache) F' FR' : Prop := {
  fs_ok : frames_ok c' F' FR';
  fs_rest : same_rest c c';
  fs_cache : pid_frame_to_sequence c ⊆ pid_frame_to_sequence c';
  fs_functions : F ⊆ F';
  fs_frames : FR ⊆ FR';
  fs_next_frame : next_frame_sequence c <= next_frame_sequence c' <= next_frame_sequence c + n;
  fs_next_function : next_function_id c <= next_function_id c' <= next_function_id c + n
}.

Lemma frames_step_refl c F FR : frames_ok c F FR -> frames_step 0 c F FR c F FR.
Proof. intros. split; done || lia. Qed.

Lemma frames_step_trans n n' c F FR c1 F1 FR1 c2 F2 FR2 :
  frames_step n c F FR c1 F1 FR1 -> frames_step n' c1 F1 FR1 c2 F2 FR2 ->
  frames_step (n + n') c F FR c2 F2 FR2.
Proof.
  intros [? (? & ? & ? & ? & ?) ? ? ? ? ?] [? (? & ? & ? & ? & ?) ? ? ? ? ?].
  split; try done; try lia; [|by etrans..]. split_and!; congruence.
Qed.

(** A frame that is not known yet. *)
Lemma frames_ok_new c F FR pid a fn F' nf un :
  frames_ok c F FR -> pid_frame_to_sequence c !! (pid, a) = None ->
  F ⊆ F' -> F' !! fn = Some (fname pid a) -> (forall k, is_Some (F' !! k) -> k < nf) ->
  next_function_id c <= nf -> un = unknown_function_id c ->
  let id := next_frame_sequence c in
  frames_ok
    (mkCache (next_callstack_sequence c) (callstack_hash_to_sequence c) (id + 1)
       (<[(pid, a) := id]> (pid_frame_to_sequence c)) un nf (fake_mapping_id c)
       (next_mapping_id c) (is_first_interned_data c))
    F' (<[id := Frame.mk _ id fn FAKE_MAPPING_ID a]> FR) /\
  FR ⊆ <[id := Frame.mk _ id fn FAKE_MAPPING_ID a]> FR.
Proof.
  intros [Hknown Hframes Hfun (u & Hu & HuF) Hinj] Hnew HF Hfn Hnf Hle -> id.
  assert (FR !! id = None) as HFR.
  { apply eq_None_not_Some. intros Hs. specialize (Hframes id Hs). lia. }
  split; [|by apply insert_subseteq]. split; cbn [pid_frame_to_sequence next_frame_sequence
    next_function_id unknown_function_id].
  - intros pid' a' id' Hid. apply lookup_insert_Some in Hid as [[Heq <-]|[Hne Hid]].
    + injection Heq as <- <-. split; [lia|]. eexists. rewrite lookup_insert_eq. by split_and!.
    + destruct (Hknown pid' a' id' Hid) as (Hlt & f & Hf & ? & ? & Hn). split; [lia|].
      exists f. rewrite lookup_insert_ne by lia. split_and!; try done. by eapply lookup_weaken.
  - intros k [x Hx]. apply lookup_insert_Some in Hx as [[<- _]|[_ Hx]]; [lia|].
    specialize (Hframes k (ex_intro _ _ Hx)). lia.
  - done.
  - exists u. split; [done|]. by eapply lookup_weaken.
  - intros k k' id' Hk Hk'.
    apply lookup_insert_Some in Hk as [[<- <-]|[Hne Hk]], Hk' as [[<- Heq]|[Hne' Hk']]; try done.
    + destruct k' as [p' a']. destruct (Hknown _ _ _ Hk'). lia.
    + subst. destruct k as [p' a']. destruct (Hknown _ _ _ Hk). lia.
    + by eapply Hinj.
Qed.

Lemma intern_frame_step pid acc addr F0 FR0 :
  let F := add_functions F0 (new_function_names acc) in
  let FR := add_frames FR0 (new_frames acc) in
  frames_ok (acc_cache acc) F FR ->
  0 <= next_frame_sequence (acc_cache acc) < u64_max -> 0 <= next_function_id (acc_cache acc) < u64_max ->
  let acc' := intern_frame pid acc (name_of pid addr) addr in
  frames_step 1 (acc_cache acc) F FR (acc_cache acc')
    (add_functions F0 (new_function_names acc')) (add_frames FR0 (new_frames acc')) /\
  exists id, all_frame_ids acc' = all_frame_ids acc ++ [id] /\
    pid_frame_to_sequence (acc_cache acc') !! (pid, addr) = Some id.
Proof.
  intros F FR Hok Hnf Hnn. unfold intern_frame, Cache.cached_frame, Cache.reserve_frame.
  destruct acc as [ids names frs c]. cbn [acc_cache new_function_names new_frames all_frame_ids] in *.
  destruct (pid_frame_to_sequence c !! (pid, addr)) as [id|] eqn:Hid.
  { rewrite bool_decide_false by done. cbn. split; [|by eauto].
    split; try done; try lia. }
  rewrite bool_decide_true by done.
  pose proof (fo_unknown _ _ _ Hok) as (u & Hu & HuF).
  destruct (name_of pid addr) as [name|] eqn:Hname.
  - cbn [Cache.reserve_function_id Cache.set_functions next_function_id unknown_function_id
      acc_cache new_function_names new_frames all_frame_ids next_callstack_sequence
      callstack_hash_to_sequence next_frame_sequence pid_frame_to_sequence fake_mapping_id
      next_mapping_id is_first_interned_data].
    rewrite !wrap64_small by lia. rewrite add_functions_snoc, add_frames_snoc. fold F FR.
    cbn [InternedString.iid InternedString.str Frame.iid].
    assert (F !! next_function_id c = None) as HF.
    { apply eq_None_not_Some. intros Hs. pose proof (fo_functions _ _ _ Hok _ Hs). lia. }
    destruct (frames_ok_new c F FR pid addr (next_function_id c) (<[next_function_id c := name]> F)
      (next_function_id c + 1) (unknown_function_id c) Hok Hid) as [Hok' HFR]; try done; try lia.
    + by apply insert_subseteq.
    + rewrite lookup_insert_eq. unfold fname. by rewrite Hname.
    + intros k [x Hx]. apply lookup_insert_Some in Hx as [[<- _]|[_ Hx]]; [lia|].
      pose proof (fo_functions _ _ _ Hok k (ex_intro _ _ Hx)). lia.
    + split; [|exists (next_frame_sequence c); split; [done|apply lookup_insert_eq]].
      split; cbn; try done; try lia; by apply insert_subseteq.
  - unfold Cache.get_or_create_unknown_function_id. cbn [unknown_function_id]. rewrite Hu.
    cbn [acc_cache new_function_names new_frames all_frame_ids].
    rewrite !wrap64_small by lia. rewrite add_frames_snoc. fold F FR. cbn [Frame.iid].
    destruct (frames_ok_new c F FR pid addr u F (next_function_id c) (Some u) Hok Hid)
      as [Hok' HFR]; try done; try lia.
    + unfold fname. by rewrite Hname.
    + apply (fo_functions _ _ _ Hok).
    + split; [|exists (next_frame_sequence c); split; [done|apply lookup_insert_eq]].
      split; cbn; try done; try lia; by apply insert_subseteq.
Qed.

(** A loop over frames of one process. *)
Lemma intern_frames_step pid acc addrs F0 FR0 :
  let F := add_functions F0 (new_function_names acc) in
  let FR := add_frames FR0 (new_frames acc) in
  let n := Z.of_nat (length addrs) in
  frames_ok (acc_cache acc) F FR ->
  0 <= next_frame_sequence (acc_cache acc) -> next_frame_sequence (acc_cache acc) + n <= u64_max ->
  0 <= next_function_id (acc_cache acc) -> next_function_id (acc_cache acc) + n <= u64_max ->
  let acc' := intern_frames pid acc (map (fun a => (name_of pid a, a)) addrs) in
  frames_step n (acc_cache acc) F FR (acc_cache acc')
    (add_functions F0 (new_function_names acc')) (add_frames FR0 (new_frames acc')) /\
  exists ids, all_frame_ids acc' = all_frame_ids acc ++ ids /\
    Forall2 (fun id a => pid_frame_to_sequence (acc_cache acc') !! (pid, a) = Some id) ids addrs.
Proof.
  revert acc. induction addrs as [|a addrs IH]; intros acc F FR n Hok H1 H2 H3 H4.
  - cbn. split; [by apply frames_step_refl|]. exists []. by rewrite app_nil_r.
  - assert (n = 1 + Z.of_nat (length addrs)) as Hn by (unfold n; cbn [length]; lia).
    clearbody n. subst n. cbn [map intern_frames foldl].
    destruct (intern_frame_step pid acc a F0 FR0 Hok) as [Hstep (id & Hids & Hid)]; [lia..|].
    set (acc1 := intern_frame pid acc (name_of pid a) a) in *.
    destruct (IH acc1 (fs_ok _ _ _ _ _ _ _ Hstep)) as [Hsteps (ids & Hids' & Hall)];
      try (destruct Hstep; lia).
    split.
    + by eapply frames_step_trans.
    + exists (id :: ids). fold (intern_frames pid acc1 (map (fun a => (name_of pid a, a)) addrs)).
      rewrite Hids', Hids, <-app_assoc. split; [done|]. constructor; [|done].
      eapply lookup_weaken; [exact Hid|]. by destruct Hsteps.
Qed.

(** ** One call stack *)

(** The symbols of the call stack are the ones of its addresses. *)
Definition interned_ok (i : Interned) : Prop :=
  user_symbols i = map (name_of (in_pid i)) (user_addresses i) /\
  kernel_symbols i = map (name_of (-1)) (kernel_addresses i).

(** The frames of a call stack, as the cache knows them: the user frames from the
    outermost in, then the kernel's. *)
Definition frame_keys (i : Interned) : list (Z * Z) :=
  map (fun a => (in_pid i, a)) (rev (user_addresses i)) ++ map (fun a => (-1, a)) (kernel_addresses i).

Definition frame_count (i : Interned) : Z := Z.of_nat (length (frame_keys i)).

(** The first call: the function for unknown frames and the mapping. *)
Definition first_names (c : InternedCache) : list (InternedString.t Z) :=
  if is_first_interned_data c then [InternedString.mk _ 0 "<unknown>"] else [].

Definition first_mappings (c : InternedCache) : list (Mapping.t Z) :=
  if is_first_interned_data c then [Mapping.mk _ 1 1 0 0 0 0x7fffffffffffffff 0 []] else [].

Definition first_cache (c : InternedCache) : InternedCache :=
  if is_first_interned_data c
  then mkCache 0 ∅ 0 ∅ (Some 0) 1 (Some FAKE_MAPPING_ID) 2 true else c.

Lemma zip_names pid l : zip (map (name_of pid) l) l = map (fun a => (name_of pid a, a)) l.
Proof. induction l; cbn; congruence. Qed.

(** A cache is new, or it has been used. *)
Definition cache_ok (c : InternedCache) (t : tables) : Prop :=
  if is_first_interned_data c then c = Cache.new /\ t = no_tables
  else frames_ok c (t_functions t) (t_frames t) /\
    fake_mapping_id c = Some FAKE_MAPPING_ID /\ is_Some (t_mappings t !! FAKE_MAPPING_ID).

Lemma first_ok c t :
  cache_ok c t ->
  let c1 := first_cache c in
  let F := add_functions (t_functions t) (first_names c) in
  frames_ok c1 F (t_frames t) /\ t_functions t ⊆ F /\ fake_mapping_id c1 = Some FAKE_MAPPING_ID /\
  is_Some (add_mappings (t_mappings t) (first_mappings c) !! FAKE_MAPPING_ID) /\
  t_mappings t ⊆ add_mappings (t_mappings t) (first_mappings c) /\
  next_callstack_sequence c1 = next_callstack_sequence c /\
  callstack_hash_to_sequence c1 = callstack_hash_to_sequence c /\
  is_first_interned_data c1 = is_first_interned_data c /\
  next_frame_sequence c1 = next_frame_sequence c /\
  next_function_id c <= next_function_id c1 <= next_function_id c + 1.
Proof.
  unfold cache_ok, first_cache, first_names, first_mappings.
  destruct (is_first_interned_data c) eqn:Hfirst.
  - intros [-> ->]. cbn. split_and!; try done; try lia; try apply map_empty_subseteq; try (by eexists).
    split; cbn; try done.
    + by intros k [x Hx].
    + intros k [x Hx]. apply lookup_insert_Some in Hx as [[<- _]|[_ Hx]]; [lia|done].
    + by exists 0.
  - intros (Hok & Hfake & Hm). cbn. split_and!; done || lia.
Qed.

Lemma data_frames_eq i c t :
  cache_ok c t -> interned_ok i ->
  let acc := mkAcc [] (first_names c) [] (first_cache c) in
  let acc := intern_frames (in_pid i) acc
    (map (fun a => (name_of (in_pid i) a, a)) (rev (user_addresses i))) in
  let acc := intern_frames (-1) acc (map (fun a => (name_of (-1) a, a)) (kernel_addresses i)) in
  exists builds, data_frames i c = (acc, first_mappings c, builds).
Proof.
  intros Hc [Hu Hk]. unfold data_frames. rewrite Hu, Hk, !zip_names, <-map_rev.
  unfold cache_ok, first_names, first_mappings, first_cache in *.
  destruct (is_first_interned_data c).
  - destruct Hc as [-> _]. eexists. reflexivity.
  - destruct Hc as (Hok & Hfake & _). destruct (fo_unknown _ _ _ Hok) as (u & Hun & _).
    rewrite Hun, Hfake. eexists. reflexivity.
Qed.

(** The frames of the call stack are sent, or known. *)
Lemma data_frames_step i c t :
  cache_ok c t -> interned_ok i ->
  0 <= next_frame_sequence c -> next_frame_sequence c + frame_count i <= u64_max ->
  0 <= next_function_id c -> next_function_id c + 1 + frame_count i <= u64_max ->
  exists acc builds,
    data_frames i c = (acc, first_mappings c, builds) /\
    frames_step (frame_count i) (first_cache c)
      (add_functions (t_functions t) (first_names c)) (t_frames t)
      (acc_cache acc) (add_functions (t_functions t) (new_function_names acc))
      (add_frames (t_frames t) (new_frames acc)) /\
    Forall2 (fun id '(p, a) => pid_frame_to_sequence (acc_cache acc) !! (p, a) = Some id)
      (all_frame_ids acc) (frame_keys i) /\
    (is_first_interned_data c = true -> new_function_names acc <> []).
Proof.
  intros Hc Hi H1 H2 H3 H4.
  destruct (data_frames_eq i c t Hc Hi) as [builds Heq].
  destruct (first_ok c t Hc) as (Hok & _ & _ & _ & _ & _ & _ & _ & Hnf & Hnn).
  unfold frame_count, frame_keys in *. rewrite length_app, !length_map, length_rev in *.
  eexists _, builds. split; [exact Heq|].
  set (acc0 := mkAcc [] (first_names c) [] (first_cache c)) in *.
  destruct (intern_frames_step (in_pid i) acc0 (rev (user_addresses i)) (t_functions t) (t_frames t) Hok)
    as [Hs1 (ids1 & Hids1 & Hall1)]; try (rewrite ?length_rev; cbn [acc_cache acc0]; lia).
  set (acc1 := intern_frames (in_pid i) acc0 _) in *. rewrite length_rev in Hs1.
  destruct (intern_frames_step (-1) acc1 (kernel_addresses i) (t_functions t) (t_frames t)
    (fs_ok _ _ _ _ _ _ _ Hs1)) as [Hs2 (ids2 & Hids2 & Hall2)];
    try (destruct Hs1; cbn [acc_cache acc0] in *; lia).
  set (acc2 := intern_frames (-1) acc1 _) in *. split_and!.
  - rewrite Nat2Z.inj_add. exact (frames_step_trans _ _ _ _ _ _ _ _ _ _ _ Hs1 Hs2).
  - rewrite Hids2, Hids1. cbn [all_frame_ids acc0 app]. apply Forall2_app.
    + apply Forall2_fmap_r. eapply Forall2_impl; [exact Hall1|]. cbn. intros id a Hid.
      eapply lookup_weaken; [exact Hid|]. by destruct Hs2.
    + by apply Forall2_fmap_r.
  - intros Hfirst Hnil.
    assert (add_functions (t_functions t) (new_function_names acc2) = t_functions t) as Hadd by by rewrite Hnil.
    pose proof (fo_unknown _ _ _ (fs_ok _ _ _ _ _ _ _ Hs2)) as (u & _ & Hu).
    unfold cache_ok in Hc. rewrite Hfirst in Hc. destruct Hc as [_ ->]. by rewrite Hadd in Hu.
Qed.

(** ** Call stacks *)

Variable hash : list Z -> Z.

(** The call stacks the reader has been sent, by their hashes. *)
Record stacks_ok (c : InternedCache) (t : tables) (stacks : list (list Z)) : Prop := {
  so_known : forall h id, callstack_hash_to_sequence c !! h = Some id ->
    id < next_callstack_sequence c /\
    exists l, l ∈ stacks /\ hash l = h /\ t_callstacks t !! id = Some l;
  so_tables : forall id, is_Some (t_callstacks t !! id) -> id < next_callstack_sequence c;
  so_all : forall l, l ∈ stacks -> exists id,
    callstack_hash_to_sequence c !! hash l = Some id /\ t_callstacks t !! id = Some l
}.

(** The frame ids of a call stack, in the cache as it is. *)
Definition stack_ids (i : Interned) (c : InternedCache) : list Z := all_frame_ids (data_frames i c).1.1.

Lemma receive_first c t names frs stacks maps builds :
  cache_ok c t ->
  receive t (Some (InternedData.mk _ names frs stacks maps builds (negb (is_first_interned_data c)))) =
  mkTables (add_functions (t_functions t) names) (add_frames (t_frames t) frs)
    (add_callstacks (t_callstacks t) stacks) (add_mappings (t_mappings t) maps).
Proof.
  unfold cache_ok. cbn [receive InternedData.continuation InternedData.function_names
    InternedData.frames InternedData.callstacks InternedData.mappings].
  destruct (is_first_interned_data c); [|done]. by intros [-> ->].
Qed.

(** The caches agree on call stacks. *)
Lemma stacks_ok_same c c' t t' stacks :
  callstack_hash_to_sequence c' = callstack_hash_to_sequence c ->
  next_callstack_sequence c' = next_callstack_sequence c -> t_callstacks t' = t_callstacks t ->
  stacks_ok c t stacks -> stacks_ok c' t' stacks.
Proof. intros H1 H2 H3 []. split; by rewrite ?H1, ?H2, ?H3. Qed.

Lemma stacks_ok_known c t stacks ids id :
  stacks_ok c t stacks -> callstack_hash_to_sequence c !! hash ids = Some id ->
  (forall l, l ∈ stacks -> hash l = hash ids -> l = ids) ->
  t_callstacks t !! id = Some ids /\ stacks_ok c t (ids :: stacks).
Proof.
  intros [Hknown Htab Hall] Hid Hcoll.
  destruct (Hknown _ _ Hid) as (Hlt & l & Hl & Hh & Hlk). rewrite (Hcoll l Hl Hh) in *.
  split; [done|]. split; [|done|].
  - intros h id' Hid'. destruct (Hknown h id' Hid') as (? & l' & ? & ? & ?). split; [done|].
    exists l'. set_solver.
  - intros l' [->|Hl']%elem_of_cons; [by exists id|by apply Hall].
Qed.

Lemma stacks_ok_new c t stacks ids next :
  stacks_ok c t stacks -> callstack_hash_to_sequence c !! hash ids = None ->
  next_callstack_sequence c < next ->
  let id := next_callstack_sequence c in
  forall c' t', callstack_hash_to_sequence c' = <[hash ids := id]> (callstack_hash_to_sequence c) ->
    next_callstack_sequence c' = next -> t_callstacks t' = <[id := ids]> (t_callstacks t) ->
    stacks_ok c' t' (ids :: stacks) /\ t_callstacks t ⊆ t_callstacks t'.
Proof.
  intros [Hknown Htab Hall] Hid Hnext id c' t' Hc' Hn' Ht'.
  assert (t_callstacks t !! id = None) as Hnone.
  { apply eq_None_not_Some. intros Hs. specialize (Htab id Hs). unfold id in Htab. lia. }
  split; [|rewrite Ht'; by apply insert_subseteq]. split.
  - rewrite Hc', Ht', Hn'. intros h id' Hid'.
    apply lookup_insert_Some in Hid' as [[<- <-]|[Hne Hid']].
    + split; [done|]. exists ids. rewrite lookup_insert_eq. set_solver.
    + destruct (Hknown h id' Hid') as (Hlt & l & ? & ? & ?). split; [lia|]. exists l.
      rewrite lookup_insert_ne by (unfold id; lia). set_solver.
  - rewrite Ht', Hn'. intros id' [l Hl]. apply lookup_insert_Some in Hl as [[<- _]|[_ Hl]]; [done|].
    specialize (Htab id' (ex_intro _ _ Hl)). lia.
  - rewrite Hc', Ht'. intros l [->|Hl]%elem_of_cons.
    + exists id. by rewrite !lookup_insert_eq.
    + destruct (Hall l Hl) as (id' & Hid' & Hlk). exists id'.
      rewrite !lookup_insert_ne; [done| |congruence].
      intros <-. rewrite Hnone in Hlk. done.
Qed.

(** What a call of [data] achieves. *)
Record data_ok (i : Interned) (c : InternedCache) (t : tables) (stacks : list (list Z))
    (id : Z) (od : option (InternedData.t Z)) (c' : InternedCache) : Prop := {
  do_cache : cache_ok c' (receive t od);
  do_stacks : stacks_ok c' (receive t od) (stack_ids i c :: stacks);
  do_le : tables_le t (receive t od);
  do_id : t_callstacks (receive t od) !! id = Some (stack_ids i c);
  do_resolves : Forall2 (fun id '(p, a) => resolves (receive t od) id a (fname p a))
    (stack_ids i c) (frame_keys i);
  do_continuation : match od with
                    | Some d => InternedData.continuation d = negb (is_first_interned_data c)
                    | None => is_first_interned_data c = false
                    end;
  do_first : is_first_interned_data c' = false;
  do_next_frame : next_frame_sequence c <= next_frame_sequence c' <= next_frame_sequence c + frame_count i;
  do_next_function :
    next_function_id c <= next_function_id c' <= next_function_id c + 1 + frame_count i;
  do_next_callstack :
    next_callstack_sequence c <= next_callstack_sequence c' <= next_callstack_sequence c + 1
}.

Lemma data_step i c t stacks :
  cache_ok c t -> stacks_ok c t stacks -> interned_ok i ->
  0 <= next_frame_sequence c -> next_frame_sequence c + frame_count i <= u64_max ->
  0 <= next_function_id c -> next_function_id c + 1 + frame_count i <= u64_max ->
  0 <= next_callstack_sequence c < u64_max ->
  (forall l, l ∈ stacks -> hash l = hash (stack_ids i c) -> l = stack_ids i c) ->
  let '(id, od, c') := data hash i c in data_ok i c t stacks id od c'.
Proof.
  intros Hc Hst Hi H1 H2 H3 H4 H5 Hcoll.
  destruct (data_frames_step i c t Hc Hi H1 H2 H3 H4) as (acc & builds & Heq & Hstep & Hall & Hnames).
  destruct (first_ok c t Hc) as (_ & HF0 & Hfake & Hmap1 & Hmaps & Hncs & Hcs & Hfirst & Hnf & Hnn).
  assert (stack_ids i c = all_frame_ids acc) as Hids by (unfold stack_ids; by rewrite Heq).
  rewrite Hids in Hcoll. destruct Hstep as [Hok (Hr1 & Hr2 & Hr3 & Hr4 & Hr5) Hpf HF HFR Hf Hn].
  (* a table that has the frames resolves them *)
  assert (forall t', add_functions (t_functions t) (new_function_names acc) ⊆ t_functions t' ->
    add_frames (t_frames t) (new_frames acc) ⊆ t_frames t' ->
    add_mappings (t_mappings t) (first_mappings c) ⊆ t_mappings t' ->
    Forall2 (fun id '(p, a) => resolves t' id a (fname p a)) (all_frame_ids acc) (frame_keys i)) as Hres.
  { intros t' Ht1 Ht2 Ht3. eapply Forall2_impl; [exact Hall|]. intros id [p a] Hid.
    destruct (fo_known _ _ _ Hok p a id Hid) as (_ & f & Hlk & Hpc & Hm & Hname).
    exists f. split_and!; [by eapply lookup_weaken|done|by eapply lookup_weaken|].
    rewrite Hm. destruct Hmap1 as [x Hx]. exists x. by eapply lookup_weaken. }
  assert (forall c' od id, let t' := receive t od in
    t_functions t' = add_functions (t_functions t) (new_function_names acc) ->
    t_frames t' = add_frames (t_frames t) (new_frames acc) ->
    t_mappings t' = add_mappings (t_mappings t) (first_mappings c) ->
    pid_frame_to_sequence c' = pid_frame_to_sequence (acc_cache acc) ->
    next_frame_sequence c' = next_frame_sequence (acc_cache acc) ->
    next_function_id c' = next_function_id (acc_cache acc) ->
    unknown_function_id c' = unknown_function_id (acc_cache acc) ->
    fake_mapping_id c' = fake_mapping_id (acc_cache acc) ->
    is_first_interned_data c' = false -> stacks_ok c' t' (all_frame_ids acc :: stacks) ->
    t_callstacks t ⊆ t_callstacks t' -> t_callstacks t' !! id = Some (all_frame_ids acc) ->
    match od with
    | Some d => InternedData.continuation d = negb (is_first_interned_data c)
    | None => is_first_interned_data c = false
    end ->
    next_callstack_sequence c <= next_callstack_sequence c' <= next_callstack_sequence c + 1 ->
    data_ok i c t stacks id od c') as Hfinish.
  { intros c' od id t' E1 E2 E3 E4 E5 E6 E7 E8 E9 Hst' Hle Hid Hcont Hncs'.
    split; rewrite ?Hids; fold t'; try done; try lia.
    - unfold cache_ok. rewrite E9, E1, E2, E3, E8. split; [|split; [congruence|done]].
      destruct Hok as [K1 K2 K3 K4 K5]. split; by rewrite ?E4, ?E5, ?E6, ?E7.
    - split_and!; [|rewrite E2; done|done|rewrite E3; done]. rewrite E1. by etrans.
    - apply Hres; by rewrite ?E1, ?E2, ?E3. }
  clear Hres Hok Hall. unfold data. rewrite Heq. unfold Cache.cached_callstack, Cache.reserve_callstack.
  rewrite Hr2, Hcs. destruct (callstack_hash_to_sequence c !! hash (all_frame_ids acc)) as [id|] eqn:Hid.
  - (* a known call stack *)
    destruct (stacks_ok_known _ _ _ _ _ Hst Hid Hcoll) as [Hlk Hst'].
    rewrite bool_decide_false by done. cbn [orb].
    destruct (is_empty (new_function_names acc)) eqn:Hen, (is_empty (new_frames acc)) eqn:Hef,
      (is_empty (first_mappings c)) eqn:Hem; cbn [negb orb Cache.take_is_first_interned_data];
      try (apply Hfinish; rewrite ?Hr5, ?Hfirst, ?receive_first by done; cbn [t_functions t_frames
        t_mappings t_callstacks add_callstacks foldl Callstack.iid Callstack.frame_ids pid_frame_to_sequence
        next_frame_sequence next_function_id unknown_function_id fake_mapping_id is_first_interned_data
        next_callstack_sequence InternedData.continuation]; rewrite ?insert_id by done;
        try done; try lia; by eapply stacks_ok_same; [| | |exact Hst'|..]; cbn; congruence).
    assert (is_first_interned_data c = false) as Hf0.
    { destruct (is_first_interned_data c) eqn:Hf0; [|done]. specialize (Hnames eq_refl).
      by destruct (new_function_names acc). }
    apply Hfinish; cbn [receive]; try done; try lia; try congruence.
    + by destruct (new_function_names acc).
    + by destruct (new_frames acc).
    + by destruct (first_mappings c).
    + eapply stacks_ok_same; [| | |exact Hst']; congruence.
  - (* a new one *)
    pose proof (stacks_ok_new c t stacks (all_frame_ids acc) (next_callstack_sequence c + 1) Hst Hid
      ltac:(lia)) as Hnew. cbv zeta in Hnew.
    rewrite bool_decide_true by done. cbn [orb Cache.take_is_first_interned_data is_first_interned_data].
    rewrite Hr1, Hncs, Hr5, Hfirst, (wrap64_small (_ + 1)) by lia.
    match goal with |- data_ok _ _ _ _ _ ?od ?c' =>
      destruct (Hnew c' (receive t od)) as [Hst' Hle]; [done|done|by rewrite receive_first|] end.
    rewrite receive_first in Hst', Hle by done.
    apply Hfinish; rewrite ?receive_first by done; try done.
    + apply lookup_insert_eq.
    + cbn. lia.
Qed.

(** ** A stream of call stacks *)

Fixpoint send (c : InternedCache) (samples : list Interned) : list (Z * option (InternedData.t Z)) :=
  match samples with
  | [] => []
  | i :: samples => let '(id, od, c) := data hash i c in (id, od) :: send c samples
  end.

(** The frame id lists the stream hashes. *)
Fixpoint hashed (c : InternedCache) (samples : list Interned) : list (list Z) :=
  match samples with
  | [] => []
  | i :: samples => stack_ids i c :: hashed (data hash i c).2 samples
  end.

Definition received (t : tables) (outs : list (Z * option (InternedData.t Z))) : tables :=
  foldl (fun t out => receive t out.2) t outs.

(** The id stands for the call stack. *)
Definition stack_resolves (t : tables) (i : Interned) (id : Z) : Prop :=
  exists ids, t_callstacks t !! id = Some ids /\
    Forall2 (fun id '(p, a) => resolves t id a (fname p a)) ids (frame_keys i).

Lemma stack_resolves_le t t' i id : tables_le t t' -> stack_resolves t i id -> stack_resolves t' i id.
Proof.
  intros Hle (ids & Hids & Hall). exists ids. split.
  - destruct Hle as (_ & _ & Hcs & _). by eapply lookup_weaken.
  - eapply Forall2_impl; [exact Hall|]. intros id' [p a]. by apply resolves_le.
Qed.

(** Ids a stream may use up. *)
Definition stream_size (samples : list Interned) : Z :=
  foldr (fun i n => 2 * (frame_count i + 1) + n) 0 samples.

Definition ids_used (c : InternedCache) : Z :=
  next_frame_sequence c + next_function_id c + next_callstack_sequence c.

Lemma stream_size_nonneg samples : 0 <= stream_size samples.
Proof.
  induction samples as [|i samples IH]; cbn [stream_size foldr]; [lia|].
  fold (stream_size samples). unfold frame_count. lia.
Qed.

(** A stream in progress: what has been sent, and what is to come. *)
Record stream_ok (c : InternedCache) (t : tables) (stacks : list (list Z)) (samples : list Interned)
    : Prop := {
  st_cache : cache_ok c t;
  st_stacks : stacks_ok c t stacks;
  st_samples : Forall interned_ok samples;
  st_nonneg : 0 <= next_frame_sequence c /\ 0 <= next_function_id c /\ 0 <= next_callstack_sequence c;
  st_size : ids_used c + stream_size samples < u64_max;
  st_collisions : forall l l', l ∈ stacks ++ hashed c samples -> l' ∈ stacks ++ hashed c samples ->
    hash l = hash l' -> l = l'
}.

Lemma stream_step c t stacks i samples :
  stream_ok c t stacks (i :: samples) ->
  let '(id, od, c') := data hash i c in
  data_ok i c t stacks id od c' /\ stream_ok c' (receive t od) (stack_ids i c :: stacks) samples.
Proof.
  intros [Hc Hst His (H1 & H2 & H3) Hsize Hcoll].
  apply Forall_cons in His as [Hi His]. cbn [hashed] in Hcoll.
  pose proof (stream_size_nonneg samples). cbn [stream_size foldr] in Hsize.
  fold (stream_size samples) in Hsize.
  assert (0 <= frame_count i) by (unfold frame_count; lia). unfold ids_used in Hsize.
  pose proof (data_step i c t stacks Hc Hst Hi) as Hstep.
  destruct (data hash i c) as [[id od] c'].
  assert (data_ok i c t stacks id od c') as Hok.
  { apply Hstep; try lia. intros l Hl. apply Hcoll; rewrite elem_of_app, ?elem_of_cons; auto. }
  split; [done|]. destruct Hok. split; try done; try lia.
  - unfold ids_used. lia.
  - cbn [snd] in Hcoll. intros l l' Hl Hl'.
    rewrite <-app_comm_cons, elem_of_cons, elem_of_app in Hl, Hl'.
    apply Hcoll; rewrite elem_of_app, elem_of_cons; tauto.
Qed.

Lemma stream_start samples :
  Forall interned_ok samples -> stream_size samples < u64_max ->
  (forall l l', l ∈ hashed Cache.new samples -> l' ∈ hashed Cache.new samples ->
    hash l = hash l' -> l = l') ->
  stream_ok Cache.new no_tables [] samples.
Proof.
  intros His Hsize Hcoll. split; try done. split; [done|by intros ? [? ?]|by intros ? ?%elem_of_nil].
Qed.

Lemma send_resolves c t stacks samples :
  stream_ok c t stacks samples ->
  tables_le t (received t (send c samples)) /\
  Forall2 (fun i out => stack_resolves (received t (send c samples)) i out.1) samples (send c samples).
Proof.
  revert c t stacks. induction samples as [|i samples IH]; intros c t stacks Hok.
  - split; [apply tables_le_refl|constructor].
  - pose proof (stream_step c t stacks i samples Hok) as Hstep. cbn [send].
    destruct (data hash i c) as [[id od] c']. destruct Hstep as [Hdata Hok'].
    destruct (IH _ _ _ Hok') as [Hle Hall]. cbn [received foldl] in *.
    split; [eapply tables_le_trans; [apply Hdata|done]|]. constructor; [|done].
    eapply stack_resolves_le; [exact Hle|]. exists (stack_ids i c). by destruct Hdata.
Qed.

Lemma send_continues c t stacks samples :
  stream_ok c t stacks samples -> is_first_interned_data c = false ->
  Forall (fun out => match out.2 with Some d => InternedData.continuation d = true | None => True end)
    (send c samples).
Proof.
  revert c t stacks. induction samples as [|i samples IH]; intros c t stacks Hok Hfirst; [constructor|].
  pose proof (stream_step c t stacks i samples Hok) as Hstep. cbn [send].
  destruct (data hash i c) as [[id od] c']. destruct Hstep as [Hdata Hok'].
  constructor.
  - destruct Hdata as [_ _ _ _ _ Hcont _ _ _ _]. cbn. destruct od; [|done]. by rewrite Hcont, Hfirst.
  - eapply IH; [done|]. by destruct Hdata.
Qed.

(** C21. A reader of the stream can resolve every call stack: it finds the id that
    came with a sample in its tables, as the list of the frames of the sample's
    addresses, the user's from the outermost in and then the kernel's, each frame
    with its address, the name of its function (or the placeholder) and a mapping
    it has been sent; and the ids stay resolvable for the rest of the stream.  The
    cache knows call stacks by a 64-bit hash only: the lists of frame ids that
    occur are assumed not to collide. *)
Theorem stacks_resolve samples :
  Forall interned_ok samples -> stream_size samples < u64_max ->
  (forall l l', l ∈ hashed Cache.new samples -> l' ∈ hashed Cache.new samples ->
    hash l = hash l' -> l = l') ->
  Forall2 (fun i out => stack_resolves (received no_tables (send Cache.new samples)) i out.1)
    samples (send Cache.new samples).
Proof. intros. eapply send_resolves. by apply stream_start. Qed.

(** The first sample of a stream always sends data and marks it as the start
    of the sequence; all data that is sent later is marked as a continuation. *)
Lemma continuation_after_first i samples :
  Forall interned_ok (i :: samples) -> stream_size (i :: samples) < u64_max ->
  (forall l l', l ∈ hashed Cache.new (i :: samples) -> l' ∈ hashed Cache.new (i :: samples) ->
    hash l = hash l' -> l = l') ->
  exists id d outs, send Cache.new (i :: samples) = (id, Some d) :: outs /\
    InternedData.continuation d = false /\
    Forall (fun out => match out.2 with Some d => InternedData.continuation d = true | None => True end) outs.
Proof.
  intros His Hsize Hcoll.
  pose proof (stream_step _ _ _ _ _ (stream_start _ His Hsize Hcoll)) as Hstep. cbn [send].
  destruct (data hash i Cache.new) as [[id od] c']. destruct Hstep as [Hdata Hok'].
  destruct Hdata as [_ _ _ _ _ Hcont Hfirst _ _ _].
  destruct od as [d|]; [|done]. exists id, d, (send c' samples). split; [done|]. split; [done|].
  by eapply send_continues.
Qed.

End Names.

(** ** Sessions *)

(** [symbolize] on every branch: nothing to symbolize is an error and asks
    [blazesym] nothing; user addresses are looked up in the process with the
    configured sources and kernel addresses in the kernel, an empty list is not
    looked up; the first error is returned; symbols for at least one of the lists
    are kept with the addresses they belong to. *)
Lemma symbolize_spec blaze cfg pid user kernel :
  symbolize blaze cfg pid user kernel =
  match user, kernel with
  | [], [] => Err EmptySymbols
  | _, _ =>
      match (if is_empty user then Ok [] else blaze (SourceProcess (wrap 32 pid) cfg) user) with
      | Err e => Err (Blazesym e)
      | Ok us =>
          match (if is_empty kernel then Ok [] else blaze SourceKernel kernel) with
          | Err e => Err (Blazesym e)
          | Ok [] => if is_empty us then Err EmptySymbols else Ok (mkInterned pid user kernel us [])
          | Ok ks => Ok (mkInterned pid user kernel us ks)
          end
      end
  end.
Proof.
  unfold symbolize. destruct user as [|u user], kernel as [|k kernel]; cbn [is_empty andb negb]; [done|..].
  - destruct (blaze SourceKernel (k :: kernel)) as [[|]|]; done.
  - destruct (blaze _ (u :: user)) as [[|]|]; done.
  - destruct (blaze _ (u :: user)) as [us|]; cbn; [|done].
    destruct (blaze SourceKernel (k :: kernel)) as [[|]|]; cbn; [|by rewrite andb_false_r|done].
    by rewrite andb_true_r.
Qed.

(** ** Witnesses *)

Definition demo_names (pid addr : Z) : Symbolized :=
  if addr =? 16 then Some "main" else if addr =? 32 then Some "work" else None.

Definition demo_interned (pid : Z) (user kernel : list Z) : Interned :=
  mkInterned pid user kernel (map (demo_names pid) user) (map (demo_names (-1)) kernel).

Definition demo_samples : list Interned :=
  [demo_interned 7 [32; 16] []; demo_interned 7 [32; 16] []; demo_interned 7 [64; 16] [4096]].

(** A hash that keeps lists of small ids apart. *)
Definition demo_hash (l : list Z) : Z := foldl (fun h x => 100 * h + x + 1) 0 l.

Lemma demo_no_collision l l' :
  l ∈ hashed demo_hash Cache.new demo_samples -> l' ∈ hashed demo_hash Cache.new demo_samples ->
  demo_hash l = demo_hash l' -> l = l'.
Proof.
  assert (hashed demo_hash Cache.new demo_samples = [[0; 1]; [0; 1]; [0; 2; 3]]) as -> by reflexivity.
  rewrite !elem_of_cons, !elem_of_nil. intros; repeat destruct_or?; subst; try done.
Qed.

Lemma stacks_resolve_witness :
  send demo_hash Cache.new demo_samples !! 1%nat = Some (0, None) /\
  Forall2 (fun i out => stack_resolves demo_names
      (received no_tables (send demo_hash Cache.new demo_samples)) i out.1)
    demo_samples (send demo_hash Cache.new demo_samples).
Proof.
  split; [reflexivity|].
  apply (stacks_resolve demo_names demo_hash demo_samples); [|reflexivity|exact demo_no_collision].
  repeat constructor.
Defined.

Lemma continuation_after_first_witness :
  exists id d outs, send demo_hash Cache.new demo_samples = (id, Some d) :: outs /\
    InternedData.continuation d = false /\
    Forall (fun out => match out.2 with Some d => InternedData.continuation d = true | None => True end) outs.
Proof.
  apply (continuation_after_first demo_names demo_hash (demo_interned 7 [32; 16] []) (tl demo_samples));
    [|reflexivity|exact demo_no_collision].
  repeat constructor.
Defined.
