(* ===== verification/AgentIpc.v ===== *)
(** * Submitting events

    The channel of the crate [agent]: [Producer] and [Consumer]
    (src/agent/src/mpsc.rs) on top of the ring and the serialisation, and the
    handle an extension submits through (src/agent/src/extension.rs). *)

From S2P Require Import Prelude RingMem RingSpec Ring RingSystem RingOps Protocol.

(** ** Errors *)

Inductive AgentError :=
| AgentIo (message : string)
| Nix (errno : Z)
| Mpscbuf (e : MpscBufError)
| Archive (e : RkyvError)
| NotEnabled
| Other (message : string).

(** ** The process id

    [PROCESS_ID]: the id set by [set_process_id], the id of the process after
    [reset_process_id]. *)

Definition set_process_id (id : Z) : Z := id.

Definition reset_process_id (std_id : Z) : Z := as_signed 32 std_id.

(** ** The producer *)

Section Submit.

(** The serialisation of an event is [rkyv]'s. *)
Variable serialize_event : Event -> serializer.

(** The bytes of the slice [as_mut_slice] gives. *)
Definition slice_of (rb : ReservedBuffer) (r : RingBuf) : list Z :=
  load_bytes (data_size r) (bytes r) (rb_data rb) (Z.to_nat (rb_len rb)).

(** [Producer::submit]: [obs] are the observations of [try_lock]; the reserved
    buffer is dropped on every path behind the reservation. *)
Definition submit (fuel : nat) (obs : nat -> bool) (strategy : WakeupStrategy)
    (event : Event) (r : RingBuf) (eventfd : Z) : option (result AgentError unit * RingBuf * Z) :=
  match compute_length (serialize_event event) with
  | Err e => Some (Err (Archive e), r, eventfd)
  | Ok required_size =>
      '(reserved, r) ← Producer.reserve fuel obs r required_size;
      match reserved with
      | Err e => Some (Err (Mpscbuf e), r, eventfd)
      | Ok rb =>
          let '(res, buf) := serialize_to_buf (serialize_event event) (slice_of rb r) in
          let r := RingBuf.set_bytes r (store_bytes (data_size r) (bytes r) (rb_data rb) buf) in
          '(r, eventfd) ← Producer.drop strategy rb r eventfd;
          Some (map_err Archive res, r, eventfd)
      end
  end.

(** ** The handle *)

(** The calling thread: its key in the thread-local table, its name and id. *)
Record Thread := mkThread {
  th_key : nat;
  th_name : option string;
  th_tid : Z
}.

(** [AgentHandle::submit]; [sent] are the threads whose flag is set. *)
Definition handle_submit (fuel : nat) (obs1 obs2 : nat -> bool) (strategy : WakeupStrategy)
    (pid : Z) (thread : Thread) (event : Event) (sent : gset nat) (r : RingBuf) (eventfd : Z)
    : option (result AgentError unit * gset nat * RingBuf * Z) :=
  if bool_decide (th_key thread ∈ sent) then
    '(res, r, eventfd) ← submit fuel obs2 strategy event r eventfd;
    Some (res, sent, r, eventfd)
  else
    '(named, r, eventfd) ←
      match th_name thread with
      | Some thread_name =>
          let thread_event :=
            Event.Track (Track.mk _ _ _ thread_name
              (TrackType.Thread (as_signed 32 (th_tid thread)) pid)
              (Some (TrackType.Process pid))) in
          submit fuel obs1 strategy thread_event r eventfd
      | None => Some (Ok tt, r, eventfd)
      end;
    match named with
    | Err e => Some (Err e, sent, r, eventfd)
    | Ok _ =>
        let sent := sent ∪ {[th_key thread]} in
        '(res, r, eventfd) ← submit fuel obs2 strategy event r eventfd;
        Some (res, sent, r, eventfd)
    end.

End Submit.

(** ** Lemmas *)

(** A reservation with its payload and its commit, as one step of the queue. *)
Definition committed_ring (r : RingBuf) (bs : list Z) : RingBuf :=
  let p := RingBuf.producer_pos r in
  let len := Z.of_nat (length bs) in
  let m := store64 (data_size r) (bytes r) p (header_word len Busy) in
  let m := store_bytes (data_size r) m (p + 8) bs in
  let m := store64 (data_size r) m p (header_word len Committed) in
  {| data_size := data_size r;
     metadata := {| spinlock := false; producer := p + span len;
                    consumer := RingBuf.consumer_pos r; dropped := dropped (metadata r) |};
     bytes := m |}.

Lemma committed_ring_ok r q t bs :
  ring_ok r q -> RingBuf.producer_pos r + span (Z.of_nat (length bs)) - RingBuf.consumer_pos r < data_size r ->
  ring_ok (committed_ring r bs) (Queue (q_gone q) (q_live q ++ [Slot t bs Committed]) (q_held q)).
Proof.
  intros [[Hpow HD] Hcp Hpp Hrm Hlay] Hfit. set (len := Z.of_nat (length bs)) in *.
  pose proof (span_bounds len ltac:(lia)) as Hspan. pose proof (spans_nonneg (q_live q)) as Hl.
  set (D := data_size r) in *. set (p := RingBuf.producer_pos r) in *.
  assert (in_u 32 len) as Hlen by (unfold in_u; lia).
  split; cbn [q_gone q_live data_size bytes committed_ring].
  - done.
  - unfold RingBuf.consumer_pos in *. done.
  - rewrite spans_app. cbn -[span]. unfold slot_span. cbn [sl_data]. fold len p. lia.
  - rewrite spans_app. cbn -[slot_span D]. unfold slot_span. cbn [sl_data]. fold len D. lia.
  - fold D p len. apply layout_snoc.
    + unfold store64. repeat apply layout_store_free; rewrite ?length_le_bytes; try done; lia.
    + rewrite <-Hpp. split; cbn [sl_data sl_status].
      * apply load64_store64; [lia|]. by apply header_word_u64.
      * unfold store64. rewrite load_store_disjoint by (rewrite ?length_le_bytes; lia).
        apply load_store_same; lia.
Qed.

(** The drop of a buffer whose header is busy commits it. *)
Lemma drop_busy r r' len p ev :
  is_power_of_two (data_size r') = true -> 1 <= data_size r' <= 2 ^ 63 -> in_u 32 len ->
  data_size r = data_size r' -> load64 (data_size r') (bytes r') p = header_word len Busy ->
  Producer.drop NoWakeup (buffer r len p) r' ev =
    Some (RingBuf.set_bytes r' (store64 (data_size r') (bytes r') p (header_word len Committed)), ev).
Proof.
  intros Hpow HD Hlen Hsize Hh. unfold Producer.drop. cbn [rb_header buffer].
  assert (RingBuf.size_mask r = RingBuf.size_mask r') as -> by (unfold RingBuf.size_mask; by rewrite Hsize).
  rewrite header_at_mask, Hh, header_is_discarded, header_commit by done. cbn [negb bool_decide].
  by rewrite set_header_mask by done.
Qed.

Section SubmitLemmas.

Variable serialize_event : Event -> serializer.
Context (r : RingBuf) (q : queue) (event : Event).
Hypothesis Hr : ring_ok r q.
Hypothesis Hlock : spinlock (metadata r) = false.
Hypothesis Hpos : RingBuf.producer_pos r <= 2 ^ 62.

Let value := serialize_event event.
Hypothesis Hpieces : pieces_ok value.
Hypothesis Hlen : Z.of_nat (length (written value 0).1) <= i64_max.

Let len := Z.of_nat (length (written value 0).1).

Lemma ring_positions : 0 <= RingBuf.consumer_pos r <= RingBuf.producer_pos r.
Proof using All.
  destruct Hr as [_ Hcp Hpp _ _]. pose proof (spans_nonneg (q_gone q)).
  pose proof (spans_nonneg (q_live q)). lia.
Qed.

(** One submission, by what [try_lock] returns. *)
Lemma submit_once fuel obs guard ev :
  Spinlock.try_lock fuel obs = Some guard ->
  submit serialize_event fuel obs NoWakeup event r ev = Some
    match (written value 0).2 with
    | Err e => (Err (Archive e), r, ev)
    | Ok _ =>
        if negb guard then (Err (Mpscbuf LockTimeout), r, ev)
        else if RingBuf.producer_pos r + span len - RingBuf.consumer_pos r <? data_size r
        then (Ok tt, committed_ring r (written value 0).1, ev)
        else (Err (Mpscbuf (InsufficientSpace (RingBuf.producer_pos r + span len)
                (RingBuf.consumer_pos r) (data_size r - 1))), r, ev)
    end.
Proof using All.
  intros Hobs. pose proof ring_positions as Hcp. destruct Hr as [[Hpow HD] _ _ _ _].
  pose proof (span_bounds len ltac:(unfold len; lia)) as Hspan.
  unfold submit. fold value. rewrite compute_length_written by done.
  destruct ((written value 0).2) as [[]|e] eqn:Eres; [|done].
  unfold Producer.reserve. rewrite Hobs. cbn [mbind option_bind]. destruct guard; [|done].
  cbn [negb].
  destruct (Z.ltb_spec (RingBuf.producer_pos r + span len - RingBuf.consumer_pos r) (data_size r))
    as [Hfit|Hfull].
  2: { rewrite reserve_locked_full; try done; unfold len in *; try lia. }
  assert (in_u 32 len) as Hlen32 by (unfold in_u; lia).
  rewrite reserve_locked_fits, wrap_small; try done; unfold len in *; try lia.
  cbn [mbind option_bind].
  rewrite serialize_exact by (done || unfold slice_of; rewrite length_load_bytes; cbn; lia).
  cbn [rb_data buffer data_size bytes RingBuf.set_lock RingBuf.set_metadata RingBuf.advance_producer
    RingBuf.set_bytes].
  rewrite size_mask_phys, store_bytes_phys by side.
  rewrite drop_busy; cbn [data_size bytes RingBuf.set_lock RingBuf.set_metadata RingBuf.advance_producer
    RingBuf.set_bytes]; try done; try lia.
  unfold load64. rewrite load_store_disjoint by (unfold RecordHeader.HEADER_SIZE; lia).
  apply load64_store64; [lia|]. by apply header_word_u64.
Qed.

End SubmitLemmas.

(** ** The contract of a submission, on the queue *)

(** A record appended by thread [t]. *)
Definition enqueue (q : queue) (t : nat) (bs : list Z) : queue :=
  Queue (q_gone q) (q_live q ++ [Slot t bs Committed]) (q_held q).

(** What [submit] is to do: all the bytes of the event as one committed record,
    or an error and nothing. *)
Definition submit_spec (D : Z) (guard : bool) (value : serializer) (t : nat) (q : queue)
    : result AgentError unit * queue :=
  match written value 0 with
  | (_, Err e) => (Err (Archive e), q)
  | (bs, Ok _) =>
      let used := spans (q_live q) + span (Z.of_nat (length bs)) in
      if negb guard then (Err (Mpscbuf LockTimeout), q)
      else if used <? D then (Ok tt, enqueue q t bs)
      else (Err (Mpscbuf (InsufficientSpace (spans (q_gone q) + used) (spans (q_gone q)) (D - 1))), q)
  end.

(** A ring a producer can submit to: well formed, unlocked, and with positions
    below [bound]. *)
Record submittable (bound : Z) (r : RingBuf) (q : queue) : Prop := {
  sub_ring : ring_ok r q;
  sub_unlocked : spinlock (metadata r) = false;
  sub_bound : RingBuf.producer_pos r <= bound
}.

(** A serialisation in pieces of a machine's size, less than half the address
    space in all. *)
Definition serializable (value : serializer) : Prop :=
  pieces_ok value /\ Z.of_nat (length (written value 0).1) <= i64_max.

Lemma submit_refines_aux serialize_event event r q t fuel obs guard ev bound :
  submittable bound r q -> bound <= 2 ^ 62 -> serializable (serialize_event event) ->
  Spinlock.try_lock fuel obs = Some guard ->
  exists r',
    submit serialize_event fuel obs NoWakeup event r ev =
      Some ((submit_spec (data_size r) guard (serialize_event event) t q).1, r', ev) /\
    submittable (bound + data_size r) r' (submit_spec (data_size r) guard (serialize_event event) t q).2 /\
    data_size r' = data_size r.
Proof.
  intros [Hr Hlock Hpos] Hb [Hpieces Hlen] Hobs.
  rewrite (submit_once serialize_event r q event Hr Hlock ltac:(lia) Hpieces Hlen _ _ _ _ Hobs).
  destruct (Hr) as [[Hpow HD] Hcp Hpp Hrm _].
  assert (submittable (bound + data_size r) r q) as Hsame by (split; [done..|lia]).
  unfold submit_spec. destruct (written (serialize_event event) 0) as [bs [[]|e]]; cbn [fst snd] in *.
  2: { by exists r. }
  destruct guard; cbn [negb]; [|by exists r].
  rewrite Hpp, Hcp.
  replace (spans (q_gone q) + spans (q_live q) + span (Z.of_nat (length bs)) - spans (q_gone q))
    with (spans (q_live q) + span (Z.of_nat (length bs))) by lia.
  destruct (Z.ltb_spec (spans (q_live q) + span (Z.of_nat (length bs))) (data_size r)) as [Hfit|Hfull].
  - exists (committed_ring r bs). split; [done|]. split; [|done]. split; [|done|].
    + apply committed_ring_ok; [done|]. rewrite Hpp, Hcp. lia.
    + cbn -[span]. pose proof (spans_nonneg (q_live q)). lia.
  - exists r. split; [|done]. cbn [fst]. by rewrite Z.add_assoc.
Qed.

(** C24. [Producer::submit] implements [submit_spec]: whatever the accesses of
    the spinlock observe, it returns; on success the queue of the ring has one
    more record at its end, committed and holding all the bytes of the
    serialisation, and on an error (serialisation, lock, space) the queue is
    what it was.  An idle lock is always taken. *)
Theorem submit_refines serialize_event event r q t obs ev :
  submittable (2 ^ 62) r q -> serializable (serialize_event event) ->
  exists guard r',
    (obs O = true -> guard = true) /\
    submit serialize_event lock_fuel obs NoWakeup event r ev =
      Some ((submit_spec (data_size r) guard (serialize_event event) t q).1, r', ev) /\
    submittable (2 ^ 62 + data_size r) r'
      (submit_spec (data_size r) guard (serialize_event event) t q).2.
Proof.
  intros Hr Hs. destruct (try_lock_returns obs) as (guard & Hg & _ & H0).
  destruct (submit_refines_aux serialize_event event r q t lock_fuel obs guard ev (2 ^ 62))
    as (r' & ? & ? & _); [done|lia|done..|].
  by exists guard, r'.
Qed.

(** A serialisation of events for the witnesses: the timestamp of an instant. *)
Definition demo_serialize (e : Event) : serializer :=
  match e with
  | Event.Instant i => SWrite (le_bytes 8 (Instant.timestamp i)) SDone
  | Event.Track tr => SWrite [Z.of_nat (String.length (Track.name tr))] SDone
  | _ => SFail 1
  end.

Definition demo_instant : Event :=
  Event.Instant (Instant.mk _ _ _ _ _ "tick" 258 (TrackId.Thread 7 3) Labels.new).

Lemma demo_submittable : submittable (2 ^ 62) demo_ring (empty_queue).
Proof. split; [|done|cbn; lia]. split; try (cbn; lia); done. Qed.

Lemma demo_serializable e : serializable (demo_serialize e).
Proof. destruct e; split; cbn; unfold i64_max; try done; lia. Qed.

Lemma submit_refines_witness :
  submit demo_serialize lock_fuel (fun _ => true) NoWakeup demo_instant demo_ring 0 =
    Some (Ok tt, committed_ring demo_ring [2; 1; 0; 0; 0; 0; 0; 0], 0) /\
  exists r', submittable (2 ^ 62 + 64) r'
    (Queue [] [Slot 5 [2; 1; 0; 0; 0; 0; 0; 0] Committed] false).
Proof.
  split; [vm_compute; reflexivity|].
  destruct (submit_refines demo_serialize demo_instant demo_ring (empty_queue) 5
    (fun _ => true) 0 demo_submittable (demo_serializable _))
    as (guard & r' & Hg & _ & Hr). rewrite Hg in Hr by reflexivity.
  exists r'. exact Hr.
Defined.

(** ** The handle of an extension *)

(** The track that names a thread. *)
Definition thread_track (pid : Z) (thread : Thread) : option Event :=
  (fun name => Event.Track (Track.mk _ _ _ name
     (TrackType.Thread (as_signed 32 (th_tid thread)) pid) (Some (TrackType.Process pid))))
  <$> th_name thread.

(** What one submission appends. *)
Lemma submit_appends serialize_event event r q t obs ev bound :
  submittable bound r q -> bound <= 2 ^ 62 -> serializable (serialize_event event) ->
  exists res r' recs,
    submit serialize_event lock_fuel obs NoWakeup event r ev = Some (res, r', ev) /\
    submittable (bound + 2 ^ 32) r' (Queue (q_gone q) (q_live q ++ recs) (q_held q)) /\
    (recs = [Slot t (written (serialize_event event) 0).1 Committed] /\ res = Ok tt \/
     recs = [] /\ exists e, res = Err e).
Proof.
  intros Hr Hb Hs. destruct (try_lock_returns obs) as (guard & Hg & _ & _).
  destruct (submit_refines_aux serialize_event event r q t lock_fuel obs guard ev bound Hr Hb Hs Hg)
    as (r' & -> & Hr' & _).
  do 2 eexists. exists (match (submit_spec (data_size r) guard (serialize_event event) t q).1 with
    | Ok _ => [Slot t (written (serialize_event event) 0).1 Committed] | Err _ => [] end).
  split; [done|]. destruct (sub_ring _ _ _ Hr) as [[_ HD] _ _ _ _].
  destruct Hr' as [Hok Hlock Hpos]. destruct q as [gone live held].
  revert Hok. unfold submit_spec, enqueue. destruct (written _ _) as [bs [[]|e]]; repeat break_goal;
    cbn [fst snd q_gone q_live q_held]; intros Hok;
    (split; [split; [rewrite ?app_nil_r; exact Hok|done|lia]|]);
    first [by left | by right; split; [|eexists]].
Qed.

(** [AgentHandle::submit] appends to the queue the track with the name of the
    calling thread and then the event, as far as the submissions succeed: the
    track at most once per thread, and only in front of its first event; a
    thread is marked only when its track is in the queue (or it has no name), so
    that a failed track is sent again with the next event; no event of a named
    thread is in the queue without its track; and the event is in the queue
    exactly when the call succeeds. *)
Lemma handle_submit_names serialize_event pid thread event sent r q t obs1 obs2 ev :
  submittable (2 ^ 61) r q ->
  (forall e, e = event \/ Some e = thread_track pid thread -> serializable (serialize_event e)) ->
  exists res sent' r' names events,
    handle_submit serialize_event lock_fuel obs1 obs2 NoWakeup pid thread event sent r ev =
      Some (res, sent', r', ev) /\
    submittable (2 ^ 62) r' (Queue (q_gone q) (q_live q ++ names ++ events) (q_held q)) /\
    (events = [Slot t (written (serialize_event event) 0).1 Committed] /\ res = Ok tt \/
     events = [] /\ res <> Ok tt) /\
    (names = [] \/ (th_key thread ∉ sent) /\ exists track, thread_track pid thread = Some track /\
       names = [Slot t (written (serialize_event track) 0).1 Committed]) /\
    (th_key thread ∈ sent' <->
       th_key thread ∈ sent \/ th_name thread = None \/ names <> []) /\
    (events <> [] -> th_key thread ∈ sent') /\
    sent' ∖ {[th_key thread]} = sent ∖ {[th_key thread]}.
Proof.
  intros Hr Hs. unfold handle_submit. destruct (bool_decide_reflect (th_key thread ∈ sent)) as [Hin|Hin].
  - destruct (submit_appends serialize_event event r q t obs2 ev _ Hr ltac:(lia) (Hs _ (or_introl eq_refl)))
      as (res & r' & recs & -> & [Hr' ? ?] & Hres).
    exists res, sent, r', [], recs. cbn [mbind option_bind app]. split; [done|].
    split; [by split; [..|lia]|]. split; [naive_solver|]. set_solver.
  - unfold thread_track in *. destruct (th_name thread) as [name|] eqn:Ename; cbn [fmap option_fmap option_map] in *.
    2: { destruct (submit_appends serialize_event event r q t obs2 ev _ Hr ltac:(lia)
          (Hs _ (or_introl eq_refl))) as (res & r' & recs & Hsub & [Hr' ? ?] & Hres).
      cbn [mbind option_bind]. rewrite Hsub. cbn [mbind option_bind].
      do 3 eexists. exists [], recs. cbn [app]. split; [done|].
      split; [by split; [..|lia]|]. split; [naive_solver|]. set_solver. }
    set (track := Event.Track _) in *.
    destruct (submit_appends serialize_event track r q t obs1 ev _ Hr ltac:(lia)
      (Hs _ (or_intror eq_refl))) as (res1 & r1 & recs1 & Hsub1 & Hr1 & Hres1).
    rewrite Hsub1. cbn [mbind option_bind].
    destruct Hres1 as [[-> ->]|[-> [e ->]]].
    2: { exists (Err e), sent, r1, [], []. split; [done|]. destruct Hr1 as [? ? ?].
      split; [split; [by rewrite !app_nil_r in *|done|lia]|]. split; [by right|]. set_solver. }
    destruct (submit_appends serialize_event event r1 _ t obs2 ev _ Hr1 ltac:(lia)
      (Hs _ (or_introl eq_refl))) as (res & r' & recs & Hsub & [Hr' ? ?] & Hres).
    rewrite Hsub. cbn [mbind option_bind].
    do 3 eexists. exists [Slot t (written (serialize_event track) 0).1 Committed], recs.
    split; [done|]. split.
    { split; [|done|lia]. cbn [q_gone q_live q_held] in Hr'. by rewrite <-app_assoc in Hr'. }
    split; [naive_solver|]. split; [right; split; [done|]; by eexists|]. set_solver.
Qed.

Definition demo_thread : Thread := {| th_key := 1; th_name := Some "worker"; th_tid := 42 |}.

Lemma handle_submit_names_witness :
  (exists r', handle_submit demo_serialize lock_fuel (fun _ => true) (fun _ => true) NoWakeup
     7 demo_thread demo_instant ∅ demo_ring 0 = Some (Ok tt, {[1%nat]}, r', 0)) /\
  exists r' names events,
    submittable (2 ^ 62) r' (Queue [] (names ++ events) false).
Proof.
  assert (submittable (2 ^ 61) demo_ring empty_queue) as Hr.
  { destruct demo_submittable. split; [done..|cbn; lia]. }
  destruct (handle_submit_names demo_serialize 7 demo_thread demo_instant ∅ demo_ring empty_queue 5
    (fun _ => true) (fun _ => true) 0 Hr (fun e _ => demo_serializable e))
    as (res & sent' & r' & names & events & _ & Hr' & _).
  split; [eexists; vm_compute; reflexivity|]. exists r', names, events. exact Hr'.
Defined.
