(* ===== verification/Submission.v ===== *)
(** * Threads that submit events, interleaved

    [Producer::submit] (src/agent/src/mpsc.rs) on the interleaved ring of
    [RingSystem]: any number of threads submit events while the consumer reads.  A
    thread's accesses to the ring are those of [RingSystem]; which one it makes is
    decided by [submit], and which event it submits next by its own control. *)

From stdpp Require Import functions.
From S2P Require Import Prelude RingMem RingSpec Ring RingSystem RingRuns Protocol AgentIpc.

Section Submission.

(** The serialisation is [rkyv]'s; a thread's control says which event it submits next,
    and goes on with whether that succeeded. *)
Context (serialize_event : Event -> serializer) (strategy : nat -> WakeupStrategy).
Context {C : Type} (next : C -> option Event) (resume : C -> bool -> C) (start : nat -> C).

(** The bytes of an event. *)
Definition image (event : Event) : list Z := (written (serialize_event event) 0).1.

(** ** Steps *)

(** A thread: its control, and the event it is submitting with the number of bytes it has
    written. *)
Record client := mkClient { control : C; writing : option (Event * nat) }.

Definition client_start (t : nat) : client := mkClient (start t) None.

(** Inside [reserve], and inside the drop of the buffer. *)
Definition reserving (st : tstate) : bool :=
  match st with
  | TSpin _ _ _ _ | TLocked _ _ | TGotProd _ _ _ | TFull | THeader _ _ | TAdvanced _ _ => true
  | _ => false
  end.

Definition dropping (st : tstate) : bool :=
  match st with TDrop _ _ _ | TCommit _ _ | TNotify => true | _ => false end.

(** The call is over when the thread is idle again. *)
Definition returns (ok : bool) (st : tstate) (c : client) : client :=
  match st with TIdle => mkClient (resume (control c) ok) None | _ => c end.

(** The accesses of [submit]: measured before the reservation, the event is written into
    the reserved buffer, where it cannot fail since it has the measured length (lemma
    [serialize_exact]), and the buffer dropped. *)
Inductive submit_step (t : nat) : RingBuf -> Z -> tstate -> client -> label -> RingBuf -> Z -> tstate -> client -> Prop :=
| ss_call r e x event size st :
    next x = Some event -> compute_length (serialize_event event) = Ok size ->
    st = TSpin size (RingBuf.consumer_pos r) Spinlock.AtCas 0 -> tstep strategy t r e TIdle LTau r e st ->
    submit_step t r e TIdle (mkClient x None) LTau r e st (mkClient x (Some (event, O)))
| ss_reserve r e st c l r' e' st' :
    reserving st = true -> tstep strategy t r e st l r' e' st' ->
    submit_step t r e st c l r' e' st' (returns false st' c)
| ss_write r e size pp x event k b r' :
    image event !! k = Some b ->
    tstep strategy t r e (TReserved size pp) (LWrite t k b) r' e (TReserved size pp) ->
    submit_step t r e (TReserved size pp) (mkClient x (Some (event, k))) (LWrite t k b) r' e (TReserved size pp)
      (mkClient x (Some (event, S k)))
| ss_leave r e size pp x event :
    tstep strategy t r e (TReserved size pp) LTau r e (TDrop false size pp) ->
    submit_step t r e (TReserved size pp) (mkClient x (Some (event, length (image event)))) LTau r e
      (TDrop false size pp) (mkClient x (Some (event, length (image event))))
| ss_drop r e st c l r' e' st' :
    dropping st = true -> tstep strategy t r e st l r' e' st' ->
    submit_step t r e st c l r' e' st' (returns true st' c).

(** An event that cannot be serialised is refused without an access. *)
Inductive refused_step : client -> client -> Prop :=
| refused x event err :
    next x = Some event -> compute_length (serialize_event event) = Err err ->
    refused_step (mkClient x None) (mkClient (resume x false) None).

(** The event a thread reserves room for. *)
Definition reserved (t : nat) (l : label) (c : client) : list (nat * Event) :=
  match l, writing c with LReserve _ _, Some (event, _) => [(t, event)] | _, _ => [] end.

(** Runs of the threads and the consumer, with the accesses in order, and the events
    in the order in which they got room. *)
Inductive submissions (D : Z) : list label -> list (nat * Event) -> sys -> (nat -> client) -> Prop :=
| sub_nil : submissions D [] [] (init D) client_start
| sub_refused tr evs s cs t c :
    submissions D tr evs s cs -> state_of (s_threads s) t = TIdle -> refused_step (cs t) c ->
    submissions D tr evs s (<[t := c]> cs)
| sub_prod tr evs s cs t l r e st c :
    submissions D tr evs s cs ->
    submit_step t (s_ring s) (s_event s) (state_of (s_threads s) t) (cs t) l r e st c ->
    submissions D (tr ++ [l]) (evs ++ reserved t l (cs t)) (Sys r e (<[t := st]> (s_threads s)) (s_cons s))
      (<[t := c]> cs)
| sub_cons tr evs s cs l s' :
    submissions D tr evs s cs -> step strategy s Cons l s' -> submissions D (tr ++ [l]) evs s' cs.

(** What a thread has submitted, as its control goes: the events that succeeded. *)
Inductive behaves (x0 : C) : list Event -> C -> Prop :=
| behaves_nil : behaves x0 [] x0
| behaves_failed acc x event : behaves x0 acc x -> next x = Some event -> behaves x0 acc (resume x false)
| behaves_done acc x event : behaves x0 acc x -> next x = Some event -> behaves x0 (acc ++ [event]) (resume x true).

(** The events of a thread. *)
Definition events_of (t : nat) (evs : list (nat * Event)) : list Event :=
  map snd (List.filter (fun ev => Nat.eqb ev.1 t) evs).

(** ** The invariant *)

(** A record behind the consumer, and one in front of it that may still be written. *)
Definition done_slot (s : slot) (ev : nat * Event) : Prop :=
  sl_owner s = ev.1 /\ sl_status s = Committed /\ sl_data s = image ev.2.

Definition live_slot (cs : nat -> client) (s : slot) (ev : nat * Event) : Prop :=
  sl_owner s = ev.1 /\ length (sl_data s) = length (image ev.2) /\
  match sl_status s with
  | Committed => sl_data s = image ev.2
  | Discarded => False
  | Busy => exists k, writing (cs ev.1) = Some (ev.2, k) /\ take k (sl_data s) = take k (image ev.2)
  end.

(** Where a thread stands, and what it is submitting. *)
Definition local_ok (st : tstate) (c : client) : Prop :=
  match st, writing c with
  | TIdle, None => True
  | (TSpin size _ _ _ | TLocked size _ | TGotProd size _ _ | THeader size _ | TAdvanced size _), Some (event, k) =>
      size = Z.of_nat (length (image event)) /\ k = O /\ next (control c) = Some event
  | TFull, Some (event, k) => next (control c) = Some event
  | TReserved size _, Some (event, k) => (k <= length (image event))%nat /\ next (control c) = Some event
  | (TDrop false size _ | TCommit size _), Some (event, k) =>
      k = length (image event) /\ next (control c) = Some event
  | TNotify, Some (event, _) => next (control c) = Some event
  | _, _ => False
  end.

(** The event of a call that has room but has not returned. *)
Definition pending (st : tstate) (c : client) : list Event :=
  match st, writing c with
  | (TAdvanced _ _ | TReserved _ _ | TDrop _ _ _ | TCommit _ _ | TNotify), Some (event, _) => [event]
  | _, _ => []
  end.

Record submissions_ok (tr : list label) (evs : list (nat * Event)) (s : sys) (cs : nat -> client) (q : queue) : Prop := {
  so_replay : replay empty_queue tr = Some q;
  so_inv : Inv s q;
  so_slots : exists evs1 evs2, evs = evs1 ++ evs2 /\ Forall2 done_slot (q_gone q) evs1 /\
    Forall2 (live_slot cs) (q_live q) evs2;
  so_local : forall t, local_ok (state_of (s_threads s) t) (cs t);
  so_history : forall t, exists acc, behaves (start t) acc (control (cs t)) /\
    events_of t evs = acc ++ pending (state_of (s_threads s) t) (cs t)
}.

Lemma state_of_insert T t t' st : state_of (<[t := st]> T) t' = if decide (t' = t) then st else state_of T t'.
Proof.
  unfold state_of. destruct (decide (t' = t)) as [->|Hne]; [by rewrite lookup_insert_eq|by rewrite lookup_insert_ne].
Qed.

(** A thread that owns no buffer fills no record. *)
Lemma not_busy s q t : Inv s q -> owns (state_of (s_threads s) t) = None -> Forall (fun a => owned_busy t a = false) (q_live q).
Proof.
  intros HI Ho. apply Forall_lookup. intros i a Hi. apply not_true_iff_false. intros [Ha <-]%owned_busy_spec.
  pose proof (inv_busy _ _ HI i a Hi Ha) as E. by rewrite Ho in E.
Qed.

Lemma live_slot_other cs t c a ev :
  owned_busy t a = false \/ writing c = writing (cs t) -> live_slot cs a ev -> live_slot (<[t := c]> cs) a ev.
Proof.
  intros Hor (Ho & Hl & Hs). split_and!; [done|done|]. destruct (sl_status a) eqn:Est; try done.
  destruct (decide (ev.1 = t)) as [E|E].
  - destruct Hor as [Hf|Hw].
    + exfalso. apply not_true_iff_false in Hf. apply Hf. apply owned_busy_spec. by rewrite Ho.
    + rewrite E, fn_lookup_insert, Hw, <-E. done.
  - by rewrite fn_lookup_insert_ne by done.
Qed.

Lemma live_slots_other cs t c l evs :
  Forall (fun a => owned_busy t a = false) l \/ writing c = writing (cs t) ->
  Forall2 (live_slot cs) l evs -> Forall2 (live_slot (<[t := c]> cs)) l evs.
Proof.
  intros Hor H. induction H as [|a ev l evs Ha _ IH]; constructor.
  - apply live_slot_other; [|done]. destruct Hor as [Hb|?]; [left|by right]. by apply Forall_cons_1 in Hb as [? _].
  - apply IH. destruct Hor as [Hb|?]; [left|by right]. by apply Forall_cons_1 in Hb as [_ ?].
Qed.

(** The record a thread is filling is changed. *)
Lemma live_slots_update s q cs t c f live evs :
  Inv s q -> update_busy t f (q_live q) = Some live -> Forall2 (live_slot cs) (q_live q) evs ->
  (forall a ev, owned_busy t a = true -> live_slot cs a ev -> live_slot (<[t := c]> cs) (f a) ev) ->
  Forall2 (live_slot (<[t := c]> cs)) live evs.
Proof.
  intros HI Hu Hall Hf. apply update_busy_some in Hu as (l1 & a & l2 & E & -> & Ha & Hl1). rewrite E in Hall.
  apply Forall2_app_inv_l in Hall as (evs1 & evs2 & H1 & H2 & ->).
  apply Forall2_cons_inv_l in H2 as (ev & evs2' & H2 & H3 & ->). apply Forall2_app; [|constructor].
  - apply live_slots_other; [by left|done].
  - by apply Hf.
  - apply live_slots_other; [left|done]. apply Forall_lookup. intros j b Hj. apply not_true_iff_false. intros Hb.
    assert (length l1 = length l1 + S j)%nat; [|lia].
    apply owned_busy_spec in Ha as [Ha Ho], Hb as [Hb Ho'].
    apply (busy_unique _ _ _ _ b a (inv_busy _ _ HI)); [| |done|done|by rewrite Ho]; rewrite E.
    + rewrite lookup_app_r by lia. by replace (length l1 + S j - length l1)%nat with (S j) by lia.
    + by rewrite lookup_app_r, Nat.sub_diag by done.
Qed.

(** ** The steps keep it *)

Hypothesis serializable_events : forall event, serializable (serialize_event event).

Lemma measured event size : compute_length (serialize_event event) = Ok size -> size = Z.of_nat (length (image event)).
Proof using serializable_events.
  destruct (serializable_events event) as [Hp Hl]. rewrite compute_length_written by done. unfold image.
  destruct (written _ _) as [bs [[]|e]]; cbn; [by intros [= <-]|done].
Qed.

Lemma submit_tstep t r e st c l r' e' st' c' :
  submit_step t r e st c l r' e' st' c' -> tstep strategy t r e st l r' e' st'.
Proof using. by destruct 1. Qed.

Lemma local_step t r e st c l r' e' st' c' :
  local_ok st c -> submit_step t r e st c l r' e' st' c' -> local_ok st' c'.
Proof using serializable_events.
  intros Hl Hs. destruct Hs as [r e x event size st Hn Hm -> _|r e st c l r' e' st' Hr Ht|
    r e size pp x event k b r' Hb Ht|r e size pp x event Ht|r e st c l r' e' st' Hd Ht].
  - cbn. by rewrite (measured _ _ Hm).
  - destruct c as [x [[event k]|]]; destruct Ht; cbn in Hl, Hr |- *; try done; try (by destruct Hl as (-> & -> & ?)).
    destruct Hl as (_ & -> & ?). split; [lia|done].
  - cbn in Hl |- *. destruct Hl as [_ ?]. split; [|done]. by apply lookup_lt_Some in Hb.
  - cbn in Hl |- *. by destruct Hl.
  - destruct c as [x [[event k]|]]; destruct Ht; cbn in Hl, Hd |- *; try done; repeat case_match; naive_solver.
Qed.

Lemma events_of_app t evs evs' : events_of t (evs ++ evs') = events_of t evs ++ events_of t evs'.
Proof using. unfold events_of. by rewrite List.filter_app, map_app. Qed.

Lemma events_of_reserved_other t t' l c : t' <> t -> events_of t' (reserved t l c) = [].
Proof using.
  intros Hne. unfold reserved, events_of. destruct l; try done. destruct (writing c) as [[event k]|]; [|done].
  cbn. by destruct (Nat.eqb_spec t t') as [->|].
Qed.

(** What has room and what was submitted move together. *)
Lemma history_step t r e st c l r' e' st' c' acc evs :
  local_ok st c -> submit_step t r e st c l r' e' st' c' ->
  behaves (start t) acc (control c) -> events_of t evs = acc ++ pending st c ->
  exists acc', behaves (start t) acc' (control c') /\ events_of t (evs ++ reserved t l c) = acc' ++ pending st' c'.
Proof using.
  intros Hl Hs Hb He. rewrite events_of_app, He.
  assert (forall event k x, events_of t (reserved t l (mkClient x (Some (event, k)))) =
    match l with LReserve _ _ => [event] | _ => [] end) as Hres.
  { intros. unfold events_of. destruct l; try done. cbn. by rewrite Nat.eqb_refl. }
  destruct Hs as [r e x event size st Hn Hm -> _|r e st c l r' e' st' Hr Ht|
    r e size pp x event k b r' Hbt Ht|r e size pp x event Ht|r e st c l r' e' st' Hd Ht].
  - exists acc. by rewrite !app_nil_r.
  - destruct c as [x [[event k]|]]; [|by destruct Ht; cbn in Hl, Hr; repeat case_match]. rewrite Hres. destruct Ht; cbn in Hl, Hr, Hb |- *; try done.
    all: try (exists acc; rewrite ?app_nil_r; done).
    + exists acc. rewrite !app_nil_r. split; [|done]. apply (behaves_failed _ _ _ event); naive_solver.
    + exists acc. rewrite !app_nil_r. split; [|done]. apply (behaves_failed _ _ _ event); naive_solver.
  - exists acc. rewrite Hres, app_nil_r. done.
  - exists acc. rewrite Hres, app_nil_r. done.
  - destruct c as [x [[event k]|]]; [|by destruct Ht; cbn in Hl, Hd; repeat case_match]. rewrite Hres.
    destruct Ht; cbn in Hl, Hd, Hb |- *; try done.
    all: try (exists acc; rewrite ?app_nil_r; done).
    all: exists (acc ++ [event]); rewrite !app_nil_r; split; [|done]; apply behaves_done; naive_solver.
Qed.

(** A step that changes no record. *)
Lemma slots_same s q cs t l c evs2 :
  Inv s q -> owns (state_of (s_threads s) t) = None \/ writing c = writing (cs t) ->
  Forall2 (live_slot cs) (q_live q) evs2 -> reserved t l (cs t) = [] ->
  Forall2 (live_slot (<[t := c]> cs)) (q_live q) (evs2 ++ reserved t l (cs t)).
Proof using.
  intros HI Hor Hall ->. rewrite app_nil_r. apply live_slots_other; [|done].
  destruct Hor as [Ho|Hw]; [left; by eapply not_busy|by right].
Qed.

Lemma take_insert_next (l l' : list Z) k b :
  length l = length l' -> take k l = take k l' -> l' !! k = Some b -> take (S k) (<[k := b]> l) = take (S k) l'.
Proof using.
  intros Hl Ht Hb. assert (k < length l)%nat as Hk by (rewrite Hl; by apply lookup_lt_Some in Hb).
  rewrite (take_S_r l' k b Hb), <-Ht. rewrite (take_S_r _ k b) by by rewrite list_lookup_insert_eq.
  by rewrite take_insert_ge by done.
Qed.

(** The records and their events stay together. *)
Lemma slots_step s q q' cs t l r e st c evs2 :
  Inv s q -> local_ok (state_of (s_threads s) t) (cs t) ->
  submit_step t (s_ring s) (s_event s) (state_of (s_threads s) t) (cs t) l r e st c -> spec_step q l = Some q' ->
  Forall2 (live_slot cs) (q_live q) evs2 ->
  q_gone q' = q_gone q /\ Forall2 (live_slot (<[t := c]> cs)) (q_live q') (evs2 ++ reserved t l (cs t)).
Proof using serializable_events.
  intros HI Hl Hs Hq Hall.
  assert (l = LTau -> owns (state_of (s_threads s) t) = None \/ writing c = writing (cs t) ->
    q_gone q' = q_gone q /\ Forall2 (live_slot (<[t := c]> cs)) (q_live q') (evs2 ++ reserved t l (cs t))) as Htau.
  { intros -> Hor. injection Hq as <-. split; [done|]. by eapply slots_same. }
  remember (state_of (s_threads s) t) as st0 eqn:Est. remember (cs t) as c0 eqn:Ec.
  destruct Hs as [r0 e0 x event size st Hn Hm -> _|r0 e0 st0 c l r' e' st' Hr Ht|
    r0 e0 size pp x event k b r' Hbt Ht|r0 e0 size pp x event Ht|r0 e0 st0 c l r' e' st' Hd Ht].
  - apply Htau; [done|by left].
  - destruct Ht; try done; try (apply Htau; [done|by left]); try (apply Htau; [done|by right]).
    destruct c as [x [[event k]|]]; [|by cbn in Hl]. cbn in Hl. destruct Hl as (-> & -> & _). cbn [spec_step] in Hq.
    destruct (existsb _ _); [done|]. injection Hq as <-. split; [done|]. cbn [q_live reserved writing].
    apply Forall2_app; [apply live_slots_other; [right; by rewrite <-Ec|done]|]. constructor; [|constructor].
    split; [done|]. cbn [sl_data sl_status snd fst]. rewrite length_load_bytes, Nat2Z.id. split; [done|].
    exists O. by rewrite fn_lookup_insert.
  - cbn [spec_step] in Hq. destruct (update_busy t _ _) as [live|] eqn:Eu; [|done]. injection Hq as <-. split; [done|].
    cbn [q_live reserved writing]. rewrite app_nil_r. eapply live_slots_update; [done|done|done|].
    intros a ev [Ha Ho]%owned_busy_spec (Hev & Hlen & Hs). unfold live_slot, set_byte. cbn. rewrite Ha in Hs |- *.
    split; [done|]. rewrite length_insert. split; [done|]. exists (S k). rewrite <-Hev, Ho, fn_lookup_insert.
    destruct Hs as (k' & Hw & Ht'). rewrite <-Hev, Ho, <-Ec in Hw. injection Hw as -> <-. split; [done|].
    by apply take_insert_next.
  - apply Htau; [done|by right].
  - destruct Ht; try done; try (apply Htau; [done|by left]); try (apply Htau; [done|by right]).
    destruct c as [x [[event k]|]]; [|by cbn in Hl]. cbn in Hl. destruct Hl as [-> _].
    cbn [spec_step] in Hq. destruct (update_busy t _ _) as [live|] eqn:Eu; [|done]. injection Hq as <-. split; [done|].
    cbn [q_live reserved writing]. rewrite app_nil_r. eapply live_slots_update; [done|done|done|].
    intros a ev [Ha Ho]%owned_busy_spec (Hev & Hlen & Hs). unfold live_slot, set_status. cbn. rewrite Ha in Hs.
    split_and!; [done|done|]. destruct Hs as (k' & Hw & Ht'). rewrite <-Hev, Ho, <-Ec in Hw. injection Hw as E <-.
    rewrite <-E, take_ge, take_ge in Ht' by (rewrite ?Hlen, <-?E; done). by rewrite <-E.
Qed.

(** A thread that submits never discards. *)
Lemma never_discards st c : local_ok st c -> discarding st = false.
Proof using. destruct st as [| | | | | | | |[]| |]; cbn; try done; by destruct (writing c). Qed.

Lemma replay_snoc tr q l q' : replay empty_queue tr = Some q -> spec_step q l = Some q' -> replay empty_queue (tr ++ [l]) = Some q'.
Proof using. intros Hq Hl. rewrite replay_app, Hq. cbn. by rewrite Hl. Qed.

(** The consumer moves records from the front to those it is done with. *)
Lemma consumer_slots s q q' cs l s' evs1 evs2 :
  Inv s q -> step strategy s Cons l s' -> spec_step q l = Some q' ->
  Forall2 done_slot (q_gone q) evs1 -> Forall2 (live_slot cs) (q_live q) evs2 ->
  exists evs1' evs2', evs1 ++ evs2 = evs1' ++ evs2' /\ Forall2 done_slot (q_gone q') evs1' /\
    Forall2 (live_slot cs) (q_live q') evs2'.
Proof using.
  intros HI Hs Hq H1 H2. inversion Hs as [|s0 l0 r e c Hc E1 E2 E3 E4]; subst. clear Hs.
  pose proof (inv_wf _ _ HI) as Hwf. destruct q as [gone live held]. cbn [q_gone q_live q_held] in *.
  destruct Hc; cbn [spec_step q_gone q_live q_held] in Hq; repeat break_hyp Hq; simplify_eq/=; try (by eexists _, _).
  - apply Forall2_cons_inv_l in H2 as (ev & evs & (_ & _ & Hd) & _ & _). to_prop.
    match goal with Hst : sl_status _ = Discarded |- _ => by rewrite Hst in Hd end.
  - destruct (Hwf eq_refl) as (s1 & l1 & E & Hst). cbn in E. simplify_eq.
    apply Forall2_cons_inv_l in H2 as (ev & evs & (Ho & _ & Hd) & H2 & ->). rewrite Hst in Hd.
    exists (evs1 ++ [ev]), evs. split; [by rewrite <-app_assoc|]. split; [|done].
    apply Forall2_app; [done|]. by repeat constructor.
Qed.

Lemma submissions_start D : is_power_of_two D = true -> 8 <= D <= 2 ^ 32 ->
  submissions_ok [] [] (init D) client_start empty_queue.
Proof using.
  intros Hpow HD. split; [done|by apply inv_init|by exists [], []|done|].
  intros t. exists []. split; [constructor|done].
Qed.

Lemma submissions_thread tr evs s cs q t l r e st c :
  submissions_ok tr evs s cs q -> spans (q_gone q) + spans (q_live q) <= 2 ^ 62 ->
  submit_step t (s_ring s) (s_event s) (state_of (s_threads s) t) (cs t) l r e st c ->
  exists q', submissions_ok (tr ++ [l]) (evs ++ reserved t l (cs t)) (Sys r e (<[t := st]> (s_threads s)) (s_cons s))
    (<[t := c]> cs) q'.
Proof using serializable_events.
  intros [Hq HI (evs1 & evs2 & -> & H1 & H2) Hl Hh] Hb Hs. destruct s as [r0 e0 T k]. cbn [s_ring s_event s_threads s_cons] in *.
  destruct (tstep_preserves strategy r0 e0 T k q t l r e st HI Hb (submit_tstep _ _ _ _ _ _ _ _ _ _ Hs)) as (q' & Hq' & HI').
  destruct (slots_step (Sys r0 e0 T k) q q' cs t l r e st c evs2 HI (Hl t) Hs Hq' H2) as [Hg H2'].
  exists q'. split; cbn [s_threads]; [by eapply replay_snoc|done| | |].
  - exists evs1, (evs2 ++ reserved t l (cs t)). by rewrite <-app_assoc, Hg.
  - intros t'. rewrite state_of_insert. destruct (decide (t' = t)) as [->|Hne].
    + rewrite fn_lookup_insert. by apply (local_step _ _ _ _ _ _ _ _ _ _ (Hl t) Hs).
    + by rewrite fn_lookup_insert_ne by done.
  - intros t'. rewrite state_of_insert. destruct (decide (t' = t)) as [->|Hne].
    + rewrite fn_lookup_insert. destruct (Hh t) as (acc & Ha & He). by eapply history_step.
    + rewrite fn_lookup_insert_ne, (events_of_app _ (evs1 ++ evs2)), events_of_reserved_other, app_nil_r by done. apply Hh.
Qed.

Lemma submissions_consumer tr evs s cs q l s' :
  submissions_ok tr evs s cs q -> spans (q_gone q) + spans (q_live q) <= 2 ^ 62 -> step strategy s Cons l s' ->
  exists q', submissions_ok (tr ++ [l]) evs s' cs q'.
Proof using.
  intros [Hq HI (evs1 & evs2 & -> & H1 & H2) Hl Hh] Hb Hs.
  destruct (quiet_step_preserves strategy s q Cons l s' HI Hb) as (q' & Hq' & HI').
  { split; [done|]. intros _ t. by eapply never_discards. }
  assert (s_threads s' = s_threads s) as HT by by inversion Hs.
  exists q'. split; [by eapply replay_snoc|done|by apply (consumer_slots s q q' cs l s')| |]; by rewrite HT.
Qed.

Lemma refused_thread tr evs s cs q t c :
  submissions_ok tr evs s cs q -> state_of (s_threads s) t = TIdle -> refused_step (cs t) c ->
  submissions_ok tr evs s (<[t := c]> cs) q.
Proof using.
  intros [Hq HI (evs1 & evs2 & -> & H1 & H2) Hl Hh] Hi Hs. split; [done|done| | |].
  - exists evs1, evs2. split_and!; [done|done|]. apply live_slots_other; [|done]. right. by destruct Hs.
  - intros t'. destruct (decide (t' = t)) as [->|Hne]; [|by rewrite fn_lookup_insert_ne].
    rewrite fn_lookup_insert, Hi. by destruct Hs.
  - intros t'. destruct (decide (t' = t)) as [->|Hne]; [|by rewrite fn_lookup_insert_ne].
    rewrite fn_lookup_insert, Hi. destruct (Hh t) as (acc & Ha & He). rewrite Hi in He. exists acc. split; [|by destruct Hs].
    destruct Hs as [x event err Hn _]. by apply (behaves_failed _ _ _ event).
Qed.

Lemma submissions_inv D tr evs s cs :
  is_power_of_two D = true -> 8 <= D <= 2 ^ 32 -> submissions D tr evs s cs -> reserved_bytes tr <= 2 ^ 62 ->
  exists q, submissions_ok tr evs s cs q.
Proof using serializable_events.
  intros Hpow HD Hs. induction Hs as [|tr evs s cs t c Hs IH Hi Hr|tr evs s cs t l r e st c Hs IH Ht|tr evs s cs l s' Hs IH Hc];
    intros Hb; rewrite ?reserved_bytes_app in Hb; try pose proof (reserved_bytes_nonneg [l]).
  - exists empty_queue. by apply submissions_start.
  - destruct (IH Hb) as [q Hq]. exists q. by apply refused_thread.
  - destruct IH as [q Hq]; [lia|]. apply (submissions_thread _ _ _ _ q); [done| |done].
    rewrite (replay_spans _ _ _ (so_replay _ _ _ _ _ Hq)). cbn. lia.
  - destruct IH as [q Hq]; [lia|]. apply (submissions_consumer _ _ s _ q); [done| |done].
    rewrite (replay_spans _ _ _ (so_replay _ _ _ _ _ Hq)). cbn. lia.
Qed.

(** The consumer has received the first of them, whole. *)
Lemma received_events cs gone live held evs1 evs2 :
  wf_queue (Queue gone live held) -> Forall2 done_slot gone evs1 -> Forall2 (live_slot cs) live evs2 ->
  exists n, committed (received (Queue gone live held)) = map (fun ev => image ev.2) (take n (evs1 ++ evs2)).
Proof using.
  intros Hwf H1 H2. unfold received. cbn [q_gone q_live q_held].
  assert (committed gone = map (fun ev => image ev.2) evs1) as Hg.
  { clear -H1. induction H1 as [|a ev gone evs (_ & Hs & Hd) _ IH]; [done|]. unfold committed in *.
    rewrite filter_cons_True by done. cbn. by rewrite Hd, IH. }
  destruct held; cbn [q_held].
  - destruct (Hwf eq_refl) as (a & l & E & Hst). cbn in E. subst live.
    apply Forall2_cons_inv_l in H2 as (ev & evs & (_ & _ & Hd) & _ & ->). rewrite Hst in Hd.
    exists (S (length evs1)). rewrite committed_app, Hg, take_app_ge, Nat.sub_succ_l, Nat.sub_diag by lia.
    rewrite map_app. f_equal. unfold committed. cbn [take]. rewrite filter_cons_True by done. cbn. by rewrite Hd.
  - exists (length evs1). by rewrite app_nil_r, take_app_length.
Qed.

(** ** Schedules *)

(** The next access of a thread, with what an access to the lock observes; the next of
    the consumer. *)
Inductive turn := Thread_turn (t : nat) (obs : bool) | Consumer_turn.

Definition exec_client (t : nat) (obs : bool) (r : RingBuf) (e : Z) (st : tstate) (c : client) :
    option (label * RingBuf * Z * tstate * client) :=
  match st, c with
  | TIdle, mkClient x None =>
      event ← next x;
      match compute_length (serialize_event event) with
      | Ok size =>
          '(l, r', e', st') ← exec_prod strategy t (RingRuns.Start size) r e TIdle;
          Some (l, r', e', st', mkClient x (Some (event, O)))
      | Err _ => None
      end
  | TReserved size pp, mkClient x (Some (event, k)) =>
      match image event !! k with
      | Some b =>
          '(l, r', e', st') ← exec_prod strategy t (WriteByte (Z.of_nat k) b) r e st;
          Some (l, r', e', st', mkClient x (Some (event, S k)))
      | None =>
          if (k =? length (image event))%nat then
            '(l, r', e', st') ← exec_prod strategy t Go r e st; Some (l, r', e', st', c)
          else None
      end
  | _, _ =>
      if reserving st || dropping st then
        '(l, r', e', st') ← exec_prod strategy t (match st with TSpin _ _ _ _ => Access obs | _ => Go end) r e st;
        Some (l, r', e', st', returns (dropping st) st' c)
      else None
  end.

Lemma exec_client_sound t obs r e st c l r' e' st' c' :
  exec_client t obs r e st c = Some (l, r', e', st', c') -> submit_step t r e st c l r' e' st' c'.
Proof using.
  assert (reserving st || dropping st = true ->
    ('(l, r', e', st') ← exec_prod strategy t (match st with TSpin _ _ _ _ => Access obs | _ => Go end) r e st;
      Some (l, r', e', st', returns (dropping st) st' c)) = Some (l, r', e', st', c') ->
    submit_step t r e st c l r' e' st' c') as Hrest.
  { intros Hor ([[[l1 r1] e1] st1] & Hp & H)%bind_Some. simplify_eq. apply exec_prod_sound in Hp.
    destruct (dropping st) eqn:Hd; [by apply ss_drop|]. apply ss_reserve; [|done]. by rewrite orb_false_r in Hor. }
  intros H. destruct st, c as [x [[event k]|]]; cbn [exec_client] in H; try done;
    try (cbn [reserving dropping orb] in H; by apply Hrest).
  - apply bind_Some in H as (event & Hn & H). destruct (compute_length _) as [size|err] eqn:Em; [|done].
    apply bind_Some in H as ([[[l1 r1] e1] st1] & Hp & H). simplify_eq. pose proof (exec_prod_sound _ _ _ _ _ _ _ _ _ _ Hp) as Ht.
    cbn in Hp. case_match; [|done]. simplify_eq. by eapply ss_call.
  - destruct (image event !! k) as [b|] eqn:Eb.
    + apply bind_Some in H as ([[[l1 r1] e1] st1] & Hp & H). simplify_eq. pose proof (exec_prod_sound _ _ _ _ _ _ _ _ _ _ Hp) as Ht.
      cbn [exec_prod] in Hp. destruct (_ && _); [|done]. apply bind_Some in Hp as (r2 & _ & Hp). simplify_eq.
      rewrite Nat2Z.id in *. assert (e' = e') as _ by done. by apply ss_write.
    + destruct (Nat.eqb_spec k (length (image event))) as [->|]; [|done].
      apply bind_Some in H as ([[[l1 r1] e1] st1] & Hp & H). simplify_eq. pose proof (exec_prod_sound _ _ _ _ _ _ _ _ _ _ Hp) as Ht.
      cbn in Hp. simplify_eq. by apply ss_leave.
Qed.

(** A run: its accesses, the events that got room, and where it ends. *)
Fixpoint exec_turns (turns : list turn) (tr : list label) (evs : list (nat * Event)) (s : sys) (cs : nat -> client) :
    option (list label * list (nat * Event) * sys * (nat -> client)) :=
  match turns with
  | [] => Some (tr, evs, s, cs)
  | Thread_turn t obs :: turns =>
      '(l, r, e, st, c) ← exec_client t obs (s_ring s) (s_event s) (state_of (s_threads s) t) (cs t);
      exec_turns turns (tr ++ [l]) (evs ++ reserved t l (cs t)) (Sys r e (<[t := st]> (s_threads s)) (s_cons s)) (<[t := c]> cs)
  | Consumer_turn :: turns =>
      let '(l, r, e, c) := exec_cons (s_ring s) (s_event s) (s_cons s) in
      exec_turns turns (tr ++ [l]) evs (Sys r e (s_threads s) c) cs
  end.

Lemma exec_turns_sound D turns tr evs s cs out :
  submissions D tr evs s cs -> exec_turns turns tr evs s cs = Some out ->
  submissions D out.1.1.1 out.1.1.2 out.1.2 out.2.
Proof using.
  revert tr evs s cs. induction turns as [|[t obs|] turns IH]; intros tr evs s cs Hs H; cbn [exec_turns] in H.
  - by injection H as <-.
  - apply bind_Some in H as ([[[[l r] e] st] c] & Hc & H). eapply IH; [|exact H]. apply sub_prod; [done|].
    by eapply exec_client_sound.
  - destruct (exec_cons _ _ _) as [[[l r] e] c] eqn:Hc. eapply IH; [|exact H]. eapply sub_cons; [done|].
    apply step_cons. by apply exec_cons_sound.
Qed.

End Submission.
