(* ===== verification/AgentState.v ===== *)
(** * The state of the agent

    [AgentState] of the crate [agent] (src/agent/src/agent_state.rs): the clients
    of an agent, which of them has started it, and the tracing extension.  Every
    handler returns the new state, the new world and the actions it queued. *)

From S2P Require Import Prelude RingMem RingSpec Ring RingSystem RingOps Protocol AgentIpc.

(** ** Data *)

Inductive Action :=
| SendMessage (client_id : Z) (message : ControlMessage)
| DeleteEpoll (client_id : Z).

Definition CLIENT_TIMEOUT_NS : Z := 2000000000.

Inductive State := Pending | Started.

#[export] Instance State_eq_dec : EqDecision State.
Proof. solve_decision. Defined.

Record AgentClientState := mkClient {
  state : State;
  timestamp_ns : Z
}.

Definition AgentClientState_new (now : Z) : AgentClientState :=
  {| state := Pending; timestamp_ns := now |}.

(** [AgentClientState::timer]: is the client alive? *)
Definition client_timer (c : AgentClientState) (now timeout_ns : Z) : bool :=
  sat_sub now (timestamp_ns c) <=? timeout_ns.

Module MessageResult.

Inductive t :=
| Continue
| Started
| Disconnect
| Error (e : AgentError).

End MessageResult.

(** The extension is an object of the embedding program: of it the state holds
    whether it is there. *)
Record AgentState := mkAgent {
  clients : gmap Z AgentClientState;
  started_client : option Z;
  next_client_id : Z;
  another_started : bool;
  timeout_ns : Z;
  tracing_extension : bool;
  extension_active : bool
}.

(** ** The world *)

(** A call of the extension, with what it returned. *)
Inductive ext_call :=
| ExtStart (args : TracingArgs) (res : result string unit)
| ExtStop.

(** What the handlers share with the rest of the process: its static process id,
    its open descriptors, the files behind them, and the calls the extension has
    received. *)
Record World := mkWorld {
  w_pid : Z;
  w_fds : gset Z;
  w_files : gmap Z (Metadata * gmap Z Z);
  w_calls : list ext_call
}.

Definition set_pid (w : World) (pid : Z) : World :=
  {| w_pid := pid; w_fds := w_fds w; w_files := w_files w; w_calls := w_calls w |}.

(** The drop of an [OwnedFd]. *)
Definition close (w : World) (fd : Z) : World :=
  {| w_pid := w_pid w; w_fds := w_fds w ∖ {[fd]}; w_files := w_files w; w_calls := w_calls w |}.

Definition set_file (w : World) (fd : Z) (r : RingBuf) : World :=
  {| w_pid := w_pid w; w_fds := w_fds w; w_files := <[fd := (metadata r, bytes r)]> (w_files w);
     w_calls := w_calls w |}.

Definition file_of (w : World) (fd : Z) : Metadata * gmap Z Z :=
  default (Metadata_new, ∅) (w_files w !! fd).

Definition log_call (w : World) (c : ext_call) : World :=
  {| w_pid := w_pid w; w_fds := w_fds w; w_files := w_files w; w_calls := w_calls w ++ [c] |}.

(** What the system and the extension answer during a handler. *)
Record Env := mkEnv {
  e_now : Z;                               (** [CLOCK_MONOTONIC] *)
  e_std_pid : Z;                           (** [std::process::id] *)
  e_random : Z;                            (** [rand::random::<i32>] *)
  (** [current_exe], with its file name as a string *)
  e_current_exe : option (option string);
  e_fstat : Z -> result Z unit;
  e_os : Memory.Os;
  e_lock : nat -> bool;                    (** what [try_lock] observes *)
  e_ext_start : TracingArgs -> result string unit
}.

Definition validate_and_convert_fd (w : World) (raw_fd : Z) : option Z :=
  if raw_fd <? 0 then None
  else if bool_decide (raw_fd ∈ w_fds w) then Some raw_fd else None.

(** ** Small operations *)

Module Agent.

Definition new (timeout_ms : Z) (tracing_extension : bool) : AgentState :=
  {| clients := ∅; started_client := None; next_client_id := 1; another_started := false;
     timeout_ns := timeout_ms *64 1000000; tracing_extension := tracing_extension;
     extension_active := false |}.

Definition set_clients (s : AgentState) (cs : gmap Z AgentClientState) : AgentState :=
  {| clients := cs; started_client := started_client s; next_client_id := next_client_id s;
     another_started := another_started s; timeout_ns := timeout_ns s;
     tracing_extension := tracing_extension s; extension_active := extension_active s |}.

Definition set_started (s : AgentState) (c : option Z) (another : bool) : AgentState :=
  {| clients := clients s; started_client := c; next_client_id := next_client_id s;
     another_started := another; timeout_ns := timeout_ns s;
     tracing_extension := tracing_extension s; extension_active := extension_active s |}.

Definition set_active (s : AgentState) (b : bool) : AgentState :=
  {| clients := clients s; started_client := started_client s; next_client_id := next_client_id s;
     another_started := another_started s; timeout_ns := timeout_ns s;
     tracing_extension := tracing_extension s; extension_active := b |}.

Definition remove_client (s : AgentState) (token : Z) : AgentState :=
  set_clients s (delete token (clients s)).

Definition get_next_client_id (s : AgentState) : Z * AgentState :=
  (next_client_id s,
   {| clients := clients s; started_client := started_client s;
      next_client_id := next_client_id s +64 1; another_started := another_started s;
      timeout_ns := timeout_ns s; tracing_extension := tracing_extension s;
      extension_active := extension_active s |}).

Definition timeout_ms (s : AgentState) : Z := wrap 16 (timeout_ns s / 1000000).

Definition register_client (env : Env) (s : AgentState) (client_id : Z) : AgentState :=
  set_clients s (<[client_id := AgentClientState_new (e_now env)]> (clients s)).

(** The stop of a running extension, whatever it returns. *)
Definition stop_extension (s : AgentState) (w : World) : AgentState * World :=
  if extension_active s && tracing_extension s
  then (set_active s false, log_call w ExtStop)
  else (s, w).

Definition handle_disconnect (s : AgentState) (w : World) (client_id : Z)
    : AgentState * World * list Action :=
  let '(s, w) :=
    if bool_decide (started_client s = Some client_id) then
      let '(s, w) := stop_extension s w in (set_started s None false, w)
    else (s, w) in
  (s, w, [DeleteEpoll client_id]).

(** ** The start of a client *)

Definition RANDOM_PROCESS_ID_OPTION : string := "random_process_id".

(** The entry of a map with unique keys. *)
Fixpoint get_option (l : list (string * Value)) (k : string) : option Value :=
  match l with
  | [] => None
  | (k', v) :: l => if String.eqb k' k then Some v else get_option l k
  end.

(** [abs] of the smallest [i32] is itself in release builds. *)
Definition abs_i32 (x : Z) : Z := as_signed 32 (wrap 32 (Z.abs x)).

Definition apply_process_id (env : Env) (args : Args) (w : World) : World :=
  match get_option (options args) RANDOM_PROCESS_ID_OPTION with
  | Some (VBool true) => set_pid w (set_process_id (abs_i32 (e_random env)))
  | Some (VBool false) | None => set_pid w (reset_process_id (e_std_pid env))
  | Some _ => w
  end.

Section Handlers.

Variable serialize_event : Event -> serializer.

(** The name of the process goes into the ring; an error is only logged. *)
Definition announce_process (env : Env) (memory_fd : Z) (r : RingBuf) (w : World) : option World :=
  match e_current_exe env with
  | Some name =>
      let process_event :=
        Event.Track (Track.mk _ _ _ (default "unknown" name) (TrackType.Process (w_pid w)) None) in
      '(_, r, _) ← submit serialize_event lock_fuel (e_lock env) NoWakeup process_event r 0;
      Some (set_file w memory_fd r)
  | None => Some w
  end.

Definition nack (client_id : Z) (error : string) : Action := SendMessage client_id (Nack error).

(** What the arm of [Start] ends in: an early return of the handler, or the
    result of the match. *)
Definition arm : Type := AgentState * World * list Action * option MessageResult.t.

(** The extension receives a handle on the producer, and with it the two
    descriptors; without an extension both are closed at the end of the arm, and so
    they are when it refuses and drops its handle, as that of [Tracing] does. *)
Definition start_extension (env : Env) (args : Args) (client_id memory_fd notification_fd : Z)
    (s : AgentState) (w : World) : arm :=
  match tracing_extension s, tracing args with
  | true, Some tracing_args =>
      let res := e_ext_start env tracing_args in
      let w := log_call w (ExtStart tracing_args res) in
      match res with
      | Ok _ =>
          (set_active s true, w, [SendMessage client_id Ack], Some MessageResult.Started)
      | Err error_msg => (s, close (close w memory_fd) notification_fd, [nack client_id error_msg], None)
      end
  | _, _ =>
      (s, close (close w memory_fd) notification_fd, [SendMessage client_id Ack],
       Some MessageResult.Started)
  end.

Definition start_producer (env : Env) (client_id buffer_size : Z) (args : Args)
    (memory_fd notification_fd : Z) (s : AgentState) (w : World) : option arm :=
  match Producer.new (e_fstat env memory_fd) (e_fstat env notification_fd) (e_os env)
          memory_fd buffer_size (file_of w memory_fd) with
  | Err e =>
      Some (s, close (close w memory_fd) notification_fd, [],
            Some (MessageResult.Error (Mpscbuf e)))
  | Ok r =>
      let w := apply_process_id env args w in
      w ← announce_process env memory_fd r w;
      Some (start_extension env args client_id memory_fd notification_fd s w)
  end.

(** The arm of [Start] for a pending client. *)
Definition handle_start (env : Env) (client_id buffer_size : Z) (args : Args) (raw_fds : list Z)
    (s : AgentState) (w : World) : option arm :=
  if another_started s then
    Some (s, w, [nack client_id "another client already started"], None)
  else if bool_decide (tracing args = None) then
    Some (s, w, [nack client_id "at least one arg must be non-empty"], None)
  else
    match raw_fds with
    | raw_memory :: raw_notification :: _ =>
        match validate_and_convert_fd w raw_memory with
        | None => Some (s, w, [nack client_id "invalid file descriptors"], None)
        | Some memory_fd =>
            match validate_and_convert_fd w raw_notification with
            | None =>
                Some (s, close w memory_fd, [nack client_id "invalid file descriptors"], None)
            | Some notification_fd =>
                start_producer env client_id buffer_size args memory_fd notification_fd s w
            end
        end
    | _ => Some (s, w, [nack client_id "missing file descriptors"], None)
    end.

(** ** Messages *)

(** The match on the state of the client and the message. *)
Definition dispatch (env : Env) (client_id : Z) (client : AgentClientState) (msg : ControlMessage)
    (raw_fds : list Z) (s : AgentState) (w : World) : option arm :=
  match state client with
  | Pending =>
      match msg with
      | Start buffer_size args => handle_start env client_id buffer_size args raw_fds s w
      | _ => Some (s, w, [], Some MessageResult.Continue)
      end
  | Started =>
      match msg with
      | Stop => Some (s, w, [SendMessage client_id Ack], Some MessageResult.Disconnect)
      | Continue =>
          Some (set_clients s (<[client_id := mkClient (state client) (e_now env)]> (clients s)), w,
                [SendMessage client_id Ack], Some MessageResult.Continue)
      | _ => Some (s, w, [], Some MessageResult.Continue)
      end
  end.

(** [handle_message]; the archived message is its native form. *)
Definition handle_message (env : Env) (client_id : Z) (msg : ControlMessage) (raw_fds : list Z)
    (s : AgentState) (w : World) : option (AgentState * World * list Action) :=
  match msg with
  | Version => Some (s, w, [SendMessage client_id (VersionResponse VERSION)])
  | _ =>
      match clients s !! client_id with
      | None => Some (s, w, [])
      | Some client =>
          '(s, w, actions, res) ← dispatch env client_id client msg raw_fds s w;
          match res with
          | None | Some MessageResult.Continue => Some (s, w, actions)
          | Some MessageResult.Started =>
              let s := set_started s (Some client_id) true in
              Some (set_clients s (<[client_id := mkClient Started (e_now env)]> (clients s)), w, actions)
          | Some MessageResult.Disconnect | Some (MessageResult.Error _) =>
              let '(s, w, actions') := handle_disconnect s w client_id in
              Some (s, w, actions ++ actions')
          end
      end
  end.

End Handlers.

(** ** The timer *)

Section Timer.

(** The order in which the map of the clients is iterated. *)
Variable iter : gmap Z AgentClientState -> list (Z * AgentClientState).

(** The clock when each client is looked at. *)
Definition timer_pending (clock : Z -> Z) (s : AgentState) : list Action :=
  (fun '(client_id, _) => DeleteEpoll client_id) <$>
    filter (fun '(client_id, client) =>
      Some client_id <> started_client s /\
      client_timer client (clock client_id) (timeout_ns s) = false) (iter (clients s)).

(** [timer]; [None] is the panic of [unwrap]. *)
Definition timer (clock : Z -> Z) (s : AgentState) (w : World)
    : option (AgentState * World * list Action) :=
  let actions := timer_pending clock s in
  match started_client s with
  | None => Some (s, w, actions)
  | Some client_id =>
      client ← clients s !! client_id;
      if client_timer client (clock client_id) (timeout_ns s) then Some (s, w, actions)
      else
        let actions :=
          if bool_decide (is_Some (clients s !! client_id))
          then actions ++ [DeleteEpoll client_id] else actions in
        let '(s, w) := stop_extension s w in
        Some (set_started s None false, w, actions)
  end.

End Timer.

End Agent.
