(* ===== verification/AgentLoop.v ===== *)
(** * The listener thread of the agent

    [epoll_listener_thread] and [process_actions] of the crate [agent]
    (src/agent/src/epoll_thread.rs): one iteration of the loop against what the
    sockets and epoll deliver, and runs of the loop. *)

From S2P Require Import Prelude RingMem RingSpec Ring RingSystem RingOps Protocol AgentIpc AgentState.

Definition LISTENER_TOKEN : Z := 0.

(** ** State *)

(** [l_sockets] are the keys of [client_sockets]; [l_sent] is what was handed to
    [sendmsg], oldest first. *)
Record Loop := mkLoop {
  l_agent : AgentState;
  l_world : World;
  l_sockets : gset Z;
  l_sent : list (Z * list Z)
}.

(** How the thread ends before the shutdown. *)
Inductive LoopError :=
| Failed (e : AgentError)
| Panicked.

Definition M (A : Type) : Type := stM Loop LoopError A.

(** ** What epoll and the sockets deliver *)

Inductive accept_result :=
| Accepted (set_nonblocking epoll_add : result Z unit)
| AcceptWouldBlock
| AcceptError.

(** The outcome of [recvmsg]: no data, bytes with what [rkyv::access] makes of
    them and the descriptors that came along, or an error. *)
Inductive received :=
| RecvEmpty
| RecvBytes (archived : option ControlMessage) (raw_fds : list Z)
| RecvAgain
| RecvError.

Inductive source :=
| Listener (accept : accept_result)
| Client (client_id : Z) (hup_or_err : bool) (recv : received).

Record event := mkEvent { ev_source : source; ev_env : Env }.

(** One iteration: the shutdown flag, the events [epoll.wait] returns, and the
    clock of the timer. *)
Record iteration := mkIteration {
  it_shutdown : bool;
  it_wait : result Z (list event);
  it_clock : Z -> Z
}.

Section Thread.

Variable serialize_event : Event -> serializer.
Variable serialize_message : ControlMessage -> serializer.
Variable iter : gmap Z AgentClientState -> list (Z * AgentClientState).
(** [epoll.delete] on the socket of a client. *)
Variable epoll_delete : Z -> result Z unit.

Definition set_agent (l : Loop) (s : AgentState) (w : World) : Loop :=
  {| l_agent := s; l_world := w; l_sockets := l_sockets l; l_sent := l_sent l |}.

Definition set_sockets (l : Loop) (socks : gset Z) : Loop :=
  {| l_agent := l_agent l; l_world := l_world l; l_sockets := socks; l_sent := l_sent l |}.

Definition sent (l : Loop) (client_id : Z) (bs : list Z) : Loop :=
  {| l_agent := l_agent l; l_world := l_world l; l_sockets := l_sockets l;
     l_sent := l_sent l ++ [(client_id, bs)] |}.

(** The [?] operator on an error of [nix] and of the standard library. *)
Definition try_nix (r : result Z unit) : M unit := fun l => (map_err (Failed ∘ Nix) r, l).

Definition try_archive {A} (r : result RkyvError A) : M A :=
  fun l => (map_err (Failed ∘ Archive) r, l).

(** ** Actions *)

(** [SendMessage]: the message goes out if the socket is still there; that
    [sendmsg] fails is only logged. *)
Definition send_message (client_id : Z) (message : ControlMessage) : M unit :=
  l ← getS;
  if bool_decide (client_id ∈ l_sockets l) then
    serialized ← try_archive (compute_length (serialize_message message));
    let '(res, buf) :=
      serialize_to_buf (serialize_message message) (repeat 0 (Z.to_nat serialized)) in
    _ ← try_archive res;
    modifyS (fun l => sent l client_id buf)
  else mret tt.

(** [process_actions]: the messages are sent, the ids to delete are returned. *)
Fixpoint process_actions (actions : list Action) : M (list Z) :=
  match actions with
  | [] => mret []
  | SendMessage client_id message :: actions =>
      _ ← send_message client_id message;
      process_actions actions
  | DeleteEpoll client_id :: actions =>
      ids ← process_actions actions;
      mret (client_id :: ids)
  end.

(** The body of the loops over the ids of [process_actions]. *)
Definition drop_client (token : Z) : M unit :=
  l ← getS;
  _ ← putS (set_agent l (Agent.remove_client (l_agent l) token) (l_world l));
  if bool_decide (token ∈ l_sockets l) then
    _ ← modifyS (fun l => set_sockets l (l_sockets l ∖ {[token]}));
    try_nix (epoll_delete token)
  else mret tt.

Fixpoint drop_clients (tokens : list Z) : M unit :=
  match tokens with
  | [] => mret tt
  | token :: tokens => _ ← drop_client token; drop_clients tokens
  end.

Definition carry_out (actions : list Action) : M unit :=
  tokens ← process_actions actions;
  drop_clients tokens.

(** ** Events *)

Definition handle_accept (env : Env) (accept : accept_result) : M unit :=
  match accept with
  | AcceptWouldBlock | AcceptError => mret tt
  | Accepted set_nonblocking epoll_add =>
      _ ← try_nix set_nonblocking;
      l ← getS;
      let '(client_id, s) := Agent.get_next_client_id (l_agent l) in
      _ ← putS (set_agent l s (l_world l));
      _ ← try_nix epoll_add;
      l ← getS;
      _ ← putS (set_sockets l (l_sockets l ∪ {[client_id]}));
      l ← getS;
      _ ← putS (set_agent l (Agent.register_client env (l_agent l) client_id) (l_world l));
      carry_out []
  end.

Definition disconnect (client_id : Z) : M unit :=
  l ← getS;
  let '(s, w, actions) := Agent.handle_disconnect (l_agent l) (l_world l) client_id in
  _ ← putS (set_agent l s w);
  carry_out actions.

(** The kernel has put the descriptors of a message into the table of the
    process. *)
Definition open_fds (w : World) (fds : list Z) : World :=
  {| w_pid := w_pid w; w_fds := w_fds w ∪ list_to_set fds; w_files := w_files w;
     w_calls := w_calls w |}.

Definition receive_message (env : Env) (client_id : Z) (recv : received) : M unit :=
  match recv with
  | RecvEmpty | RecvAgain => mret tt
  | RecvError => disconnect client_id
  | RecvBytes archived raw_fds =>
      _ ← modifyS (fun l => set_agent l (l_agent l) (open_fds (l_world l) raw_fds));
      match archived with
      | None => mret tt
      | Some msg =>
          l ← getS;
          match Agent.handle_message serialize_event env client_id msg raw_fds (l_agent l) (l_world l) with
          | None => failS Panicked
          | Some (s, w, actions) =>
              _ ← putS (set_agent l s w);
              carry_out actions
          end
      end
  end.

Definition handle_event (ev : event) : M unit :=
  match ev_source ev with
  | Listener accept => handle_accept (ev_env ev) accept
  | Client client_id hup_or_err recv =>
      if client_id =? LISTENER_TOKEN then mret tt
      else if hup_or_err then disconnect client_id
      else
        l ← getS;
        if bool_decide (client_id ∈ l_sockets l) then receive_message (ev_env ev) client_id recv
        else mret tt
  end.

Fixpoint handle_events (evs : list event) : M unit :=
  match evs with
  | [] => mret tt
  | ev :: evs => _ ← handle_event ev; handle_events evs
  end.

(** ** The loop *)

Definition run_timer (clock : Z -> Z) : M unit :=
  l ← getS;
  match Agent.timer iter clock (l_agent l) (l_world l) with
  | None => failS Panicked
  | Some (s, w, actions) =>
      _ ← putS (set_agent l s w);
      carry_out actions
  end.

(** One iteration; [false] is the [break]. *)
Definition loop_once (i : iteration) : M bool :=
  if it_shutdown i then mret false
  else
    match it_wait i with
    | Err e => failS (Failed (Nix e))
    | Ok evs =>
        _ ← handle_events (take 10 evs);
        _ ← run_timer (it_clock i);
        mret true
    end.

Fixpoint run_loop (its : list iteration) : M unit :=
  match its with
  | [] => mret tt
  | i :: its =>
      continue ← loop_once i;
      if continue : bool then run_loop its else mret tt
  end.

(** [epoll_listener_thread] once it listens. *)
Definition loop_init (timeout_ms : Z) (tracing_extension : bool) (w : World) : Loop :=
  {| l_agent := Agent.new timeout_ms tracing_extension; l_world := w; l_sockets := ∅; l_sent := [] |}.

End Thread.
