(* ===== verification/AgentProps.v ===== *)
(** * The agent: invariants, decisions and timeouts

    Theorems on [AgentState] and [AgentLoop]: the invariant every run of the
    listener thread keeps, what each message and the timer do, and what is sent. *)

From S2P Require Import Prelude RingMem RingSpec Ring RingSystem RingOps Protocol AgentIpc AgentState AgentLoop.

(** ** The invariant *)

(** The ids of the clients to delete. *)
Definition deletions (actions : list Action) : list Z :=
  omap (fun a => match a with DeleteEpoll id => Some id | SendMessage _ _ => None end) actions.

(** One call of the extension: [Some b] tells whether it runs, [None] that it was
    started while running or stopped while not. *)
Definition ext_step (running : option bool) (c : ext_call) : option bool :=
  match running, c with
  | Some false, ExtStart _ res => Some (is_ok res)
  | Some true, ExtStop => Some false
  | _, _ => None
  end.

Definition ext_running (calls : list ext_call) : option bool := foldl ext_step (Some false) calls.

(** The invariant of the agent while the clients [ids] are about to be deleted;
    [bound] bounds the client ids given out. *)
Record agent_inv (bound : Z) (ids : list Z) (s : AgentState) (w : World) : Prop := {
  ai_another : another_started s = bool_decide (is_Some (started_client s));
  ai_started : forall id, started_client s = Some id ->
    (id ∉ ids) /\ exists c, clients s !! id = Some c /\ state c = Started;
  ai_only : forall id c, clients s !! id = Some c -> state c = Started ->
    started_client s = Some id \/ id ∈ ids;
  ai_ids : forall id, is_Some (clients s !! id) -> 1 <= id < next_client_id s;
  ai_next : 1 <= next_client_id s <= bound;
  ai_active : extension_active s = another_started s && tracing_extension s;
  ai_calls : ext_running (w_calls w) = Some (extension_active s)
}.

Lemma ext_running_snoc calls c : ext_running (calls ++ [c]) = ext_step (ext_running calls) c.
Proof. unfold ext_running. by rewrite foldl_app. Qed.

Lemma deletions_app l l' : deletions (l ++ l') = deletions l ++ deletions l'.
Proof. apply omap_app. Qed.

Lemma agent_new_inv timeout ext w :
  w_calls w = [] -> agent_inv 1 [] (Agent.new timeout ext) w.
Proof.
  intros Hw. split; cbn [Agent.new started_client clients another_started next_client_id
    extension_active tracing_extension]; try done; try lia.
  - intros id [? H]. by rewrite lookup_empty in H.
  - by rewrite Hw.
Qed.

(** The loop removes the clients one by one. *)
Lemma remove_client_inv b id ids s w :
  agent_inv b (id :: ids) s w -> agent_inv b ids (Agent.remove_client s id) w.
Proof.
  intros [Ha Hs Ho Hi Hn Hx Hc]. split; cbn; try done.
  - intros id' Hid'. destruct (Hs _ Hid') as [Hni (c & Hc1 & Hc2)].
    split; [set_solver|]. exists c. by rewrite lookup_delete_ne by set_solver.
  - intros id' c Hc1 Hc2. apply lookup_delete_Some in Hc1 as [Hne Hc1].
    destruct (Ho _ _ Hc1 Hc2); [by left|set_solver].
  - intros id' [c Hc1]. apply lookup_delete_Some in Hc1 as [_ Hc1]. apply Hi. by exists c.
Qed.

Lemma open_fds_inv b ids s w fds : agent_inv b ids s w -> agent_inv b ids s (open_fds w fds).
Proof. intros []. by split. Qed.

Lemma agent_inv_grow b ids s w :
  agent_inv b [] s w -> (forall id, started_client s = Some id -> id ∉ ids) -> agent_inv b ids s w.
Proof.
  intros [Ha Hs Ho Hi Hn Hx Hc] Hids. split; try done.
  - intros id Hid. destruct (Hs _ Hid). by split; [apply Hids|].
  - intros id c H1 H2. left. destruct (Ho _ _ H1 H2); set_solver.
Qed.

(** The started client stops or vanishes. *)
Lemma unstart_inv b s w id ids :
  agent_inv b [] s w -> started_client s = Some id -> id ∈ ids ->
  let '(s', w') := Agent.stop_extension s w in
  agent_inv b ids (Agent.set_started s' None false) w'.
Proof.
  intros [Ha Hs Ho Hi Hn Hx Hc] Hid Hin. rewrite Hid in Ha. cbn in Ha.
  rewrite Ha in Hx. cbn [andb] in Hx. unfold Agent.stop_extension. rewrite Hx in *.
  destruct (tracing_extension s) eqn:Et; cbn [andb]; split; cbn [Agent.set_started Agent.set_active
    started_client clients another_started next_client_id extension_active tracing_extension log_call w_calls];
    try done; try (by rewrite ?ext_running_snoc, ?Hc, ?Hx);
    intros id' c H1 H2; right; (destruct (Ho _ _ H1 H2); [by simplify_eq|set_solver]).
Qed.

Lemma disconnect_inv b s w id s' w' actions :
  agent_inv b [] s w -> Agent.handle_disconnect s w id = (s', w', actions) ->
  agent_inv b (deletions actions) s' w'.
Proof.
  unfold Agent.handle_disconnect. intros HI. pose proof HI as [Ha Hs Ho Hi Hn Hx Hc].
  destruct (bool_decide_reflect (started_client s = Some id)) as [Hid|Hid].
  - pose proof (unstart_inv b s w id [id] HI Hid ltac:(set_solver)) as H.
    destruct (Agent.stop_extension s w). intros [= <- <- <-]. exact H.
  - intros [= <- <- <-]. cbn. split; try done.
    + intros id' Hid'. destruct (Hs _ Hid'). split; [set_solver|done].
    + intros id' c H1 H2. left. destruct (Ho _ _ H1 H2); set_solver.
Qed.

Lemma disconnect_clients s w id s' w' actions :
  Agent.handle_disconnect s w id = (s', w', actions) -> clients s' = clients s.
Proof.
  unfold Agent.handle_disconnect, Agent.stop_extension.
  destruct (bool_decide _); [destruct (extension_active s && tracing_extension s)|]; by intros [= <- <- <-].
Qed.

Lemma accept_inv b s w env id s' :
  agent_inv b [] s w -> b < u64_max -> Agent.get_next_client_id s = (id, s') ->
  id = next_client_id s /\ clients s' = clients s /\
  agent_inv (b + 1) [] s' w /\ agent_inv (b + 1) [] (Agent.register_client env s' id) w.
Proof.
  intros [Ha Hs Ho Hi Hn Hx Hc] Hb [= <- <-]. split; [done|]. split; [done|].
  rewrite wrap64_small by lia.
  split; split; cbn [Agent.register_client Agent.set_clients started_client clients another_started
    next_client_id extension_active tracing_extension]; try done; try lia.
  - intros id' H. specialize (Hi id' H). lia.
  - intros id' Hid'. destruct (Hs _ Hid') as [? (c & Hc1 & Hc2)]. split; [done|].
    exists c. rewrite lookup_insert_ne; [done|]. intros <-. specialize (Hi (next_client_id s)).
    rewrite Hc1 in Hi. specialize (Hi ltac:(done)). lia.
  - intros id' c H1 H2. apply lookup_insert_Some in H1 as [[<- <-]|[_ H1]]; [done|].
    by apply Ho with c.
  - intros id' [c H1]. apply lookup_insert_Some in H1 as [[<- _]|[_ H1]]; [lia|].
    specialize (Hi id' ltac:(by exists c)). lia.
Qed.

(** *** Messages *)

Section Messages.

Variable serialize_event : Event -> serializer.

Lemma announce_process_calls env fd r w w' :
  Agent.announce_process serialize_event env fd r w = Some w' ->
  w_calls w' = w_calls w /\ w_pid w' = w_pid w /\ w_fds w' = w_fds w.
Proof.
  unfold Agent.announce_process. intros H.
  destruct (e_current_exe env); [|by simplify_eq].
  apply bind_Some in H as ([[? ?] ?] & _ & H). by simplify_eq/=.
Qed.

Lemma apply_process_id_calls env args w :
  w_calls (Agent.apply_process_id env args w) = w_calls w /\
  w_fds (Agent.apply_process_id env args w) = w_fds w.
Proof. unfold Agent.apply_process_id. by repeat break_goal. Qed.

Lemma start_producer_cases env id size args mfd nfd s w a :
  Agent.start_producer serialize_event env id size args mfd nfd s w = Some a ->
  (exists e, a = (s, close (close w mfd) nfd, [], Some (MessageResult.Error (Mpscbuf e)))) \/
  (exists w2, w_calls w2 = w_calls w /\ w_fds w2 = w_fds w /\
    a = Agent.start_extension env args id mfd nfd s w2).
Proof.
  unfold Agent.start_producer. destruct (Producer.new _ _ _ _ _ _) as [r|e].
  - intros H. apply bind_Some in H as (w2 & Hw2 & H). right. exists w2.
    apply announce_process_calls in Hw2 as (-> & _ & ->).
    destruct (apply_process_id_calls env args w) as [-> ->]. by simplify_eq.
  - intros [= <-]. left. by exists e.
Qed.

(** What the arm of [Start] can end in. *)
Lemma handle_start_arm env id size args fds b s w s1 w1 actions res :
  agent_inv b [] s w ->
  Agent.handle_start serialize_event env id size args fds s w = Some (s1, w1, actions, res) ->
  deletions actions = [] /\
  match res with
  | Some MessageResult.Started =>
      another_started s = false /\ s1 = Agent.set_active s (tracing_extension s) /\
      ext_running (w_calls w1) = Some (tracing_extension s)
  | Some MessageResult.Continue | Some MessageResult.Disconnect => False
  | None | Some (MessageResult.Error _) => s1 = s /\ ext_running (w_calls w1) = ext_running (w_calls w)
  end.
Proof.
  intros [Ha _ _ _ _ Hx Hc]. unfold Agent.handle_start.
  destruct (another_started s) eqn:Eo; [by intros [= <- <- <- <-]|].
  cbn [andb] in Hx. rewrite Hx in Hc. destruct (bool_decide_reflect (tracing args = None)) as [|Hargs];
    [by intros [= <- <- <- <-]|].
  destruct fds as [|f0 [|f1 fds]]; [by intros [= <- <- <- <-]..|].
  destruct (validate_and_convert_fd w f0); [|by intros [= <- <- <- <-]].
  destruct (validate_and_convert_fd w f1); [|by intros [= <- <- <- <-]].
  intros H. apply start_producer_cases in H. destruct H as [[e H]|(w2 & Hw2 & _ & H)]; [simplify_eq/=; tauto|].
  unfold Agent.start_extension in H. destruct s as [cl st nx an ti [] ac]; cbn in *; subst;
    repeat break_hyp H; simplify_eq/=; rewrite ?ext_running_snoc, ?Hw2, ?Hc; done.
Qed.

(** The two parts of [handle_message]. *)
Lemma handle_message_cases env id msg fds s w s' w' actions :
  Agent.handle_message serialize_event env id msg fds s w = Some (s', w', actions) ->
  (s' = s /\ w' = w /\ deletions actions = []) \/
  exists c a, clients s !! id = Some c /\
    Agent.dispatch serialize_event env id c msg fds s w = Some a /\
    Some (s', w', actions) =
      let '(s, w, actions, res) := a in
      match res with
      | None | Some MessageResult.Continue => Some (s, w, actions)
      | Some MessageResult.Started =>
          let s := Agent.set_started s (Some id) true in
          Some (Agent.set_clients s (<[id := mkClient Started (e_now env)]> (clients s)), w, actions)
      | Some MessageResult.Disconnect | Some (MessageResult.Error _) =>
          let '(s, w, actions') := Agent.handle_disconnect s w id in
          Some (s, w, actions ++ actions')
      end.
Proof.
  unfold Agent.handle_message. destruct (clients s !! id) as [c|].
  - intros H. destruct msg; try (right; exists c; apply bind_Some in H as (a & Ha & H);
      exists a; split; [done|]; split; [done|]; by rewrite H).
    left. by simplify_eq/=.
  - destruct msg; intros [= <- <- <-]; by left.
Qed.

Lemma started_inv b s w w1 id c now :
  agent_inv b [] s w -> clients s !! id = Some c -> another_started s = false ->
  ext_running (w_calls w1) = Some (tracing_extension s) ->
  agent_inv b []
    (let s := Agent.set_started (Agent.set_active s (tracing_extension s)) (Some id) true in
     Agent.set_clients s (<[id := mkClient Started now]> (clients s))) w1.
Proof.
  intros [Ha Hs Ho Hi Hn Hx Hc] Hid Hf Hrun. rewrite Hf in Ha.
  assert (started_client s = None) as Hnone.
  { destruct (started_client s); [|done]. by rewrite bool_decide_true in Ha. }
  split; cbn; try done.
  - intros id' [= ->]. split; [set_solver|]. eexists. by rewrite lookup_insert_eq.
  - intros id' c' H1 H2. apply lookup_insert_Some in H1 as [[<- _]|[_ H1]]; [by left|].
    destruct (Ho _ _ H1 H2); [by simplify_eq|set_solver].
  - intros id' [c' H1]. apply Hi. apply lookup_insert_Some in H1 as [[<- _]|[_ H1]]; by eexists.
Qed.

Lemma refreshed_inv b s w id c now :
  agent_inv b [] s w -> clients s !! id = Some c ->
  agent_inv b [] (Agent.set_clients s (<[id := mkClient (state c) now]> (clients s))) w.
Proof.
  intros [Ha Hs Ho Hi Hn Hx Hc] Hid. split; cbn; try done.
  - intros id' Hid'. destruct (Hs _ Hid') as [? (c' & H1 & H2)]. split; [done|].
    destruct (decide (id = id')) as [<-|Hne].
    + eexists. rewrite lookup_insert_eq. simplify_eq. done.
    + exists c'. by rewrite lookup_insert_ne.
  - intros id' c' H1 H2. apply lookup_insert_Some in H1 as [[<- <-]|[_ H1]]; [|by eapply Ho].
    by eapply Ho.
  - intros id' [c' H1]. apply Hi. apply lookup_insert_Some in H1 as [[<- _]|[_ H1]]; by eexists.
Qed.

Lemma handle_message_inv env id msg fds b s w s' w' actions :
  agent_inv b [] s w ->
  Agent.handle_message serialize_event env id msg fds s w = Some (s', w', actions) ->
  agent_inv b (deletions actions) s' w'.
Proof.
  intros HI Hmsg. apply handle_message_cases in Hmsg as [(-> & -> & Hd)|(c & a & Hc & Ha & Hres)].
  { by rewrite Hd. }
  destruct a as [[[s1 w1] acts] res]. unfold Agent.dispatch in Ha.
  destruct (state c) eqn:Est, msg; try (injection Ha as <- <- <- <-; cbn in Hres);
    try (injection Hres as -> -> ->; exact HI).
  - pose proof (handle_start_arm _ _ _ _ _ _ _ _ _ _ _ _ HI Ha) as [Hd Hcases].
    destruct res as [[]|]; [done| |done| |]; cbn in Hres.
    + destruct Hcases as (Ho & -> & Hrun). simplify_eq/=. rewrite Hd. by eapply started_inv.
    + destruct Hcases as [-> Hrun].
      destruct (Agent.handle_disconnect s w1 id) as [[s2 w2] acts'] eqn:E. simplify_eq/=.
      rewrite deletions_app, Hd. eapply disconnect_inv; [|exact E].
      destruct HI as [? ? ? ? ? ? Hr]. split; try done. by rewrite Hrun.
    + destruct Hcases as [-> Hrun]. simplify_eq/=. rewrite Hd.
      destruct HI as [? ? ? ? ? ? Hr]. split; try done. by rewrite Hrun.
  - destruct (Agent.handle_disconnect s w id) as [[s2 w2] acts'] eqn:E.
    injection Hres as -> -> ->. exact (disconnect_inv _ _ _ _ _ _ _ HI E).
  - injection Hres as -> -> ->. rewrite <-Est. by apply refreshed_inv.
Qed.

End Messages.

(** *** The timer *)

(** Whether the clock finds a client silent for too long. *)
Definition expired (clock : Z -> Z) (s : AgentState) (id : Z) : bool :=
  match clients s !! id with
  | Some c => negb (client_timer c (clock id) (timeout_ns s))
  | None => false
  end.

Section Timer.

Variable iter : gmap Z AgentClientState -> list (Z * AgentClientState).
Hypothesis iter_perm : forall m, iter m ≡ₚ map_to_list m.

Lemma timer_pending_elem clock s id :
  id ∈ deletions (Agent.timer_pending iter clock s) <->
  started_client s <> Some id /\ expired clock s id = true.
Proof using iter_perm.
  unfold deletions, Agent.timer_pending, expired. rewrite list_elem_of_omap. split.
  - intros (a & Ha & Hid). apply list_elem_of_fmap in Ha as ([id' c] & -> & Hf).
    injection Hid as ->. apply list_elem_of_filter in Hf as [[Hne Ht] Hin].
    rewrite iter_perm in Hin. apply elem_of_map_to_list in Hin. rewrite Hin, Ht.
    split; [congruence|done].
  - intros [Hne He]. destruct (clients s !! id) as [c|] eqn:Ec; [|done].
    exists (DeleteEpoll id). split; [|done]. apply list_elem_of_fmap. exists (id, c).
    split; [done|]. apply list_elem_of_filter. split.
    + split; [congruence|]. by apply negb_true_iff.
    + rewrite iter_perm. by apply elem_of_map_to_list.
Qed.

(** The timer does not panic, asks for the deletion of exactly the clients that
    were silent for too long, and takes the start back from such a client. *)
Lemma timer_total b s w clock :
  agent_inv b [] s w ->
  exists s' w' actions, Agent.timer iter clock s w = Some (s', w', actions) /\
    agent_inv b (deletions actions) s' w' /\ clients s' = clients s /\
    (forall id, id ∈ deletions actions <-> expired clock s id = true) /\
    started_client s' =
      match started_client s with
      | Some id => if expired clock s id then None else Some id
      | None => None
      end.
Proof using iter_perm.
  intros HI. pose proof HI as [Ha Hs Ho Hi Hn Hx Hc]. unfold Agent.timer.
  destruct (started_client s) as [id|] eqn:Est.
  - destruct (Hs id eq_refl) as [_ (c & Hc1 & Hc2)]. rewrite Hc1. cbn [mbind option_bind].
    assert (forall id', id' ∈ deletions (Agent.timer_pending iter clock s) <->
      id' <> id /\ expired clock s id' = true) as Hpend.
    { intros id'. rewrite timer_pending_elem, Est. naive_solver. }
    destruct (client_timer c (clock id) (timeout_ns s)) eqn:Et.
    + assert (expired clock s id = false) as Hex by (unfold expired; by rewrite Hc1, Et).
      do 3 eexists. split; [done|]. rewrite Hex. split_and!; try done.
      * apply agent_inv_grow; [done|]. intros id'. rewrite Est. intros [= <-].
        rewrite Hpend. by intros [? _].
      * intros id'. rewrite Hpend. split; [by intros [_ ?]|]. intros H. split; [congruence|done].
    + assert (expired clock s id = true) as Hex by (unfold expired; by rewrite Hc1, Et).
      rewrite bool_decide_true by done. rewrite Hex.
      pose proof (unstart_inv b s w id
        (deletions (Agent.timer_pending iter clock s ++ [DeleteEpoll id])) HI Est) as H.
      assert (forall id', id' ∈ deletions (Agent.timer_pending iter clock s ++ [DeleteEpoll id]) <->
        expired clock s id' = true) as Hdel.
      { intros id'. rewrite deletions_app, elem_of_app, Hpend. cbn. rewrite list_elem_of_singleton.
        split; [by intros [[_ ?]| ->]|]. intros. destruct (decide (id' = id)); [by right|by left]. }
      specialize (H (proj2 (Hdel id) Hex)). unfold Agent.stop_extension in *.
      destruct (extension_active s && tracing_extension s); do 3 eexists; (split; [done|]); (split; [exact H|]);
        (split; [done|]); (split; [exact Hdel|done]).
  - do 3 eexists. split; [done|]. split_and!; try done.
    + apply agent_inv_grow; [done|]. by rewrite Est.
    + intros id. rewrite timer_pending_elem, Est. naive_solver.
Qed.

End Timer.

(** ** The loop *)

Lemma remove_clients_inv b ids s w :
  agent_inv b ids s w -> agent_inv b [] (foldl Agent.remove_client s ids) w.
Proof. revert s. induction ids as [|id ids IH]; intros s H; [done|]. by apply IH, remove_client_inv. Qed.

Lemma remove_clients_lookup ids s id :
  clients (foldl Agent.remove_client s ids) !! id =
  if bool_decide (id ∈ ids) then None else clients s !! id.
Proof.
  revert s. induction ids as [|id' ids IH]; intros s; [done|]. cbn [foldl]. rewrite IH.
  cbn [clients Agent.remove_client Agent.set_clients]. destruct (decide (id ∈ ids)) as [Hin|Hin].
  - rewrite !bool_decide_true by set_solver. done.
  - rewrite (bool_decide_false (id ∈ ids)) by done. destruct (decide (id = id')) as [->|Hne].
    + by rewrite lookup_delete_eq, bool_decide_true by set_solver.
    + by rewrite lookup_delete_ne, bool_decide_false by set_solver.
Qed.

(** No step of the thread panics. *)
Definition no_panic {A} (r : result LoopError A) : Prop :=
  match r with Err Panicked => False | _ => True end.

Ltac run_st :=
  cbv beta iota delta [mbind stM_mbind mret stM_mret getS putS modifyS failS try_nix map_err
    no_panic compose]; cbn [l_agent l_world l_sockets l_sent set_agent set_sockets sent].

Section Actions.

Variable serialize_message : ControlMessage -> serializer.
Variable epoll_delete : Z -> result Z unit.

Lemma send_message_frame id msg l :
  let '(r, l') := send_message serialize_message id msg l in
  no_panic r /\ l_agent l' = l_agent l /\ l_world l' = l_world l /\ l_sockets l' = l_sockets l.
Proof.
  unfold send_message, try_archive. run_st.
  destruct (bool_decide (id ∈ l_sockets l)); run_st; [|done].
  destruct (compute_length _) as [n|e]; run_st; [|done].
  destruct (serialize_to_buf _ _) as [res buf]. by destruct res.
Qed.

Lemma process_actions_frame actions l :
  let '(r, l') := process_actions serialize_message actions l in
  no_panic r /\ (forall ids, r = Ok ids -> ids = deletions actions) /\
  l_agent l' = l_agent l /\ l_world l' = l_world l /\ l_sockets l' = l_sockets l.
Proof.
  revert l. induction actions as [|[id msg|id] actions IH]; intros l; cbn [process_actions].
  - run_st. split_and!; try done. by intros ids [= <-].
  - unfold mbind, stM_mbind. pose proof (send_message_frame id msg l) as Hs.
    destruct (send_message serialize_message id msg l) as [[[]|e] l1];
      destruct Hs as (Hp & Ha & Hw & Hk); [|by split_and!].
    specialize (IH l1). destruct (process_actions serialize_message actions l1) as [r l2].
    rewrite Ha, Hw, Hk in IH. exact IH.
  - unfold mbind, stM_mbind. specialize (IH l).
    destruct (process_actions serialize_message actions l) as [[ids|e] l2];
      destruct IH as (Hp & Hi & Hrest); [|by split; [|split]]. unfold mret, stM_mret.
    split; [done|]. split; [|done]. intros ids' [= <-]. cbn. by rewrite (Hi _ eq_refl).
Qed.

Lemma drop_clients_frame tokens l :
  let '(r, l') := drop_clients epoll_delete tokens l in
  no_panic r /\ (r = Ok tt ->
    l_agent l' = foldl Agent.remove_client (l_agent l) tokens /\ l_world l' = l_world l /\
    l_sockets l' = l_sockets l ∖ list_to_set tokens /\ l_sent l' = l_sent l).
Proof.
  revert l. induction tokens as [|token tokens IH]; intros l; cbn [drop_clients].
  - run_st. split; [done|]. intros _. split_and!; try done. apply set_eq. set_solver.
  - unfold drop_client. run_st.
    destruct (bool_decide_reflect (token ∈ l_sockets l)) as [Hin|Hin];
      run_st.
    + destruct (epoll_delete token) as [[]|e]; run_st; [|done].
      set (l1 := set_sockets _ _). specialize (IH l1).
      destruct (drop_clients epoll_delete tokens l1) as [r l2].
      destruct IH as [Hp IH]. split; [done|]. intros Hr. destruct (IH Hr) as (-> & -> & -> & ->).
      split_and!; try done. apply set_eq. set_solver.
    + set (l1 := set_agent _ _ _). specialize (IH l1).
      destruct (drop_clients epoll_delete tokens l1) as [r l2].
      destruct IH as [Hp IH]. split; [done|]. intros Hr. destruct (IH Hr) as (-> & -> & -> & ->).
      split_and!; try done. apply set_eq. set_solver.
Qed.

Lemma carry_out_frame actions l :
  let '(r, l') := carry_out serialize_message epoll_delete actions l in
  no_panic r /\ (r = Ok tt ->
    l_agent l' = foldl Agent.remove_client (l_agent l) (deletions actions) /\
    l_world l' = l_world l /\ l_sockets l' = l_sockets l ∖ list_to_set (deletions actions)).
Proof.
  unfold carry_out. unfold mbind, stM_mbind. pose proof (process_actions_frame actions l) as Hp.
  destruct (process_actions serialize_message actions l) as [[ids|e] l1];
    destruct Hp as (Hnp & Hi & Ha & Hw & Hk); [|by split].
  rewrite <-(Hi _ eq_refl). pose proof (drop_clients_frame ids l1) as Hd.
  destruct (drop_clients epoll_delete ids l1) as [r l2]. rewrite Ha, Hw, Hk in Hd.
  destruct Hd as [Hnp' Hd]. split; [done|]. intros Hr. by destruct (Hd Hr) as (-> & -> & -> & _).
Qed.

(** *** The invariant of the loop *)

Definition loop_inv (b : Z) (l : Loop) : Prop :=
  agent_inv b [] (l_agent l) (l_world l) /\
  forall id, id ∈ l_sockets l <-> is_Some (clients (l_agent l) !! id).

(** A step keeps the loop from panicking, and its invariant while it runs. *)
Definition keeps {A} (b b' : Z) (m : M A) : Prop :=
  forall l, loop_inv b l ->
    let '(r, l') := m l in no_panic r /\ (is_ok r = true -> loop_inv b' l').

Lemma keeps_bind {A B} b1 b2 b3 (m : M A) (k : A -> M B) :
  keeps b1 b2 m -> (forall a, keeps b2 b3 (k a)) -> keeps b1 b3 (m ≫= k).
Proof.
  intros Hm Hk l Hl. unfold mbind, stM_mbind. specialize (Hm l Hl). destruct (m l) as [[a|e] l1].
  - destruct Hm as [_ Hm]. by apply Hk, Hm.
  - by destruct Hm.
Qed.

Lemma keeps_mono {A} b b' b'' (m : M A) : b' <= b'' -> keeps b b' m -> keeps b b'' m.
Proof.
  intros Hb Hm l Hl. specialize (Hm l Hl). destruct (m l) as [r l']. destruct Hm as [Hp Hm].
  split; [done|]. intros Hr. destruct (Hm Hr) as [[] ?]. split; [|done]. split; try done. lia.
Qed.

Lemma keeps_ret {A} b (a : A) : keeps b b (mret a).
Proof. by intros l Hl. Qed.

(** A handler's actions, carried out. *)
Lemma keeps_carry_out b l s w actions :
  loop_inv b l -> agent_inv b (deletions actions) s w ->
  (forall id, is_Some (clients s !! id) <-> is_Some (clients (l_agent l) !! id)) ->
  let '(r, l') := carry_out serialize_message epoll_delete actions (set_agent l s w) in
  no_panic r /\ (is_ok r = true -> loop_inv b l').
Proof.
  intros [_ Hk] Hi Hs. pose proof (carry_out_frame actions (set_agent l s w)) as Hf.
  destruct (carry_out serialize_message epoll_delete actions (set_agent l s w)) as [r l'].
  destruct Hf as [Hp Hf]. split; [done|]. intros Hr. destruct r as [[]|]; [|done].
  destruct (Hf eq_refl) as (Ha & Hw & Hsk). cbn in Ha, Hw, Hsk. split.
  - rewrite Ha, Hw. by apply remove_clients_inv.
  - intros id. rewrite Ha, Hsk, elem_of_difference, elem_of_list_to_set, remove_clients_lookup, Hk, <-Hs.
    destruct (bool_decide_reflect (id ∈ deletions actions)) as [Hin|Hin].
    + split; [by intros [_ ?]|by intros [? ?]].
    + split; [by intros [? _]|done].
Qed.

End Actions.

Section Loop.

Variable serialize_event : Event -> serializer.
Variable serialize_message : ControlMessage -> serializer.
Variable iter : gmap Z AgentClientState -> list (Z * AgentClientState).
Hypothesis iter_perm : forall m, iter m ≡ₚ map_to_list m.
Variable epoll_delete : Z -> result Z unit.

(** [submit] always returns. *)
Lemma submit_total obs event r ev :
  is_Some (submit serialize_event lock_fuel obs NoWakeup event r ev).
Proof using.
  unfold submit. destruct (compute_length _); [|done].
  unfold Producer.reserve. destruct (try_lock_returns obs) as (g & -> & _).
  cbn [mbind option_bind]. destruct (Producer.reserve_locked _ _ _ _) as [[rb|e] r']; [|done].
  by destruct (serialize_to_buf _ _).
Qed.

Lemma handle_message_total env id msg fds s w :
  is_Some (Agent.handle_message serialize_event env id msg fds s w).
Proof using.
  assert (forall c, is_Some (Agent.dispatch serialize_event env id c msg fds s w)) as Hd.
  { intros c. unfold Agent.dispatch. destruct (state c), msg; try done.
    unfold Agent.handle_start. destruct (another_started s); [done|].
    destruct (bool_decide _); [done|]. destruct fds as [|f0 [|f1 fds]]; [done..|].
    destruct (validate_and_convert_fd w f0); [|done].
    destruct (validate_and_convert_fd w f1); [|done].
    unfold Agent.start_producer. destruct (Producer.new _ _ _ _ _ _) as [r|e]; [|done].
    unfold Agent.announce_process. destruct (e_current_exe env); [|done].
    destruct (submit_total (e_lock env)
      (Event.Track (Track.mk _ _ _ (default "unknown" o)
        (TrackType.Process (w_pid (Agent.apply_process_id env args w))) None)) r 0) as [[[? ?] ?] ->].
    done. }
  unfold Agent.handle_message. destruct (clients s !! id) as [c|]; [|by destruct msg].
  destruct (Hd c) as [[[[s1 w1] acts] res] ->]. destruct msg; try done;
    destruct res as [[]|]; cbn; try done; by destruct (Agent.handle_disconnect s1 w1 id) as [[]].
Qed.

(** A message is handled without clients coming or going. *)
Lemma handle_message_clients env id msg fds b s w s' w' actions :
  agent_inv b [] s w ->
  Agent.handle_message serialize_event env id msg fds s w = Some (s', w', actions) ->
  forall id', is_Some (clients s' !! id') <-> is_Some (clients s !! id').
Proof using.
  intros HI Hmsg id'.
  apply handle_message_cases in Hmsg as [(-> & _ & _)|([cs ct] & a & Hc & Ha & Hres)]; [done|].
  destruct a as [[[s1 w1] acts] res]. unfold Agent.dispatch in Ha. cbn in Ha.
  assert (forall c', is_Some (<[id := c']> (clients s) !! id') <-> is_Some (clients s !! id')) as Hins.
  { intros c'. destruct (decide (id = id')) as [<-|Hne].
    - rewrite lookup_insert_eq, Hc. by split.
    - by rewrite lookup_insert_ne. }
  destruct cs, msg; try (injection Ha as <- <- <- <-; cbn in Hres);
    try (injection Hres as -> -> ->; done).
  - pose proof (handle_start_arm _ _ _ _ _ _ _ _ _ _ _ _ _ HI Ha) as [_ Hcases].
    destruct res as [[]|]; cbn in Hres; try done.
    + destruct Hcases as (_ & -> & _). injection Hres as -> _ _. cbn. apply Hins.
    + destruct Hcases as [-> _].
      destruct (Agent.handle_disconnect s w1 id) as [[s2 w2] acts'] eqn:E.
      injection Hres as -> _ _. by rewrite (disconnect_clients _ _ _ _ _ _ E).
    + destruct Hcases as [-> _]. by injection Hres as -> _ _.
  - destruct (Agent.handle_disconnect s w id) as [[s2 w2] acts'] eqn:E.
    injection Hres as -> _ _. by rewrite (disconnect_clients _ _ _ _ _ _ E).
  - injection Hres as -> _ _. cbn. apply Hins.
Qed.

Lemma keeps_disconnect b id : keeps b b (disconnect serialize_message epoll_delete id).
Proof using.
  intros l Hl. unfold disconnect. run_st.
  destruct (Agent.handle_disconnect (l_agent l) (l_world l) id) as [[s w] actions] eqn:E.
  apply (keeps_carry_out _ _ _ _ _ _ _ Hl).
  - by eapply disconnect_inv; [apply Hl|].
  - by rewrite (disconnect_clients _ _ _ _ _ _ E).
Qed.

Lemma keeps_receive b env id recv :
  keeps b b (receive_message serialize_event serialize_message epoll_delete env id recv).
Proof using.
  destruct recv as [|archived fds| |]; try apply keeps_ret; [|apply keeps_disconnect].
  intros l Hl. unfold receive_message. run_st.
  assert (loop_inv b (set_agent l (l_agent l) (open_fds (l_world l) fds))) as Hl'.
  { destruct Hl. split; [by apply open_fds_inv|done]. }
  destruct archived as [msg|]; [|done]. run_st.
  destruct (handle_message_total env id msg fds (l_agent l) (open_fds (l_world l) fds))
    as [[[s w] actions] E]. rewrite E.
  apply (keeps_carry_out _ _ _ _ _ _ _ Hl).
  - eapply handle_message_inv; [apply Hl'|exact E].
  - eapply handle_message_clients; [apply Hl'|exact E].
Qed.

Lemma keeps_accept b env accept :
  b < u64_max -> keeps b (b + 1) (handle_accept serialize_message epoll_delete env accept).
Proof using.
  intros Hb l [HI Hk]. unfold handle_accept. destruct accept as [nb ea| |]; run_st.
  2, 3: split; [done|]; intros _; split; [|done]; destruct HI; split; try done; lia.
  destruct nb as [[]|e]; run_st; [|done].
  destruct (Agent.get_next_client_id (l_agent l)) as [id s] eqn:E.
  destruct (accept_inv _ _ _ env _ _ HI Hb E) as (-> & Hcl & _ & HI').
  destruct ea as [[]|e]; run_st; [|done].
  set (s' := Agent.register_client env s (next_client_id (l_agent l))) in *.
  set (l' := {| l_agent := s'; l_world := l_world l;
                l_sockets := l_sockets l ∪ {[next_client_id (l_agent l)]}; l_sent := l_sent l |}).
  apply (keeps_carry_out _ _ _ l' s' (l_world l) []); [split|..]; try done.
  intros id. cbn. rewrite elem_of_union, elem_of_singleton, Hk, Hcl.
  destruct (decide (id = next_client_id (l_agent l))) as [->|Hne].
  - rewrite lookup_insert_eq. split; [done|by right].
  - rewrite lookup_insert_ne by done. split; [by intros [?| ?]|by left].
Qed.

Lemma keeps_event b ev :
  b < u64_max -> keeps b (b + 1) (handle_event serialize_event serialize_message epoll_delete ev).
Proof using.
  intros Hb. unfold handle_event. destruct (ev_source ev) as [accept|id hup recv].
  - by apply keeps_accept.
  - apply (keeps_mono b b); [lia|]. destruct (id =? LISTENER_TOKEN); [apply keeps_ret|].
    destruct hup; [apply keeps_disconnect|]. intros l Hl. run_st.
    destruct (bool_decide (id ∈ l_sockets l)); [by apply keeps_receive|done].
Qed.

Lemma keeps_events b evs :
  b + Z.of_nat (length evs) <= u64_max ->
  keeps b (b + Z.of_nat (length evs)) (handle_events serialize_event serialize_message epoll_delete evs).
Proof using.
  revert b. induction evs as [|ev evs IH]; intros b Hb; cbn [handle_events].
  - rewrite Z.add_0_r. apply keeps_ret.
  - cbn [length] in *. eapply keeps_bind; [apply keeps_event; lia|]. intros [].
    replace (b + Z.of_nat (S (length evs))) with (b + 1 + Z.of_nat (length evs)) by lia.
    apply IH. lia.
Qed.

Lemma keeps_timer b clock : keeps b b (run_timer serialize_message iter epoll_delete clock).
Proof using iter_perm.
  intros l Hl. unfold run_timer. run_st.
  destruct (timer_total iter iter_perm b (l_agent l) (l_world l) clock (proj1 Hl))
    as (s & w & actions & -> & Hi & Hc & _). apply (keeps_carry_out _ _ _ _ _ _ _ Hl Hi). by rewrite Hc.
Qed.

Lemma keeps_once b i :
  b + 10 <= u64_max ->
  keeps b (b + 10) (loop_once serialize_event serialize_message iter epoll_delete i).
Proof using iter_perm.
  intros Hb. unfold loop_once. destruct (it_shutdown i).
  - apply (keeps_mono b b); [lia|apply keeps_ret].
  - destruct (it_wait i) as [evs|e]; [|by intros l Hl].
    pose proof (firstn_le_length 10 evs) as Hlen.
    apply (keeps_mono b (b + Z.of_nat (length (take 10 evs)))); [lia|].
    eapply keeps_bind; [apply keeps_events; lia|]. intros [].
    eapply keeps_bind; [apply keeps_timer|]. intros []. apply keeps_ret.
Qed.

Lemma keeps_run b its :
  b + 10 * Z.of_nat (length its) <= u64_max ->
  keeps b (b + 10 * Z.of_nat (length its))
    (run_loop serialize_event serialize_message iter epoll_delete its).
Proof using iter_perm.
  revert b. induction its as [|i its IH]; intros b Hb; cbn [run_loop].
  - rewrite Z.add_0_r. apply keeps_ret.
  - cbn [length] in *. eapply keeps_bind; [apply keeps_once; lia|]. intros [].
    + replace (b + 10 * Z.of_nat (S (length its))) with (b + 10 + 10 * Z.of_nat (length its)) by lia.
      apply IH. lia.
    + apply (keeps_mono (b + 10) (b + 10)); [lia|apply keeps_ret].
Qed.

End Loop.

(** ** What the agent guarantees *)

(** C26. Whatever epoll, the sockets, the clients and the extension do, the
    listener thread does not panic, and while it runs: the sockets are those of
    the registered clients; one client at most has started the agent, and it is
    the one the agent remembers; and the extension, if there is one, runs
    exactly while there is such a client: it was never started while it ran nor
    stopped while it did not.  (Ten events an iteration; client ids are 64 bits
    wide.) *)
Theorem agent_run_invariant serialize_event serialize_message iter epoll_delete timeout ext w its :
  (forall m, iter m ≡ₚ map_to_list m) -> w_calls w = [] -> Z.of_nat (length its) <= 2 ^ 60 ->
  let '(r, l) :=
    run_loop serialize_event serialize_message iter epoll_delete its (loop_init timeout ext w) in
  r <> Err Panicked /\
  (r = Ok tt ->
    (forall id, id ∈ l_sockets l <-> is_Some (clients (l_agent l) !! id)) /\
    (forall id, (exists c, clients (l_agent l) !! id = Some c /\ state c = Started) <->
      started_client (l_agent l) = Some id) /\
    another_started (l_agent l) = bool_decide (is_Some (started_client (l_agent l))) /\
    ext_running (w_calls (l_world l)) =
      Some (another_started (l_agent l) && tracing_extension (l_agent l))).
Proof.
  intros Hiter Hw Hits.
  assert (loop_inv 1 (loop_init timeout ext w)) as Hinit.
  { split; [by apply agent_new_inv|]. intros id. cbn. split; [set_solver|].
    intros [c Hc]. by rewrite lookup_empty in Hc. }
  pose proof (keeps_run serialize_event serialize_message iter Hiter epoll_delete 1 its
    ltac:(unfold u64_max; lia) _ Hinit) as H.
  destruct (run_loop serialize_event serialize_message iter epoll_delete its (loop_init timeout ext w))
    as [r l].
  destruct H as [Hp H]. split; [by intros ->|]. intros ->. destruct (H eq_refl) as [HI Hk].
  destruct HI as [Ha Hs Ho _ _ Hx Hc]. split_and!; try done; [|by rewrite Hc, Hx].
  intros id. split; [|by intros Hid; apply Hs].
  intros (c & H1 & H2). destruct (Ho _ _ H1 H2); [done|set_solver].
Qed.

(** What a start is answered. *)
Inductive start_outcome :=
| Refused (error : string)
| Dropped                         (** no answer, the client is disconnected *)
| Granted.

Definition fd_open (w : World) (fd : Z) : bool := (0 <=? fd) && bool_decide (fd ∈ w_fds w).

Definition start_decision (env : Env) (size : Z) (args : Args) (fds : list Z)
    (s : AgentState) (w : World) : start_outcome :=
  match another_started s, tracing args, fds with
  | true, _, _ => Refused "another client already started"
  | _, None, _ => Refused "at least one arg must be non-empty"
  | _, _, ([] | [_]) => Refused "missing file descriptors"
  | _, Some targs, mfd :: nfd :: _ =>
      if fd_open w mfd && fd_open w nfd then
        match Producer.new (e_fstat env mfd) (e_fstat env nfd) (e_os env) mfd size (file_of w mfd) with
        | Err _ => Dropped
        | Ok _ =>
            match tracing_extension s, e_ext_start env targs with
            | true, Err error => Refused error
            | _, _ => Granted
            end
        end
      else Refused "invalid file descriptors"
  end.

Lemma validate_fd_open w fd :
  validate_and_convert_fd w fd = if fd_open w fd then Some fd else None.
Proof.
  unfold validate_and_convert_fd, fd_open.
  destruct (Z.ltb_spec fd 0), (Z.leb_spec 0 fd); try lia; done.
Qed.

Lemma start_result serialize_event env id c size args fds s w b :
  agent_inv b [] s w -> clients s !! id = Some c -> state c = Pending ->
  exists s' w' actions,
    Agent.handle_message serialize_event env id (Start size args) fds s w = Some (s', w', actions) /\
    timeout_ns s' = timeout_ns s /\
    match start_decision env size args fds s w with
    | Refused error => actions = [SendMessage id (Nack error)] /\ s' = s
    | Dropped => actions = [DeleteEpoll id] /\ s' = s
    | Granted =>
        actions = [SendMessage id Ack] /\ started_client s' = Some id /\ another_started s' = true /\
        clients s' = <[id := mkClient Started (e_now env)]> (clients s) /\
        extension_active s' = tracing_extension s
    end.
Proof.
  intros HI Hc Hp.
  destruct (handle_message_total serialize_event env id (Start size args) fds s w)
    as [[[s' w'] actions] E]. exists s', w', actions. split; [done|].
  unfold Agent.handle_message in E. rewrite Hc in E. unfold Agent.dispatch in E. rewrite Hp in E.
  unfold Agent.handle_start in E. unfold start_decision.
  destruct HI as [Ha _ _ _ _ Hx _].
  destruct (another_started s) eqn:Eo; [by injection E as <- <- <-|]. cbn [andb] in Hx.
  assert (started_client s = None) as Hnone.
  { destruct (started_client s); [|done]. by rewrite bool_decide_true in Ha. }
  destruct (tracing args) as [targs|] eqn:Et; [|by injection E as <- <- <-].
  rewrite bool_decide_false in E by done.
  destruct fds as [|mfd [|nfd fds]]; [by injection E as <- <- <-..|].
  rewrite !validate_fd_open in E. destruct (fd_open w mfd); [|by injection E as <- <- <-].
  destruct (fd_open w nfd); [|by injection E as <- <- <-]. cbn [andb].
  unfold Agent.start_producer in E.
  destruct (Producer.new _ _ _ _ _ _) as [r|e]; cbn [mbind option_bind] in E.
  - apply bind_Some in E as ([[[s1 w1] acts] res] & E1 & E).
    apply bind_Some in E1 as (w2 & _ & E1). unfold Agent.start_extension in E1. rewrite Et in E1.
    destruct (tracing_extension s) eqn:Ex; [destruct (e_ext_start env targs) as [u|error]|];
      injection E1 as <- <- <- <-; injection E as <- <- <-; done.
  - unfold Agent.handle_disconnect in E. rewrite Hnone, bool_decide_false in E by done.
    by injection E as <- <- <-.
Qed.

(** The stop of the started client. *)
Lemma stop_result serialize_event env id ts fds s w b :
  agent_inv b [] s w -> clients s !! id = Some (mkClient Started ts) ->
  exists s' w',
    Agent.handle_message serialize_event env id Stop fds s w =
      Some (s', w', [SendMessage id Ack; DeleteEpoll id]) /\
    started_client s' = None /\ another_started s' = false /\ extension_active s' = false /\
    clients s' = clients s /\ timeout_ns s' = timeout_ns s /\
    w_calls w' = w_calls w ++ (if extension_active s then [ExtStop] else []).
Proof.
  intros [Ha _ Ho _ _ Hx _] Hc. unfold Agent.handle_message. rewrite Hc.
  assert (started_client s = Some id) as Hid by (by destruct (Ho _ _ Hc eq_refl); [|set_solver]).
  unfold Agent.dispatch. cbn [state mbind option_bind].
  unfold Agent.handle_disconnect, Agent.stop_extension. rewrite bool_decide_true by done.
  rewrite Hid in Ha. cbn in Ha. rewrite Ha in Hx. cbn in Hx. rewrite Hx.
  destruct (tracing_extension s); cbn [andb]; do 2 eexists; (split; [done|]); split_and!; try done.
  by rewrite app_nil_r.
Qed.

(** C27. A start of a pending client is decided as [start_decision] says: with one
    started client at a time, with arguments for the extension, two open
    descriptors, a ring behind them and the consent of the extension it is
    acknowledged, the client is the started one from now on and the extension
    runs; a refusal is sent with its reason and changes nothing in the agent; a
    ring that cannot be mapped costs the client its connection. *)
Theorem start_decided serialize_event env id c size args fds s w b :
  agent_inv b [] s w -> clients s !! id = Some c -> state c = Pending ->
  exists s' w' actions,
    Agent.handle_message serialize_event env id (Start size args) fds s w = Some (s', w', actions) /\
    match start_decision env size args fds s w with
    | Refused error => actions = [SendMessage id (Nack error)] /\ s' = s
    | Dropped => actions = [DeleteEpoll id] /\ s' = s
    | Granted =>
        actions = [SendMessage id Ack] /\ started_client s' = Some id /\ another_started s' = true /\
        clients s' = <[id := mkClient Started (e_now env)]> (clients s) /\
        extension_active s' = tracing_extension s
    end.
Proof.
  intros HI Hc Hp. destruct (start_result serialize_event env id c size args fds s w b HI Hc Hp)
    as (s' & w' & actions & E & _ & H). by exists s', w', actions.
Qed.

(** Every other message: the version is answered to whoever asks, known or not;
    an unknown client is ignored; the started client gets an acknowledgement for
    a stop, which ends its session and stops the extension once, and for a
    continue, which only renews its timestamp; anything else is ignored. *)
Lemma message_answers serialize_event env id msg fds s w b :
  agent_inv b [] s w -> (forall size args, msg <> Start size args) ->
  exists s' w' actions,
    Agent.handle_message serialize_event env id msg fds s w = Some (s', w', actions) /\
    match msg, clients s !! id with
    | Version, _ => actions = [SendMessage id (VersionResponse VERSION)] /\ s' = s /\ w' = w
    | Stop, Some (mkClient Started _) =>
        actions = [SendMessage id Ack; DeleteEpoll id] /\
        started_client s' = None /\ another_started s' = false /\ extension_active s' = false /\
        clients s' = clients s /\
        w_calls w' = w_calls w ++ (if extension_active s then [ExtStop] else [])
    | Continue, Some (mkClient Started _) =>
        actions = [SendMessage id Ack] /\ w' = w /\ started_client s' = started_client s /\
        clients s' = <[id := mkClient Started (e_now env)]> (clients s)
    | _, _ => actions = [] /\ s' = s /\ w' = w
    end.
Proof.
  intros HI Hstart. destruct (clients s !! id) as [[st ts]|] eqn:Hc.
  2: { unfold Agent.handle_message. rewrite ?Hc. by destruct msg; repeat eexists. }
  destruct msg as [size args| | | | | |]; [by destruct (Hstart size args)| |..];
    [|by unfold Agent.handle_message; rewrite ?Hc; destruct st; repeat eexists..].
  destruct st; [by unfold Agent.handle_message; rewrite Hc; repeat eexists|].
  destruct (stop_result serialize_event env id ts fds s w b HI Hc)
    as (s' & w' & E & H1 & H2 & H3 & H4 & _ & H5).
  exists s', w', [SendMessage id Ack; DeleteEpoll id]. by split_and!.
Qed.

(** C29. After the timer has run, exactly the clients it found alive are left, with
    their sockets: nobody stays who was silent for longer than the timeout, and
    nobody else is disconnected; when the started client is among the silent, the
    start is free again, and otherwise it is unaffected. *)
Theorem timer_evicts serialize_message iter epoll_delete b clock l l' :
  (forall m, iter m ≡ₚ map_to_list m) -> loop_inv b l ->
  run_timer serialize_message iter epoll_delete clock l = (Ok tt, l') ->
  (forall id, clients (l_agent l') !! id =
     match clients (l_agent l) !! id with
     | Some c =>
         if sat_sub (clock id) (timestamp_ns c) <=? timeout_ns (l_agent l) then Some c else None
     | None => None
     end) /\
  (forall id, id ∈ l_sockets l' <-> is_Some (clients (l_agent l') !! id)) /\
  started_client (l_agent l') =
    match started_client (l_agent l) with
    | Some id => if expired clock (l_agent l) id then None else Some id
    | None => None
    end.
Proof.
  intros Hiter Hl Hrun.
  pose proof (keeps_timer serialize_message iter Hiter epoll_delete b clock l Hl) as Hk.
  rewrite Hrun in Hk. destruct Hk as [_ Hk]. destruct (Hk eq_refl) as [_ Hsock].
  revert Hrun. unfold run_timer. run_st.
  destruct (timer_total iter Hiter b (l_agent l) (l_world l) clock (proj1 Hl))
    as (s & w & actions & -> & _ & Hc & Hdel & Hst). intros Hrun.
  pose proof (carry_out_frame serialize_message epoll_delete actions (set_agent l s w)) as Hf.
  rewrite Hrun in Hf. destruct Hf as [_ Hf].
  destruct (Hf eq_refl) as (Ha & _ & _). cbn in Ha. split; [|split; [done|]].
  - intros id. rewrite Ha, remove_clients_lookup, Hc. specialize (Hdel id). unfold expired in Hdel.
    destruct (clients (l_agent l) !! id) as [c|]; [|by destruct (bool_decide _)].
    unfold client_timer in Hdel. destruct (_ <=? _); cbn in Hdel.
    + by rewrite bool_decide_false by (intros H; by apply Hdel in H).
    + by rewrite bool_decide_true by (by apply Hdel).
  - rewrite Ha, <-Hst. clear. revert s. induction (deletions actions) as [|x xs IH]; intros s; [done|].
    cbn [foldl]. by rewrite IH.
Qed.

(** Descriptors that come with a message the agent cannot decode, or with a
    start it refuses because another client has started, stay open in the process
    of the agent, where nothing refers to them any more. *)
Lemma refused_start_leaks serialize_event serialize_message epoll_delete env id archived fds l l' :
  archived = None \/
  (exists size args c, archived = Some (Start size args) /\
    clients (l_agent l) !! id = Some c /\ state c = Pending /\ another_started (l_agent l) = true) ->
  receive_message serialize_event serialize_message epoll_delete env id (RecvBytes archived fds) l =
    (Ok tt, l') ->
  (list_to_set fds ⊆ w_fds (l_world l')) /\ w_fds (l_world l) ⊆ w_fds (l_world l').
Proof.
  intros H. unfold receive_message. run_st.
  destruct H as [->|(size & args & c & -> & Hc & Hp & Ho)].
  - intros [= <-]. cbn. set_solver.
  - change (l_agent (set_agent l _ _)) with (l_agent l). unfold Agent.handle_message. rewrite Hc.
    unfold Agent.dispatch. rewrite Hp.
    unfold Agent.handle_start. rewrite Ho. cbn [mbind option_bind]. intros Hrun.
    pose proof (carry_out_frame serialize_message epoll_delete
      [Agent.nack id "another client already started"]
      (set_agent l (l_agent l) (open_fds (l_world l) fds))) as Hf.
    change (set_agent (set_agent l _ _) _ _)
      with (set_agent l (l_agent l) (open_fds (l_world l) fds)) in Hrun.
    rewrite Hrun in Hf. destruct Hf as [_ Hf]. destruct (Hf eq_refl) as (_ & -> & _).
    cbn. set_solver.
Qed.

(** The messages of a list of actions to clients that are still connected. *)
Definition replies (serialize_message : ControlMessage -> serializer) (sockets : gset Z)
    (actions : list Action) : list (Z * list Z) :=
  omap (fun a =>
    match a with
    | SendMessage id msg =>
        if bool_decide (id ∈ sockets) then Some (id, (written (serialize_message msg) 0).1) else None
    | DeleteEpoll _ => None
    end) actions.

(** The queued messages go out in their order, each as exactly the bytes of its
    serialisation, to the clients that are connected; and the ids to delete are
    those of the queued deletions. *)
Lemma replies_sent serialize_message actions l ids l' :
  (forall id msg, SendMessage id msg ∈ actions -> serializable (serialize_message msg)) ->
  process_actions serialize_message actions l = (Ok ids, l') ->
  ids = deletions actions /\ l_agent l' = l_agent l /\ l_sockets l' = l_sockets l /\
  l_sent l' = l_sent l ++ replies serialize_message (l_sockets l) actions.
Proof.
  revert l ids. induction actions as [|[id msg|id] actions IH]; intros l ids Hser;
    cbn [process_actions].
  - run_st. intros [= <- <-]. by rewrite app_nil_r.
  - unfold mbind, stM_mbind.
    destruct (send_message serialize_message id msg l) as [[[]|e] l1] eqn:E; [|done].
    assert (l_agent l1 = l_agent l /\ l_sockets l1 = l_sockets l /\
      l_sent l1 = l_sent l ++ replies serialize_message (l_sockets l) [SendMessage id msg])
      as (Ha & Hk & Hs).
    { destruct (Hser id msg ltac:(apply list_elem_of_here)) as [Hpc Hlen]. revert E. unfold send_message, try_archive. run_st. cbn [replies omap].
      cbn. destruct (bool_decide (id ∈ l_sockets l)).
      - rewrite compute_length_written by done.
        destruct ((written (serialize_message msg) 0).2) as [[]|e] eqn:Er; [|done].
        rewrite serialize_exact by (try done; rewrite repeat_length; lia). by intros [= <-].
      - intros [= <-]. by rewrite app_nil_r. }
    intros H. destruct (IH l1 ids ltac:(intros; eapply Hser; by apply list_elem_of_further) H)
      as (-> & Ha' & Hk' & Hs').
    rewrite Ha', Hk', Hs', Ha, Hk, Hs, <-app_assoc. split_and!; try done. f_equal.
    unfold replies. cbn. by destruct (bool_decide (id ∈ l_sockets l)).
  - unfold mbind, stM_mbind.
    destruct (process_actions serialize_message actions l) as [[ids'|e] l1] eqn:E; [|done].
    unfold mret, stM_mret. intros [= <- <-].
    by destruct (IH l ids' ltac:(intros; eapply Hser; by apply list_elem_of_further) E)
      as (-> & -> & -> & ->).
Qed.

(** A granted start announces the process: the process id is the random one the
    options ask for, or that of the process, and the ring behind the memory
    descriptor gets the record of the track that names the process, if it takes
    it, and nothing else. *)
Lemma start_announces serialize_event env id c size args mfd nfd fds s w b q t r name :
  agent_inv b [] s w -> clients s !! id = Some c -> state c = Pending ->
  start_decision env size args (mfd :: nfd :: fds) s w = Granted ->
  Producer.new (e_fstat env mfd) (e_fstat env nfd) (e_os env) mfd size (file_of w mfd) = Ok r ->
  submittable (2 ^ 62) r q ->
  e_current_exe env = Some name ->
  (forall pid, serializable (serialize_event
     (Event.Track (Track.mk _ _ _ (default "unknown" name) (TrackType.Process pid) None)))) ->
  exists s' w' actions r' guard,
    let pid :=
      match Agent.get_option (options args) Agent.RANDOM_PROCESS_ID_OPTION with
      | Some (VBool true) => Agent.abs_i32 (e_random env)
      | Some (VBool false) | None => as_signed 32 (e_std_pid env)
      | Some _ => w_pid w
      end in
    let track := Event.Track (Track.mk _ _ _ (default "unknown" name) (TrackType.Process pid) None) in
    Agent.handle_message serialize_event env id (Start size args) (mfd :: nfd :: fds) s w =
      Some (s', w', actions) /\
    w_pid w' = pid /\
    w_files w' = <[mfd := (metadata r', bytes r')]> (w_files w) /\
    submittable (2 ^ 62 + data_size r) r' (submit_spec (data_size r) guard (serialize_event track) t q).2 /\
    (e_lock env O = true -> guard = true).
Proof.
  intros [Ha _ _ _ _ _ _] Hc Hp Hdec Hnew Hsub Hname Hser. unfold start_decision in Hdec.
  destruct (try_lock_returns (e_lock env)) as (guard & Hg & _ & H0).
  unfold Agent.handle_message. rewrite Hc. unfold Agent.dispatch. rewrite Hp. unfold Agent.handle_start.
  destruct (another_started s) eqn:Eo; [done|]. destruct (tracing args) as [targs|] eqn:Et; [|done].
  rewrite bool_decide_false by done. rewrite !validate_fd_open.
  destruct (fd_open w mfd); [|done]. destruct (fd_open w nfd); [|done]. cbn [andb] in Hdec.
  unfold Agent.start_producer. rewrite Hnew in *. cbn zeta. unfold Agent.announce_process. rewrite Hname.
  set (w1 := Agent.apply_process_id env args w).
  set (track := Event.Track (Track.mk _ _ _ (default "unknown" name) (TrackType.Process (w_pid w1)) None)).
  destruct (submit_refines_aux serialize_event track r q t lock_fuel (e_lock env) guard 0 (2 ^ 62)
    Hsub ltac:(lia) (Hser _) Hg) as (r' & -> & Hr' & _). cbn [mbind option_bind].
  assert (w_pid w1 =
      match Agent.get_option (options args) Agent.RANDOM_PROCESS_ID_OPTION with
      | Some (VBool true) => Agent.abs_i32 (e_random env)
      | Some (VBool false) | None => as_signed 32 (e_std_pid env)
      | Some _ => w_pid w
      end) as Hpid.
  { unfold w1, Agent.apply_process_id. by repeat break_goal. }
  assert (w_files w1 = w_files w) as Hfiles.
  { unfold w1, Agent.apply_process_id. by repeat break_goal. }
  unfold Agent.start_extension. rewrite Et.
  destruct (tracing_extension s); [destruct (e_ext_start env targs)|]; try done;
    cbn [mbind option_bind]; do 4 eexists; exists guard; rewrite <-Hpid; (split; [done|]);
    cbn; rewrite <-Hfiles; by split_and!.
Qed.

(** ** Concrete runs *)

(** A wire format for the witnesses: one byte a message. *)
Definition demo_message (msg : ControlMessage) : serializer :=
  SWrite [match msg with
          | Start _ _ => 0 | Stop => 1 | Continue => 2 | Ack => 3 | Nack _ => 4
          | Version => 5 | VersionResponse _ => 6
          end] SDone.

Definition demo_args : Args :=
  {| tracing := Some {| log_filter := "debug"; timestamp_type := Monotonic |};
     options := [("random_process_id", VBool true)] |}.

Definition demo_env (now : Z) : Env :=
  {| e_now := now; e_std_pid := 77; e_random := -5; e_current_exe := Some (Some "app");
     e_fstat := fun _ => Ok tt; e_os := demo_os; e_lock := fun _ => true;
     e_ext_start := fun _ => Ok tt |}.

Definition demo_world : World :=
  {| w_pid := 77; w_fds := {[10; 11]}; w_files := ∅; w_calls := [] |}.

Definition demo_accept : event :=
  {| ev_source := Listener (Accepted (Ok tt) (Ok tt)); ev_env := demo_env 5000 |}.

(** Two clients connect, the first starts, the second is refused. *)
Definition demo_iterations : list iteration :=
  [ {| it_shutdown := false;
       it_wait := Ok [ demo_accept; demo_accept;
         {| ev_source := Client 1 false (RecvBytes (Some (Start 4096 demo_args)) [10; 11]);
            ev_env := demo_env 6000 |};
         {| ev_source := Client 2 false (RecvBytes (Some (Start 4096 demo_args)) [12; 13]);
            ev_env := demo_env 7000 |} ];
       it_clock := fun _ => 8000 |} ].

Definition demo_run : result LoopError unit * Loop :=
  run_loop demo_serialize demo_message map_to_list (fun _ => Ok tt) demo_iterations
    (loop_init 2000 true demo_world).

Lemma agent_run_invariant_witness :
  demo_run.1 = Ok tt /\ l_sent demo_run.2 = [(1, [3]); (2, [4])] /\
  (forall id, (exists c, clients (l_agent demo_run.2) !! id = Some c /\ state c = Started) <-> Some 1 = Some id).
Proof.
  assert (demo_run.1 = Ok tt) as Hr by (vm_compute; reflexivity).
  pose proof (agent_run_invariant demo_serialize demo_message map_to_list (fun _ => Ok tt) 2000 true
    demo_world demo_iterations ltac:(done) eq_refl ltac:(cbn; lia)) as H.
  fold demo_run in H. rewrite (surjective_pairing demo_run) in H.
  destruct H as [_ H]. destruct (H Hr) as (_ & Hst & _).
  split; [exact Hr|]. split; [vm_compute; reflexivity|]. intros id. rewrite Hst.
  by replace (started_client (l_agent demo_run.2)) with (Some 1) by (vm_compute; reflexivity).
Defined.

(** An agent with one pending client. *)
Definition demo_agent : AgentState :=
  let '(id, s) := Agent.get_next_client_id (Agent.new 2000 true) in
  Agent.register_client (demo_env 5000) s id.

Lemma demo_agent_inv : agent_inv 2 [] demo_agent demo_world.
Proof.
  destruct (accept_inv 1 (Agent.new 2000 true) demo_world (demo_env 5000) 1 _
    (agent_new_inv 2000 true demo_world eq_refl) ltac:(unfold u64_max; lia) eq_refl)
    as (_ & _ & _ & H). exact H.
Qed.

Lemma start_decided_witness :
  exists s' w' actions,
    Agent.handle_message demo_serialize (demo_env 6000) 1 (Start 4096 demo_args) [10; 11]
      demo_agent demo_world = Some (s', w', actions) /\
    actions = [SendMessage 1 Ack] /\ started_client s' = Some 1 /\ extension_active s' = true.
Proof.
  destruct (start_decided demo_serialize (demo_env 6000) 1 (mkClient Pending 5000) 4096 demo_args
    [10; 11] demo_agent demo_world 2 demo_agent_inv eq_refl eq_refl)
    as (s' & w' & actions & E & H).
  change (start_decision _ _ _ _ _ _) with Granted in H.
  destruct H as (Ha & Hs & _ & _ & Hx). exists s', w', actions. split; [exact E|]. by split_and!.
Defined.

(** The agent after that start. *)
Definition demo_started : AgentState * World * list Action :=
  default (demo_agent, demo_world, [])
    (Agent.handle_message demo_serialize (demo_env 6000) 1 (Start 4096 demo_args) [10; 11]
       demo_agent demo_world).

Lemma demo_started_inv : agent_inv 2 [] demo_started.1.1 demo_started.1.2.
Proof.
  apply (handle_message_inv demo_serialize (demo_env 6000) 1 (Start 4096 demo_args) [10; 11] 2
    demo_agent demo_world demo_started.1.1 demo_started.1.2 [SendMessage 1 Ack]);
    [exact demo_agent_inv|vm_compute; reflexivity].
Qed.

Lemma message_answers_witness :
  exists s' w' actions,
    Agent.handle_message demo_serialize (demo_env 9000) 1 Stop [] demo_started.1.1 demo_started.1.2 =
      Some (s', w', actions) /\
    actions = [SendMessage 1 Ack; DeleteEpoll 1] /\ extension_active s' = false /\
    w_calls w' = w_calls demo_started.1.2 ++ [ExtStop].
Proof.
  destruct (message_answers demo_serialize (demo_env 9000) 1 Stop [] demo_started.1.1 demo_started.1.2 2
    demo_started_inv ltac:(done)) as (s' & w' & actions & E & H).
  replace (clients demo_started.1.1 !! 1) with (Some (mkClient Started 6000)) in H
    by (vm_compute; reflexivity).
  destruct H as (Ha & _ & _ & Hx & _ & Hc). exists s', w', actions. split; [exact E|].
  split; [exact Ha|]. split; [exact Hx|]. rewrite Hc. vm_compute. reflexivity.
Defined.

Definition demo_loop : Loop :=
  {| l_agent := demo_agent; l_world := demo_world; l_sockets := {[1]}; l_sent := [] |}.

Lemma demo_loop_inv : loop_inv 2 demo_loop.
Proof.
  split; [exact demo_agent_inv|]. intros id. change (l_sockets demo_loop) with ({[1]} : gset Z).
  change (clients (l_agent demo_loop))
    with (<[1 := AgentClientState_new 5000]> (∅ : gmap Z AgentClientState)).
  rewrite elem_of_singleton. destruct (decide (id = 1)) as [->|Hne].
  - by rewrite lookup_insert_eq.
  - rewrite lookup_insert_ne, lookup_empty by done. split; [done|by intros [? ?]].
Qed.

Lemma timer_evicts_witness :
  clients (l_agent (run_timer demo_message map_to_list (fun _ => Ok tt) (fun _ => 3000000000) demo_loop).2)
    !! 1 = None.
Proof.
  destruct (timer_evicts demo_message map_to_list (fun _ => Ok tt) 2 (fun _ => 3000000000) demo_loop
    (run_timer demo_message map_to_list (fun _ => Ok tt) (fun _ => 3000000000) demo_loop).2
    ltac:(done) demo_loop_inv ltac:(vm_compute; reflexivity)) as (H & _).
  rewrite H. vm_compute. reflexivity.
Defined.

Lemma refused_start_leaks_witness :
  let l' := (receive_message demo_serialize demo_message (fun _ => Ok tt) (demo_env 1) 1
    (RecvBytes None [12; 13]) demo_loop).2 in
  12 ∈ w_fds (l_world l').
Proof.
  intros l'. destruct (refused_start_leaks demo_serialize demo_message (fun _ => Ok tt) (demo_env 1) 1
    None [12; 13] demo_loop l' (or_introl eq_refl) ltac:(vm_compute; reflexivity)) as [H _].
  apply H. cbn. apply elem_of_union_l. by apply elem_of_singleton.
Defined.

Lemma demo_message_ok msg : serializable (demo_message msg).
Proof. split; cbn; unfold i64_max; lia. Qed.

Lemma replies_sent_witness :
  l_sent (process_actions demo_message
    [SendMessage 1 Ack; SendMessage 9 Ack; DeleteEpoll 1] demo_loop).2 = [(1, [3])].
Proof.
  destruct (replies_sent demo_message [SendMessage 1 Ack; SendMessage 9 Ack; DeleteEpoll 1] demo_loop
    [1] (process_actions demo_message [SendMessage 1 Ack; SendMessage 9 Ack; DeleteEpoll 1] demo_loop).2
    (fun _ msg _ => demo_message_ok msg) ltac:(vm_compute; reflexivity)) as (_ & _ & _ & H).
  rewrite H. vm_compute. reflexivity.
Defined.

Lemma start_announces_witness :
  exists s' w' actions r',
    Agent.handle_message demo_serialize (demo_env 6000) 1 (Start 4096 demo_args) [10; 11]
      demo_agent demo_world = Some (s', w', actions) /\
    w_pid w' = 5 /\ w_files w' !! 10 = Some (metadata r', bytes r') /\
    submittable (2 ^ 62 + 4096) r' (Queue [] [Slot 3 [3] Committed] false).
Proof.
  assert (submittable (2 ^ 62) (fresh_ring 4096) empty_queue) as Hsub.
  { split; [|done|cbn; lia]. split; try (cbn; lia); done. }
  destruct (start_announces demo_serialize (demo_env 6000) 1 (mkClient Pending 5000) 4096 demo_args
    10 11 [] demo_agent demo_world 2 empty_queue 3 (fresh_ring 4096) (Some "app") demo_agent_inv
    eq_refl eq_refl ltac:(vm_compute; reflexivity) ltac:(vm_compute; reflexivity) Hsub eq_refl
    (fun _ => demo_serializable _)) as (s' & w' & actions & r' & guard & E & Hpid & Hfile & Hq & Hg).
  rewrite (Hg eq_refl) in Hq. exists s', w', actions, r'. split; [exact E|].
  split; [rewrite Hpid; vm_compute; reflexivity|]. split; [by rewrite Hfile, lookup_insert_eq|exact Hq].
Defined.
