(* ===== verification/AgentClient.v ===== *)
(** * The client of an agent

    [AgentClient] of the crate [agent] (src/agent/src/client.rs) against any peer
    behind its socket, and its session with the agent of [AgentLoop]. *)

From S2P Require Import Prelude RingMem RingSpec Ring RingSystem RingOps Protocol AgentIpc AgentState AgentLoop AgentProps.

(** ** The peer *)

(** What waiting for a response and receiving it end in; the bytes with what
    [rkyv::access] makes of them. *)
Inductive response :=
| WaitFailed (errno : Z)                                (** epoll *)
| TimedOut
| Received (archived : result RkyvError ControlMessage)
| ReceiveAgain
| ReceiveFailed (errno : Z).

(** The other end of the socket. *)
Class Peer (P : Type) := {
  connect : P -> result string unit * P;
  send : P -> list Z -> list Z -> result Z unit * P;    (** bytes and descriptors *)
  respond : P -> response * P;
  hangup : P -> P                                       (** the client closes the socket *)
}.

Definition EAGAIN : Z := 11.

Definition EPIPE : Z := 32.

Definition CLIENT_READ_TIMEOUT_MS : Z := 5000.

(** ** The client *)

(** [stream] tells whether there is a connection. *)
Record AgentClient (P : Type) := mkAgentClient { stream : bool; peer : P }.
Arguments mkAgentClient {P} _ _.
Arguments stream {P} _.
Arguments peer {P} _.

Module Client.

Section Client.

Context {P : Type} `{Peer P}.
Variable serialize_message : ControlMessage -> serializer.

Definition M (A : Type) : Type := stM (AgentClient P) AgentError A.

Definition new (p : P) : AgentClient P := mkAgentClient false p.

(** [self.stream = None] *)
Definition drop_stream (c : AgentClient P) : AgentClient P :=
  mkAgentClient false (if stream c then hangup (peer c) else peer c).

Definition disconnect : M unit := modifyS drop_stream.

Definition try {A} (r : result AgentError A) : M A := fun c => (r, c).

Definition wait_for_response : M (result RkyvError ControlMessage) := fun c =>
  let '(r, p) := respond (peer c) in
  (match r with
   | WaitFailed errno => Err (Nix errno)
   | TimedOut => Err (AgentIo "timeout waiting for agent response")
   | Received archived => Ok archived
   | ReceiveAgain => Err (AgentIo "no data available")
   | ReceiveFailed errno => Err (Nix errno)
   end, mkAgentClient (stream c) p).

Definition connect_or_reuse : M unit := fun c =>
  if stream c then (Ok tt, c)
  else
    let '(r, p) := connect (peer c) in
    match r with
    | Ok _ => (Ok tt, mkAgentClient true p)
    | Err e => (Err (AgentIo e), mkAgentClient false p)
    end.

(** The bytes of a message. *)
Definition serialize (msg : ControlMessage) : M (list Z) :=
  serialized_len ← try (map_err Archive (compute_length (serialize_message msg)));
  let '(r, buf) :=
    serialize_to_buf (serialize_message msg) (repeat 0 (Z.to_nat serialized_len)) in
  _ ← try (map_err Archive r);
  mret buf.

Definition sendmsg (buf fds : list Z) : M (result Z unit) := fun c =>
  let '(r, p) := send (peer c) buf fds in (Ok r, mkAgentClient (stream c) p).

(** An error that also drops the connection. *)
Definition disconnect_on_err {A} (m : M A) : M A := fun c =>
  match m c with
  | (Ok a, c) => (Ok a, c)
  | (Err e, c) => (Err e, drop_stream c)
  end.

Definition check_version : M string :=
  _ ← connect_or_reuse;
  buf ← serialize Version;
  sent ← sendmsg buf [];
  _ ← try (map_err Nix sent);
  archived ← wait_for_response;
  archived_response ← try (map_err Archive archived);
  match archived_response with
  | VersionResponse _ => mret VERSION
  | _ => failS (AgentIo "unexpected response from agent")
  end.

Definition version_mismatch (version : string) : AgentError :=
  AgentIo ("version mismatch: agent version " ++ version ++ " != client version " ++ VERSION).

(** [start_with_options]; of the consumer it takes the size and the two
    descriptors. *)
Definition start_with_options (data_size memory_fd notification_fd : Z) (log_filter : string)
    (timestamp_type : TimestampType) (options : list (string * Value)) : M unit :=
  version ← check_version;
  if negb (String.eqb version VERSION) then
    _ ← disconnect;
    failS (version_mismatch version)
  else
    _ ← connect_or_reuse;
    buf ← serialize (Start data_size
      {| tracing := Some {| log_filter := log_filter; timestamp_type := timestamp_type |};
         options := options |});
    sent ← sendmsg buf [memory_fd; notification_fd];
    _ ← disconnect_on_err (try (map_err Nix sent));
    archived ← disconnect_on_err wait_for_response;
    archived_response ← disconnect_on_err (try (map_err Archive archived));
    match archived_response with
    | Ack => mret tt
    | Nack error =>
        _ ← disconnect;
        failS (AgentIo ("agent rejected start: " ++ error))
    | _ =>
        _ ← disconnect;
        failS (AgentIo "unexpected response from agent")
    end.

Definition start_with_timestamp (data_size memory_fd notification_fd : Z) (log_filter : string)
    (timestamp_type : TimestampType) : M unit :=
  start_with_options data_size memory_fd notification_fd log_filter timestamp_type [].

Definition start (data_size memory_fd notification_fd : Z) (log_filter : string) : M unit :=
  start_with_timestamp data_size memory_fd notification_fd log_filter Monotonic.

(** A response is awaited and ignored. *)
Definition stop : M unit :=
  c ← getS;
  if negb (stream c) then mret tt
  else
    buf ← serialize Stop;
    sent ← sendmsg buf [];
    match sent with
    | Ok _ =>
        _ ← (fun c => let '(_, c) := wait_for_response c in (Ok tt, c));
        disconnect
    | Err errno =>
        if errno =? EAGAIN then failS (AgentIo "stop message would block")
        else if errno =? EPIPE then disconnect
        else failS (Nix errno)
    end.

Definition send_continue : M unit :=
  c ← getS;
  if negb (stream c) then mret tt
  else
    buf ← serialize Continue;
    sent ← sendmsg buf [];
    match sent with
    | Ok _ =>
        archived ← wait_for_response;
        archived_response ← try (map_err Archive archived);
        match archived_response with
        | Ack => mret tt
        | Nack error => failS (AgentIo error)
        | _ => failS (AgentIo "unexpected response from agent")
        end
    | Err errno =>
        if errno =? EAGAIN then failS (AgentIo "continue message would block")
        else failS (Nix errno)
    end.

Definition enabled (c : AgentClient P) : bool := stream c.

Definition keepalive : M unit :=
  c ← getS;
  if enabled c then send_continue else failS NotEnabled.

End Client.

End Client.

(** ** Sessions by exchange *)

(** A peer that plays a list of exchanges: what [sendmsg] returns and what is
    received afterwards.  It counts how often the client hung up. *)
Record Script := mkScript {
  sc_connect : result string unit;
  sc_exchanges : list (result Z unit * response);
  sc_hangups : nat
}.

#[export] Instance Script_peer : Peer Script := {
  connect p := (sc_connect p, p);
  send p _ _ :=
    match sc_exchanges p with
    | (Ok _, _) :: _ => (Ok tt, p)
    | (Err e, _) :: ex => (Err e, mkScript (sc_connect p) ex (sc_hangups p))
    | [] => (Err EPIPE, p)
    end;
  respond p :=
    match sc_exchanges p with
    | (_, r) :: ex => (r, mkScript (sc_connect p) ex (sc_hangups p))
    | [] => (TimedOut, p)
    end;
  hangup p := mkScript (sc_connect p) (sc_exchanges p) (S (sc_hangups p))
}.

Lemma serialize_ok {P} serialize_message msg (c : AgentClient P) :
  serializable (serialize_message msg) -> (written (serialize_message msg) 0).2 = Ok tt ->
  Client.serialize serialize_message msg c = (Ok (written (serialize_message msg) 0).1, c).
Proof.
  intros [Hp Hl] Hok. unfold Client.serialize, Client.try. run_st.
  rewrite compute_length_written, Hok by done.
  by rewrite serialize_exact by (try done; rewrite repeat_length; lia).
Qed.

Section Exchanges.

Variable serialize_message : ControlMessage -> serializer.
(** The messages that can be written. *)
Variable good : ControlMessage -> Prop.
Hypothesis serializes : forall msg, good msg ->
  serializable (serialize_message msg) /\ (written (serialize_message msg) 0).2 = Ok tt.

Ltac run_client :=
  unfold Client.disconnect_on_err, Client.try, Client.wait_for_response, Client.sendmsg,
    Client.disconnect, Client.drop_stream;
  run_st; cbn [connect send respond hangup Script_peer sc_exchanges sc_connect sc_hangups peer stream].

Definition is_version_response (r : response) : bool :=
  match r with Received (Ok (VersionResponse _)) => true | _ => false end.

(** The start of an unconnected client, by the two exchanges with the agent: it
    succeeds exactly when the version request is answered by any version at all
    and the start by an acknowledgement; when the start is not acknowledged the
    connection is dropped, but when the version request fails it is kept, so
    that [enabled] holds although nothing was started. *)
Lemma start_by_exchanges data_size mfd nfd filter ts opts s1 r1 s2 r2 rest :
  good Version ->
  good (Start data_size {| tracing := Some {| log_filter := filter; timestamp_type := ts |};
                           options := opts |}) ->
  let '(res, c) :=
    Client.start_with_options serialize_message data_size mfd nfd filter ts opts
      (Client.new (mkScript (Ok tt) ((s1, r1) :: (s2, r2) :: rest) 0)) in
  if is_ok s1 && is_version_response r1 then
    Client.enabled c = is_ok res /\
    (res = Ok tt <-> is_ok s2 = true /\ r2 = Received (Ok Ack)) /\
    (forall error, is_ok s2 = true -> r2 = Received (Ok (Nack error)) ->
      res = Err (AgentIo ("agent rejected start: " ++ error))) /\
    sc_hangups (peer c) = (if is_ok res then 0 else 1)%nat
  else is_ok res = false /\ Client.enabled c = true /\ sc_hangups (peer c) = O.
Proof using serializes.
  intros Hgood1 Hgood2.
  assert (forall msg (c : AgentClient Script), good msg ->
    Client.serialize serialize_message msg c = (Ok (written (serialize_message msg) 0).1, c)) as Hser.
  { intros msg c Hm. by apply serialize_ok; apply serializes. }
  unfold Client.start_with_options, Client.check_version, Client.connect_or_reuse, Client.new.
  run_client. rewrite Hser by done. run_client. destruct s1 as [[]|e1]; run_client; [|done].
  cbn [is_ok andb].
  destruct r1 as [e| |[[| | | | | |]|e]| |e]; run_client; cbn [is_version_response]; try done.
  change (String.eqb VERSION VERSION) with true. cbn [negb]. run_client. rewrite Hser by done. run_client.
  destruct s2 as [[]|e2]; run_client.
  2: { split; [done|]. split; [by split; [done|intros [? _]]|]. by split. }
  destruct r2 as [e| |[[| | | | | |]|e]| |e]; run_client;
    (split; [done|]); (split; [by split; [done|intros [_ ?]]|]); (split; [by intros; simplify_eq|done]).
Qed.

(** A stop disconnects the client whatever the agent answers, unless the
    message could not be sent for another reason than a closed connection; a
    keepalive succeeds exactly on an acknowledgement and never disconnects; and
    without a connection the first does nothing and the second is an error. *)
Lemma stop_and_keepalive con s1 r1 rest n :
  good Stop -> good Continue ->
  let p := mkScript con ((s1, r1) :: rest) n in
  (let '(res, c) := Client.stop serialize_message (mkAgentClient true p) in
   match s1 with
   | Err errno =>
       if errno =? EPIPE then res = Ok tt /\ Client.enabled c = false
       else is_ok res = false /\ Client.enabled c = true
   | Ok _ => res = Ok tt /\ Client.enabled c = false /\ sc_hangups (peer c) = S n
   end) /\
  (let '(res, c) := Client.keepalive serialize_message (mkAgentClient true p) in
   Client.enabled c = true /\
   (res = Ok tt <-> is_ok s1 = true /\ r1 = Received (Ok Ack))) /\
  Client.stop serialize_message (Client.new p) = (Ok tt, Client.new p) /\
  Client.keepalive serialize_message (Client.new p) = (Err NotEnabled, Client.new p).
Proof using serializes.
  intros Hgood1 Hgood2.
  assert (forall msg (c : AgentClient Script), good msg ->
    Client.serialize serialize_message msg c = (Ok (written (serialize_message msg) 0).1, c)) as Hser.
  { intros msg c Hm. by apply serialize_ok; apply serializes. }
  cbn zeta. split; [|split; [|done]].
  - unfold Client.stop. run_client. cbn [negb]. run_client. rewrite Hser by done. run_client.
    destruct s1 as [[]|errno]; run_client; [by destruct r1|].
    destruct (Z.eqb_spec errno EAGAIN) as [->|]; [done|]. by destruct (Z.eqb_spec errno EPIPE).
  - unfold Client.keepalive, Client.enabled, Client.send_continue. run_client. cbn [negb].
    run_client. rewrite Hser by done. run_client. destruct s1 as [[]|errno]; run_client.
    + destruct r1 as [e| |[[| | | | | |]|e]| |e]; run_client; cbn;
        (split; [done|]); by split; [done|intros [_ ?]].
    + destruct (errno =? EAGAIN); cbn; (split; [done|]); by split; [done|intros [? _]].
Qed.

End Exchanges.

(** ** A session with the agent *)

(** The listener thread as the peer of a client: every call of the client is
    followed by one iteration of the loop.  [rm_id] is the id the agent gave to
    the connection.  The socket is a stream of bytes: [rm_unread] are those the
    client has sent and the agent has not read, [rm_incoming] those the agent has
    sent and the client has not read, of the first [rm_seen] messages. *)
Record Remote := mkRemote {
  rm_loop : Loop;
  rm_id : Z;
  rm_unread : list Z;
  rm_incoming : list Z;
  rm_seen : nat
}.

(** The buffers of both sides: the bytes one [recvmsg] or [recv] takes. *)
Definition BUFFER_SIZE : nat := 1024.

Section Remote.

Variable serialize_event : Event -> serializer.
Variable serialize_message : ControlMessage -> serializer.
Variable iter : gmap Z AgentClientState -> list (Z * AgentClientState).
(** [rkyv::access] *)
Variable access : list Z -> result RkyvError ControlMessage.
Variable env : Env.
Variable clock : Z -> Z.

Definition turn (src : source) (l : Loop) : Loop :=
  (loop_once serialize_event serialize_message iter (fun _ => Ok tt)
     {| it_shutdown := false; it_wait := Ok [{| ev_source := src; ev_env := env |}];
        it_clock := clock |} l).2.

(** What was sent to [id]. *)
Definition sent_to (id : Z) (l : list (Z * list Z)) : list Z :=
  concat (map (fun '(id', bs) => if id =? id' then bs else []) l).

(** What the agent reads of the bytes in the socket. *)
Definition agent_reads (bs fds : list Z) : received :=
  if Nat.eqb (length bs) 0 then RecvEmpty
  else RecvBytes (match access bs with Ok m => Some m | Err _ => None end) fds.

Definition remote_peer : Peer Remote := {|
  connect p :=
    (Ok tt, mkRemote (turn (Listener (Accepted (Ok tt) (Ok tt))) (rm_loop p))
              (next_client_id (l_agent (rm_loop p))) [] [] (length (l_sent (rm_loop p))));
  send p bs fds :=
    let unread := rm_unread p ++ bs in
    (Ok tt, mkRemote
       (turn (Client (rm_id p) false (agent_reads (take BUFFER_SIZE unread) fds)) (rm_loop p))
       (rm_id p) (drop BUFFER_SIZE unread) (rm_incoming p) (rm_seen p));
  respond p :=
    let incoming := rm_incoming p ++ sent_to (rm_id p) (drop (rm_seen p) (l_sent (rm_loop p))) in
    let seen := length (l_sent (rm_loop p)) in
    if Nat.eqb (length incoming) 0 then (TimedOut, mkRemote (rm_loop p) (rm_id p) (rm_unread p) [] seen)
    else
      (Received (access (take BUFFER_SIZE incoming)),
       mkRemote (rm_loop p) (rm_id p) (rm_unread p) (drop BUFFER_SIZE incoming) seen);
  hangup p :=
    mkRemote (turn (Client (rm_id p) true RecvEmpty) (rm_loop p)) (rm_id p) (rm_unread p) (rm_incoming p) (rm_seen p)
|}.

Hypothesis iter_perm : forall m, iter m ≡ₚ map_to_list m.
(** The messages of the session; they are written whole and read back. *)
Variable good : ControlMessage -> Prop.
Hypothesis serializes : forall msg, good msg ->
  serializable (serialize_message msg) /\ (written (serialize_message msg) 0).2 = Ok tt.
Hypothesis access_written : forall msg, good msg ->
  access (written (serialize_message msg) 0).1 = Ok msg.
(** They fit into the buffer of one read. *)
Hypothesis fits : forall msg, good msg ->
  (0 < length (written (serialize_message msg) 0).1 <= BUFFER_SIZE)%nat.

Let wire msg := (written (serialize_message msg) 0).1.

Definition nobody_expired (s : AgentState) : Prop := forall id, expired clock s id = false.

Lemma set_agent_same l : set_agent l (l_agent l) (l_world l) = l.
Proof using. by destruct l. Qed.

Lemma timer_idle b l :
  loop_inv b l -> nobody_expired (l_agent l) ->
  run_timer serialize_message iter (fun _ => Ok tt) clock l = (Ok tt, l).
Proof using iter_perm.
  intros [HI _] Hex. unfold run_timer. run_st.
  assert (Agent.timer iter clock (l_agent l) (l_world l) = Some (l_agent l, l_world l, [])) as ->.
  { assert (Agent.timer_pending iter clock (l_agent l) = []) as Hnil.
    { unfold Agent.timer_pending. destruct (filter _ _) as [|[id c] rest] eqn:E; [done|exfalso].
      assert ((id, c) ∈ filter (fun '(client_id, client) =>
        Some client_id <> started_client (l_agent l) /\
        client_timer client (clock client_id) (timeout_ns (l_agent l)) = false)
        (iter (clients (l_agent l)))) as Hin by (rewrite E; apply list_elem_of_here).
      apply list_elem_of_filter in Hin as [[_ Ht] Hin].
      rewrite iter_perm in Hin. apply elem_of_map_to_list in Hin.
      specialize (Hex id). unfold expired in Hex. by rewrite Hin, Ht in Hex. }
    unfold Agent.timer. rewrite Hnil.
    destruct (started_client (l_agent l)) as [id|] eqn:Est; [|done].
    destruct (ai_started _ _ _ _ HI id Est) as [_ (c & Hc & _)]. rewrite Hc. cbn [mbind option_bind].
    specialize (Hex id). unfold expired in Hex. rewrite Hc in Hex. apply negb_false_iff in Hex.
    by rewrite Hex. }
  cbn. by rewrite set_agent_same.
Qed.

(** An iteration with one event, when nobody is silent for too long. *)
Lemma turn_event b src l l' :
  loop_inv b l -> b < u64_max ->
  handle_event serialize_event serialize_message (fun _ => Ok tt) {| ev_source := src; ev_env := env |} l
    = (Ok tt, l') ->
  nobody_expired (l_agent l') ->
  turn src l = l' /\ loop_inv (b + 1) l'.
Proof using iter_perm.
  intros Hl Hb Hev Hex.
  pose proof (keeps_event serialize_event serialize_message (fun _ => Ok tt) b
    {| ev_source := src; ev_env := env |} Hb l Hl) as Hk.
  rewrite Hev in Hk. destruct Hk as [_ Hk]. specialize (Hk eq_refl). split; [|done].
  unfold turn, loop_once. cbn [it_shutdown it_wait it_clock take handle_events].
  unfold mbind, stM_mbind. rewrite Hev. unfold mret, stM_mret. by rewrite (timer_idle _ _ Hk Hex).
Qed.

(** The events of a session, with their outcome. *)

Definition accepted (l : Loop) : Loop :=
  {| l_agent := Agent.register_client env (Agent.get_next_client_id (l_agent l)).2
       (next_client_id (l_agent l));
     l_world := l_world l; l_sockets := l_sockets l ∪ {[next_client_id (l_agent l)]};
     l_sent := l_sent l |}.

Lemma accept_event l :
  handle_event serialize_event serialize_message (fun _ => Ok tt)
    {| ev_source := Listener (Accepted (Ok tt) (Ok tt)); ev_env := env |} l = (Ok tt, accepted l).
Proof using. done. Qed.

Lemma send_ok id msg l :
  good msg -> id ∈ l_sockets l -> send_message serialize_message id msg l = (Ok tt, sent l id (wire msg)).
Proof using serializes.
  intros Hm Hid. unfold send_message, try_archive. run_st. rewrite bool_decide_true by done.
  destruct (serializes msg Hm) as [[Hp Hl] Hok].
  rewrite compute_length_written, Hok by done.
  by rewrite serialize_exact by (try done; rewrite repeat_length; lia).
Qed.

Lemma message_event id msg fds l s' w' answer :
  good answer ->
  id ∈ l_sockets l -> id <> LISTENER_TOKEN ->
  Agent.handle_message serialize_event env id msg fds (l_agent l) (open_fds (l_world l) fds) =
    Some (s', w', [SendMessage id answer]) ->
  handle_event serialize_event serialize_message (fun _ => Ok tt)
    {| ev_source := Client id false (RecvBytes (Some msg) fds); ev_env := env |} l =
    (Ok tt, {| l_agent := s'; l_world := w'; l_sockets := l_sockets l;
               l_sent := l_sent l ++ [(id, wire answer)] |}).
Proof using serializes.
  intros Hg Hid Hne Hmsg. unfold handle_event, receive_message. cbn [ev_source ev_env].
  rewrite (proj2 (Z.eqb_neq _ _) Hne). run_st. rewrite bool_decide_true by done. run_st.
  change (l_agent (set_agent l _ _)) with (l_agent l).
  change (l_world (set_agent l _ _)) with (open_fds (l_world l) fds). rewrite Hmsg.
  unfold carry_out, process_actions. unfold mbind, stM_mbind. by rewrite send_ok by done.
Qed.

Lemma stop_event id fds l s' w' :
  good Ack ->
  id ∈ l_sockets l -> id <> LISTENER_TOKEN ->
  Agent.handle_message serialize_event env id Stop fds (l_agent l) (open_fds (l_world l) fds) =
    Some (s', w', [SendMessage id Ack; DeleteEpoll id]) ->
  handle_event serialize_event serialize_message (fun _ => Ok tt)
    {| ev_source := Client id false (RecvBytes (Some Stop) fds); ev_env := env |} l =
    (Ok tt, {| l_agent := Agent.remove_client s' id; l_world := w'; l_sockets := l_sockets l ∖ {[id]};
               l_sent := l_sent l ++ [(id, wire Ack)] |}).
Proof using serializes.
  intros Hg Hid Hne Hmsg. unfold handle_event, receive_message. cbn [ev_source ev_env].
  rewrite (proj2 (Z.eqb_neq _ _) Hne). run_st. rewrite bool_decide_true by done. run_st.
  change (l_agent (set_agent l _ _)) with (l_agent l).
  change (l_world (set_agent l _ _)) with (open_fds (l_world l) fds). rewrite Hmsg.
  unfold carry_out, process_actions, drop_clients, drop_client. unfold mbind, stM_mbind.
  rewrite send_ok by done. run_st. cbn. by rewrite bool_decide_true by done.
Qed.

(** A hang-up of a connection that is gone. *)
Lemma hup_event id l :
  id ∉ l_sockets l -> id <> LISTENER_TOKEN -> started_client (l_agent l) <> Some id ->
  clients (l_agent l) !! id = None ->
  handle_event serialize_event serialize_message (fun _ => Ok tt)
    {| ev_source := Client id true RecvEmpty; ev_env := env |} l = (Ok tt, l).
Proof using.
  intros Hid Hne Hst Hc. unfold handle_event, disconnect. cbn [ev_source ev_env].
  rewrite (proj2 (Z.eqb_neq _ _) Hne). run_st. unfold Agent.handle_disconnect.
  rewrite bool_decide_false by done. run_st.
  unfold carry_out, process_actions, drop_clients, drop_client. run_st. cbn.
  rewrite bool_decide_false by done. cbn. unfold Agent.remove_client, Agent.set_clients.
  rewrite delete_id by done. by destruct l as [[] ? ? ?].
Qed.

Lemma nobody_insert s s' id st :
  nobody_expired s -> clients s' = <[id := mkClient st (e_now env)]> (clients s) ->
  timeout_ns s' = timeout_ns s -> clock id <= e_now env -> 0 <= timeout_ns s -> nobody_expired s'.
Proof using.
  intros Hs Hc Ht Hnow H0 id'. specialize (Hs id'). unfold expired in *. rewrite Hc, Ht.
  destruct (decide (id' = id)) as [->|Hne].
  - rewrite lookup_insert_eq. apply negb_false_iff. unfold client_timer, sat_sub. cbn.
    apply Z.leb_le. lia.
  - by rewrite lookup_insert_ne by done.
Qed.

Lemma nobody_delete s s' id :
  nobody_expired s -> clients s' = delete id (clients s) -> timeout_ns s' = timeout_ns s ->
  nobody_expired s'.
Proof using.
  intros Hs Hc Ht id'. specialize (Hs id'). unfold expired in *. rewrite Hc, Ht.
  destruct (decide (id' = id)) as [->|Hne].
  - by rewrite lookup_delete_eq.
  - by rewrite lookup_delete_ne by done.
Qed.

#[local] Existing Instance remote_peer.

Lemma client_serialize msg (c : AgentClient Remote) :
  good msg -> Client.serialize serialize_message msg c = (Ok (wire msg), c).
Proof using serializes. intros Hm. by apply serialize_ok; apply serializes. Qed.

Lemma sent_to_last id l bs : sent_to id (drop (length l) (l ++ [(id, bs)])) = bs.
Proof using. rewrite drop_app_length. unfold sent_to. cbn. by rewrite Z.eqb_refl, app_nil_r. Qed.

(** A message is read whole. *)
Lemma wire_read msg :
  good msg -> Nat.eqb (length (wire msg)) 0 = false /\ take BUFFER_SIZE (wire msg) = wire msg /\ drop BUFFER_SIZE (wire msg) = [].
Proof using fits.
  intros Hm%fits. unfold wire. split; [apply Nat.eqb_neq; lia|].
  split; [apply take_ge; lia|apply drop_ge; lia].
Qed.

(** The peer with nothing under way. *)
Definition idle (l : Loop) (id : Z) : Remote := mkRemote l id [] [] (length (l_sent l)).

(** One message and its answer. *)
Lemma exchange id msg fds l0 l1 answer :
  good msg -> good answer ->
  turn (Client id false (RecvBytes (Some msg) fds)) l0 = l1 ->
  l_sent l1 = l_sent l0 ++ [(id, wire answer)] ->
  let sent := mkRemote l1 id [] [] (length (l_sent l0)) in
  Client.sendmsg (wire msg) fds (mkAgentClient true (idle l0 id)) = (Ok (Ok tt), mkAgentClient true sent) /\
  Client.wait_for_response (mkAgentClient true sent) = (Ok (Ok answer), mkAgentClient true (idle l1 id)).
Proof using access_written fits.
  intros Hm Ha Ht Hs. destruct (wire_read msg Hm) as (E1 & E2 & E3), (wire_read answer Ha) as (F1 & F2 & F3). split.
  - unfold Client.sendmsg. cbn [send remote_peer peer stream rm_loop rm_id rm_seen rm_unread rm_incoming idle app].
    unfold agent_reads. rewrite E2, E3, E1. unfold wire. rewrite access_written by done. by rewrite Ht.
  - unfold Client.wait_for_response. cbn [respond remote_peer peer stream rm_loop rm_id rm_seen rm_unread rm_incoming app].
    rewrite Hs, sent_to_last, F1, F2, F3. unfold wire. rewrite access_written by done. unfold idle. by rewrite Hs.
Qed.

Section Session.

Context (l : Loop) (b size mfd nfd : Z) (filter : string) (ts : TimestampType).
Context (opts : list (string * Value)).
Hypothesis Hl : loop_inv b l.
Hypothesis Hb : b + 5 <= u64_max.
Hypothesis Hfree : another_started (l_agent l) = false.
Hypothesis Htimeout : 0 <= timeout_ns (l_agent l).
Hypothesis Halive : nobody_expired (l_agent l).

Let id := next_client_id (l_agent l).
Let targs := {| log_filter := filter; timestamp_type := ts |}.
Let args := {| tracing := Some targs; options := opts |}.

Hypothesis Hgood :
  good Version /\ good (VersionResponse VERSION) /\ good (Start size args) /\ good Ack /\ good Stop.
Hypothesis Hclock : clock id <= e_now env.
Hypothesis Hfds : 0 <= mfd /\ 0 <= nfd.
Hypothesis Hring : forall shared,
  is_ok (Producer.new (e_fstat env mfd) (e_fstat env nfd) (e_os env) mfd size shared) = true.
Hypothesis Hext : tracing_extension (l_agent l) = true -> e_ext_start env targs = Ok tt.

Lemma session_granted w :
  start_decision env size args [mfd; nfd] (l_agent (accepted l)) (open_fds w [mfd; nfd]) = Granted.
Proof using All.
  unfold start_decision. cbn [accepted l_agent]. change (another_started _) with (another_started (l_agent l)).
  rewrite Hfree. cbn [tracing args].
  assert (forall fd, 0 <= fd -> fd = mfd \/ fd = nfd -> fd_open (open_fds w [mfd; nfd]) fd = true) as Hop.
  { intros fd H0 Hfd. unfold fd_open. rewrite bool_decide_true.
    - by rewrite (proj2 (Z.leb_le _ _) H0).
    - cbn. clear -Hfd. set_solver. }
  destruct Hfds. rewrite !Hop by auto. cbn [andb].
  specialize (Hring (file_of (open_fds w [mfd; nfd]) mfd)).
  destruct (Producer.new _ _ _ _ _ _); [|done].
  change (tracing_extension _) with (tracing_extension (l_agent l)).
  destruct (tracing_extension (l_agent l)); [|done]. by rewrite Hext.
Qed.

(** The loop after the version request. *)
Let answered : Loop :=
  {| l_agent := l_agent (accepted l); l_world := open_fds (l_world l) [];
     l_sockets := l_sockets (accepted l);
     l_sent := l_sent l ++ [(id, wire (VersionResponse VERSION))] |}.

Lemma session_id : id <> LISTENER_TOKEN /\ clients (l_agent l) !! id = None.
Proof using Hl.
  destruct Hl as [[_ _ _ Hi Hn _ _] _]. unfold LISTENER_TOKEN, id. split; [lia|].
  destruct (clients (l_agent l) !! _) eqn:E; [|done].
  specialize (Hi (next_client_id (l_agent l)) ltac:(by rewrite E)). lia.
Qed.

(** The agent through the connection and the version request. *)
Lemma session_version :
  turn (Listener (Accepted (Ok tt) (Ok tt))) l = accepted l /\
  turn (Client id false (RecvBytes (Some Version) [])) (accepted l) = answered /\
  loop_inv (b + 2) answered /\ nobody_expired (l_agent answered).
Proof using All.
  destruct session_id as [Hid Hnew].
  assert (nobody_expired (l_agent (accepted l))) as Hex1.
  { by eapply (nobody_insert (l_agent l) _ id Pending). }
  destruct (turn_event b _ l _ Hl ltac:(lia) (accept_event l) Hex1) as [Ht1 Hl1].
  assert (handle_event serialize_event serialize_message (fun _ => Ok tt)
    {| ev_source := Client id false (RecvBytes (Some Version) []); ev_env := env |} (accepted l) =
    (Ok tt, answered)) as Hev.
  { apply (message_event id Version [] (accepted l) (l_agent (accepted l)) (open_fds (l_world l) []));
      try done; [by apply Hgood|].
    cbn. clear. set_solver. }
  destruct (turn_event (b + 1) _ _ answered Hl1 ltac:(lia) Hev Hex1) as [Ht2 Hl2].
  split; [done|]. split; [done|]. split; [|done]. by replace (b + 2) with (b + 1 + 1) by lia.
Qed.

(** The agent through the start and the stop. *)
Lemma session_start_stop :
  exists l3 l4,
    turn (Client id false (RecvBytes (Some (Start size args)) [mfd; nfd])) answered = l3 /\
    l_sent l3 = l_sent answered ++ [(id, wire Ack)] /\ started_client (l_agent l3) = Some id /\
    turn (Client id false (RecvBytes (Some Stop) [])) l3 = l4 /\
    l_sent l4 = l_sent l3 ++ [(id, wire Ack)] /\ started_client (l_agent l4) = None /\
    clients (l_agent l4) = clients (l_agent l) /\
    turn (Client id true RecvEmpty) l4 = l4.
Proof using All.
  destruct session_id as [Hid Hnew]. destruct session_version as (_ & _ & Hl2 & Hex2).
  assert (id ∈ l_sockets answered) as Hin by (cbn; clear; set_solver).
  destruct (start_result serialize_event env id (AgentClientState_new (e_now env)) size args [mfd; nfd]
    (l_agent answered) (open_fds (l_world answered) [mfd; nfd]) (b + 2))
    as (s3 & w3 & acts & E3 & Ht & Hdec);
    [by apply open_fds_inv, Hl2|by apply lookup_insert_eq|done|].
  change (l_agent answered) with (l_agent (accepted l)) in Hdec. rewrite session_granted in Hdec.
  destruct Hdec as (-> & Hst & _ & Hc3 & _).
  set (l3 := {| l_agent := s3; l_world := w3; l_sockets := l_sockets answered;
                l_sent := l_sent answered ++ [(id, wire Ack)] |}).
  assert (nobody_expired s3) as Hex3 by (by eapply nobody_insert).
  destruct (turn_event (b + 2) _ answered l3 Hl2 ltac:(lia)
    (message_event _ _ _ _ _ _ _ (proj1 (proj2 (proj2 (proj2 Hgood)))) Hin Hid E3) Hex3) as [Ht3 Hl3].
  destruct (stop_result serialize_event env id (e_now env) [] s3 (open_fds w3 []) (b + 2 + 1))
    as (s4 & w4 & E4 & Hst4 & _ & _ & Hc4 & Ht4 & _);
    [by apply open_fds_inv, Hl3|by rewrite Hc3, lookup_insert_eq|].
  set (l4 := {| l_agent := Agent.remove_client s4 id; l_world := w4;
                l_sockets := l_sockets l3 ∖ {[id]}; l_sent := l_sent l3 ++ [(id, wire Ack)] |}).
  assert (nobody_expired (Agent.remove_client s4 id)) as Hex4.
  { eapply (nobody_delete s3); [done| |done]. cbn. by rewrite Hc4. }
  destruct (turn_event (b + 2 + 1) _ l3 l4 Hl3 ltac:(lia) (stop_event id [] l3 s4 w4
    (proj1 (proj2 (proj2 (proj2 Hgood)))) Hin Hid E4) Hex4)
    as [Ht4' Hl4].
  exists l3, l4. split_and!; try done.
  - change (delete id (clients s4) = clients (l_agent l)). rewrite Hc4, Hc3.
    change (clients (l_agent (accepted l)))
      with (<[id := AgentClientState_new (e_now env)]> (clients (l_agent l))).
    apply map_eq. intros k. destruct (decide (k = id)) as [->|Hne].
    + by rewrite lookup_delete_eq.
    + assert (id <> k) as Hne' by congruence.
      rewrite lookup_delete_ne by exact Hne'. rewrite !lookup_insert_ne by exact Hne'. done.
  - refine (proj1 (turn_event _ _ l4 l4 Hl4 ltac:(lia) (hup_event id l4 _ Hid _ _) Hex4)).
    + cbn. clear. set_solver.
    + cbn. by rewrite Hst4.
    + cbn. by rewrite lookup_delete_eq.
Qed.

(** C35. A session of a client with the agent, over a stream of which each side reads
    at most 1024 bytes at a time.  On an agent nobody has started, with a ring behind
    the descriptors and the consent of the extension, and with messages of at most 1024
    bytes that [rkyv] reads back, the start of a client succeeds and the agent has it
    as its started client; the stop succeeds too, and the agent is as free as before,
    its clients the same. *)
Theorem client_session :
  let '(res, c) :=
    Client.start_with_options serialize_message size mfd nfd filter ts opts
      (Client.new (idle l 0)) in
  res = Ok tt /\ Client.enabled c = true /\
  started_client (l_agent (rm_loop (peer c))) = Some id /\
  let '(res', c') := Client.stop serialize_message c in
  res' = Ok tt /\ Client.enabled c' = false /\
  started_client (l_agent (rm_loop (peer c'))) = None /\
  clients (l_agent (rm_loop (peer c'))) = clients (l_agent l).
Proof using All.
  destruct session_version as (Ht1 & Ht2 & _ & _).
  destruct session_start_stop as (l3 & l4 & Ht3 & Hs3 & Hst3 & Ht4 & Hs4 & Hst4 & Hc4 & Ht5).
  destruct Hgood as (G1 & G2 & G3 & G4 & G5).
  destruct (exchange id Version [] (accepted l) answered (VersionResponse VERSION) G1 G2 Ht2 eq_refl) as [X1 Y1].
  destruct (exchange id _ [mfd; nfd] answered l3 Ack G3 G4 Ht3 Hs3) as [X2 Y2].
  destruct (exchange id Stop [] l3 l4 Ack G5 G4 Ht4 Hs4) as [X3 Y3].
  assert (Client.connect_or_reuse (Client.new (idle l 0)) = (Ok tt, mkAgentClient true (idle (accepted l) id))) as Hcon.
  { unfold Client.connect_or_reuse. cbn. by rewrite Ht1. }
  unfold Client.start_with_options, Client.check_version, Client.try, Client.disconnect_on_err.
  run_st. rewrite Hcon, client_serialize, X1, Y1 by done. cbn [Client.connect_or_reuse stream].
  change (String.eqb VERSION VERSION) with true. cbn [negb].
  unfold Client.connect_or_reuse. cbn [stream].
  fold targs args. rewrite client_serialize, X2, Y2 by done. split; [done|]. split; [done|]. split; [exact Hst3|].
  unfold Client.stop, Client.disconnect, Client.drop_stream. run_st. cbn [negb stream].
  run_st. rewrite client_serialize, X3, Y3 by done. cbn. rewrite Ht5. by split_and!.
Qed.

End Session.

End Remote.

(** ** Concrete sessions *)

Lemma demo_message_good msg : True ->
  serializable (demo_message msg) /\ (written (demo_message msg) 0).2 = Ok tt.
Proof. split; [apply demo_message_ok|done]. Qed.

(** An agent of another version is started without a complaint. *)
Lemma start_by_exchanges_witness :
  let '(res, c) :=
    Client.start_with_options demo_message 4096 10 11 "debug" Monotonic []
      (Client.new (mkScript (Ok tt)
        [(Ok tt, Received (Ok (VersionResponse "9.9"))); (Ok tt, Received (Ok Ack))] 0)) in
  res = Ok tt /\ Client.enabled c = true.
Proof.
  pose proof (start_by_exchanges demo_message (fun _ => True) demo_message_good 4096 10 11 "debug"
    Monotonic [] (Ok tt) (Received (Ok (VersionResponse "9.9"))) (Ok tt) (Received (Ok Ack)) [] I I) as H.
  destruct (Client.start_with_options _ _ _ _ _ _ _ _) as [res c].
  destruct H as (He & Hr & _). assert (res = Ok tt) as -> by (by apply Hr).
  split; [reflexivity|exact He].
Defined.

Lemma stop_and_keepalive_witness :
  let '(res, c) := Client.stop demo_message
    (mkAgentClient true (mkScript (Ok tt) [(Ok tt, TimedOut)] 0)) in
  res = Ok tt /\ Client.enabled c = false /\ sc_hangups (peer c) = 1%nat.
Proof.
  exact (proj1 (stop_and_keepalive demo_message (fun _ => True) demo_message_good (Ok tt) (Ok tt)
    TimedOut [] 0 I I)).
Defined.

(** The reader of [demo_message] for one start message. *)
Definition demo_access (bs : list Z) : result RkyvError ControlMessage :=
  match bs with
  | [0] => Ok (Start 4096 {| tracing := Some {| log_filter := "debug"; timestamp_type := Monotonic |};
                             options := [] |})
  | [1] => Ok Stop
  | [2] => Ok Continue
  | [3] => Ok Ack
  | [5] => Ok Version
  | [6] => Ok (VersionResponse VERSION)
  | _ => Err (SerializeFailed 1)
  end.

Lemma client_session_witness :
  exists c, Client.start_with_options (H := remote_peer demo_serialize demo_message map_to_list
      demo_access (demo_env 6000) (fun _ => 6000)) demo_message 4096 10 11 "debug" Monotonic []
      (Client.new (idle demo_loop 0)) = (Ok tt, c) /\
    started_client (l_agent (rm_loop (peer c))) = Some 2.
Proof.
  set (good msg := demo_access (written (demo_message msg) 0).1 = Ok msg).
  assert (forall msg, good msg -> (0 < length (written (demo_message msg) 0).1 <= BUFFER_SIZE)%nat) as Hfits.
  { intros msg _. unfold BUFFER_SIZE. destruct msg; cbn; lia. }
  pose proof (client_session demo_serialize demo_message map_to_list demo_access (demo_env 6000)
    (fun _ => 6000) ltac:(done) good (fun msg _ => demo_message_good msg I) (fun msg Hg => Hg) Hfits
    demo_loop 2 4096 10 11 "debug" Monotonic [] demo_loop_inv ltac:(unfold u64_max; lia) eq_refl
    ltac:(vm_compute; discriminate)) as H.
  destruct (Client.start_with_options _ _ _ _ _ _ _ _) as [res c].
  destruct H as (-> & _ & Hst & _).
  - intros id. unfold expired. change (clients (l_agent demo_loop))
      with (<[1 := AgentClientState_new 5000]> (∅ : gmap Z AgentClientState)).
    destruct (decide (id = 1)) as [->|Hne]; [reflexivity|].
    by rewrite lookup_insert_ne, lookup_empty by done.
  - split_and!; reflexivity.
  - cbn. lia.
  - lia.
  - reflexivity.
  - reflexivity.
  - exists c. split; [reflexivity|exact Hst].
Defined.

(** A start of more than 1024 bytes is not read whole: the agent can make nothing of
    it and does not answer. *)
Definition long_message (msg : ControlMessage) : serializer :=
  match msg with Start _ _ => SWrite (repeat 0 1025) SDone | msg => demo_message msg end.

Example long_start_unanswered :
  (Client.start_with_options (H := remote_peer demo_serialize long_message map_to_list demo_access (demo_env 6000)
     (fun _ => 6000)) long_message 4096 10 11 "debug" Monotonic [] (Client.new (idle demo_loop 0))).1 =
  Err (AgentIo "timeout waiting for agent response").
Proof. by vm_compute. Qed.
