(* ===== verification/AgentBuilder.v ===== *)
(** * The construction and the end of an agent

    [AgentBuilder] and [Agent] of the crate [agent] (src/agent/src/agent.rs) and the
    part of the listener thread before its loop (epoll_thread.rs): how an agent gets
    its thread, and what waiting for the thread returns. *)

From S2P Require Import Prelude RingMem RingSpec Ring RingSystem RingOps Protocol AgentIpc AgentState AgentLoop AgentProps.
Open Scope Z_scope.

(** ** The builder *)

(** The extension as in [AgentState]: whether there is one. *)
Record AgentBuilder := mkAgentBuilder {
  b_socket_path : string;
  b_timeout_ms : Z;
  b_tracing_extension : bool
}.

Definition default_timeout_ms : Z := wrap 16 (CLIENT_TIMEOUT_NS / 1000000).

Module Builder.

Definition new (socket_path : string) : AgentBuilder := mkAgentBuilder socket_path default_timeout_ms false.

Definition with_timeout (self : AgentBuilder) (timeout_ms : Z) : AgentBuilder :=
  mkAgentBuilder (b_socket_path self) timeout_ms (b_tracing_extension self).

Definition register_tracing (self : AgentBuilder) : AgentBuilder :=
  mkAgentBuilder (b_socket_path self) (b_timeout_ms self) true.

End Builder.

(** ** The agent *)

(** Whether the thread can still be joined, the path, and the shutdown flag. *)
Record Agent := mkAgent {
  socket_thread : bool;
  socket_path : string;
  shutdown : bool
}.

(** [internal_new]: the agent and what the thread starts with, if it is spawned. *)
Definition internal_new (spawn : result string unit) (path : string) (timeout_ms : Z) (tracing_extension : bool) :
    result AgentError (Agent * AgentState) :=
  match spawn with
  | Err e => Err (AgentIo e)
  | Ok _ => Ok (mkAgent true path false, Agent.new timeout_ms tracing_extension)
  end.

Definition build (spawn : result string unit) (self : AgentBuilder) : result AgentError (Agent * AgentState) :=
  internal_new spawn (b_socket_path self) (b_timeout_ms self) (b_tracing_extension self).

Definition with_timeout (spawn : result string unit) (path : string) (timeout_ms : Z) :
    result AgentError (Agent * AgentState) :=
  internal_new spawn path timeout_ms false.

Definition new (spawn : result string unit) (path : string) : result AgentError (Agent * AgentState) :=
  with_timeout spawn path default_timeout_ms.

(** [wait_terminated]: [outcome] is what the thread ends with once it sees the
    shutdown flag, if it has not ended before. *)
Definition wait_terminated (outcome : result LoopError unit) (self : Agent) : result AgentError unit * Agent :=
  if socket_thread self then
    (match outcome with
     | Ok _ => Ok tt
     | Err (Failed e) => Err e
     | Err Panicked => Err (AgentIo "Thread panicked")
     end, mkAgent false (socket_path self) true)
  else (Ok tt, mkAgent false (socket_path self) true).

(** [drop]: the flag is set and the file of the socket removed; the thread is not
    waited for. *)
Definition drop (self : Agent) : Agent * string :=
  (mkAgent (socket_thread self) (socket_path self) true, socket_path self).

(** ** The thread *)

(** What the calls before the loop return. *)
Record Setup := mkSetup {
  su_bind : result string unit;
  su_nonblocking : result string unit;
  su_epoll : result Z unit;
  su_add : result Z unit
}.

Section Thread.

Variable serialize_event : Event -> serializer.
Variable serialize_message : ControlMessage -> serializer.
Variable iter : gmap Z AgentClientState -> list (Z * AgentClientState).
Variable epoll_delete : Z -> result Z unit.

Definition try_io (r : result string unit) : AgentLoop.M unit := fun l => (map_err (Failed ∘ AgentIo) r, l).

Definition epoll_listener_thread (setup : Setup) (its : list iteration) : AgentLoop.M unit :=
  _ ← try_io (su_bind setup);
  _ ← try_io (su_nonblocking setup);
  _ ← try_nix (su_epoll setup);
  _ ← try_nix (su_add setup);
  run_loop serialize_event serialize_message iter epoll_delete its.

(** The thread of an agent, from its state on. *)
Definition thread_of (s : AgentState) (w : World) (setup : Setup) (its : list iteration) :
    result LoopError unit * Loop :=
  epoll_listener_thread setup its {| l_agent := s; l_world := w; l_sockets := ∅; l_sent := [] |}.

End Thread.

(** ** Properties *)

(** The timeout in milliseconds survives its conversions: an agent whose timeout is
    not set has the constant of the crate, one whose timeout is set has it exactly,
    as the limit of silence and as the period of epoll; and the builder and the two
    constructors make the same agent. *)
Lemma built_timeout path ms ext :
  in_u 16 ms ->
  timeout_ns (Agent.new default_timeout_ms ext) = CLIENT_TIMEOUT_NS /\
  timeout_ns (Agent.new ms ext) = ms * 1000000 /\ Agent.timeout_ms (Agent.new ms ext) = ms /\
  (forall spawn, build spawn (Builder.with_timeout (Builder.new path) ms) = with_timeout spawn path ms) /\
  (forall spawn, build spawn (Builder.new path) = new spawn path).
Proof.
  unfold in_u. intros Hms. split_and!; [done| | |done|done]; unfold Agent.timeout_ms; cbn [Agent.new timeout_ns].
  - rewrite wrap64_small; [done|unfold u64_max; lia].
  - rewrite wrap64_small by (unfold u64_max; lia). rewrite Z.div_mul by done. by apply wrap_small.
Qed.

Section Ends.

Variable serialize_event : Event -> serializer.
Variable serialize_message : ControlMessage -> serializer.
Variable iter : gmap Z AgentClientState -> list (Z * AgentClientState).
Variable epoll_delete : Z -> result Z unit.

Abbreviation run := (run_loop serialize_event serialize_message iter epoll_delete).

(** The first iteration that finds the flag set ends the thread: nothing that epoll
    would have delivered later is looked at, and the clients keep their state. *)
Lemma shutdown_ends its1 i its2 l l' :
  run its1 l = (Ok tt, l') -> it_shutdown i = true -> run (its1 ++ i :: its2) l = (Ok tt, l').
Proof.
  intros H Hi. revert l H. induction its1 as [|i1 its1 IH]; intros l H; cbn [app run_loop] in *.
  - injection H as <-. unfold loop_once. by rewrite Hi.
  - revert H. unfold mbind, stM_mbind.
    destruct (loop_once _ _ _ _ i1 l) as [[[]|e] l1]; [apply IH|done|done].
Qed.

(** Waiting for an agent: the error of the calls before the loop, or of the loop, if
    there was one; the thread never panics; and who waits again gets no error. *)
Lemma wait_terminated_spec a s spawn b w setup its :
  (forall m, iter m ≡ₚ map_to_list m) -> w_calls w = [] -> Z.of_nat (length its) <= 2 ^ 60 ->
  build spawn b = Ok (a, s) ->
  let outcome := (thread_of serialize_event serialize_message iter epoll_delete s w setup its).1 in
  let '(r, a') := wait_terminated outcome a in
  outcome <> Err Panicked /\ (forall e, r = Err e <-> outcome = Err (Failed e)) /\
  shutdown a' = true /\ forall o, wait_terminated o a' = (Ok tt, a').
Proof.
  intros Hiter Hw Hits Hb. unfold build, internal_new in Hb. destruct spawn; [|done]. injection Hb as <- <-.
  assert (loop_inv 1 (loop_init (b_timeout_ms b) (b_tracing_extension b) w)) as Hinit.
  { split; [by apply agent_new_inv|]. intros id. cbn. split; [set_solver|].
    intros [c Hc]. by rewrite lookup_empty in Hc. }
  pose proof (keeps_run serialize_event serialize_message iter Hiter epoll_delete 1 its
    ltac:(unfold u64_max; lia) _ Hinit) as H. unfold loop_init in H.
  assert (forall e, (thread_of serialize_event serialize_message iter epoll_delete
    (Agent.new (b_timeout_ms b) (b_tracing_extension b)) w setup its).1 = Err e -> e <> Panicked) as Hp.
  { unfold thread_of, epoll_listener_thread, try_io, try_nix, mbind, stM_mbind.
    destruct (su_bind setup); [|by cbn; intros ? [= <-]].
    destruct (su_nonblocking setup); [|by cbn; intros ? [= <-]].
    destruct (su_epoll setup); [|by cbn; intros ? [= <-]].
    destruct (su_add setup); [|by cbn; intros ? [= <-]]. cbn.
    destruct (run _ _) as [r l]. destruct H as [H _]. cbn. intros e -> ->. done. }
  cbn zeta. set (outcome := fst _) in *. unfold wait_terminated. cbn [socket_thread].
  split_and!; [by intros E; apply (Hp _ E)| |done|done].
  intros e. destruct outcome as [[]|[f|]]; [done|split; congruence|by destruct (Hp _ eq_refl)].
Qed.

End Ends.
