(* ===== verification/Tracing.v ===== *)
(** * The tracing layer

    The crate [kinetracing]: the extension an agent starts and stops
    (src/kinetracing/src/extension.rs), and the layer that turns the callbacks of
    the tracing framework into events (src/kinetracing/src/layer.rs, visitor.rs). *)

From S2P Require Import Prelude Protocol.

(** ** The extension *)

Definition CLOCK_REALTIME : Z := 0.

Definition CLOCK_MONOTONIC : Z := 1.

Definition CLOCK_BOOTTIME : Z := 7.

(** A handle is known by a number. *)
Record TracingState (Filter : Type) := mkTracingState {
  clock_id : Z;
  env_filter : Filter;
  handle : nat
}.
Arguments mkTracingState {Filter} _ _ _.
Arguments clock_id {Filter} _.
Arguments env_filter {Filter} _.
Arguments handle {Filter} _.

(** What a callback knows of its span or event. *)
Record SpanMeta := mkSpanMeta { md_name : string; md_target : string }.

(** A recorded field, by the method of the visitor it reaches; [FDebug] holds the
    formatted value. *)
Inductive FieldValue :=
| FI64 (value : Z)
| FU64 (value : Z)
| FF64 (value : Z)
| FBool (value : bool)
| FStr (value : string)
| FDebug (formatted : string).

Record SpanData := mkSpanData {
  sd_labels : Labels.t Z Z;
  start_timestamp : Z
}.

(** A span of the registry, with the data the layer attached to it. *)
Record RegSpan := mkRegSpan { rs_meta : SpanMeta; rs_data : option SpanData }.

(** The thread-local flags and ids, the registry, and what was handed to the
    handles, oldest first.  Threads are known by the number the [thread_local]
    crate gives them; it gives the number of a thread that ended to a new one,
    whose flag is clear and which finds the id the old one stored. *)
Record LayerState := mkLayer {
  in_tracing : gset nat;
  thread_ids : gmap nat Z;
  spans : gmap Z RegSpan;
  submitted : list (nat * Event)
}.

Module Layer.

Section Layer.

(** The filter is [tracing_subscriber]'s. *)
Context {Filter : Type}.
Variable try_new : string -> result string Filter.
Variable enabled : Filter -> SpanMeta -> bool.

(** *** [Extension for TracingExtension] *)

Definition clock_of (t : TimestampType) : Z :=
  match t with
  | Monotonic => CLOCK_MONOTONIC
  | Boottime => CLOCK_BOOTTIME
  | Realtime => CLOCK_REALTIME
  end.

(** [start]: the result and the new state of the extension. *)
Definition ext_start (args : TracingArgs) (handle : nat) (state : option (TracingState Filter))
    : result string unit * option (TracingState Filter) :=
  match try_new (log_filter args) with
  | Err e => (Err ("invalid log filter '" ++ log_filter args ++ "': " ++ e)%string, state)
  | Ok env_filter => (Ok tt, Some (mkTracingState (clock_of (timestamp_type args)) env_filter handle))
  end.

Definition ext_stop (state : option (TracingState Filter))
    : result string unit * option (TracingState Filter) := (Ok tt, None).

Definition is_active (state : option (TracingState Filter)) : bool :=
  match state with Some _ => true | None => false end.

Definition ext_clock_id (state : option (TracingState Filter)) : Z :=
  match state with Some s => clock_id s | None => CLOCK_MONOTONIC end.

Definition is_enabled (state : option (TracingState Filter)) (meta : SpanMeta) : bool :=
  match state with Some s => enabled (env_filter s) meta | None => true end.

(** *** The visitor *)

(** [value as f64]: the bits of the nearest double, ties to the even one.  A
    mantissa that rounds up to 2^53 carries into the exponent. *)
Definition u64_as_f64 (v : Z) : Z :=
  if v =? 0 then 0
  else
    let e := Z.log2 v in
    let m :=
      if e <=? 52 then Z.shiftl v (52 - e)
      else
        let d := e - 52 in
        let q := Z.shiftr v d in
        let r := v mod 2 ^ d in
        let half := 2 ^ (d - 1) in
        if (half <? r) || ((r =? half) && Z.odd q) then q + 1 else q in
    (1023 + e) * 2 ^ 52 + (m - 2 ^ 52).

(** [HashMap::insert] on the entries of a map. *)
Fixpoint hm_insert {A} (k : string) (v : A) (l : list (string * A)) : list (string * A) :=
  match l with
  | [] => [(k, v)]
  | (k', v') :: l => if String.eqb k' k then (k, v) :: l else (k', v') :: hm_insert k v l
  end.

Definition insert_string (k v : string) (ls : Labels.t Z Z) : Labels.t Z Z :=
  Labels.mk _ _ (hm_insert k v (Labels.strings ls)) (Labels.ints ls) (Labels.bools ls) (Labels.floats ls).

Definition insert_int (k : string) (v : Z) (ls : Labels.t Z Z) : Labels.t Z Z :=
  Labels.mk _ _ (Labels.strings ls) (hm_insert k v (Labels.ints ls)) (Labels.bools ls) (Labels.floats ls).

Definition insert_bool (k : string) (v : bool) (ls : Labels.t Z Z) : Labels.t Z Z :=
  Labels.mk _ _ (Labels.strings ls) (Labels.ints ls) (hm_insert k v (Labels.bools ls)) (Labels.floats ls).

Definition insert_float (k : string) (v : Z) (ls : Labels.t Z Z) : Labels.t Z Z :=
  Labels.mk _ _ (Labels.strings ls) (Labels.ints ls) (Labels.bools ls) (hm_insert k v (Labels.floats ls)).

(** [Visit for SpanData] *)
Definition record_field (ls : Labels.t Z Z) (field : string * FieldValue) : Labels.t Z Z :=
  let '(name, value) := field in
  match value with
  | FI64 v => insert_int name v ls
  | FU64 v =>
      if v <=? i64_max then insert_int name v ls else insert_float name (u64_as_f64 v) ls
  | FF64 v => insert_float name v ls
  | FBool v => insert_bool name v ls
  | FStr v => insert_string name v ls
  | FDebug v => insert_string name v ls
  end.

(** The labels of a span or an event: its fields, then the target. *)
Definition labels_of (meta : SpanMeta) (fields : list (string * FieldValue)) : Labels.t Z Z :=
  insert_string "target" (md_target meta) (foldl record_field Labels.new fields).

(** *** The callbacks *)

(** What a callback finds: the ids of the thread and of the process, what
    [clock_gettime] stores for a clock if it succeeds, and the state of the
    extension at each of its loads, which another thread may change in between. *)
Record CallEnv := mkCallEnv {
  c_tid : Z;
  c_pid : Z;
  c_clock : Z -> option (Z * Z);
  c_ext : nat -> option (TracingState Filter)
}.

Inductive kind :=
| NewSpan (id : Z) (meta : SpanMeta) (fields : list (string * FieldValue))
| Enter (id : Z)
| Exit (id : Z)
| OnEvent (meta : SpanMeta) (fields : list (string * FieldValue)).

(** A callback, with those made on the same thread while it runs (by the
    formatting of a value or by a submission that logs). *)
Inductive callback := Callback (env : CallEnv) (k : kind) (nested : list callback).

Definition set_in_tracing (s : LayerState) (f : gset nat) : LayerState :=
  mkLayer f (thread_ids s) (spans s) (submitted s).

Definition set_span (s : LayerState) (id : Z) (sp : RegSpan) : LayerState :=
  mkLayer (in_tracing s) (thread_ids s) (<[id := sp]> (spans s)) (submitted s).

(** The time of a clock in nanoseconds; of a clock that cannot be read it is zero. *)
Definition get_timestamp (env : CallEnv) (clock_id : Z) : Z :=
  let '(tv_sec, tv_nsec) := default (0, 0) (c_clock env clock_id) in
  (wrap 64 tv_sec *64 1000000000) +64 wrap 64 tv_nsec.

(** [get_thread_id]: the id is looked up once per thread. *)
Definition get_thread_id (t : nat) (env : CallEnv) (s : LayerState) : Z * LayerState :=
  match thread_ids s !! t with
  | Some tid => (tid, s)
  | None =>
      let tid := as_signed 32 (c_tid env) in
      (tid, mkLayer (in_tracing s) (<[t := tid]> (thread_ids s)) (spans s) (submitted s))
  end.

(** [submit]; its result is dropped. *)
Definition submit (state : option (TracingState Filter)) (event : Event) (s : LayerState) : LayerState :=
  match state with
  | Some st =>
      mkLayer (in_tracing s) (thread_ids s) (spans s) (submitted s ++ [(handle st, event)])
  | None => s
  end.

Definition on_new_span (env : CallEnv) (id : Z) (meta : SpanMeta)
    (fields : list (string * FieldValue)) (s : LayerState) : LayerState :=
  if negb (is_active (c_ext env 0)) then s
  else if negb (is_enabled (c_ext env 1) meta) then s
  else
    let span_data := {| sd_labels := labels_of meta fields; start_timestamp := 0 |} in
    match spans s !! id with
    | Some sp => set_span s id {| rs_meta := rs_meta sp; rs_data := Some span_data |}
    | None => s
    end.

Definition on_enter (env : CallEnv) (id : Z) (s : LayerState) : LayerState :=
  if negb (is_active (c_ext env 0)) then s
  else
    match spans s !! id with
    | Some {| rs_meta := meta; rs_data := Some span_data |} =>
        set_span s id {| rs_meta := meta;
          rs_data := Some {| sd_labels := sd_labels span_data;
                             start_timestamp := get_timestamp env (ext_clock_id (c_ext env 1)) |} |}
    | _ => s
    end.

Definition on_exit (t : nat) (env : CallEnv) (id : Z) (s : LayerState) : LayerState :=
  if negb (is_active (c_ext env 0)) then s
  else
    match spans s !! id with
    | Some {| rs_meta := meta; rs_data := Some span_data |} =>
        let end_timestamp := get_timestamp env (ext_clock_id (c_ext env 1)) in
        let '(tid, s) := get_thread_id t env s in
        submit (c_ext env 2)
          (Event.Span (Span.mk _ _ _ _ _ (md_name meta) id (start_timestamp span_data) end_timestamp
             (TrackId.Thread tid (c_pid env)) (sd_labels span_data))) s
    | _ => s
    end.

Definition on_event (t : nat) (env : CallEnv) (meta : SpanMeta)
    (fields : list (string * FieldValue)) (s : LayerState) : LayerState :=
  if negb (is_active (c_ext env 0)) then s
  else if negb (is_enabled (c_ext env 1) meta) then s
  else
    let timestamp := get_timestamp env (ext_clock_id (c_ext env 2)) in
    let '(tid, s) := get_thread_id t env s in
    submit (c_ext env 3)
      (Event.Instant (Instant.mk _ _ _ _ _ (md_name meta) timestamp
         (TrackId.Thread tid (c_pid env)) (labels_of meta fields))) s.

(** The registry has entered a new span before the layer hears of it. *)
Definition register (k : kind) (s : LayerState) : LayerState :=
  match k with
  | NewSpan id meta _ => set_span s id {| rs_meta := meta; rs_data := None |}
  | _ => s
  end.

Definition body (t : nat) (env : CallEnv) (k : kind) (s : LayerState) : LayerState :=
  match k with
  | NewSpan id meta fields => on_new_span env id meta fields s
  | Enter id => on_enter env id s
  | Exit id => on_exit t env id s
  | OnEvent meta fields => on_event t env meta fields s
  end.

(** A callback on thread [t]: the reentrancy guard is taken, the callbacks made
    meanwhile run into it, and its drop clears the flag. *)
Fixpoint run_callback (t : nat) (cb : callback) (s : LayerState) {struct cb} : LayerState :=
  let '(Callback env k nested) := cb in
  let s := register k s in
  if bool_decide (t ∈ in_tracing s) then s
  else
    let s := set_in_tracing s (in_tracing s ∪ {[t]}) in
    let s := foldl (fun s cb => run_callback t cb s) s nested in
    let s := body t env k s in
    set_in_tracing s (in_tracing s ∖ {[t]}).

Definition run_callbacks (cbs : list (nat * callback)) (s : LayerState) : LayerState :=
  foldl (fun s '(t, cb) => run_callback t cb s) s cbs.

End Layer.

End Layer.

(** The conversion at 2^64-1, at 2^53+1 (a tie) and at 2^53+3 (a tie). *)
Example u64_as_f64_max : Layer.u64_as_f64 u64_max = 4895412794951729152.
Proof. reflexivity. Qed.

Example u64_as_f64_ties :
  Layer.u64_as_f64 1 = 1023 * 2 ^ 52 /\
  Layer.u64_as_f64 (2 ^ 53 + 1) = Layer.u64_as_f64 (2 ^ 53) /\
  Layer.u64_as_f64 (2 ^ 53 + 3) = Layer.u64_as_f64 (2 ^ 53 + 4).
Proof. by vm_compute. Qed.

(** ** Lemmas *)

Section LayerLemmas.

Context {Filter : Type}.
Variable enabled : Filter -> SpanMeta -> bool.

Let run := Layer.run_callback enabled.

(** Whether a callback, or one nested in it, is about the span [id]. *)
Definition kind_mentions (id : Z) (k : Layer.kind) : bool :=
  match k with
  | Layer.NewSpan id' _ _ | Layer.Enter id' | Layer.Exit id' => id' =? id
  | Layer.OnEvent _ _ => false
  end.

Fixpoint mentions (id : Z) (cb : Layer.callback (Filter := Filter)) : bool :=
  let '(Layer.Callback _ k nested) := cb in
  kind_mentions id k || existsb (mentions id) nested.

Lemma get_thread_id_frame t (env : Layer.CallEnv (Filter := Filter)) s tid s' :
  Layer.get_thread_id t env s = (tid, s') ->
  tid = default (as_signed 32 (Layer.c_tid env)) (thread_ids s !! t) /\
  in_tracing s' = in_tracing s /\ spans s' = spans s /\ submitted s' = submitted s.
Proof. unfold Layer.get_thread_id. destruct (thread_ids s !! t); by intros [= <- <-]. Qed.

(** The id of the thread, then every branch of the callbacks. *)
Ltac thread_id :=
  unfold Layer.on_new_span, Layer.on_enter, Layer.on_exit, Layer.on_event;
  try match goal with
  | |- context [Layer.get_thread_id ?t ?env ?s] =>
      let E := fresh "E" in
      destruct (Layer.get_thread_id t env s) eqn:E;
      destruct (get_thread_id_frame _ _ _ _ _ E) as (? & ? & ? & ?)
  end.

Ltac layer_cases := unfold Layer.submit, Layer.set_span; repeat break_goal.

Lemma body_flags t env k s :
  in_tracing (Layer.body enabled t env k s) = in_tracing s.
Proof. destruct k; cbn [Layer.body]; thread_id; layer_cases; congruence. Qed.

Lemma register_flags k s : in_tracing (Layer.register k s) = in_tracing s.
Proof. by destruct k. Qed.

Lemma register_submitted k s :
  submitted (Layer.register k s) = submitted s /\ thread_ids (Layer.register k s) = thread_ids s.
Proof. by destruct k. Qed.

(** Callbacks on a thread that is in the layer only reach the registry. *)
Lemma run_guarded t env k nested s :
  t ∈ in_tracing s -> run t (Layer.Callback env k nested) s = Layer.register k s.
Proof.
  intros Ht. unfold run. cbn [Layer.run_callback]. by rewrite bool_decide_true by (by rewrite register_flags).
Qed.

Lemma nested_guarded t nested s :
  t ∈ in_tracing s ->
  foldl (fun s cb => run t cb s) s nested =
  foldl (fun s '(Layer.Callback _ k _) => Layer.register k s) s nested.
Proof.
  revert s. induction nested as [|[env k nested'] cbs IH]; intros s Ht; [done|]. cbn [foldl].
  rewrite run_guarded by done. apply IH. by rewrite register_flags.
Qed.

(** The state in which the body of an outermost callback runs. *)
Definition entered (t : nat) (k : Layer.kind) (nested : list (Layer.callback (Filter := Filter)))
    (s : LayerState) : LayerState :=
  foldl (fun s '(Layer.Callback _ k _) => Layer.register k s)
    (Layer.set_in_tracing (Layer.register k s) (in_tracing s ∪ {[t]})) nested.

Lemma run_outermost t env k nested s :
  (t ∉ in_tracing s) ->
  run t (Layer.Callback env k nested) s =
  let s' := Layer.body enabled t env k (entered t k nested s) in
  Layer.set_in_tracing s' (in_tracing s' ∖ {[t]}).
Proof.
  intros Ht. unfold run at 1. cbn [Layer.run_callback]. rewrite bool_decide_false by (by rewrite register_flags).
  rewrite register_flags. unfold entered.
  rewrite <-(nested_guarded t); [done|]. cbn. set_solver.
Qed.

Lemma registers_keep (nested : list (Layer.callback (Filter := Filter))) s :
  let s' := foldl (fun s '(Layer.Callback _ k _) => Layer.register k s) s nested in
  in_tracing s' = in_tracing s /\ submitted s' = submitted s /\ thread_ids s' = thread_ids s /\
  forall id, existsb (mentions id) nested = false -> spans s' !! id = spans s !! id.
Proof.
  revert s. induction nested as [|[env k nested'] cbs IH]; intros s; [done|]. cbn [foldl].
  destruct (IH (Layer.register k s)) as (H1 & H2 & H3 & H4).
  destruct (register_submitted k s) as [R2 R3].
  split_and!; [by rewrite H1, register_flags|by rewrite H2|by rewrite H3|].
  intros id Hid. cbn [existsb mentions] in Hid. apply orb_false_elim in Hid as [Hk Hc].
  apply orb_false_elim in Hk as [Hk _]. rewrite H4 by done.
  destruct k as [id' meta fields| | |]; cbn in *; try done.
  apply Z.eqb_neq in Hk. by rewrite lookup_insert_ne.
Qed.

Lemma entered_keep t k nested s :
  in_tracing (entered t k nested s) = in_tracing s ∪ {[t]} /\
  submitted (entered t k nested s) = submitted s /\
  thread_ids (entered t k nested s) = thread_ids s /\
  forall id, existsb (mentions id) nested = false ->
    spans (entered t k nested s) !! id = spans (Layer.register k s) !! id.
Proof.
  unfold entered. destruct (registers_keep nested
    (Layer.set_in_tracing (Layer.register k s) (in_tracing s ∪ {[t]}))) as (H1 & H2 & H3 & H4).
  destruct (register_submitted k s) as [R2 R3].
  split_and!; [done|by rewrite H2|by rewrite H3|]. intros id Hid. by rewrite H4.
Qed.

Lemma run_flags t cb s : in_tracing (run t cb s) = in_tracing s.
Proof.
  destruct cb as [env k nested]. destruct (decide (t ∈ in_tracing s)) as [Ht|Ht].
  - by rewrite run_guarded, register_flags.
  - rewrite run_outermost by done. cbn. rewrite body_flags.
    destruct (entered_keep t k nested s) as (-> & _). apply set_eq. set_solver.
Qed.

Lemma body_spans id t env k s :
  kind_mentions id k = false ->
  spans (Layer.body enabled t env k s) !! id = spans s !! id.
Proof.
  intros Hk. destruct k as [id'|id'|id'|]; cbn [Layer.body kind_mentions] in *;
    try apply Z.eqb_neq in Hk; thread_id; layer_cases; try congruence; by rewrite lookup_insert_ne.
Qed.

(** A callback about other things leaves a span alone. *)
Lemma run_other id t cb s :
  mentions id cb = false -> spans (run t cb s) !! id = spans s !! id.
Proof.
  destruct cb as [env k nested]. intros Hm. cbn [mentions] in Hm. apply orb_false_elim in Hm as [Hk Hn].
  assert (spans (Layer.register k s) !! id = spans s !! id) as Hreg.
  { destruct k; cbn in *; try done. apply Z.eqb_neq in Hk. by rewrite lookup_insert_ne. }
  destruct (decide (t ∈ in_tracing s)) as [Ht|Ht].
  - by rewrite run_guarded.
  - rewrite run_outermost by done. cbn. rewrite body_spans by done.
    destruct (entered_keep t k nested s) as (_ & _ & _ & H). by rewrite H.
Qed.

Lemma runs_other id cbs s :
  Forall (fun '(_, cb) => mentions id cb = false) cbs ->
  spans (Layer.run_callbacks enabled cbs s) !! id = spans s !! id /\
  in_tracing (Layer.run_callbacks enabled cbs s) = in_tracing s.
Proof.
  revert s. induction cbs as [|[t cb] cbs IH]; intros s H; [done|]. apply Forall_cons in H as [Hm H].
  change (Layer.run_callbacks enabled ((t, cb) :: cbs) s)
    with (Layer.run_callbacks enabled cbs (run t cb s)).
  destruct (IH (run t cb s) H) as [-> ->]. by rewrite run_other, run_flags.
Qed.

(** *** The ids of the threads *)

(** The id of the thread a callback is on. *)
Definition callback_tid (cb : Layer.callback (Filter := Filter)) : Z :=
  let '(Layer.Callback env _ _) := cb in as_signed 32 (Layer.c_tid env).

(** What a number has stored after calls, from what it had stored before: the id of the
    first thread with the number that was looked up. *)
Definition stored_by (t : nat) (calls : list (nat * Layer.callback (Filter := Filter))) (before after : option Z) : Prop :=
  match before with
  | Some tid => after = Some tid
  | None => forall tid, after = Some tid -> exists cb, (t, cb) ∈ calls /\ tid = callback_tid cb
  end.

Lemma body_ids t env k s t' :
  thread_ids (Layer.body enabled t env k s) !! t' = thread_ids s !! t' \/
  (thread_ids s !! t' = None /\ t' = t /\
   thread_ids (Layer.body enabled t env k s) !! t' = Some (as_signed 32 (Layer.c_tid env))).
Proof.
  assert (forall s, thread_ids (Layer.get_thread_id t env s).2 !! t' = thread_ids s !! t' \/
    (thread_ids s !! t' = None /\ t' = t /\
     thread_ids (Layer.get_thread_id t env s).2 !! t' = Some (as_signed 32 (Layer.c_tid env)))) as Hid.
  { intros s0. unfold Layer.get_thread_id. destruct (thread_ids s0 !! t) eqn:E; [by left|]. cbn.
    destruct (decide (t' = t)) as [->|]; [right; by rewrite lookup_insert_eq|left; by rewrite lookup_insert_ne]. }
  specialize (Hid s). destruct k as [id m fs|id|id|m fs]; cbn [Layer.body];
    unfold Layer.on_new_span, Layer.on_enter, Layer.on_exit, Layer.on_event; destruct (Layer.get_thread_id t env s) as [tid s0];
    unfold Layer.submit, Layer.set_span; repeat break_goal; (by left) || exact Hid.
Qed.

Lemma run_ids t cb s t' : stored_by t' [(t, cb)] (thread_ids s !! t') (thread_ids (run t cb s) !! t').
Proof.
  assert (stored_by t' [(t, cb)] (thread_ids s !! t') (thread_ids s !! t')) as Hsame by (unfold stored_by; by destruct (_ !! _)).
  destruct cb as [env k nested]. destruct (decide (t ∈ in_tracing s)) as [Ht|Ht].
  - rewrite run_guarded by done. by rewrite (proj2 (register_submitted k s)).
  - rewrite run_outermost by done. cbn [Layer.set_in_tracing thread_ids].
    pose proof (body_ids t env k (entered t k nested s) t') as Hb.
    destruct (entered_keep t k nested s) as (_ & _ & E & _). rewrite E in Hb. destruct Hb as [->|(Hn & -> & ->)]; [done|].
    rewrite Hn. intros tid [= <-]. eexists. split; [by left|done].
Qed.

Lemma stored_by_app t l1 l2 o1 o2 o3 : stored_by t l1 o1 o2 -> stored_by t l2 o2 o3 -> stored_by t (l1 ++ l2) o1 o3.
Proof.
  unfold stored_by. destruct o1 as [tid|]; [intros ->; done|]. intros H1 H2 tid ->. destruct o2 as [tid2|].
  - injection H2 as <-. destruct (H1 tid eq_refl) as (cb & Hin & ->). exists cb. split; [|done]. apply elem_of_app. by left.
  - destruct (H2 tid eq_refl) as (cb & Hin & ->). exists cb. split; [|done]. apply elem_of_app. by right.
Qed.

Lemma runs_ids calls s t : stored_by t calls (thread_ids s !! t) (thread_ids (Layer.run_callbacks enabled calls s) !! t).
Proof.
  revert s. induction calls as [|[t' cb] calls IH]; intros s; [unfold stored_by; by destruct (_ !! _)|].
  change (Layer.run_callbacks enabled ((t', cb) :: calls) s) with (Layer.run_callbacks enabled calls (run t' cb s)).
  eapply (stored_by_app t [(t', cb)] calls); [apply run_ids|apply IH].
Qed.

(** *** The life of a span *)

Section SpanLife.

Context (s : LayerState) (id : Z) (meta : SpanMeta) (fields : list (string * FieldValue)).
Context (t1 t2 t3 : nat) (env1 env2 env3 : Layer.CallEnv (Filter := Filter)).
Context (n1 n2 n3 : list (Layer.callback (Filter := Filter))).
Context (cbs1 cbs2 : list (nat * Layer.callback (Filter := Filter))).
Context (st1 st3 : TracingState Filter).

Hypothesis Hfree : (t1 ∉ in_tracing s) /\ (t2 ∉ in_tracing s) /\ (t3 ∉ in_tracing s).
Hypothesis Hnested :
  existsb (mentions id) n1 = false /\ existsb (mentions id) n2 = false /\
  existsb (mentions id) n3 = false.
Hypothesis Hothers :
  Forall (fun '(_, cb) => mentions id cb = false) cbs1 /\
  Forall (fun '(_, cb) => mentions id cb = false) cbs2.
Hypothesis Hst1 : (forall n, Layer.c_ext env1 n = Some st1) /\ enabled (env_filter st1) meta = true.
Hypothesis Hst3 : forall n, Layer.c_ext env3 n = Some st3.

Let runs := Layer.run_callbacks enabled.

Definition after_new : LayerState :=
  runs cbs1 (run t1 (Layer.Callback env1 (Layer.NewSpan id meta fields) n1) s).

Definition after_enter : LayerState :=
  runs cbs2 (run t2 (Layer.Callback env2 (Layer.Enter id) n2) after_new).

Lemma after_new_span :
  in_tracing after_new = in_tracing s /\
  spans after_new !! id =
    Some {| rs_meta := meta;
            rs_data := Some {| sd_labels := Layer.labels_of meta fields;
                               start_timestamp := 0 |} |}.
Proof using All.
  destruct Hfree as (H1 & _). destruct Hothers as [Hc1 _]. destruct Hnested as (Hn & _).
  destruct Hst1 as [He Hen]. unfold after_new, runs.
  destruct (runs_other id cbs1
    (run t1 (Layer.Callback env1 (Layer.NewSpan id meta fields) n1) s) Hc1) as [-> ->].
  rewrite run_flags. split; [done|]. rewrite run_outermost by done. cbn.
  destruct (entered_keep t1 (Layer.NewSpan id meta fields) n1 s) as (_ & _ & _ & Hs).
  specialize (Hs id Hn). cbn in Hs. rewrite lookup_insert_eq in Hs.
  unfold Layer.on_new_span. rewrite !He. cbn. rewrite Hen. cbn. rewrite Hs. cbn.
  by rewrite lookup_insert_eq.
Qed.

(** An [Enter] stamps the span with the clock of the extension it finds, if it
    finds one. *)
Lemma after_enter_span :
  in_tracing after_enter = in_tracing s /\
  spans after_enter !! id =
    Some {| rs_meta := meta;
            rs_data := Some {| sd_labels := Layer.labels_of meta fields;
                               start_timestamp :=
                                 if Layer.is_active (Layer.c_ext env2 0)
                                 then Layer.get_timestamp env2 (Layer.ext_clock_id (Layer.c_ext env2 1))
                                 else 0 |} |}.
Proof using All.
  destruct Hfree as (_ & H2 & _). destruct Hothers as [_ Hc2]. destruct Hnested as (_ & Hn & _).
  destruct after_new_span as [Hf Hsp]. unfold after_enter, runs.
  destruct (runs_other id cbs2
    (run t2 (Layer.Callback env2 (Layer.Enter id) n2) after_new) Hc2) as [-> ->].
  rewrite run_flags. split; [done|].
  rewrite run_outermost by (by rewrite Hf). cbn.
  destruct (entered_keep t2 (Layer.Enter id) n2 after_new) as (_ & _ & _ & Hs).
  specialize (Hs id Hn). cbn in Hs. rewrite Hsp in Hs.
  unfold Layer.on_enter. destruct (Layer.is_active (Layer.c_ext env2 0)); cbn [negb]; [|done].
  rewrite Hs. cbn. by rewrite lookup_insert_eq.
Qed.

Lemma exit_submits :
  submitted (run t3 (Layer.Callback env3 (Layer.Exit id) n3) after_enter) =
  submitted after_enter ++
    [(handle st3, Event.Span (Span.mk _ _ _ _ _ (md_name meta) id
        (if Layer.is_active (Layer.c_ext env2 0)
         then Layer.get_timestamp env2 (Layer.ext_clock_id (Layer.c_ext env2 1)) else 0)
        (Layer.get_timestamp env3 (clock_id st3))
        (TrackId.Thread (default (as_signed 32 (Layer.c_tid env3)) (thread_ids after_enter !! t3))
           (Layer.c_pid env3))
        (Layer.labels_of meta fields)))].
Proof using All.
  destruct Hfree as (_ & _ & H3). destruct Hnested as (_ & _ & Hn).
  destruct after_enter_span as [Hf Hsp]. rewrite run_outermost by (by rewrite Hf). cbn.
  destruct (entered_keep t3 (Layer.Exit id) n3 after_enter) as (_ & Hlog & Hids & Hs).
  specialize (Hs id Hn). cbn in Hs. rewrite Hsp in Hs.
  unfold Layer.on_exit. rewrite !Hst3. cbn [Layer.is_active negb Layer.ext_clock_id]. rewrite Hs.
  destruct (Layer.get_thread_id _ _ _) as [tid s'] eqn:E.
  destruct (get_thread_id_frame _ _ _ _ _ E) as (-> & _ & _ & Hlog'). cbn.
  by rewrite Hlog', Hlog, Hids.
Qed.

End SpanLife.

End LayerLemmas.

(** ** What the layer reports *)

(** C37. The reentrancy guard: a callback made on a thread that is inside the layer
    does nothing in the layer, so that whatever a callback causes on its own
    thread (formatting a value, submitting an event) cannot recurse; after every
    callback the flags of all threads are what they were. *)
Theorem reentrancy_guarded {Filter : Type} (enabled : Filter -> SpanMeta -> bool)
    t env k nested s :
  let s' := Layer.run_callback enabled t (Layer.Callback env k nested) s in
  in_tracing s' = in_tracing s /\
  (t ∈ in_tracing s -> s' = Layer.register k s) /\
  ((t ∉ in_tracing s) -> exists s0,
    submitted s0 = submitted s /\ thread_ids s0 = thread_ids s /\
    submitted s' = submitted (Layer.body enabled t env k s0)).
Proof.
  cbn zeta. split; [apply run_flags|]. split; [by intros; apply run_guarded|].
  intros Ht. exists (entered t k nested s). rewrite run_outermost by done.
  by destruct (entered_keep t k nested s) as (_ & H1 & H2 & _).
Qed.


(** A span that is entered while the extension is stopped, and left after it was
    started again, is reported with the start timestamp zero: it was created
    under an earlier start, and nothing stamps it in between.  It goes to the
    handle of the new start, with an end timestamp of the clock that start chose. *)
Lemma restarted_span_stale {Filter : Type} (try_new : string -> result string Filter)
    (enabled : Filter -> SpanMeta -> bool) s id meta fields t env1 env2 env3 args1 args3 h1 h3 f x1 x2 x3 :
  (t ∉ in_tracing s) ->
  try_new (log_filter args1) = Ok f /\ enabled f meta = true ->
  Layer.ext_start try_new args1 h1 None = (Ok tt, x1) ->
  Layer.ext_stop x1 = (Ok tt, x2) ->
  Layer.ext_start try_new args3 h3 x2 = (Ok tt, x3) ->
  (forall n, Layer.c_ext env1 n = x1) -> (forall n, Layer.c_ext env2 n = x2) ->
  (forall n, Layer.c_ext env3 n = x3) ->
  let s' := Layer.run_callbacks enabled
    [ (t, Layer.Callback env1 (Layer.NewSpan id meta fields) []);
      (t, Layer.Callback env2 (Layer.Enter id) []);
      (t, Layer.Callback env3 (Layer.Exit id) []) ] s in
  exists labels track, last (submitted s') =
    Some (h3, Event.Span (Span.mk _ _ _ _ _ (md_name meta) id 0
      (Layer.get_timestamp env3 (Layer.clock_of (timestamp_type args3))) track labels)).
Proof.
  intros Hfree [Hf Hen] H1 H2 H3 He1 He2 He3. cbn zeta.
  unfold Layer.ext_start in H1, H3. unfold Layer.ext_stop in H2. rewrite Hf in H1.
  injection H1 as <-. injection H2 as <-. destruct (try_new (log_filter args3)) as [f3|]; [|done].
  injection H3 as <-.
  pose proof (exit_submits enabled s id meta fields t t t env1 env2 env3 [] [] [] [] []
    (mkTracingState (Layer.clock_of (timestamp_type args1)) f h1)
    (mkTracingState (Layer.clock_of (timestamp_type args3)) f3 h3)) as H.
  rewrite !He2 in H. unfold after_enter, after_new, Layer.run_callbacks in *. cbn [foldl] in *.
  rewrite H by (done || by split_and!). rewrite last_snoc. by do 2 eexists.
Qed.

(** An event outside the layer is submitted exactly when the extension is found
    active, lets it pass and is still there for the submission; every load finds
    the extension as it is then.  The instant carries the name, the fields with
    the target, the clock of the extension and the track of the thread. *)
Lemma event_reported {Filter : Type} (enabled : Filter -> SpanMeta -> bool)
    t env meta fields s :
  (t ∉ in_tracing s) ->
  submitted (Layer.run_callback enabled t (Layer.Callback env (Layer.OnEvent meta fields) []) s) =
  submitted s ++
    match Layer.c_ext env 0, Layer.c_ext env 3 with
    | Some _, Some st =>
        if Layer.is_enabled enabled (Layer.c_ext env 1) meta then
          [(handle st, Event.Instant (Instant.mk _ _ _ _ _ (md_name meta)
              (Layer.get_timestamp env (Layer.ext_clock_id (Layer.c_ext env 2)))
              (TrackId.Thread (default (as_signed 32 (Layer.c_tid env)) (thread_ids s !! t))
                 (Layer.c_pid env))
              (Layer.labels_of meta fields)))]
        else []
    | _, _ => []
    end.
Proof.
  intros Ht. rewrite run_outermost by done.
  cbn [Layer.body Layer.set_in_tracing submitted]. unfold Layer.on_event.
  destruct (entered_keep (Filter := Filter) t (Layer.OnEvent meta fields) [] s) as (_ & Hlog & Hids & _).
  set (s0 := entered t (Layer.OnEvent meta fields) [] s) in *. clearbody s0.
  destruct (Layer.c_ext env 0); cbn [Layer.is_active negb]; [|by rewrite Hlog, app_nil_r].
  destruct (Layer.is_enabled enabled (Layer.c_ext env 1) meta); cbn [negb].
  2: { rewrite Hlog. by destruct (Layer.c_ext env 3); rewrite app_nil_r. }
  destruct (Layer.get_thread_id _ _ _) as [tid s'] eqn:E.
  destruct (get_thread_id_frame _ _ _ _ _ E) as (-> & _ & _ & Hlog').
  destruct (Layer.c_ext env 3); cbn; rewrite Hlog', Hlog, ?Hids, ?app_nil_r; done.
Qed.

(** *** The theorems at work *)

Definition no_layer : LayerState := mkLayer ∅ ∅ ∅ [].

Definition a_meta : SpanMeta := mkSpanMeta "span" "crate".

Definition at_time (now : Z) (x : option (TracingState unit)) : Layer.CallEnv :=
  Layer.mkCallEnv 7 6 (fun _ => Some (0, now)) (fun _ => x).

Definition a_start (clock : Z) (handle : nat) : option (TracingState unit) :=
  Some (mkTracingState clock tt handle).


Lemma restarted_span_stale_witness :
  let args := mkTracingArgs "info"%string Monotonic in
  exists labels track, last (submitted (Layer.run_callbacks (fun _ _ => true)
    [ (0, Layer.Callback (at_time 10 (a_start 1 4)) (Layer.NewSpan 3 a_meta []) []);
      (0, Layer.Callback (at_time 20 None) (Layer.Enter 3) []);
      (0, Layer.Callback (at_time 30 (a_start 1 5)) (Layer.Exit 3) []) ]%nat no_layer)) =
    Some (5%nat, Event.Span (Span.mk _ _ _ _ _ "span"%string 3 0 30 track labels)).
Proof.
  cbn zeta. pose (args := mkTracingArgs "info"%string Monotonic).
  exact (restarted_span_stale (fun _ => Ok tt) (fun _ _ => true) no_layer 3 a_meta [] 0
    (at_time 10 (a_start 1 4)) (at_time 20 None) (at_time 30 (a_start 1 5)) args args 4 5 tt
    (a_start 1 4) None (a_start 1 5) (fun H => not_elem_of_empty (C := gset nat) 0%nat H)
    (conj eq_refl eq_refl) eq_refl eq_refl eq_refl
    (fun _ => eq_refl) (fun _ => eq_refl) (fun _ => eq_refl)).
Defined.

(** The second event comes from a thread that has the number of an ended one: it
    is reported under the thread id 7 of the first, not under its own. *)
Lemma event_reported_witness :
  let env1 := at_time 10 (a_start 1 4) in
  let env2 := Layer.mkCallEnv 9 6 (fun _ => Some (0, 20)) (fun _ => a_start 1 4) in
  let s1 := Layer.run_callback (fun _ _ => true) 0 (Layer.Callback env1 (Layer.OnEvent a_meta []) []) no_layer in
  map (fun '(_, e) => match e with Event.Instant i => Some (Instant.track_id i) | _ => None end)
    (submitted (Layer.run_callback (fun _ _ => true) 0 (Layer.Callback env2 (Layer.OnEvent a_meta []) []) s1)) =
  [Some (TrackId.Thread 7 6); Some (TrackId.Thread 7 6)].
Proof.
  cbn zeta. rewrite (event_reported (fun (_ : unit) _ => true)).
  - by vm_compute.
  - apply (bool_decide_unpack (0%nat ∉ _)). by vm_compute.
Defined.
