(* ===== verification/Text.v ===== *)
(** * Text

    What the collectors of the crate [bpf] use of Rust's text functions: bytes
    and strings, the check of UTF-8, [trim], [parse::<i32>] and the last segment
    of a path (the calls are in src/bpf/src/threadtrack.rs and lib.rs). *)

From S2P Require Import Prelude.
From Stdlib Require Import Ascii.
Open Scope Z_scope.

(** ** Bytes and strings *)

Definition char_of (b : Z) : ascii := ascii_of_N (Z.to_N b).

Definition byte_of (c : ascii) : Z := Z.of_N (N_of_ascii c).

Definition str_of (bs : list Z) : string := String.string_of_list_ascii (map char_of bs).

Definition bytes_of (s : string) : list Z := map byte_of (String.list_ascii_of_string s).

(** The bytes in front of the first zero byte, or all of them. *)
Fixpoint until_nul (bs : list Z) : list Z :=
  match bs with
  | [] => []
  | b :: bs => if b =? 0 then [] else b :: until_nul bs
  end.

(** ** [str::from_utf8] *)

Definition byte_in (lo hi b : Z) : bool := (lo <=? b) && (b <=? hi).

Definition continuation (b : Z) : bool := byte_in 128 191 b.

(** The second byte of a character of three or four bytes. *)
Definition second_of_three (b c : Z) : bool :=
  if b =? 224 then byte_in 160 191 c
  else if b =? 237 then byte_in 128 159 c
  else byte_in 225 239 b && continuation c.

Definition second_of_four (b c : Z) : bool :=
  if b =? 240 then byte_in 144 191 c
  else if b =? 244 then byte_in 128 143 c
  else byte_in 241 243 b && continuation c.

Fixpoint utf8_valid (bs : list Z) : bool :=
  match bs with
  | [] => true
  | b :: bs1 =>
      if byte_in 0 127 b then utf8_valid bs1
      else match bs1 with
      | [] => false
      | c :: bs2 =>
          if byte_in 194 223 b then continuation c && utf8_valid bs2
          else match bs2 with
          | [] => false
          | d :: bs3 =>
              if byte_in 224 239 b then second_of_three b c && continuation d && utf8_valid bs3
              else match bs3 with
              | [] => false
              | e :: bs4 =>
                  byte_in 240 244 b && second_of_four b c && continuation d && continuation e
                  && utf8_valid bs4
              end
          end
      end
  end.

(** ** [String::from_utf8_lossy] *)

(** The replacement character, for each longest prefix of a character that does
    not go on as one. *)
Definition replacement : list Z := [239; 191; 189].

Fixpoint utf8_lossy (bs : list Z) : list Z :=
  match bs with
  | [] => []
  | b :: bs1 =>
      if byte_in 0 127 b then b :: utf8_lossy bs1
      else if byte_in 194 223 b then
        match bs1 with
        | c :: bs2 =>
            if continuation c then b :: c :: utf8_lossy bs2 else replacement ++ utf8_lossy bs1
        | [] => replacement
        end
      else if byte_in 224 239 b then
        match bs1 with
        | c :: bs2 =>
            if second_of_three b c then
              match bs2 with
              | d :: bs3 =>
                  if continuation d then b :: c :: d :: utf8_lossy bs3
                  else replacement ++ utf8_lossy bs2
              | [] => replacement
              end
            else replacement ++ utf8_lossy bs1
        | [] => replacement
        end
      else if byte_in 240 244 b then
        match bs1 with
        | c :: bs2 =>
            if second_of_four b c then
              match bs2 with
              | d :: bs3 =>
                  if continuation d then
                    match bs3 with
                    | e :: bs4 =>
                        if continuation e then b :: c :: d :: e :: utf8_lossy bs4
                        else replacement ++ utf8_lossy bs3
                    | [] => replacement
                    end
                  else replacement ++ utf8_lossy bs2
              | [] => replacement
              end
            else replacement ++ utf8_lossy bs1
        | [] => replacement
        end
      else replacement ++ utf8_lossy bs1
  end.

(** ** [str::trim] *)

(** The encodings of the characters with the property White_Space. *)
Definition whitespace : list (list Z) :=
  [[9]; [10]; [11]; [12]; [13]; [32]; [194; 133]; [194; 160]; [225; 154; 128];
   [226; 128; 128]; [226; 128; 129]; [226; 128; 130]; [226; 128; 131]; [226; 128; 132];
   [226; 128; 133]; [226; 128; 134]; [226; 128; 135]; [226; 128; 136]; [226; 128; 137];
   [226; 128; 138]; [226; 128; 168]; [226; 128; 169]; [226; 128; 175]; [226; 129; 159];
   [227; 128; 128]].

(** Remove the encodings of [ws] in front, at most [n] of them. *)
Fixpoint strip_front (ws : list (list Z)) (n : nat) (bs : list Z) : list Z :=
  match n with
  | O => bs
  | S n =>
      match List.find (fun w => bool_decide (take (length w) bs = w)) ws with
      | Some w => strip_front ws n (drop (length w) bs)
      | None => bs
      end
  end.

Definition trim_bytes (bs : list Z) : list Z :=
  let front := strip_front whitespace (length bs) bs in
  reverse (strip_front (map reverse whitespace) (length front) (reverse front)).

Definition trim (s : string) : string := str_of (trim_bytes (bytes_of s)).

(** ** [split_whitespace], [lines], [replace], [split_once], [join] *)

(** Each step looks at one byte at least, so the length is fuel enough. *)
Fixpoint split_ws (n : nat) (word : list Z) (bs : list Z) : list (list Z) :=
  let close := match word with [] => [] | _ => [reverse word] end in
  match n, bs with
  | S n, b :: rest =>
      match List.find (fun w => bool_decide (take (length w) bs = w)) whitespace with
      | Some w => close ++ split_ws n [] (drop (length w) bs)
      | None => split_ws n (b :: word) rest
      end
  | _, _ => close
  end.

Definition split_whitespace (bs : list Z) : list (list Z) := split_ws (length bs) [] bs.

(** The pieces between line feeds, without the last one if it is empty and without a
    carriage return at the end of each. *)
Fixpoint split_lf (line : list Z) (bs : list Z) : list (list Z) :=
  match bs with
  | [] => match line with [] => [] | _ => [reverse line] end
  | b :: bs =>
      if b =? 10 then reverse (match line with 13 :: line => line | _ => line end) :: split_lf [] bs
      else split_lf (b :: line) bs
  end.

Definition lines (bs : list Z) : list (list Z) := split_lf [] bs.

Fixpoint replace_from (n : nat) (pat rep bs : list Z) : list Z :=
  match n, bs with
  | S n, b :: rest =>
      if bool_decide (take (length pat) bs = pat)
      then rep ++ replace_from n pat rep (drop (length pat) bs)
      else b :: replace_from n pat rep rest
  | _, _ => bs
  end.

Definition replace (pat rep bs : list Z) : list Z := replace_from (length bs) pat rep bs.

Fixpoint split_once (c : ascii) (s : string) : option (string * string) :=
  match s with
  | EmptyString => None
  | String d s =>
      if Ascii.eqb d c then Some (EmptyString, s)
      else '(a, b) ← split_once c s; Some (String d a, b)
  end.

Fixpoint join_with (sep : string) (l : list string) : string :=
  match l with
  | [] => EmptyString
  | [s] => s
  | s :: l => (s ++ sep ++ join_with sep l)%string
  end.

(** The members of a set of strings in the order of [sort_unstable]. *)
Fixpoint insert_string_sorted (s : string) (l : list string) : list string :=
  match l with
  | [] => [s]
  | t :: l' =>
      match String.compare s t with
      | Lt => s :: l
      | Eq => l
      | Gt => t :: insert_string_sorted s l'
      end
  end.

Definition sorted_set (l : list string) : list string := foldr insert_string_sorted [] l.

(** ** [str::parse::<u64>] *)

Fixpoint u64_digits (acc : Z) (s : string) : result string Z :=
  match s with
  | EmptyString => Ok acc
  | String c s =>
      let d := byte_of c - 48 in
      if negb (byte_in 0 9 d) then Err "invalid digit found in string"%string
      else if u64_max <? 10 * acc + d then Err "number too large to fit in target type"%string
      else u64_digits (10 * acc + d) s
  end.

Definition parse_u64 (s : string) : result string Z :=
  match s with
  | EmptyString => Err "cannot parse integer from empty string"%string
  | String c r =>
      if Ascii.eqb c "+"%char then
        match r with
        | EmptyString => Err "invalid digit found in string"%string
        | _ => u64_digits 0 r
        end
      else u64_digits 0 s
  end.

(** ** [str::parse::<i32>] *)

Fixpoint digits (acc : Z) (s : string) : option Z :=
  match s with
  | EmptyString => Some acc
  | String c s =>
      let d := byte_of c - 48 in
      if byte_in 0 9 d then digits (10 * acc + d) s else None
  end.

Definition parse_i32 (s : string) : option Z :=
  let '(sign, ds) :=
    match s with
    | String c r =>
        if Ascii.eqb c "-"%char then (-1, r) else if Ascii.eqb c "+"%char then (1, r) else (1, s)
    | EmptyString => (1, s)
    end in
  match ds with
  | EmptyString => None
  | _ =>
      n ← digits 0 ds;
      let v := sign * n in
      if (- 2 ^ 31 <=? v) && (v <? 2 ^ 31) then Some v else None
  end.

(** ** [split('/').next_back()] *)

Fixpoint segments (s : string) : list string :=
  match s with
  | EmptyString => [EmptyString]
  | String c s =>
      if Ascii.eqb c "/"%char then EmptyString :: segments s
      else match segments s with
      | seg :: segs => String c seg :: segs
      | [] => [String c EmptyString]
      end
  end.

Definition base_name (s : string) : string := default s (last (segments s)).

(** ** [format!("{:x}")] of a [u64] *)

Definition hex_digit (d : Z) : ascii := char_of (if d <? 10 then 48 + d else 87 + d).

(** The digits of [x] in front of [acc], for [n] digits at most. *)
Fixpoint hex_digits (n : nat) (x : Z) (acc : string) : string :=
  match n with
  | O => acc
  | S n =>
      let acc := String.String (hex_digit (x mod 16)) acc in
      if x / 16 =? 0 then acc else hex_digits n (x / 16) acc
  end.

Definition hex (x : Z) : string := hex_digits 16 x "".

(** ** Lemmas *)

Example text_examples :
  base_name "/usr/bin/node" = "node"%string /\ base_name "node" = "node"%string /\
  base_name "a/" = ""%string /\
  parse_i32 "4294967" = Some 4294967 /\ parse_i32 "2147483648" = None /\
  parse_i32 "-2147483648" = Some (- 2147483648) /\ parse_i32 "self" = None /\ parse_i32 "+" = None /\
  bytes_of (trim (str_of [32; 226; 128; 129; 97; 32; 98; 194; 160; 10])) = [97; 32; 98] /\
  utf8_valid [97; 195; 169; 226; 130; 172; 240; 159; 146; 169] = true /\
  hex 0 = "0"%string /\ hex 48879 = "beef"%string /\ hex u64_max = "ffffffffffffffff"%string /\
  utf8_valid [97; 195] = false /\ utf8_valid [237; 160; 128] = false.
Proof. by vm_compute. Qed.

Lemma until_nul_app (bs rest : list Z) :
  Forall (fun b => b <> 0) bs -> until_nul (bs ++ 0 :: rest) = bs.
Proof.
  induction 1 as [|b bs Hb _ IH]; [done|]. cbn. rewrite IH.
  by destruct (Z.eqb_spec b 0).
Qed.

Lemma str_of_nil (bs : list Z) : String.eqb (str_of bs) "" = match bs with [] => true | _ => false end.
Proof. by destruct bs. Qed.

(** Appending to valid text leaves the rest to be checked. *)
Lemma utf8_valid_app (bs rest : list Z) :
  utf8_valid bs = true -> utf8_valid (bs ++ rest) = utf8_valid rest.
Proof.
  remember (length bs) as n eqn:Hn. revert bs Hn.
  induction (lt_wf n) as [n _ IH]. intros bs -> H.
  assert (forall bs', (length bs' < length bs)%nat -> utf8_valid bs' = true ->
    utf8_valid (bs' ++ rest) = utf8_valid rest) as IH' by (intros bs' Hl; by apply (IH _ Hl)).
  clear IH. destruct bs as [|b bs]; [done|]. cbn in *.
  destruct (byte_in 0 127 b); [apply IH'; [lia|done]|].
  destruct bs as [|c bs]; [done|]. cbn in *.
  destruct (byte_in 194 223 b).
  { apply andb_prop in H as [-> H]. apply IH'; [lia|done]. }
  destruct bs as [|d bs]; [done|]. cbn in *.
  destruct (byte_in 224 239 b).
  { apply andb_prop in H as [H1 H]. rewrite H1. apply IH'; [lia|done]. }
  destruct bs as [|e bs]; [done|]. cbn in *.
  apply andb_prop in H as [H1 H]. rewrite H1. apply IH'; [lia|done].
Qed.

(** What is text is not changed by [utf8_lossy]. *)
Lemma utf8_lossy_valid (bs : list Z) : utf8_valid bs = true -> utf8_lossy bs = bs.
Proof.
  remember (length bs) as n eqn:Hn. revert bs Hn.
  induction (lt_wf n) as [n _ IH]. intros bs -> H.
  assert (forall bs', (length bs' < length bs)%nat -> utf8_valid bs' = true -> utf8_lossy bs' = bs')
    as IH' by (intros bs' Hl; by apply (IH _ Hl)).
  clear IH. destruct bs as [|b bs]; [done|]. cbn in *.
  destruct (byte_in 0 127 b); [by rewrite IH' by (lia || done)|].
  destruct bs as [|c bs]; [done|]. cbn in *.
  destruct (byte_in 194 223 b).
  { apply andb_prop in H as [-> H]. by rewrite IH' by (lia || done). }
  destruct bs as [|d bs]; [done|]. cbn in *.
  destruct (byte_in 224 239 b).
  { apply andb_prop in H as [H1 H]. apply andb_prop in H1 as [-> ->]. by rewrite IH' by (lia || done). }
  destruct bs as [|e bs]; [done|]. cbn in *.
  apply andb_prop in H as [H1 H]. apply andb_prop in H1 as [H1 ->]. apply andb_prop in H1 as [H1 ->].
  apply andb_prop in H1 as [-> ->]. by rewrite IH' by (lia || done).
Qed.

Example text_examples' :
  utf8_lossy [97; 195; 98; 240; 159; 146; 32; 255] =
    [97] ++ replacement ++ [98] ++ replacement ++ [32] ++ replacement /\
  split_whitespace (bytes_of " 36 35  98:0 ") = map bytes_of ["36"; "35"; "98:0"]%string /\
  lines [97; 13; 10; 10; 98] = [[97]; []; [98]] /\
  replace (bytes_of "aa") (bytes_of "b") (bytes_of "aaaxa") = bytes_of "baxa" /\
  split_once ":"%char "8:1:2" = Some ("8", "1:2")%string /\
  join_with "," ["a"; "b"; "c"]%string = "a,b,c"%string /\
  sorted_set ["xfs"; "ext4"; "xfs"; "btrfs"]%string = ["btrfs"; "ext4"; "xfs"]%string /\
  parse_u64 "18446744073709551615" = Ok u64_max /\
  parse_u64 "18446744073709551616" = Err "number too large to fit in target type"%string /\
  parse_u64 "-1" = Err "invalid digit found in string"%string.
Proof. by vm_compute. Qed.
