(* ===== verification/Float.v ===== *)
(** * Double-precision numbers

    Rust's [f64] as the collectors of the crate [bpf] compute with it: the
    binary64 numbers of the Standard Library's [SpecFloat] (round to nearest,
    ties to even), the conversions from and to [u64], [ceil] and [clamp], and the
    64 bits of a number, which is the form the protocol moves. *)

From Stdlib Require Import SpecFloat.
From S2P Require Import Prelude.
Open Scope Z_scope.

Definition f64 : Type := spec_float.

Definition fdiv : f64 -> f64 -> f64 := SFdiv 53 1024.

Definition fmul : f64 -> f64 -> f64 := SFmul 53 1024.

(** [x as f64]; a literal of the source is the quotient of two integers that
    are exact, so it is the double nearest to the literal. *)
Definition of_int (x : Z) : f64 := binary_normalize 53 1024 x 0 false.

Definition ratio (a b : Z) : f64 := fdiv (of_int a) (of_int b).

(** [f64::ceil] *)
Definition ceil (x : f64) : f64 :=
  match x with
  | S754_finite s m e =>
      if 0 <=? e then x
      else
        let n := if s then Zneg m else Zpos m in
        binary_normalize 53 1024 (- ((- n) / 2 ^ (- e))) 0 s
  | _ => x
  end.

(** [x as u64]: towards zero, saturating, a NaN is zero. *)
Definition to_u64 (x : f64) : Z :=
  match x with
  | S754_finite false m e =>
      Z.min u64_max (if 0 <=? e then Zpos m * 2 ^ e else Zpos m / 2 ^ (- e))
  | S754_infinity false => u64_max
  | _ => 0
  end.

(** [x.clamp(lo, hi)] *)
Definition clamp (lo hi x : f64) : f64 :=
  if SFltb x lo then lo else if SFltb hi x then hi else x.

(** [f64::to_bits], with one pattern for every NaN. *)
Definition to_bits (x : f64) : Z :=
  let sign (s : bool) := if s then 2 ^ 63 else 0 in
  match x with
  | S754_zero s => sign s
  | S754_infinity s => sign s + 2047 * 2 ^ 52
  | S754_nan => 2047 * 2 ^ 52 + 2 ^ 51
  | S754_finite s m e =>
      if 2 ^ 52 <=? Zpos m then sign s + (e + 1075) * 2 ^ 52 + (Zpos m - 2 ^ 52)
      else sign s + Zpos m
  end.

Example float_examples :
  to_bits (of_int 1) = 4607182418800017408 /\
  to_bits (ratio 95 100) = 4606732058837280358 /\
  to_bits (ratio 99 100) = 4607092346807469998 /\
  to_bits (fdiv (of_int 0) (of_int 0)) = to_bits S754_nan /\
  to_bits (of_int u64_max) = 4895412794951729152 /\
  to_u64 (ceil (fmul (of_int 10) (ratio 95 100))) = 10 /\
  to_u64 (ceil (fmul (of_int 100) (ratio 1 2))) = 50 /\
  to_bits (clamp (of_int 0) (of_int 100) (of_int 250)) = to_bits (of_int 100).
Proof. by vm_compute. Qed.

(** ** Lemmas *)

Lemma to_u64_bound (x : f64) : 0 <= to_u64 x <= u64_max.
Proof.
  unfold to_u64. destruct x as [| [] | |[] m e]; try (unfold u64_max; lia).
  unfold u64_max. destruct (Z.leb_spec 0 e).
  - pose proof (Z.pow_nonneg 2 e ltac:(lia)). nia.
  - pose proof (Z.div_pos (Zpos m) (2 ^ (- e)) ltac:(lia)). lia.
Qed.
