(* ===== verification/BpfConfig.v ===== *)
(** * The configuration of the collectors

    The crate [bpf]: its errors, the configuration of its collectors and
    [BpfConfig::build] (src/bpf/src/lib.rs), with the configurations of the four
    collectors that can be restricted to processes (src/bpf/src/cpuutil.rs,
    profiler.rs, schedtrace.rs, nettrack.rs). *)

From S2P Require Import Prelude.

Inductive BpfError :=
| LoadError (message : string)
| AttachError (message : string)
| MapError (message : string).

Record ThreadTrackerConfig := mkThreadTrackerConfig { tt_ringbuf : Z }.

Record CpuUtilConfig := mkCpuUtilConfig {
  cu_frequency : Z;
  cu_pid_filters : list Z;
  cu_filter_process : list string;
  cu_ringbuf : Z
}.

Record ProfilerConfig := mkProfilerConfig {
  pr_frequency : Z;
  pr_kernel_samples : bool;
  pr_user_samples : bool;
  pr_pid_filters : list Z;
  pr_filter_process : list string;
  pr_debug_syms : bool;
  pr_perf_map : bool;
  pr_map_files : bool;
  pr_ringbuf : Z
}.

Record SchedTraceConfig := mkSchedTraceConfig {
  st_pid_filters : list Z;
  st_filter_process : list string;
  st_ringbuf : Z
}.

Inductive NetProtocol := Tcp | Udp.

Inductive NetDirection := Send | Receive.

Inductive NetScope := Host | Process | Peer.

Inductive NetMetric := Bytes | Operations | Errors.

Record NetTrackConfig := mkNetTrackConfig {
  nt_frequency : Z;
  nt_peer_frequency : Z;
  nt_ringbuf : Z;
  nt_scaled : bool;
  nt_protocols : list NetProtocol;
  nt_directions : list NetDirection;
  nt_scopes : list NetScope;
  nt_metrics : list NetMetric;
  nt_pid_filters : list Z;
  nt_filter_process : list string;
  nt_max_process_entries : Z;
  nt_max_peer_entries : Z;
  nt_max_peer_tracks : Z
}.

(** The collectors that can be restricted to processes. *)
Inductive Collector := CpuUtil | Profiler | SchedTrace | NetTrack.

#[export] Instance Collector_eq_dec : EqDecision Collector.
Proof. solve_decision. Defined.

#[export] Instance Collector_countable : Countable Collector.
Proof.
  refine (inj_countable' (fun c => match c with CpuUtil => 0 | Profiler => 1 | SchedTrace => 2 | NetTrack => 3 end)
    (fun n => match n with 0 => CpuUtil | 1 => Profiler | 2 => SchedTrace | _ => NetTrack end) _)%nat.
  by intros [].
Defined.

Definition all_collectors : list Collector := [CpuUtil; Profiler; SchedTrace; NetTrack].

(** A configuration with names of processes to restrict the collector to. *)
Class ProcessFiltered (C : Type) := {
  get_filter_process : C -> list string;
  set_filter_process : list string -> C -> C;
  get_set_filter l c : get_filter_process (set_filter_process l c) = l
}.

#[export] Instance CpuUtil_filtered : ProcessFiltered CpuUtilConfig := {
  get_filter_process := cu_filter_process;
  set_filter_process l c := mkCpuUtilConfig (cu_frequency c) (cu_pid_filters c) l (cu_ringbuf c);
  get_set_filter _ _ := eq_refl
}.

#[export] Instance Profiler_filtered : ProcessFiltered ProfilerConfig := {
  get_filter_process := pr_filter_process;
  set_filter_process l c :=
    mkProfilerConfig (pr_frequency c) (pr_kernel_samples c) (pr_user_samples c) (pr_pid_filters c) l
      (pr_debug_syms c) (pr_perf_map c) (pr_map_files c) (pr_ringbuf c);
  get_set_filter _ _ := eq_refl
}.

#[export] Instance SchedTrace_filtered : ProcessFiltered SchedTraceConfig := {
  get_filter_process := st_filter_process;
  set_filter_process l c := mkSchedTraceConfig (st_pid_filters c) l (st_ringbuf c);
  get_set_filter _ _ := eq_refl
}.

#[export] Instance NetTrack_filtered : ProcessFiltered NetTrackConfig := {
  get_filter_process := nt_filter_process;
  set_filter_process l c :=
    mkNetTrackConfig (nt_frequency c) (nt_peer_frequency c) (nt_ringbuf c) (nt_scaled c)
      (nt_protocols c) (nt_directions c) (nt_scopes c) (nt_metrics c) (nt_pid_filters c) l
      (nt_max_process_entries c) (nt_max_peer_entries c) (nt_max_peer_tracks c);
  get_set_filter _ _ := eq_refl
}.

Section Build.

(** The configurations of [block_io] and [perfcounter], which [build] passes on. *)
Context {BlockIoConfig PerfCounterConfig : Type}.

Record BpfConfig := mkBpfConfig {
  thread_tracker : option ThreadTrackerConfig;
  cpu_util : option CpuUtilConfig;
  nettrack : option NetTrackConfig;
  block_io : option BlockIoConfig;
  profiler : option ProfilerConfig;
  schedtrace : option SchedTraceConfig;
  perfcounter : option PerfCounterConfig;
  filter_process : list string
}.

(** The object of a collector is its configuration; the filters are sets. *)
Record BpfObject := mkBpfObject {
  o_threadtrack : option ThreadTrackerConfig;
  o_cpuutils : option CpuUtilConfig;
  o_nettrack : option NetTrackConfig;
  o_block_io : option BlockIoConfig;
  o_profiler : option ProfilerConfig;
  o_schedtrace : option SchedTraceConfig;
  o_perfcounter : option PerfCounterConfig;
  o_filters : Collector -> gset string;
  o_watched_tgids : gset Z
}.

Definition is_empty {A} (l : list A) : bool := match l with [] => true | _ => false end.

Definition needs {C} `{ProcessFiltered C} (global_filter : option (list string)) (cfg : option C) : bool :=
  match cfg with
  | Some cfg =>
      negb (is_empty (get_filter_process cfg)) || match global_filter with Some _ => true | None => false end
  | None => false
  end.

(** The configuration and the filters of a collector: a global filter replaces
    its own. *)
Definition filtered {C} `{ProcessFiltered C} (global_filter : option (list string)) (cfg : option C)
    : option C * gset string :=
  match cfg with
  | Some cfg =>
      let cfg := match global_filter with Some global => set_filter_process global cfg | None => cfg end in
      (Some cfg, list_to_set (get_filter_process cfg))
  | None => (None, ∅)
  end.

Definition build (self : BpfConfig) : result BpfError BpfObject :=
  let global_filter :=
    if negb (is_empty (filter_process self)) then Some (filter_process self) else None in
  let needs_process_filtering :=
    needs global_filter (cpu_util self) || needs global_filter (profiler self)
    || needs global_filter (schedtrace self) || needs global_filter (nettrack self) in
  if needs_process_filtering && match thread_tracker self with None => true | Some _ => false end then
    Err (LoadError "Thread tracker must be enabled when using process name filtering")
  else
    let '(cpuutils, cpuutil_filters) := filtered global_filter (cpu_util self) in
    let '(profiler, profiler_filters) := filtered global_filter (profiler self) in
    let '(schedtrace, schedtrace_filters) := filtered global_filter (schedtrace self) in
    let '(nettrack, nettrack_filters) := filtered global_filter (nettrack self) in
    Ok {| o_threadtrack := thread_tracker self;
          o_cpuutils := cpuutils;
          o_nettrack := nettrack;
          o_block_io := block_io self;
          o_profiler := profiler;
          o_schedtrace := schedtrace;
          o_perfcounter := perfcounter self;
          o_filters := fun c =>
            match c with
            | CpuUtil => cpuutil_filters
            | Profiler => profiler_filters
            | SchedTrace => schedtrace_filters
            | NetTrack => nettrack_filters
            end;
          o_watched_tgids := ∅ |}.

(** Whether a collector was configured. *)
Definition is_built (obj : BpfObject) (c : Collector) : bool :=
  match c with
  | CpuUtil => bool_decide (is_Some (o_cpuutils obj))
  | Profiler => bool_decide (is_Some (o_profiler obj))
  | SchedTrace => bool_decide (is_Some (o_schedtrace obj))
  | NetTrack => bool_decide (is_Some (o_nettrack obj))
  end.

(** The names a configuration restricts a collector to. *)
Definition own_filter (cfg : BpfConfig) (c : Collector) : option (list string) :=
  match c with
  | CpuUtil => get_filter_process <$> cpu_util cfg
  | Profiler => get_filter_process <$> profiler cfg
  | SchedTrace => get_filter_process <$> schedtrace cfg
  | NetTrack => get_filter_process <$> nettrack cfg
  end.

Definition effective_filter (cfg : BpfConfig) (c : Collector) : list string :=
  match own_filter cfg c with
  | Some own => if is_empty (filter_process cfg) then own else filter_process cfg
  | None => []
  end.

Lemma filtered_own {C} `{ProcessFiltered C} (global : list string) (x : option C) :
  let g := if negb (is_empty global) then Some global else None in
  bool_decide (is_Some (filtered g x).1) = bool_decide (is_Some (get_filter_process <$> x)) /\
  (filtered g x).2 =
    list_to_set match get_filter_process <$> x with
                | Some own => if is_empty global then own else global
                | None => []
                end /\
  (needs g x = false ->
   match get_filter_process <$> x with
   | Some own => if is_empty global then own else global
   | None => []
   end = []).
Proof.
  cbn zeta. destruct x as [x|]; [|done]. destruct global as [|name global]; cbn.
  - rewrite orb_false_r. split_and!; [done..|]. by destruct (get_filter_process x).
  - rewrite get_set_filter, orb_true_r. by split_and!.
Qed.

(** A build that succeeds has a thread tracker if any collector is restricted to
    named processes, and the filters in effect. *)
Lemma build_ok (cfg : BpfConfig) obj :
  build cfg = Ok obj ->
  (forall c, is_built obj c = bool_decide (is_Some (own_filter cfg c))) /\
  (forall c, o_filters obj c = list_to_set (effective_filter cfg c)) /\
  o_watched_tgids obj = ∅ /\ o_threadtrack obj = thread_tracker cfg /\
  (thread_tracker cfg = None -> forall c, effective_filter cfg c = []).
Proof.
  unfold build, effective_filter, own_filter.
  destruct (filtered_own (filter_process cfg) (cpu_util cfg)) as (A1 & A2 & A3).
  destruct (filtered_own (filter_process cfg) (profiler cfg)) as (B1 & B2 & B3).
  destruct (filtered_own (filter_process cfg) (schedtrace cfg)) as (C1 & C2 & C3).
  destruct (filtered_own (filter_process cfg) (nettrack cfg)) as (D1 & D2 & D3).
  destruct (_ && _) eqn:Hneeds; [done|].
  destruct (filtered _ (cpu_util cfg)), (filtered _ (profiler cfg)), (filtered _ (schedtrace cfg)),
    (filtered _ (nettrack cfg)).
  intros [= <-]. cbn in *. split_and!; [by intros []..|done|done|].
  intros Htt. rewrite Htt, andb_true_r in Hneeds. apply orb_false_elim in Hneeds as [Hn Hd].
  apply orb_false_elim in Hn as [Hn Hc]. apply orb_false_elim in Hn as [Ha Hb].
  intros []; auto.
Qed.

(** It fails exactly without a thread tracker that a collector needs. *)
Lemma build_err (cfg : BpfConfig) :
  (exists e, build cfg = Err e) <->
  thread_tracker cfg = None /\ exists c own, own_filter cfg c = Some own /\
    (own <> [] \/ filter_process cfg <> []).
Proof.
  unfold build. set (g := if negb _ then _ else _).
  assert (forall C (H : ProcessFiltered C) (x : option C), needs g x = true <->
    exists own, get_filter_process <$> x = Some own /\ (own <> [] \/ filter_process cfg <> [])) as Hneeds.
  { intros C H x. unfold g, needs. destruct x as [x|]; cbn; [|naive_solver].
    destruct (get_filter_process x) eqn:E1, (filter_process cfg) eqn:E2; naive_solver. }
  pose proof (Hneeds _ _ (cpu_util cfg)) as HA. pose proof (Hneeds _ _ (profiler cfg)) as HB.
  pose proof (Hneeds _ _ (schedtrace cfg)) as HC. pose proof (Hneeds _ _ (nettrack cfg)) as HD.
  assert ((exists c own, own_filter cfg c = Some own /\ (own <> [] \/ filter_process cfg <> [])) <->
    needs g (cpu_util cfg) || needs g (profiler cfg) || needs g (schedtrace cfg) || needs g (nettrack cfg) = true)
    as Hall.
  { rewrite !orb_true_iff, HA, HB, HC, HD. split.
    - intros ([] & own & H); cbn in H; eauto 7.
    - intros [[[H|H]|H]|H]; destruct H as [own H];
        [exists CpuUtil|exists Profiler|exists SchedTrace|exists NetTrack]; by exists own. }
  rewrite Hall. destruct (thread_tracker cfg); [rewrite andb_false_r|rewrite andb_true_r].
  - repeat case_match; naive_solver.
  - destruct (_ || _); [naive_solver|]. repeat case_match; naive_solver.
Qed.

End Build.

Arguments BpfConfig : clear implicits.
Arguments BpfObject : clear implicits.
