(* ===== verification/BpfEvents.v ===== *)
(** * What the collectors share

    The outbox of a collector of the crate [bpf]: the messages it handed to its
    callback and the random ids it drew; loops that stop at the first refusal; the
    records of a kernel ring; and the discipline every collector keeps: it
    describes a track before it refers to it. *)

From S2P Require Import Prelude Protocol Float BpfConfig.
From stdpp Require Import pretty.
Open Scope Z_scope.

(** ** The outbox *)

Record Port := mkPort { sent : list Message; draws : nat }.

Definition no_port : Port := mkPort [] 0.

(** The first [n] random ids that are drawn are distinct, as 64 random bits almost
    always are. *)
Definition distinct_draws (rng : nat -> Z) (n : nat) : Prop :=
  forall i j, (i < n)%nat -> (j < n)%nat -> rng i = rng j -> i = j.

(** The callback's answer, given what it received before. *)
Definition send (user : list Message -> Message -> Z) (m : Message) (p : Port) : Z * Port :=
  (user (sent p) m, mkPort (sent p ++ [m]) (draws p)).

(** [rng.gen::<u64>()]: the ids in the order in which they are drawn. *)
Definition draw (rng : nat -> Z) (p : Port) : Z * Port :=
  (rng (draws p), mkPort (sent p) (S (draws p))).

(** ** Loops *)

(** A loop over [l] that stops at the first step with a result other than zero;
    the result of its last step. *)
Fixpoint until_refused {A S} (f : A -> S -> Z * S) (l : list A) (s : S) : Z * S :=
  match l with
  | [] => (0, s)
  | a :: l =>
      let '(result, s) := f a s in
      if negb (result =? 0) then (result, s) else until_refused f l s
  end.

(** ** Counters *)

(** The messages of a series: its track, and a value of it. *)
Definition counter_track (name : string) (id : Z) (unit : string) (parent : option TrackType) : Message :=
  Message.Event (Event.Track (Track.mk _ _ _ name (TrackType.Counter id (Some unit)) parent)).

Definition counter_message (name : string) (value : f64) (timestamp id : Z) (unit : string) : Message :=
  Message.Event (Event.Counter (Counter.mk _ _ _ _ _ name (to_bits value) timestamp
    (TrackId.Counter id) Labels.new (Some unit))).

(** ** Records of a kernel ring *)

(** The [n] bytes at [at_] as a little-endian integer. *)
Definition field (n at_ : nat) (data : list Z) : Z := le_word (take n (drop at_ data)).

Definition words (n at_ : nat) (data : list Z) : list Z :=
  map (fun i => field 8 (at_ + 8 * i) data) (seq 0 n).

(** [plain::from_bytes] of a value of [size] bytes. *)
Definition parse_plain {A} (size : nat) (parse : list Z -> A) (data : list Z) (description : string) :
    result BpfError A :=
  if Nat.ltb (length data) size
  then Err (MapError ("failed to parse " ++ description ++ ": TooShort")%string)
  else Ok (parse data).

(** [collect] into a result stops at the first error. *)
Fixpoint collect {E A} (l : list (result E A)) : result E (list A) :=
  match l with
  | [] => Ok []
  | Err e :: _ => Err e
  | Ok a :: l => match collect l with Ok l => Ok (a :: l) | Err e => Err e end
  end.

(** What [lookup_batch] returned of a map. *)
Definition batch : Type := result string (list (list Z * list Z)).

(** The entries [lookup_batch] read from a kernel map, parsed. *)
Definition read_entries {K V} (key_size value_size : nat) (parse_key : list Z -> K)
    (parse_value : list Z -> V) (key_name value_name : string) (entries : list (list Z * list Z)) :
    result BpfError (list (K * V)) :=
  collect (map (fun '(key, value) =>
    match parse_plain key_size parse_key key key_name with
    | Err e => Err e
    | Ok k =>
        match parse_plain value_size parse_value value value_name with
        | Err e => Err e
        | Ok v => Ok (k, v)
        end
    end) entries).

(** [libbpf] hands over the records one by one, until a result makes it stop; the
    handler may panic.  A record is its bytes, with whatever the kernel answers while
    it is handled. *)
Fixpoint deliver {R E S} (stops : Z -> option (result E unit)) (handle : R -> S -> option (Z * S))
    (records : list R) (at_end : result E unit) (s : S) : option (result E unit * S) :=
  match records with
  | [] => Some (at_end, s)
  | data :: records =>
      '(result, s) ← handle data s;
      match stops result with
      | Some r => Some (r, s)
      | None => deliver stops handle records at_end s
      end
  end.

(** ** Tracks *)

(** A track of a collector's own making: those of cpus, threads and processes are
    known by what they stand for. *)
Definition invented (t : TrackId) : bool :=
  match t with TrackId.Custom _ | TrackId.Counter _ => true | _ => false end.

Definition event_of (m : Message) : Event :=
  match m with Message.Event e => e | Message.Stream _ e => e end.

(** The invented tracks a message refers to, and the track it describes. *)
Definition refers (m : Message) : list TrackId :=
  List.filter invented
    match event_of m with
    | Event.Counter c => [Counter.track_id c]
    | Event.Span s => [Span.track_id s]
    | Event.Instant i => [Instant.track_id i]
    | Event.Sample s => [Sample.track_id s]
    | Event.Track t => match Track.parent t with Some p => [TrackType.to_id p] | None => [] end
    | Event.InternedData _ => []
    end.

Definition describes (m : Message) : list TrackId :=
  match event_of m with
  | Event.Track t => [TrackType.to_id (Track.track_type t)]
  | _ => []
  end.

Definition described (ms : list Message) : list TrackId := concat (map describes ms).

(** Every message refers only to tracks described in front of it. *)
Inductive in_order : list Message -> Prop :=
| in_order_nil : in_order []
| in_order_snoc ms m :
    in_order ms -> (forall t, t ∈ refers m -> t ∈ described ms) -> in_order (ms ++ [m]).

(** ** Lemmas *)

Lemma described_app ms1 ms2 : described (ms1 ++ ms2) = described ms1 ++ described ms2.
Proof. unfold described. by rewrite map_app, concat_app. Qed.

Lemma described_snoc ms m t : t ∈ described (ms ++ [m]) <-> t ∈ described ms \/ t ∈ describes m.
Proof. rewrite described_app, elem_of_app. cbn. by rewrite app_nil_r. Qed.

(** In a list in order, whatever stands in front describes what is referred to. *)
Lemma in_order_split ms : in_order ms ->
  forall ms1 m ms2 t, ms = ms1 ++ m :: ms2 -> t ∈ refers m -> t ∈ described ms1.
Proof.
  induction 1 as [|ms m0 _ IH Hm0]; intros ms1 m ms2 t E Ht; [by destruct ms1|].
  destruct ms2 as [|m2 ms2 _] using rev_ind.
  - apply app_inj_tail in E as [-> ->]. by apply Hm0.
  - rewrite app_comm_cons, app_assoc in E. apply app_inj_tail in E as [-> _].
    by apply (IH ms1 m ms2).
Qed.

Lemma in_order_app ms ms' :
  in_order ms -> (forall m t, m ∈ ms' -> t ∈ refers m -> t ∈ described ms) -> in_order (ms ++ ms').
Proof.
  intros Hms. induction ms' as [|m ms' IH] using rev_ind; intros H; [by rewrite app_nil_r|].
  rewrite app_assoc. constructor.
  - apply IH. intros m' t Hm'. apply H, elem_of_app. by left.
  - intros t Ht. rewrite described_app. apply elem_of_app. left. apply (H m); [|done].
    apply elem_of_app. right. by left.
Qed.

(** An invariant of the steps of a loop is one of the loop. *)
Lemma until_refused_ind {A S} (P : S -> Prop) (f : A -> S -> Z * S) l s :
  (forall a s, P s -> P (f a s).2) -> P s -> P (until_refused f l s).2.
Proof.
  intros Hf. revert s. induction l as [|a l IH]; intros s Hs; [done|]. cbn [until_refused].
  pose proof (Hf a s Hs) as Ha. destruct (f a s) as [r s']. cbn in Ha.
  destruct (negb (r =? 0)); [done|by apply IH].
Qed.

Lemma foldl_ind {A S} (P : S -> Prop) (f : S -> A -> S) l s :
  (forall a s, P s -> P (f s a)) -> P s -> P (foldl f s l).
Proof. intros Hf. revert s. induction l as [|a l IH]; intros s Hs; [done|]. cbn. auto. Qed.

Lemma deliver_ind_in {R E S} (P : S -> Prop) stops (handle : R -> S -> option (Z * S)) records
    (at_end : result E unit) s r s' :
  (forall data s z s', data ∈ records -> handle data s = Some (z, s') -> P s -> P s') -> P s ->
  deliver stops handle records at_end s = Some (r, s') -> P s'.
Proof.
  revert s. induction records as [|data records IH]; intros s Hh Hs; cbn [deliver].
  - by intros [= _ <-].
  - destruct (handle data s) as [[z s1]|] eqn:E1; cbn; [|done].
    assert (P s1) as H1 by (by apply (Hh data s z); [left| |]).
    destruct (stops z); [by intros [= _ <-]|]. apply IH; [|done].
    intros d ? ? ? Hd. apply Hh. by right.
Qed.

Lemma deliver_ind {R E S} (P : S -> Prop) stops (handle : R -> S -> option (Z * S)) records
    (at_end : result E unit) s r s' :
  (forall data s z s', handle data s = Some (z, s') -> P s -> P s') -> P s ->
  deliver stops handle records at_end s = Some (r, s') -> P s'.
Proof. intros Hh. apply deliver_ind_in. eauto. Qed.

Lemma until_refused_app {A S} (f : A -> S -> Z * S) l1 l2 s :
  until_refused f (l1 ++ l2) s =
  let '(r, s) := until_refused f l1 s in if negb (r =? 0) then (r, s) else until_refused f l2 s.
Proof.
  revert s. induction l1 as [|a l1 IH]; intros s; [done|]. cbn. destruct (f a s) as [r s1].
  destruct (negb (r =? 0)) eqn:E; [by rewrite E|apply IH].
Qed.

(** Messages that are sent until one is refused: a part of them, and all of them if
    none is. *)
Lemma send_all_spec user ms p :
  let '(r, p') := until_refused (send user) ms p in
  exists ms1 ms2, ms = ms1 ++ ms2 /\ sent p' = sent p ++ ms1 /\ (r = 0 -> ms2 = []).
Proof.
  revert p. induction ms as [|m ms IH]; intros p; cbn [until_refused].
  - exists [], []. split_and!; [done|by rewrite app_nil_r|done].
  - cbn [send]. destruct (Z.eqb_spec (user (sent p) m) 0) as [E|E]; cbn [negb].
    + specialize (IH (mkPort (sent p ++ [m]) (draws p))).
      destruct (until_refused _ _ _) as [r p']. destruct IH as (ms1 & ms2 & -> & Hs & Hr).
      exists (m :: ms1), ms2. split_and!; [done| |done]. rewrite Hs. cbn. by rewrite <-app_assoc.
    + exists [m], ms. split_and!; [done|done|by intros].
Qed.

(** *** Tracks are described first *)

(** The messages are in order, and the ids in [ids] are described. *)
Definition announced (p : Port) (ids : list TrackId) : Prop :=
  in_order (sent p) /\ forall t, t ∈ ids -> t ∈ described (sent p).

(** A message whose references are described may be sent; from then on what it
    describes may be referred to. *)
Lemma announced_send user m p ids :
  announced p ids -> (forall t, t ∈ refers m -> t ∈ ids) ->
  announced (send user m p).2 (describes m ++ ids).
Proof.
  intros [Hio Hids] Hm. split; cbn.
  - constructor; [done|]. auto.
  - intros t [Ht|Ht]%elem_of_app; apply described_snoc; auto.
Qed.

Lemma announced_sub p ids ids' : announced p ids -> (forall t, t ∈ ids' -> t ∈ ids) -> announced p ids'.
Proof. intros [H1 H2] Hs. split; [done|]. auto. Qed.

(** Readings of counters, by what they say: name, bits of the value, time, unit. *)
Definition reading (m : Message) : list (string * Z * Z * option string) :=
  match event_of m with
  | Event.Counter c => [(Counter.name c, Counter.value c, Counter.timestamp c, Counter.unit _ _ _ _ _ c)]
  | _ => []
  end.

Definition readings (ms : list Message) : list (string * Z * Z * option string) :=
  concat (map reading ms).

Lemma readings_app ms1 ms2 : readings (ms1 ++ ms2) = readings ms1 ++ readings ms2.
Proof. unfold readings. by rewrite map_app, concat_app. Qed.

Lemma readings_snoc ms m : readings (ms ++ [m]) = readings ms ++ reading m.
Proof. rewrite readings_app. unfold readings. cbn [map concat]. by rewrite app_nil_r. Qed.

#[global] Arguments readings : simpl never.

(** A loop whose steps are all accepted is a fold. *)
Lemma until_refused_accepted {A S} (f : A -> S -> Z * S) (l : list A) (s : S) :
  (forall a s, (f a s).1 = 0) ->
  until_refused f l s = (0, foldl (fun s a => (f a s).2) s l).
Proof.
  intros Hf. revert s. induction l as [|a l IH]; intros s; [done|]. cbn [until_refused foldl].
  pose proof (Hf a s) as Ha. destruct (f a s) as [r s']. cbn in Ha. subst r. cbn. by rewrite IH.
Qed.

(** ** Cumulative statistics

    The kernel counts from the incarnation of a device, a process or a peer; what
    is reported is the difference to the reading before. *)

Class Cumulative (R : Type) := {
  incarnation : R -> Z;
  delta_of : R -> option R -> R;
  well_formed : R -> Prop
}.

(** A count of the readings that differences are taken of. *)
Definition count_of {R} `{Cumulative R} (f : R -> Z) : Prop :=
  forall r p, well_formed r -> (forall p', p = Some p' -> well_formed p') -> f (delta_of r p) =
    match p with
    | Some p => if incarnation p =? incarnation r then sat_sub (f r) (f p) else f r
    | None => f r
    end.

(** The differences of a row of readings, each to the one before. *)
Fixpoint deltas {R} `{Cumulative R} (previous : option R) (l : list R) : list R :=
  match l with
  | [] => []
  | r :: l => delta_of r previous :: deltas (Some r) l
  end.

(** The last reading of each incarnation. *)
Fixpoint finals {R} `{Cumulative R} (l : list R) : list R :=
  match l with
  | [] => []
  | r :: l =>
      match l with
      | r' :: _ => if incarnation r =? incarnation r' then finals l else r :: finals l
      | [] => [r]
      end
  end.

(** Within an incarnation the count does not fall. *)
Fixpoint grows {R} `{Cumulative R} (f : R -> Z) (l : list R) : Prop :=
  match l with
  | [] => True
  | r :: l =>
      match l with
      | r' :: _ => (incarnation r = incarnation r' -> f r <= f r') /\ grows f l
      | [] => True
      end
  end.

Definition sum_of {R} (f : R -> Z) (l : list R) : Z := foldr (fun r n => f r + n) 0 l.

Lemma sum_of_ext {A} (f g : A -> Z) l : (forall x, x ∈ l -> f x = g x) -> sum_of f l = sum_of g l.
Proof.
  unfold sum_of. induction l as [|x l IH]; intros H; [done|]. cbn [foldr]. rewrite (H x) by left.
  rewrite IH; [done|]. intros y Hy. apply H. by right.
Qed.

Lemma sum_of_cons {A} (f : A -> Z) x l : sum_of f (x :: l) = f x + sum_of f l.
Proof. done. Qed.

Lemma sum_of_app {A} (f : A -> Z) l1 l2 : sum_of f (l1 ++ l2) = sum_of f l1 + sum_of f l2.
Proof. induction l1 as [|x l IH]; [done|]. cbn [app]. rewrite !sum_of_cons, IH. lia. Qed.

Lemma sum_of_map {A B} (f : B -> Z) (g : A -> B) l : sum_of f (map g l) = sum_of (fun x => f (g x)) l.
Proof. induction l as [|x l IH]; [done|]. cbn [map]. by rewrite !sum_of_cons, IH. Qed.

Lemma sum_of_plus {A} (f g : A -> Z) l : sum_of (fun x => f x + g x) l = sum_of f l + sum_of g l.
Proof. induction l as [|x l IH]; [done|]. rewrite !sum_of_cons, IH. lia. Qed.

Lemma sum_of_scale {A} (c : Z) (f : A -> Z) l : sum_of (fun x => c * f x) l = c * sum_of f l.
Proof. induction l as [|x l IH]; [cbn; lia|]. rewrite !sum_of_cons, IH. lia. Qed.

Lemma sum_of_bounds {A} (f : A -> Z) lo hi l :
  (forall x, x ∈ l -> lo <= f x <= hi) -> lo * Z.of_nat (length l) <= sum_of f l <= hi * Z.of_nat (length l).
Proof.
  induction l as [|x l IH]; intros H; [cbn; lia|]. rewrite sum_of_cons. cbn [length].
  pose proof (H x ltac:(left)). specialize (IH ltac:(intros y Hy; apply H; by right)). lia.
Qed.

(** A sum in which one term changes. *)
Lemma sum_of_update {A} `{EqDecision A} (f g : A -> Z) (a : A) l :
  NoDup l -> a ∈ l -> (forall x, x ≠ a -> f x = g x) -> sum_of f l + g a = sum_of g l + f a.
Proof.
  intros Hl Ha He. induction Hl as [|x l Hx Hl IH]; [by apply elem_of_nil in Ha|]. rewrite !sum_of_cons.
  apply elem_of_cons in Ha as [-> | Ha].
  - rewrite (sum_of_ext f g l); [lia|]. intros y Hy. apply He. by intros ->.
  - specialize (IH Ha). rewrite (He x); [lia|]. by intros ->.
Qed.

(** Reported differences add up to what was counted. *)
Lemma deltas_add_up {R} `{Cumulative R} (f : R -> Z) (l : list R) :
  count_of f -> Forall well_formed l -> grows f l -> sum_of f (deltas None l) = sum_of f (finals l).
Proof.
  intros Hf Hw. destruct Hw as [|r l Hw Hl]; [done|]. cbn [deltas sum_of foldr]. rewrite Hf by done.
  revert r Hw. induction Hl as [|r' l Hw' _ IH]; intros r Hw Hg; [done|]. destruct Hg as [Hr Hg].
  change (deltas (Some r) (r' :: l)) with (delta_of r' (Some r) :: deltas (Some r') l).
  specialize (IH r' Hw' Hg). cbn [foldr] in *. rewrite Hf by (done || by intros ? [= <-]).
  change (foldr (fun r0 n => f r0 + n) 0) with (sum_of f) in *.
  change (finals (r :: r' :: l)) with
    (if incarnation r =? incarnation r' then finals (r' :: l) else r :: finals (r' :: l)).
  destruct (Z.eqb_spec (incarnation r) (incarnation r')) as [E|E].
  - rewrite <-IH. specialize (Hr E). unfold sat_sub. lia.
  - change (sum_of f (r :: finals (r' :: l))) with (f r + sum_of f (finals (r' :: l))). lia.
Qed.
