(* ===== verification/KernelRecords.v ===== *)
(** * The memory of the kernel programs

    What the programs under src/bpf/src/bpf share: the records they lay out field by
    field in a ring or in the value of a map, and the ring itself, which may have no
    room.  The collectors read the records back with [field] of [BpfEvents]. *)

From S2P Require Import Prelude BpfEvents.
Open Scope Z_scope.

(** ** Structures *)

(** A structure of C without holes: the sizes and the values of its fields. *)
Definition layout : Type := list (nat * Z).

Definition encode (l : layout) : list Z := concat (map (fun '(n, x) => le_bytes n x) l).

Definition sizeof (l : layout) : nat := sum_list (map fst l).

(** Each field holds an unsigned integer of its size. *)
Definition fits (l : layout) : Prop := Forall (fun '(n, x) => in_u (8 * Z.of_nat n) x) l.

Lemma length_encode l : length (encode l) = sizeof l.
Proof.
  unfold encode, sizeof. induction l as [|[n x] l IH]; [done|]. cbn [map concat fst sum_list sum_list_with foldr].
  rewrite length_app, IH, length_le_bytes. done.
Qed.

Lemma encode_app l1 l2 : encode (l1 ++ l2) = encode l1 ++ encode l2.
Proof. unfold encode. by rewrite map_app, concat_app. Qed.

Lemma sizeof_app l1 l2 : sizeof (l1 ++ l2) = (sizeof l1 + sizeof l2)%nat.
Proof. unfold sizeof. induction l1 as [|[n x] l IH]; [done|]. cbn in *. lia. Qed.

Lemma fits_app l1 l2 : fits (l1 ++ l2) <-> fits l1 /\ fits l2.
Proof. apply Forall_app. Qed.

(** A field is read back where it was stored. *)
Lemma field_encode l1 n x l2 at_ :
  in_u (8 * Z.of_nat n) x -> at_ = sizeof l1 -> field n at_ (encode (l1 ++ (n, x) :: l2)) = x.
Proof.
  intros Hx ->. unfold field. rewrite encode_app, drop_app_length' by (by rewrite length_encode).
  change (encode ((n, x) :: l2)) with (le_bytes n x ++ encode l2).
  rewrite take_app_length' by (by rewrite length_le_bytes). rewrite le_word_bytes.
  apply Z.mod_small. unfold in_u in Hx. by rewrite Z.pow_mul_r in Hx by lia.
Qed.

Lemma field_at l k n x at_ :
  fits l -> l !! k = Some (n, x) -> at_ = sizeof (take k l) -> field n at_ (encode l) = x.
Proof.
  intros Hl Hk Ha. rewrite <-(take_drop_middle l k (n, x) Hk). apply field_encode; [|done].
  exact (proj1 (Forall_lookup _ l) Hl k (n, x) Hk).
Qed.

(** Rows of 64-bit words, and of bytes. *)
Definition words_record (l : list Z) : layout := map (fun x => (8%nat, x)) l.

Definition bytes_record (l : list Z) : layout := map (fun x => (1%nat, x)) l.

Lemma sizeof_words l : sizeof (words_record l) = (8 * length l)%nat.
Proof. unfold sizeof, words_record. induction l as [|x l IH]; [done|]. cbn in *. lia. Qed.

Lemma sizeof_bytes l : sizeof (bytes_record l) = length l.
Proof. unfold sizeof, bytes_record. induction l as [|x l IH]; [done|]. cbn in *. lia. Qed.

Lemma words_encode l1 l l2 n at_ :
  Forall (in_u 64) l -> length l = n -> at_ = sizeof l1 -> words n at_ (encode (l1 ++ words_record l ++ l2)) = l.
Proof.
  intros Hl <- ->. unfold words. apply list_eq. intros i. rewrite list_lookup_fmap. destruct (l !! i) as [x|] eqn:E.
  - pose proof (lookup_lt_Some _ _ _ E). rewrite lookup_seq_lt by done. cbn [fmap option_fmap option_map]. f_equal.
    replace (l1 ++ words_record l ++ l2)
      with ((l1 ++ words_record (take i l)) ++ (8%nat, x) :: words_record (drop (S i) l) ++ l2).
    + apply field_encode; [exact (proj1 (Forall_lookup _ _) Hl i x E)|].
      rewrite sizeof_app, sizeof_words, length_take. lia.
    + rewrite <-app_assoc. f_equal. rewrite <-(take_drop_middle l i x E) at 3. unfold words_record.
      rewrite map_app. cbn [map]. by rewrite <-app_assoc.
  - rewrite lookup_seq_ge; [done|]. by apply lookup_ge_None.
Qed.

Lemma bytes_encode l1 l l2 at_ :
  Forall (in_u 8) l -> at_ = sizeof l1 ->
  take (length l) (drop at_ (encode (l1 ++ bytes_record l ++ l2))) = l.
Proof.
  intros Hl ->. rewrite encode_app, drop_app_length' by (by rewrite length_encode). rewrite encode_app.
  assert (encode (bytes_record l) = l) as ->.
  { induction Hl as [|x l Hx Hl IH]; [done|]. change (encode (bytes_record (x :: l)))
      with (le_bytes 1 x ++ encode (bytes_record l)). rewrite IH. cbn. f_equal. apply Z.mod_small, Hx. }
  by rewrite take_app_length.
Qed.

(** A reader of an encoded structure finds every field. *)
Ltac read_field k :=
  match k with
  | 100%nat => fail 1 "no such field"
  | _ => first [eapply (field_at _ k); [eassumption|reflexivity|reflexivity] | read_field constr:(S k)]
  end.

Ltac read_fields := f_equal; read_field 0%nat.

(** [parse_plain] takes a record that is long enough. *)
Lemma parse_plain_encode {A} size (parse : list Z -> A) l description :
  (size <= sizeof l)%nat -> parse_plain size parse (encode l) description = Ok (parse (encode l)).
Proof.
  intros H. unfold parse_plain. rewrite length_encode. destruct (Nat.ltb_spec (sizeof l) size); [lia|done].
Qed.

(** ** The ring *)

(** [bpf_ringbuf_reserve] may find no room; what is submitted is seen in order. *)
Definition ringbuf_submit (room : bool) (record : list Z) (ring : list (list Z)) : list (list Z) :=
  if room then ring ++ [record] else ring.
