(* ===== verification/BpfProcesses.v ===== *)
(** * Processes, threads and the filters of the collectors

    The thread tracker (src/bpf/src/threadtrack.rs), its kernel programs
    (src/bpf/src/bpf/threadtrack.bpf.c), and the callback [BpfObject::consumer]
    puts around it, which restricts the collectors to the processes of interest
    (src/bpf/src/lib.rs). *)

From S2P Require Import Prelude Protocol Text Float BpfConfig BpfEvents.
From stdpp Require Import pretty.
Open Scope Z_scope.

(** ** The kernel programs *)

Module Kernel.

(** The 280 bytes of a [struct thread_event]; the four fields. *)
Definition pid_field (mem : list Z) : list Z := take 4 mem.

Definition tgid_field (mem : list Z) : list Z := take 4 (drop 4 mem).

Definition comm_field (mem : list Z) : list Z := take 16 (drop 8 mem).

Definition filename_field (mem : list Z) : list Z := take 256 (drop 24 mem).

Definition EVENT_SIZE : nat := 280.

Section Programs.

(** The helpers that copy a string of the kernel or of a process into a field:
    the old contents of the field and the string, to the new contents. *)
Variable read_str : list Z -> list Z -> list Z.

(** Each handler finds the memory it reserved in the ring as the records before
    left it, and stores into some of the fields. *)
Definition handle_sched_wakeup_new (mem : list Z) (pid tgid : Z) (comm : list Z) : list Z :=
  le_bytes 4 pid ++ le_bytes 4 tgid ++ read_str (comm_field mem) comm ++ filename_field mem.

Definition handle_sched_process_exec (mem : list Z) (pid tgid : Z) (filename : list Z) : list Z :=
  le_bytes 4 pid ++ le_bytes 4 tgid ++ comm_field mem ++ read_str (filename_field mem) filename.

Definition handle_prctl_setname (mem : list Z) (pid tgid : Z) (name : list Z) : list Z :=
  le_bytes 4 pid ++ le_bytes 4 tgid ++ read_str (comm_field mem) name ++ filename_field mem.

End Programs.

End Kernel.

(** ** The thread tracker *)

Record ThreadEvent := mkThreadEvent {
  te_pid : Z;
  te_tgid : Z;
  te_comm : list Z;
  te_filename : list Z
}.

(** [plain::from_bytes], on the little-endian targets of the kernel programs. *)
Definition ThreadEvent_try_from (data : list Z) : result BpfError ThreadEvent :=
  if Nat.ltb (length data) Kernel.EVENT_SIZE
  then Err (MapError "failed to parse thread event: TooShort")
  else Ok (mkThreadEvent (le_word (Kernel.pid_field data)) (le_word (Kernel.tgid_field data))
             (Kernel.comm_field data) (Kernel.filename_field data)).

(** [None] is a panic of [expect]. *)
Definition c_str (field : list Z) : option string :=
  let bs := until_nul field in if utf8_valid bs then Some (str_of bs) else None.

Definition comm_str (self : ThreadEvent) : option string := c_str (te_comm self).

Definition filename_str (self : ThreadEvent) : option string := c_str (te_filename self).

Definition track_message (name : string) (track_type : TrackType) (parent : option TrackType) : Message :=
  Message.Event (Event.Track (Track.mk _ _ _ name track_type parent)).

(** The message for an event; [None] is a panic. *)
Definition thread_message (thread_event : ThreadEvent) : option Message :=
  let tgid := as_signed 32 (te_tgid thread_event) in
  filename ← filename_str thread_event;
  if negb (String.eqb filename "") then
    Some (track_message filename (TrackType.Process tgid) None)
  else
    comm ← comm_str thread_event;
    Some (track_message comm (TrackType.Thread (as_signed 32 (te_pid thread_event)) tgid)
            (Some (TrackType.Process tgid))).

(** A directory under /proc/<pid>/task and one under /proc; [None] where the name
    is not text or the file cannot be read. *)
Record TaskEntry := mkTaskEntry { task_name : option string; task_comm : option string }.

Record ProcEntry := mkProcEntry {
  proc_name : option string;
  proc_comm : option string;
  proc_tasks : option (list (option TaskEntry))
}.

(** ** The callback of the tracker *)

(** The processes the callback watches, what it stored into the filters of the
    kernel programs, and what it handed on, oldest first. *)
Record Tracker := mkTracker {
  watched_tgids : gset Z;
  tracked_tgids : gset (Collector * Z);
  received : list Message
}.

Definition set_watched (s : Tracker) (pid : Z) : Tracker :=
  mkTracker ({[pid]} ∪ watched_tgids s) (tracked_tgids s) (received s).

Definition set_tracked (s : Tracker) (c : Collector) (key : Z) : Tracker :=
  mkTracker (watched_tgids s) ({[(c, key)]} ∪ tracked_tgids s) (received s).

Section Callback.

(** The user's callback given what it received before; the kernel's answer to an
    update of a filter; the monotonic clock, read after so many messages. *)
Variable user : list Message -> Message -> Z.
Variable update : Collector -> Z -> result string unit.
Variable clock_gettime : list Message -> option (Z * Z).

(** Which collectors there are, and the names each is restricted to. *)
Variable built : Collector -> bool.
Variable filters : Collector -> gset string.

Definition get_monotonic_timestamp (s : Tracker) : Z :=
  let '(tv_sec, tv_nsec) := default (0, 0) (clock_gettime (received s)) in
  (wrap 64 tv_sec *64 1000000000) +64 wrap 64 tv_nsec.

Definition user_callback (message : Message) (s : Tracker) : Z * Tracker :=
  (user (received s) message,
   mkTracker (watched_tgids s) (tracked_tgids s) (received s ++ [message])).

(** [Filterable::filter]; a pid is stored as its 32 bits. *)
Definition map_update (c : Collector) (what : string) (pid : Z) (s : Tracker)
    : result BpfError unit * Tracker :=
  match update c (wrap 32 pid) with
  | Err e => (Err (MapError (what ++ e)%string), s)
  | Ok _ => (Ok tt, set_tracked s c (wrap 32 pid))
  end.

Definition filter (c : Collector) (pid : Z) (s : Tracker) : result BpfError unit * Tracker :=
  match c with
  | CpuUtil | SchedTrace => map_update c "failed to add PID filter: " pid s
  | Profiler => map_update c "failed to update filter map: " pid s
  | NetTrack =>
      if pid <? 0 then (Err (MapError ("invalid PID filter: " ++ pretty pid)%string), s)
      else map_update c "failed to add PID filter: " pid s
  end.

(** One of the four blocks of the callback. *)
Definition filter_named (c : Collector) (name : string) (pid : Z) (s : Tracker) : Tracker :=
  if built c then
    let base := base_name name in
    if bool_decide (name ∈ filters c) || bool_decide (base ∈ filters c) then
      match filter c pid s with
      | (Err _, s) => s
      | (Ok _, s) => set_watched s pid
      end
    else s
  else s.

Definition discovered (tid pid timestamp : Z) : Message :=
  Message.Event (Event.Instant (Instant.mk _ _ _ _ _ "discovered"%string timestamp
    (TrackId.Thread tid pid) Labels.new)).

Definition wrapper_callback (message : Message) (s : Tracker) : Z * Tracker :=
  let '(s, should_emit_discovered) :=
    match message with
    | Message.Event (Event.Track track) =>
        match Track.track_type track with
        | TrackType.Process pid =>
            (foldl (fun s c => filter_named c (Track.name track) pid s) s all_collectors, None)
        | TrackType.Thread tid pid =>
            (s, if bool_decide (pid ∈ watched_tgids s) then Some (tid, pid) else None)
        | _ => (s, None)
        end
    | _ => (s, None)
    end in
  let '(result, s) := user_callback message s in
  if negb (result =? 0) then (result, s)
  else
    match should_emit_discovered with
    | Some (thread_tid, thread_pid) =>
        user_callback (discovered thread_tid thread_pid (get_monotonic_timestamp s)) s
    | None => (result, s)
    end.

(** Without any of the four collectors the tracker has the user's callback. *)
Definition callback (message : Message) (s : Tracker) : Z * Tracker :=
  if existsb built all_collectors then wrapper_callback message s else user_callback message s.

(** A record of the ring; [None] is a panic. *)
Definition ring_event (data : list Z) (s : Tracker) : option (Z * Tracker) :=
  match ThreadEvent_try_from data with
  | Err _ => None
  | Ok thread_event =>
      message ← thread_message thread_event;
      Some (callback message s)
  end.

(** *** The scan of /proc *)

Definition scan_task (pid : Z) (task : option TaskEntry) (s : Tracker) : Tracker :=
  match task with
  | None => s
  | Some task =>
      match task_name task with
      | None => s
      | Some task_name =>
          match parse_i32 task_name with
          | None => s
          | Some tid =>
              if tid =? pid then s
              else match task_comm task with
              | Some comm =>
                  (callback (track_message (trim comm) (TrackType.Thread tid pid)
                     (Some (TrackType.Process pid))) s).2
              | None => s
              end
          end
      end
  end.

Definition scan_entry (entry : option ProcEntry) (s : Tracker) : Tracker :=
  match entry with
  | None => s
  | Some entry =>
      match proc_name entry with
      | None => s
      | Some file_name =>
          match parse_i32 file_name with
          | None => s
          | Some pid =>
              let s :=
                match proc_comm entry with
                | Some comm => (callback (track_message (trim comm) (TrackType.Process pid) None) s).2
                | None => s
                end in
              match proc_tasks entry with
              | Some tasks => foldl (fun s task => scan_task pid task s) s tasks
              | None => s
              end
          end
      end
  end.

Definition scan_proc (dir : result string (list (option ProcEntry))) (s : Tracker)
    : result BpfError unit * Tracker :=
  match dir with
  | Err e => (Err (MapError ("failed to read /proc: " ++ e)%string), s)
  | Ok entries => (Ok tt, foldl (fun s entry => scan_entry entry s) s entries)
  end.

(** The tracker with whether /proc was scanned. *)
Variable ring_stops : Z -> option (result string unit).

(** The scan, the first time, then the ring; [None] is a panic. *)
Definition scan_and_read (what : string) (proc_scanned : bool) (dir : result string (list (option ProcEntry)))
    (records : list (list Z)) (at_end : result string unit) (s : Tracker)
    : option (result BpfError unit * bool * Tracker) :=
  let '(scanned, s) := if proc_scanned then (Ok tt, s) else scan_proc dir s in
  match scanned with
  | Err e => Some (Err e, false, s)
  | Ok _ =>
      '(r, s) ← deliver ring_stops ring_event records at_end s;
      Some (map_err (fun e => MapError ("failed to " ++ what ++ " ring buffer: " ++ e)%string) r, true, s)
  end.

Definition consume := scan_and_read "consume".

Definition poll := scan_and_read "poll".

End Callback.

(** ** Lemmas *)

Section CallbackLemmas.

Variable user : list Message -> Message -> Z.
Variable update : Collector -> Z -> result string unit.
Variable clock_gettime : list Message -> option (Z * Z).
Variable built : Collector -> bool.
Variable filters : Collector -> gset string.

Let wrapper := wrapper_callback user update clock_gettime built filters.

(** The process a message names, and the thread it describes. *)
Definition process_track (m : Message) : option (string * Z) :=
  match m with
  | Message.Event (Event.Track track) =>
      match Track.track_type track with
      | TrackType.Process pid => Some (Track.name track, pid)
      | _ => None
      end
  | _ => None
  end.

Definition thread_track (m : Message) : option (Z * Z) :=
  match m with
  | Message.Event (Event.Track track) =>
      match Track.track_type track with
      | TrackType.Thread tid pid => Some (tid, pid)
      | _ => None
      end
  | _ => None
  end.

(** The collector is restricted to processes of this name; the filter of its
    kernel program takes this pid. *)
Definition named (c : Collector) (name : string) : Prop :=
  name ∈ filters c \/ base_name name ∈ filters c.

Definition accepted (c : Collector) (pid : Z) : bool :=
  match c with NetTrack => 0 <=? pid | _ => true end && is_ok (update c (wrap 32 pid)).

(** The collectors that restrict themselves to a process. *)
Definition takes (name : string) (pid : Z) (c : Collector) : Prop :=
  built c = true /\ accepted c pid = true /\ named c name.

Definition enrolls (c : Collector) (m : Message) (pid : Z) : Prop :=
  exists name, process_track m = Some (name, pid) /\ takes name pid c.

Lemma filter_spec c pid s :
  filter update c pid s =
    (if accepted c pid then (Ok tt, set_tracked s c (wrap 32 pid))
     else ((filter update c pid s).1, s)) /\
  (accepted c pid = false -> exists e, (filter update c pid s).1 = Err e).
Proof.
  unfold accepted, filter, map_update.
  destruct c, (update _ (wrap 32 pid)); try destruct (Z.ltb_spec pid 0), (Z.leb_spec 0 pid);
    cbn; try lia; (split; [done|]); intros ?; first [done|by eexists].
Qed.

Lemma filter_named_spec c name pid s :
  filter_named update built filters c name pid s =
    if built c && accepted c pid && bool_decide (named c name)
    then set_watched (set_tracked s c (wrap 32 pid)) pid else s.
Proof.
  unfold filter_named. destruct (built c); [|done]. cbn [andb].
  destruct (filter_spec c pid s) as [Heq He]. rewrite Heq. clear Heq.
  replace (bool_decide (name ∈ filters c) || bool_decide (base_name name ∈ filters c))
    with (bool_decide (named c name)).
  2: { apply Bool.eq_true_iff_eq. rewrite orb_true_iff, !bool_decide_eq_true. done. }
  destruct (accepted c pid); cbn; [by destruct (bool_decide _)|].
  destruct He as [e ->]; [done|]. by destruct (bool_decide _).
Qed.

Lemma filters_spec cs name pid s :
  let s' := foldl (fun s c => filter_named update built filters c name pid s) s cs in
  received s' = received s /\
  (forall p, p ∈ watched_tgids s' <-> p ∈ watched_tgids s \/
    (p = pid /\ exists c, c ∈ cs /\ takes name pid c)) /\
  (forall c key, (c, key) ∈ tracked_tgids s' <-> (c, key) ∈ tracked_tgids s \/
    (key = wrap 32 pid /\ c ∈ cs /\ takes name pid c)).
Proof.
  revert s. induction cs as [|c cs IH]; intros s; cbn [foldl].
  { split_and!; [done|set_solver|set_solver]. }
  destruct (IH (filter_named update built filters c name pid s)) as (-> & H1 & H2).
  cbn zeta. setoid_rewrite H1. setoid_rewrite H2. clear IH H1 H2. rewrite filter_named_spec.
  assert (built c && accepted c pid && bool_decide (named c name) = true <-> takes name pid c) as Ht.
  { unfold takes. rewrite !andb_true_iff, bool_decide_eq_true. tauto. }
  generalize dependent (takes name pid). intros T Ht. setoid_rewrite elem_of_cons.
  destruct (_ && _) eqn:E.
  - cbn. setoid_rewrite elem_of_union. setoid_rewrite elem_of_singleton.
    assert (T c) by (by apply Ht). split_and!; [done|naive_solver|naive_solver].
  - assert (~ T c) by (by intros ?%Ht). split_and!; [done|naive_solver|naive_solver].
Qed.

Lemma all_collectors_in c : c ∈ all_collectors.
Proof. destruct c; set_solver. Qed.

(** What the callback hands on after a message, and its result. *)
Definition timestamp_of (ms : list Message) : Z :=
  get_monotonic_timestamp clock_gettime (mkTracker ∅ ∅ ms).

Definition follow_up (m : Message) (s : Tracker) : list Message :=
  match thread_track m with
  | Some (tid, pid) =>
      if (user (received s) m =? 0) && bool_decide (pid ∈ watched_tgids s)
      then [discovered tid pid (timestamp_of (received s ++ [m]))] else []
  | None => []
  end.

Lemma wrapper_shape m s :
  let s1 := match process_track m with
            | Some (name, pid) =>
                foldl (fun s c => filter_named update built filters c name pid s) s all_collectors
            | None => s
            end in
  wrapper m s =
    (match follow_up m s with [] => user (received s) m | d :: _ => user (received s ++ [m]) d end,
     mkTracker (watched_tgids s1) (tracked_tgids s1) (received s ++ m :: follow_up m s)).
Proof.
  cbn zeta. unfold wrapper, wrapper_callback, follow_up, process_track, thread_track.
  destruct m as [e|? e]; [destruct e as [| | | | |[name ty ?]]|]; cbn;
    try (destruct (user _ _ =? 0) eqn:?; cbn; by destruct s).
  destruct ty as [|tid pid|pid| |]; cbn; try (destruct (user _ _ =? 0) eqn:?; cbn; by destruct s).
  - case_bool_decide; destruct (user _ _ =? 0) eqn:?; unfold user_callback; cbn; rewrite <-?app_assoc; by destruct s.
  - destruct (filters_spec all_collectors name pid s) as (Hr & _ & _). cbn in Hr. rewrite Hr.
    by destruct (user _ _ =? 0).
Qed.

(** One message: the filters it enters, and what is handed on. *)
Lemma wrapper_spec m s :
  let s' := (wrapper m s).2 in
  (forall p, p ∈ watched_tgids s' <-> p ∈ watched_tgids s \/ exists c, enrolls c m p) /\
  (forall c key, (c, key) ∈ tracked_tgids s' <-> (c, key) ∈ tracked_tgids s \/
    exists p, enrolls c m p /\ key = wrap 32 p) /\
  received s' = received s ++ m :: follow_up m s.
Proof.
  cbn zeta. rewrite wrapper_shape. unfold enrolls.
  destruct (process_track m) as [[name pid]|]; cbn [snd watched_tgids tracked_tgids received].
  - destruct (filters_spec all_collectors name pid s) as (_ & H1 & H2).
    pose proof all_collectors_in as Hall. split_and!; [intros p|intros c key|done].
    + rewrite H1. split.
      * intros [?|(-> & c & _ & ?)]; [by left|right; by exists c, name].
      * intros [?|(c & ? & [= <- <-] & ?)]; [by left|right; eauto].
    + rewrite H2. split.
      * intros [?|(-> & _ & ?)]; [by left|right; exists pid; split; [by exists name|done]].
      * intros [?|(p & (? & [= <- <-] & ?) & ->)]; [by left|right; auto].
  - split_and!; [intros p|intros c key|done]; (split; [by left|]).
    + by intros [?|(c & ? & [=] & _)].
    + by intros [?|(p & (? & [=] & _) & _)].
Qed.

(** A sequence of messages. *)
Definition run_callback (ms : list Message) (s : Tracker) : Tracker :=
  foldl (fun s m => (wrapper m s).2) s ms.

Lemma run_spec ms s :
  (forall p, p ∈ watched_tgids (run_callback ms s) <-> p ∈ watched_tgids s \/
    exists m c, m ∈ ms /\ enrolls c m p) /\
  (forall c key, (c, key) ∈ tracked_tgids (run_callback ms s) <-> (c, key) ∈ tracked_tgids s \/
    exists m p, m ∈ ms /\ enrolls c m p /\ key = wrap 32 p).
Proof.
  revert s. induction ms as [|m ms IH]; intros s; [split; set_solver|].
  change (run_callback (m :: ms) s) with (run_callback ms (wrapper m s).2).
  destruct (IH (wrapper m s).2) as [H1 H2]. destruct (wrapper_spec m s) as (W1 & W2 & _).
  split; [intros p; rewrite H1, W1|intros c key; rewrite H2, W2]; set_solver.
Qed.

(** *** The messages of a scan *)

Definition thread_of_task (pid : Z) (task : TaskEntry) : option (Z * string) :=
  tid ← task_name task ≫= parse_i32;
  if tid =? pid then None else comm ← task_comm task; Some (tid, trim comm).

Definition thread_message_of (pid : Z) (thread : Z * string) : Message :=
  track_message thread.2 (TrackType.Thread thread.1 pid) (Some (TrackType.Process pid)).

(** The process of an entry, by its pid and its name, and its other threads. *)
Definition process_of_entry (entry : ProcEntry) : option (Z * option string * list (Z * string)) :=
  pid ← proc_name entry ≫= parse_i32;
  Some (pid, trim <$> proc_comm entry,
        omap (fun task => task ≫= thread_of_task pid) (default [] (proc_tasks entry))).

Definition process_messages (process : Z * option string * list (Z * string)) : list Message :=
  let '(pid, comm, threads) := process in
  match comm with Some comm => [track_message comm (TrackType.Process pid) None] | None => [] end
  ++ map (thread_message_of pid) threads.

Definition scan_messages (entries : list (option ProcEntry)) : list Message :=
  concat (map process_messages (omap (fun entry => entry ≫= process_of_entry) entries)).

Let call := callback user update clock_gettime built filters.

Lemma scan_tasks_messages pid tasks s :
  foldl (fun s task => scan_task user update clock_gettime built filters pid task s) s tasks =
  foldl (fun s m => (call m s).2) s
    (map (thread_message_of pid) (omap (fun task => task ≫= thread_of_task pid) tasks)).
Proof.
  revert s. induction tasks as [|[[[n|] [c|]]|] tasks IH]; intros s; cbn; rewrite ?IH;
    unfold thread_of_task; cbn; try done; destruct (parse_i32 n) as [tid|]; cbn; try done;
    by destruct (tid =? pid).
Qed.

Lemma scan_entries_messages entries s :
  foldl (fun s entry => scan_entry user update clock_gettime built filters entry s) s entries =
  foldl (fun s m => (call m s).2) s (scan_messages entries).
Proof.
  revert s. induction entries as [|[[[n|] c tasks]|] entries IH]; intros s; [done|..];
    cbn [foldl]; rewrite IH; unfold scan_messages, process_of_entry, scan_entry; cbn; [|done..].
  destruct (parse_i32 n) as [pid|]; cbn; [|done]. rewrite foldl_app. f_equal.
  destruct c as [c|], tasks as [tasks|]; cbn; by rewrite ?scan_tasks_messages.
Qed.

Lemma callback_wraps : existsb built all_collectors = true -> call = wrapper.
Proof. intros H. unfold call, callback. by rewrite H. Qed.

Lemma run_received ms s : exists l, received (run_callback ms s) = received s ++ l.
Proof.
  revert s. induction ms as [|m ms IH]; intros s; [by exists []; rewrite app_nil_r|].
  change (run_callback (m :: ms) s) with (run_callback ms (wrapper m s).2).
  destruct (IH (wrapper m s).2) as [l ->]. destruct (wrapper_spec m s) as (_ & _ & ->).
  rewrite <-app_assoc. by eexists.
Qed.

Lemma plain_tracked ms s :
  existsb built all_collectors = false ->
  tracked_tgids (foldl (fun s m => (call m s).2) s ms) = tracked_tgids s.
Proof.
  intros Hb. revert s. induction ms as [|m ms IH]; intros s; [done|]. cbn [foldl]. rewrite IH.
  unfold call, callback. by rewrite Hb.
Qed.

(** The processes a scan names. *)
Lemma scan_processes name pid m entries :
  m ∈ scan_messages entries /\ process_track m = Some (name, pid) <->
  m = track_message name (TrackType.Process pid) None /\
  exists threads, (pid, Some name, threads) ∈ omap (fun entry => entry ≫= process_of_entry) entries.
Proof.
  unfold scan_messages. generalize (omap (fun entry => entry ≫= process_of_entry) entries). intros ps.
  rewrite <-flat_map_concat_map, list_elem_of_In, in_flat_map. split.
  - intros [([[p [comm|]] threads] & Hp%list_elem_of_In & Hm) Ht]; cbn in Hm.
    + destruct Hm as [<-|([tid tn] & <- & _)%in_map_iff]; [|done].
      injection Ht as <- <-. split; [done|]. by exists threads.
    + by apply in_map_iff in Hm as ([tid tn] & <- & _).
  - intros (-> & threads & H). split; [|done]. exists (pid, Some name, threads).
    by split; [apply list_elem_of_In|left].
Qed.

(** A thread of a process that was enrolled before is marked. *)
Lemma run_discovers ms1 m ms2 tid pid s :
  (forall l m, user l m = 0) -> thread_track m = Some (tid, pid) ->
  (exists m' c, m' ∈ ms1 /\ enrolls c m' pid) ->
  exists l timestamp l', received (run_callback (ms1 ++ m :: ms2) s) =
    l ++ m :: discovered tid pid timestamp :: l'.
Proof.
  intros Huser Ht Hen. unfold run_callback. rewrite foldl_app. cbn [foldl].
  destruct (run_received ms2 (wrapper m (run_callback ms1 s)).2) as [l' Hl'].
  unfold run_callback in Hl'. rewrite Hl'. clear Hl'.
  destruct (wrapper_spec m (run_callback ms1 s)) as (_ & _ & Hr). unfold run_callback in Hr. rewrite Hr.
  destruct (run_spec ms1 s) as [Hw _]. unfold follow_up. rewrite Ht, Huser.
  rewrite bool_decide_true by (apply Hw; by right). cbn. rewrite <-app_assoc. by do 3 eexists.
Qed.

(** Each thread of an entry comes behind its process. *)
Lemma scan_thread_order pid name threads thread entries :
  (pid, Some name, threads) ∈ omap (fun entry => entry ≫= process_of_entry) entries ->
  thread ∈ threads ->
  exists ms1 ms2, scan_messages entries = ms1 ++ thread_message_of pid thread :: ms2 /\
    track_message name (TrackType.Process pid) None ∈ ms1.
Proof.
  unfold scan_messages. generalize (omap (fun entry => entry ≫= process_of_entry) entries).
  intros ps (p1 & p2 & ->)%list_elem_of_split (t1 & t2 & ->)%list_elem_of_split.
  exists (concat (map process_messages p1) ++
      track_message name (TrackType.Process pid) None :: map (thread_message_of pid) t1),
    (map (thread_message_of pid) t2 ++ concat (map process_messages p2)).
  split; [|set_solver].
  rewrite map_app, concat_app. cbn. rewrite map_app. cbn. by rewrite <-!app_assoc.
Qed.

End CallbackLemmas.

(** *** Events in memory *)

Lemma le_word_bytes_small (x : Z) : in_u 32 x -> le_word (le_bytes 4 x) = x.
Proof. intros H. rewrite le_word_bytes. by apply Z.mod_small. Qed.

(** Reading back the fields of a record of the ring. *)
Lemma fields_of pid tgid comm filename :
  in_u 32 pid -> in_u 32 tgid -> length comm = 16%nat -> length filename = 256%nat ->
  ThreadEvent_try_from (le_bytes 4 pid ++ le_bytes 4 tgid ++ comm ++ filename) =
  Ok (mkThreadEvent pid tgid comm filename).
Proof.
  intros Hp Ht Hc Hf. unfold ThreadEvent_try_from.
  rewrite !length_app, !length_le_bytes, Hc, Hf. cbn [Nat.ltb Nat.leb Nat.add Kernel.EVENT_SIZE].
  unfold Kernel.pid_field, Kernel.tgid_field, Kernel.comm_field, Kernel.filename_field.
  rewrite take_app_length', (drop_app_length' _ _ 4), (drop_app_add' _ _ 4 4), (drop_app_add' _ _ 4 20)
    by (by rewrite length_le_bytes).
  rewrite (drop_app_length' _ _ 4), (drop_app_add' _ _ 4 16), take_app_length'
    by (by rewrite length_le_bytes).
  rewrite (drop_app_length' _ _ 16), (take_app_length' comm), !le_word_bytes_small by done.
  by rewrite take_ge by lia.
Qed.

(** ** What is followed *)

(** C11. After any messages of the tracker, the callback watches exactly the
    processes that were named, by their path or its last segment, in the filter
    of a collector whose kernel program took their pid, and exactly those pids are in
    the filters of the kernel programs; the next message is handed on, and behind a
    thread of a watched process, if the user's callback accepts it, the instant that
    marks the thread as discovered. *)
Theorem processes_followed user update clock_gettime built filters pre m s0 :
  existsb built all_collectors = true ->
  let call := callback user update clock_gettime built filters in
  let s := foldl (fun s m => (call m s).2) s0 pre in
  (forall pid, pid ∈ watched_tgids s <-> pid ∈ watched_tgids s0 \/
    exists m' c, m' ∈ pre /\ enrolls update built filters c m' pid) /\
  (forall c key, (c, key) ∈ tracked_tgids s <-> (c, key) ∈ tracked_tgids s0 \/
    exists m' pid, m' ∈ pre /\ enrolls update built filters c m' pid /\ key = wrap 32 pid) /\
  received (call m s).2 = received s ++ m :: follow_up user clock_gettime m s /\
  (call m s).1 = match follow_up user clock_gettime m s with
                 | [] => user (received s) m
                 | d :: _ => user (received s ++ [m]) d
                 end.
Proof.
  intros Hb. cbn zeta. rewrite (callback_wraps user update clock_gettime built filters Hb).
  destruct (run_spec user update clock_gettime built filters pre s0) as [H1 H2].
  split_and!; [exact H1|exact H2|apply wrapper_spec|by rewrite wrapper_shape].
Qed.

(** C13. The scan of /proc restricts the collectors of a configuration to the
    processes that run already: what it stores into the filters of the kernel
    programs are, for each configured collector, the pids of the processes
    with a name of the filter in effect (the global one if there is one), and
    every other thread of such a process is reported and marked as discovered. *)
Theorem scan_restricts {B P : Type} (cfg : BpfConfig B P) obj user update clock_gettime entries s0 :
  build cfg = Ok obj -> tracked_tgids s0 = ∅ ->
  let '(r, s) := scan_proc user update clock_gettime (is_built obj) (o_filters obj) (Ok entries) s0 in
  let processes := omap (fun entry => entry ≫= process_of_entry) entries in
  r = Ok tt /\
  (forall c key, (c, key) ∈ tracked_tgids s <-> exists own pid name threads,
    own_filter cfg c = Some own /\ (pid, Some name, threads) ∈ processes /\
    (name ∈ effective_filter cfg c \/ base_name name ∈ effective_filter cfg c) /\
    accepted update c pid = true /\ key = wrap 32 pid) /\
  (forall c pid name threads thread, (forall l m, user l m = 0) ->
    (pid, Some name, threads) ∈ processes -> thread ∈ threads -> is_Some (own_filter cfg c) ->
    (name ∈ effective_filter cfg c \/ base_name name ∈ effective_filter cfg c) ->
    accepted update c pid = true ->
    exists l timestamp l', received s =
      l ++ thread_message_of pid thread :: discovered thread.1 pid timestamp :: l').
Proof.
  intros Hbuild Hs0. destruct (build_ok cfg obj Hbuild) as (Hb & Hf & _).
  cbn [scan_proc]. rewrite scan_entries_messages.
  set (processes := omap _ entries).
  assert (forall c name, named (o_filters obj) c name <->
    name ∈ effective_filter cfg c \/ base_name name ∈ effective_filter cfg c) as Hnamed.
  { intros c name. unfold named. rewrite Hf. by rewrite !elem_of_list_to_set. }
  assert (forall c, is_built obj c = true <-> is_Some (own_filter cfg c)) as Hbuilt.
  { intros c. rewrite Hb. apply bool_decide_eq_true. }
  split; [done|]. split.
  - intros c key. destruct (existsb (is_built obj) all_collectors) eqn:Hany.
    + rewrite callback_wraps by done.
      destruct (run_spec user update clock_gettime (is_built obj) (o_filters obj)
        (scan_messages entries) s0) as [_ H2]. unfold run_callback in H2. rewrite H2, Hs0.
      unfold enrolls, takes. setoid_rewrite Hnamed. setoid_rewrite Hbuilt.
      split.
      * intros [?|(m & pid & Hm & (name & Ht & [own Hown] & Ha & Hn) & ->)]; [set_solver|].
        destruct (scan_processes name pid m entries) as [[_ [threads Hp]] _]; [done|].
        by exists own, pid, name, threads.
      * intros (own & pid & name & threads & Hown & Hp & Hn & Ha & ->). right.
        destruct (scan_processes name pid (track_message name (TrackType.Process pid) None) entries)
          as [_ [Hm Ht]]; [by split; [|exists threads]|].
        by eexists _, pid; split; [exact Hm|split; [exists name; split; [exact Ht|]|]].
    + rewrite plain_tracked, Hs0 by done. split; [set_solver|].
      intros (own & pid & name & threads & Hown & _). exfalso.
      assert (is_built obj c = true) as Hc by (by apply Hbuilt; exists own).
      rewrite <-not_true_iff_false, existsb_exists in Hany. apply Hany. exists c.
      split; [apply list_elem_of_In, all_collectors_in|done].
  - intros c pid name threads thread Huser Hp Hthread Hown Hn Ha.
    destruct (scan_thread_order _ _ _ _ _ Hp Hthread) as (ms1 & ms2 & -> & Hm).
    rewrite callback_wraps.
    2: { apply existsb_exists. exists c. by split; [apply list_elem_of_In, all_collectors_in|apply Hbuilt]. }
    apply run_discovers; [done..|]. exists (track_message name (TrackType.Process pid) None), c.
    split; [done|]. exists name. split; [done|]. split_and!; [by apply Hbuilt|done|by apply Hnamed].
Qed.

(** C15. What a new thread is reported as depends on what the record before it left
    in the memory of the ring, because the kernel program stores no file name: only
    over a cleared file name it is the thread, under its name cut to fifteen
    bytes, and a cut inside a character panics; over the file name of an earlier
    record it is a process with that name (or a panic). *)
Theorem thread_event_memory read_str mem pid tgid name :
  (forall dst src, Forall (fun b => b <> 0) src ->
    read_str dst src =
      take (Nat.min (length src) (length dst - 1)) src ++ [0] ++
      drop (S (Nat.min (length src) (length dst - 1))) dst) ->
  length mem = Kernel.EVENT_SIZE -> in_u 32 pid -> in_u 32 tgid -> Forall (fun b => b <> 0) name ->
  exists event,
    ThreadEvent_try_from (Kernel.handle_sched_wakeup_new read_str mem pid tgid name) = Ok event /\
    thread_message event =
      match until_nul (Kernel.filename_field mem) with
      | [] =>
          if utf8_valid (take 15 name) then
            Some (track_message (str_of (take 15 name)) (TrackType.Thread (as_signed 32 pid) (as_signed 32 tgid))
                    (Some (TrackType.Process (as_signed 32 tgid))))
          else None
      | stale =>
          if utf8_valid stale then
            Some (track_message (str_of stale) (TrackType.Process (as_signed 32 tgid)) None)
          else None
      end.
Proof.
  intros Hread Hmem Hp Ht Hname.
  assert (length (Kernel.comm_field mem) = 16%nat) as Hc.
  { unfold Kernel.comm_field. rewrite length_take, length_drop, Hmem. done. }
  unfold Kernel.handle_sched_wakeup_new. rewrite Hread, Hc by done.
  eexists. split.
  { apply fields_of; [done..| |].
    - rewrite !length_app, length_take, length_drop, Hc. cbn [length]. lia.
    - unfold Kernel.filename_field. rewrite length_take, length_drop, Hmem. done. }
  replace (take (Nat.min (length name) (16 - 1)) name) with (take 15 name).
  2: { destruct (Nat.le_ge_cases (length name) 15).
       - rewrite Nat.min_l by lia. by rewrite !take_ge by lia.
       - by rewrite Nat.min_r by lia. }
  unfold thread_message, filename_str, comm_str, c_str. cbn [te_filename te_comm te_pid te_tgid].
  cbn [app]. rewrite until_nul_app by (by apply Forall_take).
  destruct (until_nul (Kernel.filename_field mem)) as [|b stale].
  - cbn. by destruct (utf8_valid (take 15 name)).
  - destruct (utf8_valid (b :: stale)); cbn [mbind option_bind]; [|done]. by rewrite str_of_nil.
Qed.

(** *** The theorems at work *)

Definition no_tracker : Tracker := mkTracker ∅ ∅ [].

Definition node_config : BpfConfig unit unit :=
  mkBpfConfig (Some (mkThreadTrackerConfig 262144)) (Some (mkCpuUtilConfig 9 [] ["node"%string] 1048576))
    None None (Some (mkProfilerConfig 99 false true [] [] true false true 1048576)) None None [].

Definition node_proc : list (option ProcEntry) :=
  [Some (mkProcEntry (Some "self"%string) None None);
   Some (mkProcEntry (Some "41"%string) (Some "node "%string)
     (Some [Some (mkTaskEntry (Some "41"%string) (Some "node"%string));
            Some (mkTaskEntry (Some "42"%string) (Some "worker"%string)); None]))].

Definition yes_user (_ : list Message) (_ : Message) : Z := 0.

Definition yes_update (_ : Collector) (_ : Z) : result string unit := Ok tt.

Definition only_cpuutil (c : Collector) : bool := match c with CpuUtil => true | _ => false end.

Lemma processes_followed_witness :
  let built := only_cpuutil in
  let filters := fun _ : Collector => {["node"%string]} : gset string in
  let exec := track_message "/usr/bin/node" (TrackType.Process 5) None in
  let thread := track_message "worker" (TrackType.Thread 6 5) (Some (TrackType.Process 5)) in
  let call := callback yes_user yes_update (fun _ => Some (0, 77)) built filters in
  received (call thread (call exec no_tracker).2).2 = [exec; thread; discovered 6 5 77].
Proof.
  cbn zeta.
  destruct (processes_followed yes_user yes_update (fun _ => Some (0, 77)) only_cpuutil
    (fun _ => {["node"%string]}) [track_message "/usr/bin/node" (TrackType.Process 5) None]
    (track_message "worker" (TrackType.Thread 6 5) (Some (TrackType.Process 5))) no_tracker eq_refl)
    as (_ & _ & Hr & _).
  cbn [foldl] in Hr. rewrite Hr. by vm_compute.
Defined.

Lemma scan_restricts_witness :
  exists obj, build node_config = Ok obj /\
  let '(r, s) := scan_proc yes_user yes_update (fun _ => Some (0, 77)) (is_built obj) (o_filters obj)
    (Ok node_proc) no_tracker in
  r = Ok tt /\ (CpuUtil, 41) ∈ tracked_tgids s /\
  exists l timestamp l', received s =
    l ++ thread_message_of 41 (42, "worker"%string) :: discovered 42 41 timestamp :: l'.
Proof.
  eexists. split; [reflexivity|].
  pose proof (scan_restricts node_config _ yes_user yes_update (fun _ => Some (0, 77)) node_proc no_tracker
    eq_refl eq_refl) as H.
  destruct (scan_proc _ _ _ _ _ _ _) as [r s]. destruct H as (Hr & Ht & Hd).
  split; [exact Hr|]. split.
  - apply Ht. exists ["node"%string], 41, "node"%string, [(42, "worker"%string)].
    split; [reflexivity|]. split; [vm_compute; constructor|].
    split; [left; vm_compute; constructor|]. by split.
  - apply (Hd CpuUtil 41 "node"%string [(42, "worker"%string)] (42, "worker"%string));
      [reflexivity|vm_compute; constructor|constructor|by eexists|left; vm_compute; constructor|reflexivity].
Defined.

(** A ring whose memory holds a record of an earlier exec of /bin/ls: a new thread
    of process 41 is reported as a process of that name. *)
Lemma thread_event_memory_witness :
  let read_str dst src :=
    take (Nat.min (length src) (length dst - 1)) src ++ [0] ++
    drop (S (Nat.min (length src) (length dst - 1))) dst in
  let used := Kernel.handle_sched_process_exec read_str (replicate 280 0) 7 7 (bytes_of "/bin/ls") in
  exists event,
    ThreadEvent_try_from (Kernel.handle_sched_wakeup_new read_str used 42 41 (bytes_of "worker")) = Ok event /\
    thread_message event = Some (track_message "/bin/ls" (TrackType.Process 41) None).
Proof.
  cbn zeta.
  destruct (thread_event_memory
    (fun dst src => take (Nat.min (length src) (length dst - 1)) src ++ [0] ++
      drop (S (Nat.min (length src) (length dst - 1))) dst)
    (Kernel.handle_sched_process_exec (fun dst src => take (Nat.min (length src) (length dst - 1)) src ++ [0] ++
      drop (S (Nat.min (length src) (length dst - 1))) dst) (replicate 280 0) 7 7 (bytes_of "/bin/ls"))
    42 41 (bytes_of "worker")) as (event & He & Hm); [done|reflexivity|done|done| |].
  - apply (bool_decide_unpack (Forall _ _)). by vm_compute.
  - exists event. split; [exact He|]. rewrite Hm. by vm_compute.
Defined.
