(* ===== verification/SchedTrace.v ===== *)
(** * The scheduler trace

    The events of the scheduler's kernel program as spans, one track per thread
    (src/bpf/src/schedtrace.rs). *)

From S2P Require Import Prelude Protocol Text Float BpfConfig BpfEvents.
Open Scope Z_scope.

Definition SCHED_EVENT_BLOCKED : Z := 1.

Definition SCHED_EVENT_RUNNABLE : Z := 2.

Definition RUNNABLE_REASON_PREEMPTED : Z := 1.

Definition RUNNABLE_REASON_STILL_RUNNING : Z := 2.

Definition RUNNABLE_REASON_WAKEUP : Z := 3.

Record SchedSpanEvent := mkSchedSpanEvent {
  se_pid : Z;
  se_tid : Z;
  se_start_time : Z;
  se_end_time : Z;
  se_cpu : Z;
  se_event_type : Z;
  se_frame : Z;
  se_reason : Z;
  se_task_state : Z
}.

(** [plain::from_bytes] of the 48 bytes of the C structure. *)
Definition SchedSpanEvent_try_from (data : list Z) : result BpfError SchedSpanEvent :=
  parse_plain 48 (fun data =>
    mkSchedSpanEvent (field 4 0 data) (field 4 4 data) (field 8 8 data) (field 8 16 data)
      (field 4 24 data) (field 4 28 data) (field 8 32 data) (field 4 40 data) (field 4 44 data))
    data "sched span event".

(** The tracks of the threads, how many ids were drawn, and what the callback
    received, oldest first. *)
Record SchedTraceState := mkSchedTraceState {
  thread_track_ids : gmap (Z * Z) Z;
  draws : nat;
  sched_received : list Message
}.

Definition runnable_reason (reason : Z) : option string :=
  if reason =? RUNNABLE_REASON_PREEMPTED then Some "preempted"%string
  else if reason =? RUNNABLE_REASON_STILL_RUNNING then Some "still_running"%string
  else if reason =? RUNNABLE_REASON_WAKEUP then Some "wakeup"%string
  else None.

Section SchedTrace.

(** The callback given what it received before, the random ids in the order in
    which they are drawn, and the kernel symbols of an address. *)
Variable user : list Message -> Message -> Z.
Variable rng : nat -> Z.
Variable symbolize : Z -> result string (list (option string)).

Definition resolve_kernel_symbol (addr : Z) : option string :=
  match symbolize addr with
  | Ok results => head (omap id results)
  | Err _ => None
  end.

Definition span_name (event : SchedSpanEvent) : string :=
  if se_event_type event =? SCHED_EVENT_BLOCKED then
    if negb (se_frame event =? 0) then
      match resolve_kernel_symbol (se_frame event) with
      | Some name => ("blocked [" ++ name ++ "]")%string
      | None => ("blocked [0x" ++ hex (se_frame event) ++ "]")%string
      end
    else "blocked"%string
  else if se_event_type event =? SCHED_EVENT_RUNNABLE then "runnable"%string
  else "running"%string.

Definition sched_labels (event : SchedSpanEvent) : Labels.t Z Z :=
  Labels.mk _ _
    match runnable_reason (se_reason event) with Some reason => [("reason"%string, reason)] | None => [] end
    (("cpu"%string, se_cpu event) ::
     if se_event_type event =? SCHED_EVENT_BLOCKED
     then [("task_state"%string, se_task_state event)] else [])
    [] [].

Definition thread_key (event : SchedSpanEvent) : Z * Z :=
  (as_signed 32 (se_pid event), as_signed 32 (se_tid event)).

Definition sched_track (key : Z * Z) (id : Z) : Message :=
  Message.Event (Event.Track (Track.mk _ _ _ "scheduler"%string (TrackType.Custom id)
    (Some (TrackType.Thread key.2 key.1)))).

Definition sched_span (event : SchedSpanEvent) (id : Z) : Message :=
  Message.Event (Event.Span (Span.mk _ _ _ _ _ (span_name event) (se_start_time event)
    (se_start_time event) (se_end_time event) (TrackId.Custom id) (sched_labels event))).

Definition call (message : Message) (s : SchedTraceState) : Z * SchedTraceState :=
  (user (sched_received s) message,
   mkSchedTraceState (thread_track_ids s) (draws s) (sched_received s ++ [message])).

(** The track of a thread, which its first event creates; the result of the
    callback is dropped. *)
Definition or_insert_track (key : Z * Z) (s : SchedTraceState) : Z * SchedTraceState :=
  match thread_track_ids s !! key with
  | Some id => (id, s)
  | None =>
      let id := rng (draws s) in
      let s := mkSchedTraceState (thread_track_ids s) (S (draws s)) (sched_received s) in
      let '(_, s) := call (sched_track key id) s in
      (id, mkSchedTraceState (<[key := id]> (thread_track_ids s)) (draws s) (sched_received s))
  end.

(** A record of the ring. *)
Definition sched_event (data : list Z) (s : SchedTraceState) : Z * SchedTraceState :=
  match SchedSpanEvent_try_from data with
  | Ok event =>
      let '(track_id_value, s) := or_insert_track (thread_key event) s in
      let '(result, s) := call (sched_span event track_id_value) s in
      if negb (result =? 0) then (result, s) else (0, s)
  | Err _ => (0, s)
  end.

Definition sched_init : SchedTraceState := mkSchedTraceState ∅ 0 [].

Definition sched_run (records : list (list Z)) (s : SchedTraceState) : SchedTraceState :=
  foldl (fun s data => (sched_event data s).2) s records.

(** ** Lemmas *)

(** The threads some records are about. *)
Definition threads_of (records : list (list Z)) : list (Z * Z) :=
  omap (fun data => match SchedSpanEvent_try_from data with
                    | Ok event => Some (thread_key event) | Err _ => None end) records.

Record sched_ok (seen : list (Z * Z)) (s : SchedTraceState) : Prop := {
  ids_seen key : is_Some (thread_track_ids s !! key) <-> key ∈ seen;
  ids_drawn key id : thread_track_ids s !! key = Some id ->
    sched_track key id ∈ sched_received s /\ exists n, (n < draws s)%nat /\ id = rng n;
  ids_inj key key' n : thread_track_ids s !! key = Some (rng n) ->
    thread_track_ids s !! key' = Some (rng n) -> distinct_draws rng (draws s) -> key = key'
}.

Lemma or_insert_track_spec key s seen :
  sched_ok seen s ->
  let '(id, s') := or_insert_track key s in
  sched_ok (seen ++ [key]) s' /\ thread_track_ids s' !! key = Some id /\
  sched_received s' = sched_received s ++ (if bool_decide (key ∈ seen) then [] else [sched_track key id]).
Proof.
  intros H. unfold or_insert_track. destruct (thread_track_ids s !! key) as [id|] eqn:E.
  - assert (key ∈ seen) as Hin by (apply (ids_seen _ _ H); by eexists).
    rewrite bool_decide_true, app_nil_r by done. split; [|done]. split.
    + intros k. rewrite (ids_seen _ _ H). set_solver.
    + apply (ids_drawn _ _ H).
    + apply (ids_inj _ _ H).
  - assert (key ∉ seen) as Hin by (intros [? ?]%(ids_seen _ _ H); congruence).
    rewrite bool_decide_false by done. cbn. split; [|by rewrite lookup_insert_eq]. split; cbn.
    + intros k. destruct (decide (k = key)) as [->|Hk].
      * rewrite lookup_insert_eq. set_solver.
      * rewrite lookup_insert_ne, (ids_seen _ _ H) by done. set_solver.
    + intros k id. destruct (decide (k = key)) as [->|Hk].
      * rewrite lookup_insert_eq. intros [= <-]. split; [set_solver|]. exists (draws s). split; [lia|done].
      * rewrite lookup_insert_ne by done. intros (Hm & n & Hn & ->)%(ids_drawn _ _ H).
        split; [set_solver|]. exists n. split; [lia|done].
    + intros k k' n Hk Hk' Hinj.
      assert (forall k0, thread_track_ids s !! k0 = Some (rng (draws s)) -> False) as Hfresh.
      { intros k0 (_ & n0 & Hn0 & Hr)%(ids_drawn _ _ H). apply Hinj in Hr; cbn; lia. }
      destruct (decide (k = key)) as [->|Hne], (decide (k' = key)) as [->|Hne']; [done|..].
      * rewrite lookup_insert_eq in Hk. rewrite lookup_insert_ne in Hk' by done.
        injection Hk as Hr. rewrite <-Hr in Hk'. by apply Hfresh in Hk'.
      * rewrite lookup_insert_eq in Hk'. rewrite lookup_insert_ne in Hk by done.
        injection Hk' as Hr. rewrite <-Hr in Hk. by apply Hfresh in Hk.
      * rewrite lookup_insert_ne in Hk, Hk' by done. apply (ids_inj _ _ H _ _ n); [done..|].
        intros i j Hi Hj. apply Hinj; cbn; lia.
Qed.

Lemma call_ok message s seen : sched_ok seen s -> sched_ok seen (call message s).2.
Proof.
  intros [H1 H2 H3]. split; [done| |done]. intros key id (Hm & Hn)%H2. split; [set_solver|done].
Qed.

Lemma sched_event_spec data s seen :
  sched_ok seen s ->
  match SchedSpanEvent_try_from data with
  | Ok event =>
      let key := thread_key event in
      exists id, thread_track_ids (sched_event data s).2 !! key = Some id /\
      sched_ok (seen ++ [key]) (sched_event data s).2 /\
      let before := sched_received s ++ (if bool_decide (key ∈ seen) then [] else [sched_track key id]) in
      sched_track key id ∈ before /\
      sched_received (sched_event data s).2 = before ++ [sched_span event id] /\
      (sched_event data s).1 = user before (sched_span event id)
  | Err _ => sched_event data s = (0, s)
  end.
Proof.
  intros H. unfold sched_event. destruct (SchedSpanEvent_try_from data) as [event|]; [|done].
  pose proof (or_insert_track_spec (thread_key event) s seen H) as Ho.
  destruct (or_insert_track (thread_key event) s) as [id s']. destruct Ho as (Hok & Hid & Hr).
  exists id. pose proof (call_ok (sched_span event id) s' _ Hok) as Hok'.
  destruct (ids_drawn _ _ Hok _ _ Hid) as [Hin _].
  unfold call in *. rewrite <-Hr. cbn in *.
  destruct (Z.eqb_spec (user (sched_received s') (sched_span event id)) 0) as [E|]; cbn; split_and!; done.
Qed.

Lemma sched_run_ok records s seen :
  sched_ok seen s -> sched_ok (seen ++ threads_of records) (sched_run records s).
Proof.
  revert s seen. induction records as [|data records IH]; intros s seen H; [by rewrite app_nil_r|].
  change (sched_run (data :: records) s) with (sched_run records (sched_event data s).2).
  pose proof (sched_event_spec data s seen H) as Hs. unfold threads_of. cbn [omap list_omap].
  destruct (SchedSpanEvent_try_from data) as [event|].
  - destruct Hs as (id & _ & Hok & _). apply IH in Hok. by rewrite <-app_assoc in Hok.
  - rewrite Hs. by apply IH.
Qed.

Lemma sched_init_ok : sched_ok [] sched_init.
Proof. split; cbn; [|done..]. intros key. rewrite lookup_empty. split; [by intros [? ?]|set_solver]. Qed.

End SchedTrace.

(** ** The ring *)

Section Ring.

Variable user : list Message -> Message -> Z.
Variable rng : nat -> Z.
Variable symbolize : Z -> result string (list (option string)).
Variable stops : Z -> option (result string unit).

Definition sched_read (what : string) (records : list (list Z)) (at_end : result string unit)
    (s : SchedTraceState) : option (result BpfError unit * SchedTraceState) :=
  '(r, s) ← deliver stops (fun data s => Some (sched_event user rng symbolize data s)) records at_end s;
  Some (map_err (fun e => MapError ("failed to " ++ what ++ " ring buffer: " ++ e)%string) r, s).

Definition sched_consume := sched_read "consume".

Definition sched_poll := sched_read "poll".

End Ring.

(** Whatever records the ring delivers and whatever the callback answers: each
    event becomes one span with its times, cpu, state and reason; the span
    is on the track of its thread, which is described, as a child of the thread,
    exactly once and in front of the first span on it; a record that is too short
    changes nothing. If the random ids do not collide, no two threads share a track. *)
Lemma sched_reported user rng symbolize pre data :
  let s := sched_run user rng symbolize pre sched_init in
  match SchedSpanEvent_try_from data with
  | Ok event =>
      let key := thread_key event in
      let s' := (sched_event user rng symbolize data s).2 in
      exists id, thread_track_ids s' !! key = Some id /\
      let before := sched_received s ++
        (if bool_decide (key ∈ threads_of pre) then [] else [sched_track key id]) in
      sched_track key id ∈ before /\
      sched_received s' = before ++ [sched_span symbolize event id] /\
      (sched_event user rng symbolize data s).1 = user before (sched_span symbolize event id) /\
      (distinct_draws rng (draws s') ->
       forall key', thread_track_ids s' !! key' = Some id -> key' = key)
  | Err _ => sched_event user rng symbolize data s = (0, s)
  end.
Proof.
  cbn zeta. pose proof (sched_run_ok user rng symbolize pre _ _ (sched_init_ok rng)) as Hok.
  cbn [app] in Hok. pose proof (sched_event_spec user rng symbolize data _ _ Hok) as H.
  destruct (SchedSpanEvent_try_from data) as [event|]; [|done].
  destruct H as (id & Hid & Hok' & Hin & Hr & Hres). exists id. split_and!; [done..|].
  intros Hinj key' Hkey'. destruct (ids_drawn _ _ _ Hok' _ _ Hid) as (_ & n & _ & ->).
  by apply (ids_inj _ _ _ Hok' _ _ n).
Qed.
