(* ===== verification/SchedKernel.v ===== *)
(** * The kernel program of the scheduler trace

    The tracepoints of src/bpf/src/bpf/schedtrace.bpf.c on the map of task states and
    the ring, and what the collector of [SchedTrace] makes of their records: the spans
    of a thread are the intervals of its life. *)

From S2P Require Import Prelude Protocol Text Float BpfConfig BpfEvents KernelRecords SchedTrace.
Open Scope Z_scope.

Definition SCHED_EVENT_RUNNING : Z := 0.

Definition TRACKED_TASK_RUNNING : Z := 1.

Definition TRACKED_TASK_BLOCKED : Z := 2.

Definition TRACKED_TASK_RUNNABLE : Z := 3.

Definition RUNNABLE_REASON_NONE : Z := 0.

(** ** State *)

Record TaskState := mkTaskState {
  state_timestamp : Z;
  frame : Z;
  tgid : Z;
  cpu : Z;
  state : Z;
  reason : Z;
  task_state : Z;
  exiting : bool
}.

(** The map of task states, the filter, and the records in the ring. *)
Record Kernel := mkKernel {
  task_states : gmap Z TaskState;
  tracked_tgids : gset Z;
  events : list (list Z)
}.

Definition set_states (m : gmap Z TaskState) (k : Kernel) : Kernel := mkKernel m (tracked_tgids k) (events k).

(** A [task_struct], as far as it is read. *)
Record Task := mkTask { task_pid : Z; task_tgid : Z }.

(** What the helpers answer in one call of a handler: whether the ring has room,
    whether the map takes a new entry and which others it evicts for it, and the
    frame above the scheduler, if it can be had. *)
Record Helpers := mkHelpers {
  room : bool;
  stored : bool;
  evicted : gset Z;
  stack : option Z
}.

(** [bpf_map_update_elem] with a new key, on a map that evicts its oldest entries. *)
Definition map_update (h : Helpers) (tid : Z) (new_state : TaskState) (m : gmap Z TaskState) : gmap Z TaskState :=
  let m := filter (fun entry => entry.1 ∉ evicted h) m in
  if stored h then <[tid := new_state]> m else m.

(** What [SchedTrace::new] asks of the kernel program. *)
Record KernelConfig := mkKernelConfig { events_entries : Z; filter_enabled : bool; initial_tgids : list Z }.

Definition kernel_config (config : SchedTraceConfig) : KernelConfig :=
  mkKernelConfig (wrap 32 (st_ringbuf config))
    (negb (is_empty (st_pid_filters config)) || negb (is_empty (st_filter_process config)))
    (map (wrap 32) (st_pid_filters config)).

Section Programs.

Variable cfg : KernelConfig.

Definition should_track_tgid (k : Kernel) (tgid : Z) : bool :=
  if negb (filter_enabled cfg) then true
  else if tgid =? 0 then false
  else bool_decide (tgid ∈ tracked_tgids k).

(** The 48 bytes of a [struct sched_span_event]. *)
Definition span_record (e : SchedSpanEvent) : layout :=
  [(4%nat, se_pid e); (4%nat, se_tid e); (8%nat, se_start_time e); (8%nat, se_end_time e);
   (4%nat, se_cpu e); (4%nat, se_event_type e); (8%nat, se_frame e); (4%nat, se_reason e);
   (4%nat, se_task_state e)].

Definition emit_span (h : Helpers) (e : SchedSpanEvent) (k : Kernel) : Kernel :=
  if (se_start_time e =? 0) || (se_end_time e <=? se_start_time e) then k
  else mkKernel (task_states k) (tracked_tgids k) (ringbuf_submit (room h) (encode (span_record e)) (events k)).

Definition capture_blocking_frame (h : Helpers) : Z := default 0 (stack h).

(** A thread the program looks at. *)
Definition followed (k : Kernel) (task : option Task) : option Task :=
  task ← task;
  if (task_pid task =? 0) || negb (should_track_tgid k (task_tgid task)) then None else Some task.

Definition handle_task_off_cpu (h : Helpers) (task : option Task) (now processor : Z) (preempt : bool)
    (prev_state : Z) (k : Kernel) : Kernel :=
  match followed k task with
  | None => k
  | Some task =>
      let tid := task_pid task in
      let known := task_states k !! tid in
      let k :=
        match known with
        | Some s =>
            if state s =? TRACKED_TASK_RUNNING then
              emit_span h (mkSchedSpanEvent (task_tgid task) tid (state_timestamp s) now (cpu s)
                SCHED_EVENT_RUNNING 0 RUNNABLE_REASON_NONE 0) k
            else k
        | None => k
        end in
      if match known with Some s => exiting s | None => false end
      then set_states (delete tid (task_states k)) k
      else
        let runnable := preempt || (prev_state =? 0) in
        let new_state := mkTaskState now (if runnable then 0 else capture_blocking_frame h) (task_tgid task)
          processor (if runnable then TRACKED_TASK_RUNNABLE else TRACKED_TASK_BLOCKED)
          (if runnable then (if preempt then RUNNABLE_REASON_PREEMPTED else RUNNABLE_REASON_STILL_RUNNING)
           else RUNNABLE_REASON_NONE)
          (if runnable then 0 else prev_state) false in
        set_states match known with
                   | Some _ => <[tid := new_state]> (task_states k)
                   | None => map_update h tid new_state (task_states k)
                   end k
  end.

Definition handle_task_on_cpu (h : Helpers) (task : option Task) (now processor : Z) (k : Kernel) : Kernel :=
  match followed k task with
  | None => k
  | Some task =>
      let tid := task_pid task in
      let new_state := mkTaskState now 0 (task_tgid task) processor TRACKED_TASK_RUNNING RUNNABLE_REASON_NONE 0
        false in
      match task_states k !! tid with
      | Some s =>
          let k :=
            if state s =? TRACKED_TASK_RUNNABLE then
              emit_span h (mkSchedSpanEvent (task_tgid task) tid (state_timestamp s) now processor
                SCHED_EVENT_RUNNABLE 0 (reason s) 0) k
            else if state s =? TRACKED_TASK_BLOCKED then
              emit_span h (mkSchedSpanEvent (task_tgid task) tid (state_timestamp s) now (cpu s)
                SCHED_EVENT_BLOCKED (frame s) RUNNABLE_REASON_NONE (task_state s)) k
            else k in
          set_states (<[tid := new_state]> (task_states k)) k
      | None => set_states (map_update h tid new_state (task_states k)) k
      end
  end.

Definition handle_task_wakeup (h : Helpers) (task : option Task) (now processor : Z) (k : Kernel) : Kernel :=
  match followed k task with
  | None => k
  | Some task =>
      let tid := task_pid task in
      match task_states k !! tid with
      | Some s =>
          if negb (state s =? TRACKED_TASK_BLOCKED) then k
          else
            let k := emit_span h (mkSchedSpanEvent (task_tgid task) tid (state_timestamp s) now (cpu s)
              SCHED_EVENT_BLOCKED (frame s) RUNNABLE_REASON_NONE (task_state s)) k in
            set_states (<[tid := mkTaskState now 0 (tgid s) (cpu s) TRACKED_TASK_RUNNABLE RUNNABLE_REASON_WAKEUP 0
              (exiting s)]> (task_states k)) k
      | None =>
          set_states (map_update h tid (mkTaskState now 0 (task_tgid task) processor TRACKED_TASK_RUNNABLE
            RUNNABLE_REASON_WAKEUP 0 false) (task_states k)) k
      end
  end.

Definition handle_sched_process_exit (h : Helpers) (task : option Task) (now processor : Z) (k : Kernel) : Kernel :=
  match followed k task with
  | None => k
  | Some task =>
      let tid := task_pid task in
      match task_states k !! tid with
      | Some s =>
          set_states (<[tid := mkTaskState (state_timestamp s) (frame s) (tgid s) (cpu s) (state s) (reason s)
            (task_state s) true]> (task_states k)) k
      | None =>
          set_states (map_update h tid (mkTaskState now 0 (task_tgid task) processor TRACKED_TASK_RUNNING
            RUNNABLE_REASON_NONE 0 true) (task_states k)) k
      end
  end.

(** What happens: a switch, on one processor, with the helpers of its two halves; a
    wakeup, of a new thread or not; an exit; and a process entered into the filter. *)
Inductive Tracepoint :=
| SchedSwitch (preempt : bool) (prev next : option Task) (prev_state now processor : Z) (off on : Helpers)
| SchedWakeup (task : option Task) (now processor : Z) (h : Helpers)
| SchedProcessExit (task : option Task) (now processor : Z) (h : Helpers)
| Filter (tgid : Z).

Definition handle (t : Tracepoint) (k : Kernel) : Kernel :=
  match t with
  | SchedSwitch preempt prev next prev_state now processor off on =>
      handle_task_on_cpu on next now processor (handle_task_off_cpu off prev now processor preempt prev_state k)
  | SchedWakeup task now processor h => handle_task_wakeup h task now processor k
  | SchedProcessExit task now processor h => handle_sched_process_exit h task now processor k
  | Filter tgid => mkKernel (task_states k) ({[tgid]} ∪ tracked_tgids k) (events k)
  end.

Definition handle_all (ts : list Tracepoint) (k : Kernel) : Kernel := foldl (fun k t => handle t k) k ts.

Definition kernel_init : Kernel := mkKernel ∅ (list_to_set (initial_tgids cfg)) [].


(** ** What is in the ring *)

(** The spans whose records are in the ring, and those of one thread. *)
Definition emitted (k : Kernel) : list SchedSpanEvent :=
  omap (fun data => match SchedSpanEvent_try_from data with Ok e => Some e | Err _ => None end) (events k).

Definition thread_spans (tid : Z) (k : Kernel) : list SchedSpanEvent :=
  List.filter (fun e => se_tid e =? tid) (emitted k).

Lemma span_record_read e :
  fits (span_record e) -> SchedSpanEvent_try_from (encode (span_record e)) = Ok e.
Proof.
  intros H. unfold SchedSpanEvent_try_from. rewrite parse_plain_encode by (cbn; lia). f_equal.
  destruct e. read_fields.
Qed.

Definition emits (h : Helpers) (e : SchedSpanEvent) : list SchedSpanEvent :=
  if room h && negb (se_start_time e =? 0) && (se_start_time e <? se_end_time e) then [e] else [].

Lemma emitted_emit_span h e k :
  fits (span_record e) -> emitted (emit_span h e k) = emitted k ++ emits h e.
Proof.
  intros He. unfold emit_span, emits. rewrite Z.leb_antisym.
  destruct (se_start_time e =? 0); cbn [orb negb]; [by rewrite andb_false_r, app_nil_r|].
  destruct (se_start_time e <? se_end_time e); cbn [negb]; [|by rewrite andb_false_r, app_nil_r].
  unfold emitted, ringbuf_submit. cbn [events]. destruct (room h); cbn [andb]; [|by rewrite app_nil_r].
  rewrite omap_app. cbn [omap list_omap]. by rewrite span_record_read.
Qed.

Lemma length_events_emit h e k : length (events (emit_span h e k)) = (length (events k) + length (emits h e))%nat.
Proof.
  unfold emit_span, emits. rewrite Z.leb_antisym.
  destruct (se_start_time e =? 0); cbn [orb negb]; [rewrite andb_false_r; cbn; lia|].
  destruct (se_start_time e <? se_end_time e); cbn [negb]; [|rewrite andb_false_r; cbn; lia].
  unfold ringbuf_submit. cbn [events]. destruct (room h); cbn [andb]; [by rewrite length_app|cbn; lia].
Qed.

Lemma emit_span_states h e k : task_states (emit_span h e k) = task_states k.
Proof. unfold emit_span. by destruct (_ || _). Qed.

Lemma emit_span_tracked h e k : tracked_tgids (emit_span h e k) = tracked_tgids k.
Proof. unfold emit_span. by destruct (_ || _). Qed.

(** ** What holds of every run *)

(** The values of a state fit into their fields, and it began by [time]. *)
Record state_ok (time : Z) (s : TaskState) : Prop := {
  so_since : 0 <= state_timestamp s <= time;
  so_frame : in_u 64 (frame s);
  so_cpu : in_u 32 (cpu s);
  so_reason : in_u 32 (reason s);
  so_task_state : in_u 32 (task_state s)
}.

Definition task_ok (task : option Task) : Prop :=
  forall t, task = Some t -> in_u 32 (task_pid t) /\ in_u 32 (task_tgid t).

Definition helpers_ok (h : Helpers) : Prop := forall f, stack h = Some f -> in_u 64 f.

(** The time of a tracepoint, and the width of what it reads. *)
Definition time_of (t : Tracepoint) (before : Z) : Z :=
  match t with
  | SchedSwitch _ _ _ _ now _ _ _ | SchedWakeup _ now _ _ | SchedProcessExit _ now _ _ => now
  | Filter _ => before
  end.

Definition tracepoint_ok (t : Tracepoint) : Prop :=
  match t with
  | SchedSwitch _ prev next prev_state now processor off on =>
      task_ok prev /\ task_ok next /\ in_u 32 prev_state /\ in_u 64 now /\ in_u 32 processor /\
      helpers_ok off /\ helpers_ok on
  | SchedWakeup task now processor _ | SchedProcessExit task now processor _ =>
      task_ok task /\ in_u 64 now /\ in_u 32 processor
  | Filter _ => True
  end.

(** The clock does not go back. *)
Fixpoint clock_ok (time : Z) (ts : list Tracepoint) : Prop :=
  match ts with
  | [] => True
  | t :: ts => time <= time_of t time /\ clock_ok (time_of t time) ts
  end.

(** The spans of a row follow each other. *)
Definition apart (l : list SchedSpanEvent) : Prop :=
  forall l1 e l2 e' l3, l = l1 ++ e :: l2 ++ e' :: l3 -> se_end_time e <= se_start_time e'.

Record kernel_ok (time : Z) (k : Kernel) : Prop := {
  ko_states tid s : task_states k !! tid = Some s -> state_ok time s;
  ko_records : length (emitted k) = length (events k);
  ko_spans e : e ∈ emitted k -> 0 < se_start_time e < se_end_time e /\ se_end_time e <= time;
  ko_fits e : e ∈ emitted k -> fits (span_record e);
  ko_tracked e : e ∈ emitted k -> should_track_tgid k (se_pid e) = true;
  ko_before tid s e : task_states k !! tid = Some s -> e ∈ thread_spans tid k -> se_end_time e <= state_timestamp s;
  ko_apart tid : apart (thread_spans tid k)
}.

Lemma apart_snoc l e : apart l -> (forall e', e' ∈ l -> se_end_time e' <= se_start_time e) -> apart (l ++ [e]).
Proof.
  intros Hl He l1 e1 l2 e2 l3 E. destruct l3 as [|e3 l3 _] using rev_ind.
  - rewrite app_comm_cons, app_assoc in E. apply app_inj_tail in E as [-> ->]. apply He. set_solver.
  - rewrite !app_comm_cons, !app_assoc in E. apply app_inj_tail in E as [-> _].
    apply (Hl l1 e1 l2 e2 l3). by rewrite <-!app_assoc, <-!app_comm_cons.
Qed.

Lemma thread_spans_emit tid h e k :
  fits (span_record e) ->
  thread_spans tid (emit_span h e k) = thread_spans tid k ++ (if se_tid e =? tid then emits h e else []).
Proof.
  intros He. unfold thread_spans. rewrite emitted_emit_span, List.filter_app by done. f_equal.
  unfold emits. destruct (_ && _); cbn; by destruct (_ =? tid).
Qed.

(** A new span of a thread, from the time its state began. *)
Lemma emit_span_ok time h e k s :
  kernel_ok time k -> fits (span_record e) -> task_states k !! se_tid e = Some s ->
  se_start_time e = state_timestamp s -> se_end_time e = time -> should_track_tgid k (se_pid e) = true ->
  let k' := emit_span h e k in
  length (emitted k') = length (events k') /\
  (forall e, e ∈ emitted k' -> 0 < se_start_time e < se_end_time e /\ se_end_time e <= time) /\
  (forall e, e ∈ emitted k' -> fits (span_record e)) /\
  (forall e, e ∈ emitted k' -> should_track_tgid k (se_pid e) = true) /\
  (forall tid s e', tid <> se_tid e -> task_states k !! tid = Some s -> e' ∈ thread_spans tid k' ->
    se_end_time e' <= state_timestamp s) /\
  (forall tid, apart (thread_spans tid k')).
Proof.
  intros [Hst Hrec Hsp Hfit Htr Hb Ha] He Hs Hstart Hend Htrack k'. unfold k'. rewrite emitted_emit_span by done.
  assert (forall e', e' ∈ emits h e -> e' = e /\ 0 < se_start_time e < se_end_time e) as Hem.
  { intros e' He'. unfold emits in He'. destruct (_ && _) eqn:E; [|by apply elem_of_nil in He'].
    apply list_elem_of_singleton in He' as ->. to_prop. destruct (Hst _ _ Hs) as [[? ?] _ _ _ _].
    split; [done|lia]. }
  split_and!.
  - rewrite length_app, Hrec, length_events_emit. done.
  - intros e' [?|[-> ?]%Hem]%elem_of_app; [auto|]. lia.
  - intros e' [?|[-> ?]%Hem]%elem_of_app; auto.
  - intros e' [?|[-> ?]%Hem]%elem_of_app; auto.
  - intros tid s' e' Hne Hs'. rewrite thread_spans_emit by done.
    destruct (Z.eqb_spec (se_tid e) tid); [done|]. rewrite app_nil_r. by apply Hb.
  - intros tid. rewrite thread_spans_emit by done. destruct (Z.eqb_spec (se_tid e) tid) as [<-|]; [|by rewrite app_nil_r].
    unfold emits. destruct (_ && _); [|by rewrite app_nil_r]. apply apart_snoc; [done|].
    intros e' He'. rewrite Hstart. by apply (Hb (se_tid e)).
Qed.

(** The map after a handler: the thread has a new state or none, the others have the
    one they had or were evicted. *)
Definition changed (tid : Z) (new_state : TaskState) (m m' : gmap Z TaskState) : Prop :=
  forall tid' s, m' !! tid' = Some s -> s = new_state \/ tid' <> tid /\ m !! tid' = Some s.

Lemma changed_insert tid new_state m : changed tid new_state m (<[tid := new_state]> m).
Proof. intros tid' s [[_ <-]|[? ?]]%lookup_insert_Some; auto. Qed.

Lemma changed_update h tid new_state m : m !! tid = None -> changed tid new_state m (map_update h tid new_state m).
Proof.
  intros Hm tid' s Hs. unfold map_update in Hs.
  assert (forall tid' s, filter (fun entry : Z * TaskState => entry.1 ∉ evicted h) m !! tid' = Some s ->
    tid' <> tid /\ m !! tid' = Some s) as Hf.
  { intros t0 s0 [H0 _]%map_lookup_filter_Some. split; [|done]. intros ->. congruence. }
  destruct (stored h); [|auto]. apply lookup_insert_Some in Hs as [[_ <-]|[_ Hs]]; auto.
Qed.

Lemma changed_delete tid new_state m : changed tid new_state m (delete tid m).
Proof. intros tid' s [? ?]%lookup_delete_Some. auto. Qed.

Lemma kernel_ok_later time now k : kernel_ok time k -> time <= now -> kernel_ok now k.
Proof.
  intros [H1 H0 H2 H6 H3 H4 H5] Hle. split; auto.
  - intros tid s Hs. destruct (H1 tid s Hs) as [[? ?] ? ? ? ?]. split; try done. lia.
  - intros e He. destruct (H2 e He). lia.
Qed.

(** A handler that emits nothing. *)
Lemma quiet_ok now k tid new_state m :
  kernel_ok now k -> state_ok now new_state -> state_timestamp new_state = now ->
  changed tid new_state (task_states k) m -> kernel_ok now (set_states m k).
Proof.
  intros [H1 H0 H2 H6 H3 H4 H5] Hs Hn Hm. split; try done.
  - intros tid' s [->|[_ ?]]%Hm; [done|by eapply H1].
  - intros tid' s e [->|[_ ?]]%Hm He; [|by eapply H4]. rewrite Hn. apply H2.
    by apply list_elem_of_In, filter_In in He as [He%list_elem_of_In _].
Qed.

(** One that emits the span of a thread and changes its state. *)
Lemma emitting_ok now h e k s new_state m :
  kernel_ok now k -> fits (span_record e) -> task_states k !! se_tid e = Some s ->
  se_start_time e = state_timestamp s -> se_end_time e = now -> should_track_tgid k (se_pid e) = true ->
  state_ok now new_state -> state_timestamp new_state = now ->
  changed (se_tid e) new_state (task_states k) m -> kernel_ok now (set_states m (emit_span h e k)).
Proof.
  intros Hk He Hs Hstart Hend Htrack Hnew Hn Hm.
  destruct (emit_span_ok now h e k s Hk He Hs Hstart Hend Htrack) as (H0 & H2 & H6 & H3 & H4 & H5).
  split; try done.
  - intros tid' s' [->|[_ ?]]%Hm; [done|by eapply ko_states].
  - intros e' He'. specialize (H3 e' He'). unfold should_track_tgid in *. cbn.
    by rewrite emit_span_tracked.
  - intros tid' s' e' [->|[Hne Hs']]%Hm He'; [|by eapply H4]. rewrite Hn. apply H2.
    by apply list_elem_of_In, filter_In in He' as [He'%list_elem_of_In _].
Qed.

Lemma followed_ok k task t :
  followed k task = Some t -> task_ok task ->
  in_u 32 (task_pid t) /\ in_u 32 (task_tgid t) /\ should_track_tgid k (task_tgid t) = true /\ task_pid t <> 0.
Proof.
  unfold followed. destruct task as [t0|]; [|done]. cbn.
  destruct (_ || _) eqn:E; [done|]. intros [= ->] Ht. to_prop. destruct (Ht t eq_refl). auto.
Qed.

(** The widths of what the program stores itself. *)
Lemma frame_ok h : helpers_ok h -> in_u 64 (capture_blocking_frame h).
Proof. intros H. unfold capture_blocking_frame. destruct (stack h) as [f|] eqn:E; [by apply H|done]. Qed.

Lemma in_u_small w x : 0 <= x < 2 ^ w -> in_u w x.
Proof. done. Qed.

Ltac fields_fit :=
  unfold fits, span_record, in_u in *; repeat first [apply Forall_cons; split | apply Forall_nil_2];
  cbn; unfold in_u; try done; try lia.

Lemma off_cpu_ok h task now processor preempt prev_state k :
  kernel_ok now k -> task_ok task -> in_u 64 now -> in_u 32 processor -> in_u 32 prev_state -> helpers_ok h ->
  kernel_ok now (handle_task_off_cpu h task now processor preempt prev_state k).
Proof.
  intros Hk Htask Hnow Hp Hps Hh. unfold handle_task_off_cpu.
  destruct (followed k task) as [t|] eqn:Ef; [|done]. destruct (followed_ok _ _ _ Ef Htask) as (Hpid & Htg & Htr & _).
  set (new_state := mkTaskState now _ _ processor _ _ _ false).
  assert (state_ok now new_state) as Hnew.
  { unfold in_u in Hnow. pose proof (frame_ok h Hh).
    split; cbn; [lia|by destruct (preempt || _)|done| |by destruct (preempt || _)].
    destruct (preempt || _); [|done]. by destruct preempt. }
  destruct (task_states k !! task_pid t) as [s|] eqn:Es.
  - pose proof (ko_states _ _ Hk _ _ Es) as [Hsince Hframe Hcpu Hreason Hts].
    destruct (state s =? TRACKED_TASK_RUNNING).
    + set (e := mkSchedSpanEvent _ _ _ _ _ _ _ _ _).
      assert (fits (span_record e)) as He.
      { subst e. fields_fit. }
      assert (forall m, changed (task_pid t) new_state (task_states k) m -> kernel_ok now (set_states m (emit_span h e k)))
        as H by (intros m Hm; by eapply (emitting_ok now h e k s new_state)).
      destruct (exiting s); apply H; rewrite emit_span_states; [apply changed_delete|apply changed_insert].
    + destruct (exiting s); eapply (quiet_ok now k (task_pid t) new_state); try done;
        [apply changed_delete|apply changed_insert].
  - eapply (quiet_ok now k (task_pid t) new_state); try done. by apply changed_update.
Qed.

Lemma on_cpu_ok h task now processor k :
  kernel_ok now k -> task_ok task -> in_u 64 now -> in_u 32 processor ->
  kernel_ok now (handle_task_on_cpu h task now processor k).
Proof.
  intros Hk Htask Hnow Hp. unfold handle_task_on_cpu.
  destruct (followed k task) as [t|] eqn:Ef; [|done]. destruct (followed_ok _ _ _ Ef Htask) as (Hpid & Htg & Htr & _).
  set (new_state := mkTaskState now _ _ processor _ _ _ false).
  assert (state_ok now new_state) as Hnew by (unfold in_u in Hnow; split; cbn; try done; lia).
  destruct (task_states k !! task_pid t) as [s|] eqn:Es.
  - pose proof (ko_states _ _ Hk _ _ Es) as [Hsince Hframe Hcpu Hreason Hts].
    assert (forall e, se_pid e = task_tgid t -> se_tid e = task_pid t -> se_start_time e = state_timestamp s ->
      se_end_time e = now -> fits (span_record e) ->
      kernel_ok now (set_states (<[task_pid t := new_state]> (task_states (emit_span h e k))) (emit_span h e k))) as H.
    { intros e E1 E2 E3 E4 He. rewrite emit_span_states. rewrite <-E1 in Htr. rewrite <-E2 in Es.
      eapply (emitting_ok now h e k s new_state); try done. rewrite E2. apply changed_insert. }
    destruct (state s =? TRACKED_TASK_RUNNABLE); [apply H; try done|
      destruct (state s =? TRACKED_TASK_BLOCKED); [apply H; try done|]].
    + fields_fit.
    + fields_fit.
    + eapply (quiet_ok now k (task_pid t) new_state); try done. apply changed_insert.
  - eapply (quiet_ok now k (task_pid t) new_state); try done. by apply changed_update.
Qed.

Lemma wakeup_ok h task now processor k :
  kernel_ok now k -> task_ok task -> in_u 64 now -> in_u 32 processor ->
  kernel_ok now (handle_task_wakeup h task now processor k).
Proof.
  intros Hk Htask Hnow Hp. unfold handle_task_wakeup.
  destruct (followed k task) as [t|] eqn:Ef; [|done]. destruct (followed_ok _ _ _ Ef Htask) as (Hpid & Htg & Htr & _).
  destruct (task_states k !! task_pid t) as [s|] eqn:Es.
  - pose proof (ko_states _ _ Hk _ _ Es) as [Hsince Hframe Hcpu Hreason Hts].
    destruct (negb (state s =? TRACKED_TASK_BLOCKED)); [done|]. set (new_state := mkTaskState now _ _ _ _ _ _ _).
    set (e := mkSchedSpanEvent _ _ _ _ _ _ _ _ _). rewrite emit_span_states.
    eapply (emitting_ok now h e k s new_state); try done.
    + fields_fit.
    + unfold in_u in *. split; cbn; try done; lia.
    + apply changed_insert.
  - eapply (quiet_ok now k (task_pid t)); [done| | |by apply changed_update]; [|done].
    unfold in_u in *. split; cbn; try done; lia.
Qed.

Lemma exit_ok h task now processor k :
  kernel_ok now k -> task_ok task -> in_u 64 now -> in_u 32 processor ->
  kernel_ok now (handle_sched_process_exit h task now processor k).
Proof.
  intros Hk Htask Hnow Hp. unfold handle_sched_process_exit.
  destruct (followed k task) as [t|] eqn:Ef; [|done]. destruct (followed_ok _ _ _ Ef Htask) as (Hpid & Htg & Htr & _).
  destruct (task_states k !! task_pid t) as [s|] eqn:Es.
  - destruct Hk as [H1 H0 H2 H6 H3 H4 H5]. split; try done; cbn.
    + intros tid s' [[<- <-]|[_ ?]]%lookup_insert_Some; [|by eapply H1]. by destruct (H1 _ _ Es).
    + intros tid s' e [[<- <-]|[_ ?]]%lookup_insert_Some He; [exact (H4 _ _ _ Es He)|by eapply H4].
  - eapply (quiet_ok now k (task_pid t)); [done| | |by apply changed_update]; [|done].
    unfold in_u in *. split; cbn; try done; lia.
Qed.

Lemma handle_ok time t k :
  kernel_ok time k -> time <= time_of t time -> tracepoint_ok t -> kernel_ok (time_of t time) (handle t k).
Proof.
  intros Hk Hle Ht. apply (kernel_ok_later time (time_of t time)) in Hk; [|done].
  destruct t as [preempt prev next ps now p off on|task now p h|task now p h|g]; cbn [time_of tracepoint_ok handle] in *.
  - destruct Ht as (H1 & H2 & H3 & H4 & H5 & H6 & H7). apply on_cpu_ok; [|done..]. by apply off_cpu_ok.
  - destruct Ht as (H1 & H2 & H3). by apply wakeup_ok.
  - destruct Ht as (H1 & H2 & H3). by apply exit_ok.
  - destruct Hk as [H1 H0 H2 H6 H3 H4 H5]. split; try done. intros e He. specialize (H3 e He).
    unfold should_track_tgid in *. cbn. destruct (filter_enabled cfg); [|done]. cbn in *.
    destruct (_ =? 0); [done|]. apply bool_decide_eq_true in H3. apply bool_decide_eq_true. set_solver.
Qed.

Lemma handle_all_ok time ts k :
  kernel_ok time k -> clock_ok time ts -> Forall tracepoint_ok ts -> exists time', kernel_ok time' (handle_all ts k).
Proof.
  revert time k. induction ts as [|t ts IH]; intros time k Hk Hc Ht; [by exists time|].
  apply Forall_cons in Ht as [Ht Hts]. destruct Hc as [Hle Hc]. cbn [handle_all foldl].
  by apply (IH (time_of t time)); [apply handle_ok| |].
Qed.

Lemma kernel_init_ok : kernel_ok 0 kernel_init.
Proof.
  split; cbn; try by intros.
  1-3: intros e He; by apply elem_of_nil in He.
  intros tid l1 e l2 e' l3 E. by destruct l1.
Qed.

(** ** One thread *)

Record Interval := mkInterval { owner : Z; kind : Z; from : Z; to : Z }.

Definition interval_of (e : SchedSpanEvent) : Interval :=
  mkInterval (se_pid e) (se_event_type e) (se_start_time e) (se_end_time e).

Definition intervals (tid : Z) (k : Kernel) : list Interval := map interval_of (thread_spans tid k).

(** The program reports no empty intervals. *)
Definition nonempty (i : Interval) : bool := negb (from i =? 0) && (from i <? to i).

Definition lossless (h : Helpers) : Prop := room h = true /\ stored h = true /\ evicted h = ∅.

(** What the program keeps of a thread and has reported of it. *)
Definition view (tid : Z) (k : Kernel) : option TaskState * list Interval := (task_states k !! tid, intervals tid k).

Lemma map_update_lossless h tid s m : lossless h -> map_update h tid s m = <[tid := s]> m.
Proof.
  intros (_ & Hs & He). unfold map_update. rewrite Hs, He. f_equal. apply map_filter_id.
  intros. set_solver.
Qed.

Lemma intervals_emit tid h e k :
  fits (span_record e) -> lossless h ->
  intervals tid (emit_span h e k) =
  intervals tid k ++ (if se_tid e =? tid then List.filter nonempty [interval_of e] else []).
Proof.
  intros He (Hr & _). unfold intervals. rewrite thread_spans_emit, map_app by done. f_equal.
  destruct (_ =? tid); [|done]. unfold emits, nonempty. rewrite Hr. cbn. by destruct (_ && _).
Qed.

(** A handler reports some intervals of a thread and gives it another state or none. *)
Definition acts (tid : Z) (s : option TaskState) (l : list Interval) (k k' : Kernel) : Prop :=
  tracked_tgids k' = tracked_tgids k /\ (forall tid', tid' <> tid -> view tid' k' = view tid' k) /\
  view tid k' = (s, intervals tid k ++ List.filter nonempty l).

Lemma acts_quiet tid s k m :
  m = partial_alter (fun _ => s) tid (task_states k) -> acts tid s [] k (set_states m k).
Proof.
  intros ->. split_and!; [done| |].
  - intros tid' Hne. unfold view. cbn. by rewrite lookup_partial_alter_ne.
  - unfold view. cbn. by rewrite lookup_partial_alter_eq, app_nil_r.
Qed.

Lemma acts_emit h e s k m :
  fits (span_record e) -> lossless h -> m = partial_alter (fun _ => s) (se_tid e) (task_states k) ->
  acts (se_tid e) s [interval_of e] k (set_states m (emit_span h e k)).
Proof.
  intros He Hh ->. split_and!.
  - cbn. apply emit_span_tracked.
  - intros tid' Hne. unfold view. cbn. rewrite lookup_partial_alter_ne by done. f_equal.
    change (intervals tid' (emit_span h e k) = intervals tid' k). rewrite intervals_emit by done.
    destruct (Z.eqb_spec (se_tid e) tid'); [done|]. apply app_nil_r.
  - unfold view. cbn. rewrite lookup_partial_alter_eq. f_equal.
    change (intervals (se_tid e) (emit_span h e k) = intervals (se_tid e) k ++ List.filter nonempty [interval_of e]).
    rewrite intervals_emit by done. by rewrite Z.eqb_refl.
Qed.

(** The state of a thread since [now]. *)
Definition in_state (code now : Z) (dying : bool) (s : TaskState) : Prop :=
  state s = code /\ state_timestamp s = now /\ exiting s = dying.

Lemma off_cpu_acts h t now processor preempt prev_state k :
  kernel_ok now k -> task_ok (Some t) -> in_u 64 now -> lossless h -> followed k (Some t) = Some t ->
  exists new, in_state (if preempt || (prev_state =? 0) then TRACKED_TASK_RUNNABLE else TRACKED_TASK_BLOCKED) now false new /\
  let s := task_states k !! task_pid t in
  acts (task_pid t) (if match s with Some s => exiting s | None => false end then None else Some new)
    (match s with
     | Some s => if state s =? TRACKED_TASK_RUNNING then [mkInterval (task_tgid t) SCHED_EVENT_RUNNING (state_timestamp s) now] else []
     | None => []
     end) k (handle_task_off_cpu h (Some t) now processor preempt prev_state k).
Proof.
  intros Hk Htask Hnow Hh Hf. destruct (followed_ok _ _ _ Hf Htask) as (Hpid & Htg & Htr & _).
  unfold handle_task_off_cpu. rewrite Hf. set (new := mkTaskState now _ _ _ _ _ _ false). exists new. split; [done|].
  cbn zeta. destruct (task_states k !! task_pid t) as [s|] eqn:Es.
  - pose proof (ko_states _ _ Hk _ _ Es) as [Hsince Hframe Hcpu Hreason Hts].
    destruct (state s =? TRACKED_TASK_RUNNING).
    + set (e := mkSchedSpanEvent _ _ _ _ _ _ _ _ _).
      assert (fits (span_record e)) as He by (subst e; fields_fit). rewrite emit_span_states.
      destruct (exiting s); by apply (acts_emit h e).
    + destruct (exiting s); by apply acts_quiet.
  - apply acts_quiet. by apply map_update_lossless.
Qed.

Lemma on_cpu_acts h t now processor k :
  kernel_ok now k -> task_ok (Some t) -> in_u 64 now -> in_u 32 processor -> lossless h ->
  followed k (Some t) = Some t ->
  exists new, in_state TRACKED_TASK_RUNNING now false new /\
  acts (task_pid t) (Some new)
    (match task_states k !! task_pid t with
     | Some s =>
         if state s =? TRACKED_TASK_RUNNABLE then [mkInterval (task_tgid t) SCHED_EVENT_RUNNABLE (state_timestamp s) now]
         else if state s =? TRACKED_TASK_BLOCKED then [mkInterval (task_tgid t) SCHED_EVENT_BLOCKED (state_timestamp s) now]
         else []
     | None => []
     end) k (handle_task_on_cpu h (Some t) now processor k).
Proof.
  intros Hk Htask Hnow Hp Hh Hf. destruct (followed_ok _ _ _ Hf Htask) as (Hpid & Htg & Htr & _).
  unfold handle_task_on_cpu. rewrite Hf. set (new := mkTaskState now _ _ _ _ _ _ false). exists new. split; [done|].
  destruct (task_states k !! task_pid t) as [s|] eqn:Es.
  - pose proof (ko_states _ _ Hk _ _ Es) as [Hsince Hframe Hcpu Hreason Hts].
    destruct (state s =? TRACKED_TASK_RUNNABLE); [|destruct (state s =? TRACKED_TASK_BLOCKED)].
    + set (e := mkSchedSpanEvent _ _ _ _ _ _ _ _ _).
      assert (fits (span_record e)) as He by (subst e; fields_fit). rewrite emit_span_states. by apply (acts_emit h e).
    + set (e := mkSchedSpanEvent _ _ _ _ _ _ _ _ _).
      assert (fits (span_record e)) as He by (subst e; fields_fit). rewrite emit_span_states. by apply (acts_emit h e).
    + by apply acts_quiet.
  - apply acts_quiet. by apply map_update_lossless.
Qed.

Lemma wakeup_acts h t now processor k :
  kernel_ok now k -> task_ok (Some t) -> in_u 64 now -> lossless h -> followed k (Some t) = Some t ->
  match task_states k !! task_pid t with
  | Some s =>
      if state s =? TRACKED_TASK_BLOCKED then
        exists new, in_state TRACKED_TASK_RUNNABLE now (exiting s) new /\
        acts (task_pid t) (Some new) [mkInterval (task_tgid t) SCHED_EVENT_BLOCKED (state_timestamp s) now] k
          (handle_task_wakeup h (Some t) now processor k)
      else handle_task_wakeup h (Some t) now processor k = k
  | None =>
      exists new, in_state TRACKED_TASK_RUNNABLE now false new /\
      acts (task_pid t) (Some new) [] k (handle_task_wakeup h (Some t) now processor k)
  end.
Proof.
  intros Hk Htask Hnow Hh Hf. destruct (followed_ok _ _ _ Hf Htask) as (Hpid & Htg & Htr & _).
  unfold handle_task_wakeup. rewrite Hf. destruct (task_states k !! task_pid t) as [s|] eqn:Es.
  - pose proof (ko_states _ _ Hk _ _ Es) as [Hsince Hframe Hcpu Hreason Hts].
    destruct (state s =? TRACKED_TASK_BLOCKED); [|done]. cbn [negb].
    set (new := mkTaskState now _ _ _ _ _ _ _). exists new. split; [done|]. set (e := mkSchedSpanEvent _ _ _ _ _ _ _ _ _).
    assert (fits (span_record e)) as He by (subst e; fields_fit). rewrite emit_span_states. by apply (acts_emit h e).
  - set (new := mkTaskState now _ _ _ _ _ _ _). exists new. split; [done|].
    apply acts_quiet. by apply map_update_lossless.
Qed.

Lemma exit_acts h t now processor k :
  lossless h -> followed k (Some t) = Some t ->
  exists new, in_state
    match task_states k !! task_pid t with Some s => state s | None => TRACKED_TASK_RUNNING end
    match task_states k !! task_pid t with Some s => state_timestamp s | None => now end true new /\
  acts (task_pid t) (Some new) [] k (handle_sched_process_exit h (Some t) now processor k).
Proof.
  intros Hh Hf. unfold handle_sched_process_exit. rewrite Hf.
  destruct (task_states k !! task_pid t) as [s|] eqn:Es;
    set (new := mkTaskState _ _ _ _ _ _ _ true); exists new; (split; [done|]); apply acts_quiet; [done|].
  by apply map_update_lossless.
Qed.

(** *** Its life *)

Section Life.

Variable tid tg : Z.

Definition me : option Task := Some (mkTask tid tg).

Definition other (task : option Task) : Prop := forall t, task = Some t -> task_pid t <> tid.

(** Where a thread is, as far as it was seen: on a processor, perhaps on its way out,
    waiting for something, or ready to run. *)
Inductive Phase :=
| Unseen
| On (since : Z) (dying : bool)
| Waiting (since : Z)
| Ready (since : Z).

Definition left_as (preempt : bool) (prev_state now : Z) : Phase :=
  if preempt || (prev_state =? 0) then Ready now else Waiting now.

(** A tracepoint in the life of a thread, with the intervals it ends.  Only what runs
    leaves a processor, only what does not run is put on one, and only what runs
    exits; a wakeup of who is awake changes nothing. *)
Inductive moves : Phase -> Tracepoint -> list Interval -> Phase -> Prop :=
| filter_moves p g : moves p (Filter g) [] p
| other_switch p preempt prev next st now cpu off on :
    other prev -> other next -> moves p (SchedSwitch preempt prev next st now cpu off on) [] p
| other_wakeup p task now cpu h : other task -> moves p (SchedWakeup task now cpu h) [] p
| other_exit p task now cpu h : other task -> moves p (SchedProcessExit task now cpu h) [] p
| first_out preempt next st now cpu off on :
    other next -> moves Unseen (SchedSwitch preempt me next st now cpu off on) [] (left_as preempt st now)
| out since dying preempt next st now cpu off on :
    other next ->
    moves (On since dying) (SchedSwitch preempt me next st now cpu off on)
      [mkInterval tg SCHED_EVENT_RUNNING since now] (if dying : bool then Unseen else left_as preempt st now)
| first_in preempt prev st now cpu off on :
    other prev -> moves Unseen (SchedSwitch preempt prev me st now cpu off on) [] (On now false)
| ready_in since preempt prev st now cpu off on :
    other prev ->
    moves (Ready since) (SchedSwitch preempt prev me st now cpu off on)
      [mkInterval tg SCHED_EVENT_RUNNABLE since now] (On now false)
| unwoken_in since preempt prev st now cpu off on :
    other prev ->
    moves (Waiting since) (SchedSwitch preempt prev me st now cpu off on)
      [mkInterval tg SCHED_EVENT_BLOCKED since now] (On now false)
| first_wakeup now cpu h : moves Unseen (SchedWakeup me now cpu h) [] (Ready now)
| wakeup since now cpu h :
    moves (Waiting since) (SchedWakeup me now cpu h) [mkInterval tg SCHED_EVENT_BLOCKED since now] (Ready now)
| ready_wakeup since now cpu h : moves (Ready since) (SchedWakeup me now cpu h) [] (Ready since)
| running_wakeup since dying now cpu h : moves (On since dying) (SchedWakeup me now cpu h) [] (On since dying)
| first_exit now cpu h : moves Unseen (SchedProcessExit me now cpu h) [] (On now true)
| running_exit since dying now cpu h : moves (On since dying) (SchedProcessExit me now cpu h) [] (On since true).

(** The life of a thread among the tracepoints of all, and its intervals as far as
    they are over. *)
Inductive lives : Phase -> list Tracepoint -> list Interval -> Prop :=
| lives_end p : lives p [] []
| lives_on p t i p' ts l : moves p t i p' -> lives p' ts l -> lives p (t :: ts) (i ++ l).

(** What the program knows of a thread in a phase. *)
Definition known_as (p : Phase) (s : option TaskState) : Prop :=
  match p, s with
  | Unseen, None => True
  | On since dying, Some s => in_state TRACKED_TASK_RUNNING since dying s
  | Waiting since, Some s => in_state TRACKED_TASK_BLOCKED since false s
  | Ready since, Some s => in_state TRACKED_TASK_RUNNABLE since false s
  | _, _ => False
  end.

Definition tracepoint_lossless (t : Tracepoint) : Prop :=
  match t with
  | SchedSwitch _ _ _ _ _ _ off on => lossless off /\ lossless on
  | SchedWakeup _ _ _ h | SchedProcessExit _ _ _ h => lossless h
  | Filter _ => True
  end.

(** A handler that says nothing about the thread. *)
Definition silent (k k' : Kernel) : Prop := tracked_tgids k' = tracked_tgids k /\ view tid k' = view tid k.

Lemma followed_same k task t : followed k task = Some t -> task = Some t.
Proof. unfold followed. destruct task as [t0|]; [|done]. cbn. destruct (_ || _); [done|congruence]. Qed.

Lemma acts_silent k k' t s l : acts (task_pid t) s l k k' -> other (Some t) -> silent k k'.
Proof. intros (H1 & H2 & _) Ho. split; [done|]. apply H2. intros E. by apply (Ho t eq_refl). Qed.

Lemma off_cpu_silent h task now cpu preempt st k :
  kernel_ok now k -> task_ok task -> in_u 64 now -> lossless h -> other task ->
  silent k (handle_task_off_cpu h task now cpu preempt st k).
Proof.
  intros Hk Ht Hn Hh Ho. destruct (followed k task) as [t|] eqn:E; [|unfold handle_task_off_cpu; by rewrite E].
  pose proof (followed_same _ _ _ E) as ->.
  destruct (off_cpu_acts h t now cpu preempt st k) as (new & _ & Ha); try done. by eapply acts_silent.
Qed.

Lemma on_cpu_silent h task now cpu k :
  kernel_ok now k -> task_ok task -> in_u 64 now -> in_u 32 cpu -> lossless h -> other task ->
  silent k (handle_task_on_cpu h task now cpu k).
Proof.
  intros Hk Ht Hn Hc Hh Ho. destruct (followed k task) as [t|] eqn:E; [|unfold handle_task_on_cpu; by rewrite E].
  pose proof (followed_same _ _ _ E) as ->.
  destruct (on_cpu_acts h t now cpu k) as (new & _ & Ha); try done. by eapply acts_silent.
Qed.

Lemma wakeup_silent h task now cpu k :
  kernel_ok now k -> task_ok task -> in_u 64 now -> lossless h -> other task ->
  silent k (handle_task_wakeup h task now cpu k).
Proof.
  intros Hk Ht Hn Hh Ho. destruct (followed k task) as [t|] eqn:E; [|unfold handle_task_wakeup; by rewrite E].
  pose proof (followed_same _ _ _ E) as ->. pose proof (wakeup_acts h t now cpu k Hk Ht Hn Hh E) as Ha.
  destruct (task_states k !! _) as [s|]; [destruct (_ =? _); [|by rewrite Ha]|];
    destruct Ha as (new & _ & Ha); by eapply acts_silent.
Qed.

Lemma exit_silent h task now cpu k :
  lossless h -> other task -> silent k (handle_sched_process_exit h task now cpu k).
Proof.
  intros Hh Ho. destruct (followed k task) as [t|] eqn:E; [|unfold handle_sched_process_exit; by rewrite E].
  pose proof (followed_same _ _ _ E) as ->.
  destruct (exit_acts h t now cpu k) as (new & _ & Ha); try done. by eapply acts_silent.
Qed.

(** What a handler does to the thread is what its life says. *)
Definition follows_life (p' : Phase) (i : list Interval) (k k' : Kernel) : Prop :=
  (should_track_tgid k tg = true -> should_track_tgid k' tg = true) /\
  known_as p' (task_states k' !! tid) /\ intervals tid k' = intervals tid k ++ List.filter nonempty i.

Lemma same_filter k k' : tracked_tgids k' = tracked_tgids k -> should_track_tgid k' tg = should_track_tgid k tg.
Proof. unfold should_track_tgid. by intros ->. Qed.

Lemma silent_follows p k k' : silent k k' -> known_as p (task_states k !! tid) -> follows_life p [] k k'.
Proof.
  intros [Ht [= Hs Hi]] Hp. split_and!; [by rewrite (same_filter k k')|by rewrite Hs|by rewrite app_nil_r].
Qed.

Lemma acts_follows p s l k k' : acts tid s l k k' -> known_as p s -> follows_life p l k k'.
Proof.
  intros (Ht & _ & [= Hs Hi]) Hp. split_and!; [by rewrite (same_filter k k')|by rewrite Hs|done].
Qed.

Lemma follows_trans p p' i i' k k1 k2 :
  follows_life p i k k1 -> follows_life p' i' k1 k2 -> follows_life p' (i ++ i') k k2.
Proof.
  intros (H1 & _ & H2) (H3 & H4 & H5). split_and!; [by auto|done|]. by rewrite H5, H2, List.filter_app, app_assoc.
Qed.

Hypothesis tid_ok : in_u 32 tid /\ tid <> 0.
Hypothesis tg_ok : in_u 32 tg.

Lemma me_ok : task_ok me.
Proof. intros t [= <-]. by destruct tid_ok. Qed.

Lemma followed_me k : should_track_tgid k tg = true -> followed k me = Some (mkTask tid tg).
Proof.
  intros H. unfold followed, me. cbn. rewrite H. destruct tid_ok as [_ Hne]. by destruct (Z.eqb_spec tid 0).
Qed.

Lemma known_as_left preempt st now new :
  in_state (if preempt || (st =? 0) then TRACKED_TASK_RUNNABLE else TRACKED_TASK_BLOCKED) now false new ->
  known_as (left_as preempt st now) (Some new).
Proof. unfold left_as. by destruct (_ || _). Qed.

Lemma off_cpu_me p h preempt st now cpu k :
  kernel_ok now k -> in_u 64 now -> lossless h -> should_track_tgid k tg = true ->
  known_as p (task_states k !! tid) ->
  match p with
  | Unseen => follows_life (left_as preempt st now) [] k (handle_task_off_cpu h me now cpu preempt st k)
  | On since dying =>
      follows_life (if dying then Unseen else left_as preempt st now) [mkInterval tg SCHED_EVENT_RUNNING since now] k
        (handle_task_off_cpu h me now cpu preempt st k)
  | _ => True
  end.
Proof.
  intros Hk Hn Hh Htr Hp.
  destruct (off_cpu_acts h (mkTask tid tg) now cpu preempt st k Hk me_ok Hn Hh (followed_me k Htr)) as (new & Hnew & Ha).
  cbn zeta in Ha. cbn [task_pid] in Ha. apply known_as_left in Hnew.
  destruct p as [|since dying| |]; [|..]; try done; destruct (task_states k !! tid) as [s|]; try done.
  - by eapply acts_follows.
  - destruct Hp as (Hs & Hsince & Hd). rewrite Hs, Hsince, Hd in Ha. eapply acts_follows; [exact Ha|]. by destruct dying.
Qed.

Lemma on_cpu_me p h now cpu k :
  kernel_ok now k -> in_u 64 now -> in_u 32 cpu -> lossless h -> should_track_tgid k tg = true ->
  known_as p (task_states k !! tid) ->
  follows_life (On now false)
    match p with
    | Ready since => [mkInterval tg SCHED_EVENT_RUNNABLE since now]
    | Waiting since => [mkInterval tg SCHED_EVENT_BLOCKED since now]
    | _ => []
    end k (handle_task_on_cpu h me now cpu k).
Proof.
  intros Hk Hn Hc Hh Htr Hp.
  destruct (on_cpu_acts h (mkTask tid tg) now cpu k Hk me_ok Hn Hc Hh (followed_me k Htr)) as (new & Hnew & Ha).
  cbn [task_pid] in Ha. apply (acts_follows _ (Some new)); [|done].
  destruct p; destruct (task_states k !! tid) as [s|]; try done; destruct Hp as (Hs & Hsince & _);
    by rewrite Hs, ?Hsince in Ha.
Qed.

Lemma wakeup_me p h now cpu k :
  kernel_ok now k -> in_u 64 now -> lossless h -> should_track_tgid k tg = true ->
  known_as p (task_states k !! tid) ->
  follows_life match p with Unseen | Waiting _ => Ready now | _ => p end
    match p with Waiting since => [mkInterval tg SCHED_EVENT_BLOCKED since now] | _ => [] end k
    (handle_task_wakeup h me now cpu k).
Proof.
  intros Hk Hn Hh Htr Hp.
  pose proof (wakeup_acts h (mkTask tid tg) now cpu k Hk me_ok Hn Hh (followed_me k Htr)) as Ha.
  cbn [task_pid] in Ha.
  destruct p; destruct (task_states k !! tid) as [s|] eqn:Es; try done.
  - destruct Ha as (new & Hnew & Ha). by apply (acts_follows _ (Some new)).
  - pose proof Hp as (Hs & _). rewrite Hs in Ha. cbn in Ha. unfold me. rewrite Ha. apply silent_follows; [done|].
    by rewrite Es.
  - destruct Hp as (Hs & Hsince & Hd). rewrite Hs, Hsince, Hd in Ha. destruct Ha as (new & Hnew & Ha).
    by apply (acts_follows _ (Some new)).
  - pose proof Hp as (Hs & _). rewrite Hs in Ha. cbn in Ha. unfold me. rewrite Ha. apply silent_follows; [done|].
    by rewrite Es.
Qed.

Lemma exit_me p h now cpu k :
  lossless h -> should_track_tgid k tg = true -> known_as p (task_states k !! tid) ->
  match p with
  | Unseen => follows_life (On now true) [] k (handle_sched_process_exit h me now cpu k)
  | On since dying => follows_life (On since true) [] k (handle_sched_process_exit h me now cpu k)
  | _ => True
  end.
Proof.
  intros Hh Htr Hp.
  destruct (exit_acts h (mkTask tid tg) now cpu k Hh (followed_me k Htr)) as (new & Hnew & Ha).
  cbn [task_pid] in *. destruct p; try done; destruct (task_states k !! tid) as [s|]; try done;
    (apply (acts_follows _ (Some new)); [done|]); [done|]. destruct Hp as (Hs & Hsince & _). cbn.
  by rewrite <-Hs, <-Hsince.
Qed.

Lemma filter_follows p g k : known_as p (task_states k !! tid) -> follows_life p [] k (handle (Filter g) k).
Proof.
  intros Hp. split_and!; [|done|by rewrite app_nil_r]. unfold should_track_tgid. cbn.
  destruct (negb _); [done|]. destruct (tg =? 0); [done|]. rewrite !bool_decide_eq_true. set_solver.
Qed.

(** The other half of a switch. *)
Lemma switch_out p' i preempt prev next st now cpu off on k :
  tracepoint_ok (SchedSwitch preempt prev next st now cpu off on) -> lossless on -> other next ->
  kernel_ok now k -> follows_life p' i k (handle_task_off_cpu off prev now cpu preempt st k) ->
  follows_life p' i k (handle (SchedSwitch preempt prev next st now cpu off on) k).
Proof.
  intros (? & ? & ? & ? & ? & ? & ?) Hl Hn Hk Ho. rewrite <-(app_nil_r i).
  apply (follows_trans p' _ _ []) with (k1 := handle_task_off_cpu off prev now cpu preempt st k); [done|].
  apply silent_follows; [|by apply Ho]. apply on_cpu_silent; try done. by apply off_cpu_ok.
Qed.

Lemma switch_in p preempt prev st now cpu off on k :
  tracepoint_ok (SchedSwitch preempt prev me st now cpu off on) -> lossless off -> lossless on -> other prev ->
  kernel_ok now k -> should_track_tgid k tg = true -> known_as p (task_states k !! tid) ->
  follows_life (On now false)
    match p with
    | Ready since => [mkInterval tg SCHED_EVENT_RUNNABLE since now]
    | Waiting since => [mkInterval tg SCHED_EVENT_BLOCKED since now]
    | _ => []
    end k (handle (SchedSwitch preempt prev me st now cpu off on) k).
Proof.
  intros (? & ? & ? & ? & ? & ? & ?) Hf Hl Hn Hk Htr Hp.
  assert (silent k (handle_task_off_cpu off prev now cpu preempt st k)) as [Ht Hv] by (by apply off_cpu_silent).
  assert (known_as p (task_states (handle_task_off_cpu off prev now cpu preempt st k) !! tid)) as Hp'
    by (by injection Hv as -> _).
  apply (follows_trans p _ []) with (k1 := handle_task_off_cpu off prev now cpu preempt st k).
  - by apply silent_follows.
  - apply on_cpu_me; try done; [by apply off_cpu_ok|]. by rewrite (same_filter k).
Qed.

Lemma moves_follow p t i p' time k :
  moves p t i p' -> kernel_ok time k -> time <= time_of t time -> tracepoint_ok t -> tracepoint_lossless t ->
  should_track_tgid k tg = true -> known_as p (task_states k !! tid) -> follows_life p' i k (handle t k).
Proof.
  intros Hm Hk0 Hle Ht Hl Htr Hp. pose proof (kernel_ok_later _ _ _ Hk0 Hle) as Hk. clear Hk0 Hle.
  destruct Hm; cbn [time_of tracepoint_lossless] in *; [by apply filter_follows| | | |destruct Hl..| | | | | |].
  - destruct Hl, Ht as (? & ? & ? & ? & ? & ? & ?). apply switch_out; try done. apply silent_follows; [|done].
    by apply off_cpu_silent.
  - destruct Ht as (? & ? & ?). apply silent_follows; [by apply wakeup_silent|done].
  - apply silent_follows; [by apply exit_silent|done].
  - apply switch_out; try done. destruct Ht as (? & ? & ? & ? & ? & ? & ?). by apply (off_cpu_me Unseen).
  - apply switch_out; try done. destruct Ht as (? & ? & ? & ? & ? & ? & ?). by apply (off_cpu_me (On since dying)).
  - by apply (switch_in Unseen).
  - by apply (switch_in (Ready since)).
  - by apply (switch_in (Waiting since)).
  - destruct Ht as (? & ? & ?). by apply (wakeup_me Unseen).
  - destruct Ht as (? & ? & ?). by apply (wakeup_me (Waiting since)).
  - destruct Ht as (? & ? & ?). by apply (wakeup_me (Ready since)).
  - destruct Ht as (? & ? & ?). by apply (wakeup_me (On since dying)).
  - by apply (exit_me Unseen).
  - by apply (exit_me (On since dying)).
Qed.

Lemma lives_reported p ts l time k :
  lives p ts l -> kernel_ok time k -> clock_ok time ts -> Forall tracepoint_ok ts -> Forall tracepoint_lossless ts ->
  should_track_tgid k tg = true -> known_as p (task_states k !! tid) ->
  intervals tid (handle_all ts k) = intervals tid k ++ List.filter nonempty l.
Proof.
  intros Hl. revert time k. induction Hl as [|p t i p' ts l Hm _ IH]; intros time k Hk Hc Hok Hll Htr Hp.
  { by rewrite app_nil_r. }
  apply Forall_cons in Hok as [Ht Hok], Hll as [Hlt Hll]. destruct Hc as [Hle Hc].
  destruct (moves_follow p t i p' time k) as (Htr' & Hp' & Hi); try done.
  change (handle_all (t :: ts) k) with (handle_all ts (handle t k)).
  rewrite (IH (time_of t time)); try done; [|by apply handle_ok|by auto].
  by rewrite Hi, List.filter_app, app_assoc.
Qed.

(** The intervals of a life that does not end follow each other without a gap. *)
Definition since (p : Phase) : option Z :=
  match p with Unseen => None | On t _ | Waiting t | Ready t => Some t end.

Fixpoint contiguous (start : option Z) (l : list Interval) : Prop :=
  match l with
  | [] => True
  | i :: l => match start with Some t => from i = t | None => True end /\ contiguous (Some (to i)) l
  end.

Definition exits (t : Tracepoint) : bool :=
  match t with SchedProcessExit (Some t) _ _ _ => task_pid t =? tid | _ => false end.

Definition dies (p : Phase) : bool := match p with On _ dying => dying | _ => false end.

Lemma lives_contiguous p ts l :
  lives p ts l -> dies p = false -> Forall (fun t => exits t = false) ts -> contiguous (since p) l.
Proof.
  clear tid_ok tg_ok. induction 1 as [|p t i p' ts l Hm _ IH]; intros Hd He; [done|]. apply Forall_cons in He as [Ht He].
  assert (dies p' = false) as Hd'.
  { destruct Hm; try done; cbn in *; try rewrite Hd; try (unfold left_as; by destruct (_ || _)).
    - by rewrite Z.eqb_refl in Ht.
    - by rewrite Z.eqb_refl in Ht. }
  specialize (IH Hd' He). destruct Hm; try done; cbn in *; try rewrite Hd in *; unfold left_as in *;
    destruct l as [|j l]; try done; try (destruct (_ || _); naive_solver); naive_solver.
Qed.

End Life.

End Programs.
