(* ===== verification/SchedTimeline.v ===== *)
(** * The scheduler trace from the kernel to the trace

    The kernel program of [SchedKernel] and the collector of [SchedTrace] together:
    what a reader of the trace gets of a thread is its life, interval by interval. *)

From S2P Require Import Prelude Protocol Text Float BpfConfig BpfEvents KernelRecords SchedTrace SchedKernel.
Open Scope Z_scope.

(** ** What the collector sends of a thread *)

Section Collector.

Variable user : list Message -> Message -> Z.
Variable rng : nat -> Z.
Variable symbolize : Z -> result string (list (option string)).

Abbreviation run := (sched_run user rng symbolize).

(** The spans on a custom track. *)
Definition on_track (id : Z) (m : Message) : bool :=
  match event_of m with
  | Event.Span s => match Span.track_id s with TrackId.Custom i => i =? id | _ => false end
  | _ => false
  end.

Definition track_spans (id : Z) (ms : list Message) : list Message := List.filter (on_track id) ms.

Definition decoded (records : list (list Z)) : list SchedSpanEvent :=
  omap (fun data => match SchedSpanEvent_try_from data with Ok e => Some e | Err _ => None end) records.

Definition of_thread (key : Z * Z) (l : list SchedSpanEvent) : list SchedSpanEvent :=
  List.filter (fun e => bool_decide (thread_key e = key)) l.

Lemma track_spans_app id ms1 ms2 : track_spans id (ms1 ++ ms2) = track_spans id ms1 ++ track_spans id ms2.
Proof. apply List.filter_app. Qed.

Lemma of_thread_app key l1 l2 : of_thread key (l1 ++ l2) = of_thread key l1 ++ of_thread key l2.
Proof. apply List.filter_app. Qed.

(** An event finds the track of its thread or draws one. *)
Lemma sched_event_effect data s event :
  SchedSpanEvent_try_from data = Ok event ->
  let s' := (sched_event user rng symbolize data s).2 in
  exists id tracks,
    thread_track_ids s' = <[thread_key event := id]> (thread_track_ids s) /\
    sched_received s' = sched_received s ++ tracks ++ [sched_span symbolize event id] /\
    (forall i, track_spans i tracks = []) /\
    match thread_track_ids s !! thread_key event with
    | Some id0 => id = id0 /\ draws s' = draws s
    | None => id = rng (draws s) /\ draws s' = S (draws s)
    end.
Proof.
  intros E. unfold sched_event. rewrite E. unfold or_insert_track.
  destruct (thread_track_ids s !! thread_key event) as [id|] eqn:Ek.
  - exists id, []. unfold call. cbn. destruct (negb _); cbn; (split_and!; by rewrite ?insert_id).
  - exists (rng (draws s)), [sched_track (thread_key event) (rng (draws s))]. unfold call. cbn.
    destruct (negb _); cbn; (split_and!; by rewrite <-?app_assoc).
Qed.

(** The spans on the track of a thread are those of its events, in order. *)
Record sorted_out (records : list (list Z)) (s : SchedTraceState) : Prop := {
  so_spans key id : thread_track_ids s !! key = Some id ->
    track_spans id (sched_received s) = map (fun e => sched_span symbolize e id) (of_thread key (decoded records));
  so_seen key : thread_track_ids s !! key = None -> of_thread key (decoded records) = [];
  so_drawn key id : thread_track_ids s !! key = Some id -> exists n, (n < draws s)%nat /\ id = rng n;
  so_others id : (forall key, thread_track_ids s !! key <> Some id) -> track_spans id (sched_received s) = [];
  so_inj key key' id : thread_track_ids s !! key = Some id -> thread_track_ids s !! key' = Some id -> key = key'
}.

Lemma sched_init_sorted : sorted_out [] sched_init.
Proof. by split. Qed.

Lemma on_track_span id id' e : on_track id' (sched_span symbolize e id) = (id =? id').
Proof. done. Qed.

(** A record that is no event changes nothing. *)
Lemma sorted_no_event records data s err :
  SchedSpanEvent_try_from data = Err err -> sorted_out records s ->
  sorted_out (records ++ [data]) (sched_event user rng symbolize data s).2.
Proof.
  intros E [Hsp Hseen Hdr Hoth Hinj].
  assert ((sched_event user rng symbolize data s).2 = s) as -> by (unfold sched_event; by rewrite E).
  assert (decoded (records ++ [data]) = decoded records) as Hd.
  { unfold decoded. rewrite omap_app. cbn [omap list_omap]. by rewrite E, app_nil_r. }
  by split; rewrite ?Hd.
Qed.

(** The new track is the track of the event's thread and of no other. *)
Lemma track_fresh records data s event id :
  sorted_out records s -> distinct_draws rng (draws (sched_event user rng symbolize data s).2) ->
  match thread_track_ids s !! thread_key event with
  | Some id0 => id = id0 /\ draws (sched_event user rng symbolize data s).2 = draws s
  | None => id = rng (draws s) /\ draws (sched_event user rng symbolize data s).2 = S (draws s)
  end ->
  (forall key i, thread_track_ids s !! key = Some i -> (i = id <-> key = thread_key event)) /\
  track_spans id (sched_received s) =
    map (fun e => sched_span symbolize e id) (of_thread (thread_key event) (decoded records)) /\
  (draws s <= draws (sched_event user rng symbolize data s).2)%nat /\
  exists n, (n < draws (sched_event user rng symbolize data s).2)%nat /\ id = rng n.
Proof.
  intros [Hsp Hseen Hdr Hoth Hinj] Hdist Hid.
  destruct (thread_track_ids s !! thread_key event) as [id0|] eqn:E0; destruct Hid as [-> Hd]; rewrite Hd in *.
  - split_and!; [|by apply Hsp|lia|by eapply Hdr]. intros key i Hk. split; intros ->; [by eapply Hinj|congruence].
  - assert (forall key i, thread_track_ids s !! key = Some i -> (i = rng (draws s) <-> key = thread_key event)) as Hf.
    { intros key i Hk. split; [|intros ->; congruence]. intros ->.
      destruct (Hdr key _ Hk) as (n & Hn & Hr). apply Hdist in Hr; lia. }
    split_and!; [done| |lia|by exists (draws s); split; [lia|]].
    rewrite (Hseen _ E0). apply Hoth. intros key Hk. pose proof (proj1 (Hf _ _ Hk) eq_refl) as ->. congruence.
Qed.

Lemma sorted_step records data s :
  sorted_out records s -> distinct_draws rng (draws (sched_event user rng symbolize data s).2) ->
  sorted_out (records ++ [data]) (sched_event user rng symbolize data s).2.
Proof.
  intros Hs Hdist. destruct (SchedSpanEvent_try_from data) as [event|err] eqn:E; [|by eapply sorted_no_event].
  destruct (sched_event_effect data s event E) as (id & tracks & Hids & Hrec & Htr & Hid).
  destruct (track_fresh records data s event id Hs Hdist Hid) as (Hfresh & Hnew & Hmore & Hdrawn).
  set (s' := (sched_event _ _ _ _ _).2) in *. destruct Hs as [Hsp Hseen Hdr Hoth Hinj].
  assert (forall i, track_spans i (sched_received s') =
    track_spans i (sched_received s) ++ (if id =? i then [sched_span symbolize event id] else [])) as Hts.
  { intros i. rewrite Hrec, !track_spans_app, Htr. cbn. by destruct (id =? i). }
  assert (forall key, of_thread key (decoded (records ++ [data])) =
    of_thread key (decoded records) ++ (if bool_decide (thread_key event = key) then [event] else [])) as Hof.
  { intros key. unfold decoded. rewrite omap_app, of_thread_app. cbn [omap list_omap]. rewrite E. cbn.
    by destruct (bool_decide _). }
  split.
  - intros key i. rewrite Hids, Hts, Hof, map_app. intros [[<- <-]|[Hne Hk]]%lookup_insert_Some.
    + by rewrite Z.eqb_refl, bool_decide_true, Hnew by done.
    + rewrite (Hsp _ _ Hk), bool_decide_false by done. f_equal. destruct (Z.eqb_spec id i) as [->|]; [|done].
      by destruct (Hne (eq_sym (proj1 (Hfresh _ _ Hk) eq_refl))).
  - intros key. rewrite Hids, Hof. intros [Hk Hne]%lookup_insert_None.
    by rewrite bool_decide_false, app_nil_r, (Hseen _ Hk) by done.
  - intros key i. rewrite Hids. intros [[_ <-]|[_ (n & Hn & ->)%Hdr]]%lookup_insert_Some; [done|].
    exists n. split; [lia|done].
  - intros i Hi. rewrite Hts. destruct (Z.eqb_spec id i) as [->|Hne].
    { exfalso. apply (Hi (thread_key event)). by rewrite Hids, lookup_insert_eq. }
    rewrite app_nil_r. apply Hoth. intros key Hk. apply (Hi key). rewrite Hids.
    rewrite lookup_insert_ne; [done|]. intros <-. apply Hne. symmetry. by apply (Hfresh _ _ Hk).
  - intros key key' i. rewrite Hids.
    intros [[<- <-]|[Hne Hk]]%lookup_insert_Some [[<- ?]|[Hne' Hk']]%lookup_insert_Some; [done|..].
    + symmetry. by apply (Hfresh _ _ Hk').
    + subst i. by apply (Hfresh _ _ Hk).
    + by eapply Hinj.
Qed.

Lemma draws_grow data s : (draws s <= draws (sched_event user rng symbolize data s).2)%nat.
Proof.
  destruct (SchedSpanEvent_try_from data) as [event|err] eqn:E; [|unfold sched_event; by rewrite E].
  destruct (sched_event_effect data s event E) as (id & tracks & _ & _ & _ & Hd).
  destruct (thread_track_ids s !! thread_key event); destruct Hd as [_ ->]; lia.
Qed.

Lemma sched_run_sorted records :
  distinct_draws rng (draws (run records sched_init)) -> sorted_out records (run records sched_init).
Proof.
  induction records as [|data records IH] using rev_ind; [intros _; apply sched_init_sorted|].
  unfold sched_run in *. rewrite foldl_app. cbn [foldl]. intros Hd. apply sorted_step; [|done]. apply IH.
  intros i j Hi Hj. pose proof (draws_grow data (foldl (fun s data => (sched_event user rng symbolize data s).2) sched_init records)).
  apply Hd; lia.
Qed.

End Collector.

(** ** The timeline of a thread *)

Lemma lives_owner tid tg p ts l : lives tid tg p ts l -> Forall (fun i => owner i = tg) l.
Proof.
  induction 1 as [|p t i p' ts l Hm _ IH]; [constructor|]. apply Forall_app. split; [|done].
  destruct Hm; repeat constructor.
Qed.

Lemma filter_ext_in {A} (f g : A -> bool) l : (forall x, x ∈ l -> f x = g x) -> List.filter f l = List.filter g l.
Proof.
  induction l as [|x l IH]; intros H; [done|]. cbn. rewrite (H x) by left. rewrite IH; [done|].
  intros y Hy. apply H. by right.
Qed.

(** All spans of a thread are of its process, so the collector keys them alike. *)
Lemma of_thread_spans cfg tid tg time k :
  kernel_ok cfg time k -> in_u 32 tid -> in_u 32 tg -> Forall (fun i => owner i = tg) (intervals tid k) ->
  of_thread (as_signed 32 tg, as_signed 32 tid) (decoded (events k)) = thread_spans tid k.
Proof.
  intros Hk Htid Htg Ho. unfold of_thread, thread_spans. apply filter_ext_in. intros e He.
  destruct (Z.eqb_spec (se_tid e) tid) as [E|E].
  - apply bool_decide_true. unfold thread_key. f_equal; [|by rewrite E].
    assert (e ∈ thread_spans tid k) as Hin.
    { apply list_elem_of_In, filter_In. split; [by apply list_elem_of_In|by apply Z.eqb_eq]. }
    rewrite Forall_forall in Ho. f_equal. apply (Ho (interval_of e)), list_elem_of_In, in_map.
    by apply list_elem_of_In.
  - apply bool_decide_false. unfold thread_key. intros [= _ Ht]. apply E.
    apply (as_signed_inj 32); [done| |done|done]. pose proof (ko_fits _ _ _ Hk e He) as Hf.
    by apply Forall_cons in Hf as [_ [Hf _]%Forall_cons].
Qed.

(** C7. From the kernel's tracepoints to the trace.  For every thread of a followed
    process, among whatever other threads are switched, woken and exit: the spans the
    collector sends on the track of the thread are exactly the intervals of the
    thread's life, running, blocked and runnable, in order, with their times.  While
    the thread does not exit there is no gap between them; after an exit there is one
    until its number is used again.  The track is described, and no other thread's
    spans are on it.  This is of runs in which nothing is lost: every record has room
    in the ring, the map has room for the thread and gives up no entry, the clock does
    not go back, and the random track ids that are drawn are distinct; see C8 for
    the others. *)
Theorem sched_timeline user rng symbolize cfg tid tg ts l :
  in_u 32 tid /\ tid <> 0 -> in_u 32 tg ->
  clock_ok 0 ts -> Forall tracepoint_ok ts -> Forall tracepoint_lossless ts ->
  should_track_tgid cfg (kernel_init cfg) tg = true -> lives tid tg Unseen ts l ->
  distinct_draws rng (draws (sched_run user rng symbolize (events (handle_all cfg ts (kernel_init cfg))) sched_init)) ->
  let k := handle_all cfg ts (kernel_init cfg) in
  let s := sched_run user rng symbolize (events k) sched_init in
  let key := (as_signed 32 tg, as_signed 32 tid) in
  (Forall (fun t => exits tid t = false) ts -> contiguous None l) /\
  exists spans, map interval_of spans = List.filter nonempty l /\
    match thread_track_ids s !! key with
    | None => spans = []
    | Some id =>
        sched_track key id ∈ sched_received s /\
        track_spans id (sched_received s) = map (fun e => sched_span symbolize e id) spans
    end.
Proof.
  intros Htid Htg Hc Hok Hll Htr Hl Hrng k s key. split.
  { intros He. by apply (lives_contiguous tid tg Unseen ts l). }
  pose proof (lives_reported cfg tid tg Htid Htg Unseen ts l 0 (kernel_init cfg) Hl (kernel_init_ok cfg) Hc Hok Hll Htr I)
    as Hi. fold k in Hi. change (intervals tid (kernel_init cfg)) with (@nil Interval) in Hi. cbn [app] in Hi.
  destruct (handle_all_ok cfg 0 ts (kernel_init cfg) (kernel_init_ok cfg) Hc Hok) as [time Hk]. fold k in Hk.
  exists (thread_spans tid k). split; [exact Hi|].
  assert (of_thread key (decoded (events k)) = thread_spans tid k) as Hkey.
  { apply (of_thread_spans cfg tid tg time); [done|apply Htid|done|]. rewrite Hi.
    pose proof (lives_owner _ _ _ _ _ Hl) as Ho. rewrite Forall_forall in Ho. apply Forall_forall.
    intros i [Hin _]%list_elem_of_In%filter_In. by apply Ho, list_elem_of_In. }
  destruct (sched_run_sorted user rng symbolize (events k) Hrng) as [Hsp Hseen _ _ _]. fold s in Hsp, Hseen.
  destruct (thread_track_ids s !! key) as [id|] eqn:E.
  - split; [|by rewrite (Hsp _ _ E), Hkey].
    by apply (ids_drawn _ _ _ (sched_run_ok user rng symbolize (events k) _ _ (sched_init_ok rng)) _ _ E).
  - by rewrite <-Hkey, Hseen.
Qed.

(** C8. Whatever the tracepoints and whatever is lost, to a full ring, a full map or
    an eviction, as long as the clock does not go back: every record is a span with
    a start before its end; the filter keeps all other processes out; and the spans
    of one thread never overlap. *)
Theorem sched_spans_apart cfg ts :
  clock_ok 0 ts -> Forall tracepoint_ok ts ->
  let k := handle_all cfg ts (kernel_init cfg) in
  length (emitted k) = length (events k) /\
  (forall e, e ∈ emitted k -> 0 < se_start_time e < se_end_time e /\ should_track_tgid cfg k (se_pid e) = true) /\
  forall tid, apart (thread_spans tid k).
Proof.
  intros Hc Hok k. destruct (handle_all_ok cfg 0 ts (kernel_init cfg) (kernel_init_ok cfg) Hc Hok) as [time Hk].
  fold k in Hk. split_and!; [apply Hk| |apply Hk]. intros e He. split; [by apply (ko_spans _ _ _ Hk)|by apply Hk].
Qed.

(** ** Examples *)

Definition lossless_helpers : Helpers := mkHelpers true true ∅ (Some 4096).

(** On one processor thread 7 of process 6 runs, waits, is woken and runs again,
    while thread 8 of process 6 takes its place. *)
Definition demo_run : list Tracepoint :=
  let t7 := Some (mkTask 7 6) in let t8 := Some (mkTask 8 6) in
  [SchedSwitch false t8 t7 0 100 0 lossless_helpers lossless_helpers;
   SchedSwitch false t7 t8 1 150 0 lossless_helpers lossless_helpers;
   SchedWakeup t7 170 0 lossless_helpers;
   SchedSwitch true t8 t7 0 180 0 lossless_helpers lossless_helpers;
   SchedSwitch false t7 t8 2 250 0 lossless_helpers lossless_helpers].

Definition demo_life : list Interval :=
  [mkInterval 6 SCHED_EVENT_RUNNING 100 150; mkInterval 6 SCHED_EVENT_BLOCKED 150 170;
   mkInterval 6 SCHED_EVENT_RUNNABLE 170 180; mkInterval 6 SCHED_EVENT_RUNNING 180 250].

Definition demo_kernel : KernelConfig := mkKernelConfig 4096 true [6].

Lemma demo_run_ok : clock_ok 0 demo_run /\ Forall tracepoint_ok demo_run /\ Forall tracepoint_lossless demo_run.
Proof.
  assert (helpers_ok lossless_helpers) as Hh by (by intros f [= <-]).
  assert (forall a b, in_u 32 a -> in_u 32 b -> task_ok (Some (mkTask a b))) as Ht by (by intros a b ? ? t [= <-]).
  split_and!; [cbn; lia| |]; repeat (apply Forall_cons; split); try apply Forall_nil_2; cbn;
    split_and?; try done; by apply Ht.
Qed.

Lemma demo_lives : lives 7 6 Unseen demo_run demo_life.
Proof.
  assert (other 7 (Some (mkTask 8 6))) as Ho by (by intros t [= <-]).
  apply (lives_on _ _ _ _ [] (On 100 false)); [by constructor|].
  apply (lives_on _ _ _ _ [_] (Waiting 150)); [by apply (out 7 6 100 false false)|].
  apply (lives_on _ _ _ _ [_] (Ready 170)); [by constructor|].
  apply (lives_on _ _ _ _ [_] (On 180 false)); [by constructor|].
  apply (lives_on _ _ _ _ [_] (Waiting 250)); [by apply (out 7 6 180 false false)|constructor].
Qed.

Lemma sched_timeline_witness :
  let k := handle_all demo_kernel demo_run (kernel_init demo_kernel) in
  let s := sched_run (fun _ _ => 0) Z.of_nat (fun _ => Err ""%string) (events k) sched_init in
  contiguous None demo_life /\
  exists spans, map interval_of spans = demo_life /\
    match thread_track_ids s !! (6, 7) with
    | None => spans = []
    | Some id =>
        sched_track (6, 7) id ∈ sched_received s /\
        track_spans id (sched_received s) = map (fun e => sched_span (fun _ => Err ""%string) e id) spans
    end.
Proof.
  destruct demo_run_ok as (H1 & H2 & H3).
  destruct (sched_timeline (fun _ _ => 0) Z.of_nat (fun _ => Err ""%string) demo_kernel 7 6 demo_run demo_life)
    as [Hc Hs]; [done|done|done|done|done|by vm_compute|apply demo_lives|intros i j _ _; lia|].
  split; [apply Hc; repeat constructor|exact Hs].
Defined.

Lemma sched_spans_apart_witness :
  let k := handle_all demo_kernel demo_run (kernel_init demo_kernel) in
  length (emitted k) = 7%nat /\ forall tid, apart (thread_spans tid k).
Proof.
  destruct demo_run_ok as (H1 & H2 & _).
  destruct (sched_spans_apart demo_kernel demo_run H1 H2) as (_ & _ & H). split; [by vm_compute|exact H].
Defined.

(** A thread that is preempted on its way out, after [sched_process_exit], is taken
    for a new one when it runs on, and for a waiting one after its end: the next
    thread with its number gets a span for the time in between. *)
Example exit_preempted :
  let t7 := Some (mkTask 7 6) in let h := lossless_helpers in
  let ts := [SchedSwitch false None t7 0 100 0 h h; SchedProcessExit t7 110 0 h;
    SchedSwitch true t7 None 0 120 0 h h; SchedSwitch false None t7 0 130 0 h h;
    SchedSwitch false t7 None 128 140 0 h h; SchedWakeup (Some (mkTask 7 99)) 900 0 h] in
  let k := handle_all (mkKernelConfig 4096 false []) ts (kernel_init (mkKernelConfig 4096 false [])) in
  intervals 7 k = [mkInterval 6 SCHED_EVENT_RUNNING 100 120; mkInterval 6 SCHED_EVENT_RUNNING 130 140;
    mkInterval 99 SCHED_EVENT_BLOCKED 140 900].
Proof. vm_compute. reflexivity. Qed.
