(* ===== verification/BlockDevices.v ===== *)
(** * Block devices

    The devices of the block tracker (src/bpf/src/blocktrack.rs): their numbers,
    how the names of a configuration resolve to them through sysfs, where they are
    mounted, and the registry of their tracks. *)

From S2P Require Import Prelude Protocol Text BpfConfig BpfEvents.
From stdpp Require Import pretty.
From Stdlib Require Import Ascii.
Open Scope Z_scope.

(** ** Device numbers *)

Definition encode_device (major minor : Z) : result BpfError Z :=
  if (2 ^ 12 <=? major) || (2 ^ 20 <=? minor) then
    Err (LoadError ("block device number is out of range: " ++ pretty major ++ ":" ++ pretty minor)%string)
  else Ok (Z.lor (wrap 32 (Z.shiftl (wrap 32 major) 20)) (wrap 32 minor)).

Definition decode_device (dev : Z) : Z * Z := (Z.shiftr dev 20, Z.land dev (2 ^ 20 - 1)).

Definition format_device (dev : Z) : string :=
  let '(major, minor) := decode_device dev in (pretty major ++ ":" ++ pretty minor)%string.

Definition invalid_device (value : string) (error : string) : BpfError :=
  LoadError ("invalid block device " ++ value ++ ": " ++ error)%string.

Definition parse_major_minor (value : string) : result BpfError Z :=
  match split_once ":"%char value with
  | None => Err (LoadError ("invalid block device number: " ++ value)%string)
  | Some (major, minor) =>
      match parse_u64 major with
      | Err error => Err (invalid_device value error)
      | Ok major =>
          match parse_u64 minor with
          | Err error => Err (invalid_device value error)
          | Ok minor => encode_device major minor
          end
      end
  end.

(** ** Sysfs *)

(** What the operating system answers about paths. *)
Record FileSystem := mkFileSystem {
  canonicalize : string -> result string string;
  path_exists : string -> bool;
  read_to_string : string -> result string string;
  metadata_rdev : string -> result string Z;
  read_dir : string -> result string (list (result string string));
  rdev_major : Z -> Z;
  rdev_minor : Z -> Z
}.

Definition path_join (path name : string) : string := (path ++ "/" ++ name)%string.

(** [Path::parent] and [Path::file_name] of a canonical path. *)
Definition path_parent (path : string) : option string :=
  if String.eqb path "/" then None
  else match join_with "/" (removelast (segments path)) with
       | String.EmptyString => Some "/"%string
       | parent => Some parent
       end.

Definition path_file_name (path : string) : option string :=
  match base_name path with String.EmptyString => None | name => Some name end.

Definition is_absolute (path : string) : bool :=
  match path with String.String c _ => Ascii.eqb c "/"%char | _ => false end.

Definition contains (c : Ascii.ascii) (s : string) : bool :=
  match split_once c s with Some _ => true | None => false end.

Section Files.

Variable fs : FileSystem.

Definition sysfs_device_number (path : string) : result BpfError Z :=
  match read_to_string fs (path_join path "dev") with
  | Err error => Err (LoadError ("failed to read block device " ++ path ++ ": " ++ error)%string)
  | Ok value => parse_major_minor (trim value)
  end.

Definition sys_dev_block (dev : Z) : string := ("/sys/dev/block/" ++ format_device dev)%string.

Definition physical_device (dev : Z) : result BpfError Z :=
  match canonicalize fs (sys_dev_block dev) with
  | Err error =>
      Err (LoadError ("failed to resolve block device " ++ format_device dev ++ ": " ++ error)%string)
  | Ok path =>
      if path_exists fs (path_join path "partition") then
        match path_parent path with
        | None => Err (LoadError ("block partition has no parent: " ++ path)%string)
        | Some parent => sysfs_device_number parent
        end
      else Ok dev
  end.

Definition resolve_device_filter (value : string) : result BpfError Z :=
  let dev :=
    if contains ":"%char value && negb (contains "/"%char value) then parse_major_minor value
    else if is_absolute value then
      match metadata_rdev fs value with
      | Err error => Err (LoadError ("failed to inspect device " ++ value ++ ": " ++ error)%string)
      | Ok rdev => encode_device (rdev_major fs rdev) (rdev_minor fs rdev)
      end
    else sysfs_device_number (path_join "/sys/class/block" value) in
  match dev with
  | Err e => Err e
  | Ok dev => physical_device dev
  end.

Definition enumerate_error (error : string) : BpfError :=
  LoadError ("failed to enumerate block devices: " ++ error)%string.

Definition discover_physical_devices : result BpfError (gset Z) :=
  match read_dir fs "/sys/class/block" with
  | Err error => Err (enumerate_error error)
  | Ok entries =>
      match collect (map (fun entry =>
              match entry with
              | Err error => Err (enumerate_error error)
              | Ok path =>
                  match sysfs_device_number path with
                  | Err e => Err e
                  | Ok dev => physical_device dev
                  end
              end) entries) with
      | Err e => Err e
      | Ok devs => Ok (list_to_set devs)
      end
  end.

(** ** Mounts *)

Record MountInfo := mkMountInfo { filesystem : string; source : string; mountpoint : string }.

Definition decode_mount_field (value : list Z) : list Z :=
  replace (bytes_of "\134") (bytes_of "\")
    (replace (bytes_of "\012") [10]
      (replace (bytes_of "\011") [9]
        (replace (bytes_of "\040") [32] value))).

Definition push_mount (dev : Z) (mount : MountInfo) (mounts : gmap Z (list MountInfo)) :
    gmap Z (list MountInfo) :=
  <[dev := default [] (mounts !! dev) ++ [mount]]> mounts.

(** The position of the first [x]. *)
Fixpoint position {A} `{EqDecision A} (x : A) (l : list A) : option nat :=
  match l with
  | [] => None
  | y :: l => if decide (y = x) then Some 0%nat else S <$> position x l
  end.

Definition mount_line (line : list Z) : option (Z * MountInfo) :=
  let fields := split_whitespace line in
  separator ← position (bytes_of "-") fields;
  if Nat.leb (length fields) (separator + 2) || Nat.ltb (length fields) 5 then None
  else
    dev_field ← fields !! 2%nat;
    match parse_major_minor (str_of dev_field) with
    | Err _ => None
    | Ok dev =>
        fstype ← fields !! (separator + 1)%nat;
        fsource ← fields !! (separator + 2)%nat;
        point ← fields !! 4%nat;
        Some (dev, mkMountInfo (str_of fstype) (str_of (decode_mount_field fsource))
                     (str_of (decode_mount_field point)))
    end.

Definition read_mountinfo : result string (gmap Z (list MountInfo)) :=
  match read_to_string fs "/proc/self/mountinfo" with
  | Err e => Err e
  | Ok content =>
      Ok (foldl (fun mounts line =>
            match mount_line line with
            | Some (dev, mount) => push_mount dev mount mounts
            | None => mounts
            end) ∅ (lines (bytes_of content)))
  end.

(** ** The registry *)

Record DeviceInfo := mkDeviceInfo { di_dev : Z; di_name : string; di_mounts : list MountInfo }.

Definition major_minor (self : DeviceInfo) : string := format_device (di_dev self).

Definition track_name (self : DeviceInfo) : string :=
  let name := (di_name self ++ " (" ++ major_minor self ++ ")")%string in
  match di_mounts self with
  | [] => name
  | mounts =>
      let filesystems := join_with "," (sorted_set (map filesystem mounts)) in
      let mountpoints := join_with "," (map mountpoint (take 3 mounts)) in
      (name ++ " " ++ filesystems ++ " " ++ mountpoints)%string
  end.

Record DeviceRegistry := mkDeviceRegistry {
  mounts : gmap Z (list MountInfo);
  infos : gmap Z DeviceInfo;
  track_ids : gmap Z Z
}.

(** The iteration order of a hash map. *)
Variable iter_mounts : gmap Z (list MountInfo) -> list (Z * list MountInfo).

(** What is mounted from a partition is also listed for its physical device. *)
Definition DeviceRegistry_new : DeviceRegistry :=
  let mounts := match read_mountinfo with Ok mounts => mounts | Err _ => ∅ end in
  mkDeviceRegistry
    (foldl (fun mounts '(mounted_dev, device_mounts) =>
       match physical_device mounted_dev with
       | Ok parent =>
           if parent =? mounted_dev then mounts
           else <[parent := default [] (mounts !! parent) ++ device_mounts]> mounts
       | Err _ => mounts
       end) mounts (iter_mounts mounts))
    ∅ ∅.

Definition info (dev : Z) (self : DeviceRegistry) : DeviceInfo * DeviceRegistry :=
  match infos self !! dev with
  | Some info => (info, self)
  | None =>
      let name :=
        match canonicalize fs (sys_dev_block dev) with
        | Ok path => str_of ∘ utf8_lossy ∘ bytes_of <$> path_file_name path
        | Err _ => None
        end in
      let info := {| di_dev := dev; di_name := default ("block-" ++ format_device dev)%string name;
                     di_mounts := default [] (mounts self !! dev) |} in
      (info, mkDeviceRegistry (mounts self) (<[dev := info]> (infos self)) (track_ids self))
  end.

Variable user : list Message -> Message -> Z.
Variable rng : nat -> Z.

Definition custom_track (name : string) (id : Z) (parent : option TrackType) : Message :=
  Message.Event (Event.Track (Track.mk _ _ _ name (TrackType.Custom id) parent)).

(** The id of the track of a device, and the answer of the callback. *)
Definition ensure_track (dev : Z) (self : DeviceRegistry) (p : Port) : (Z * Z) * DeviceRegistry * Port :=
  match track_ids self !! dev with
  | Some id => ((id, 0), self, p)
  | None =>
      let '(id, p) := draw rng p in
      let '(info, self) := info dev self in
      let '(result, p) := send user (custom_track (track_name info) id None) p in
      let self :=
        if result =? 0
        then mkDeviceRegistry (mounts self) (infos self) (<[dev := id]> (track_ids self))
        else self in
      ((id, result), self, p)
  end.

End Files.
