(* ===== verification/BlockTrack.v ===== *)
(** * The block tracker

    The statistics the kernel keeps per block device, what is reported of them in
    regular samples, and the requests as spans (src/bpf/src/blocktrack.rs). *)

From S2P Require Import Prelude Protocol Text Float BpfConfig BpfEvents BlockDevices.
From stdpp Require Import pretty.
Open Scope Z_scope.

Definition OPERATION_COUNT : nat := 5.

Definition HISTOGRAM_BUCKETS : nat := 32.

Definition MIN_RINGBUF_SIZE : Z := 4096.

(** ** Configuration *)

Inductive BlockOperation := Read | Write | Flush | Discard | Other.

#[export] Instance BlockOperation_eq_dec : EqDecision BlockOperation.
Proof. solve_decision. Defined.

Module Operation.

Definition index (self : BlockOperation) : Z :=
  match self with Read => 0 | Write => 1 | Flush => 2 | Discard => 3 | Other => 4 end.

Definition from_index (index : Z) : option BlockOperation :=
  match index with
  | 0 => Some Read | 1 => Some Write | 2 => Some Flush | 3 => Some Discard | 4 => Some Other
  | _ => None
  end.

Definition name (self : BlockOperation) : string :=
  match self with
  | Read => "read" | Write => "write" | Flush => "flush" | Discard => "discard" | Other => "other"
  end.

End Operation.

Inductive BlockMetric := Throughput | Iops | Latency | Saturation | Errors.

#[export] Instance BlockMetric_eq_dec : EqDecision BlockMetric.
Proof. solve_decision. Defined.

Record BlockIoConfig := mkBlockIoConfig {
  frequency : Z;
  operations : list BlockOperation;
  metrics : list BlockMetric;
  devices : list string;
  max_devices : Z;
  max_requests : Z;
  timeline : bool;
  timeline_sample_every : Z;
  timeline_min_latency_us : Z;
  ringbuf : Z
}.

Definition BlockIoConfig_default : BlockIoConfig :=
  {| frequency := 9;
     operations := [Read; Write];
     metrics := [Throughput; Iops; Latency; Saturation; Errors];
     devices := [];
     max_devices := 64;
     max_requests := 32768;
     timeline := false;
     timeline_sample_every := 1;
     timeline_min_latency_us := 0;
     ringbuf := 8 * 1024 * 1024 |}.

Definition has_metric (config : BlockIoConfig) (metric : BlockMetric) : bool :=
  existsb (fun m => bool_decide (m = metric)) (metrics config).

Definition operation_mask (config : BlockIoConfig) : Z :=
  foldl (fun mask operation => Z.lor mask (Z.shiftl 1 (Operation.index operation))) 0 (operations config).

Definition validate (config : BlockIoConfig) : result BpfError unit :=
  if frequency config =? 0 then Err (LoadError "block_io frequency must be greater than zero")
  else if is_empty (operations config) || is_empty (metrics config) then
    Err (LoadError "block_io operations and metrics must not be empty")
  else if (max_devices config =? 0) || (max_requests config =? 0) then
    Err (LoadError "block_io map limits must be greater than zero")
  else if timeline_sample_every config =? 0 then
    Err (LoadError "block_io timeline_sample_every must be greater than zero")
  else if timeline config &&
    ((ringbuf config <? MIN_RINGBUF_SIZE) || (u32_max <? ringbuf config)
     || negb (is_power_of_two (ringbuf config)))
  then Err (LoadError "block_io ringbuf must be a power of two between 4096 and 4294967295 bytes")
  else Ok tt.

(** What [new] asks of the kernel programs: the sizes of their maps and the
    constants they read. *)
Record KernelConfig := mkKernelConfig {
  device_stats_entries : Z;
  device_depths_entries : Z;
  requests_entries : Z;
  tracked_devices_entries : Z;
  events_entries : Z;
  kc_operation_mask : Z;
  kc_timeline_sample_every : Z;
  kc_timeline_min_latency_ns : Z;
  bytes_enabled : bool;
  operations_enabled : bool;
  latency_enabled : bool;
  saturation_enabled : bool;
  errors_enabled : bool;
  timeline_enabled : bool;
  filter_enabled : bool;
  request_tracking_enabled : bool
}.

Definition set_size (s : gset Z) : Z := Z.of_nat (size s).

Definition too_many_filters (n max : Z) : BpfError :=
  LoadError ("block_io has " ++ pretty n ++ " device filters but max_devices is " ++ pretty max)%string.

Definition too_many_devices (n max : Z) : BpfError :=
  LoadError ("block_io found " ++ pretty n ++ " devices but max_devices is " ++ pretty max
    ++ "; increase max_devices or configure devices")%string.

(** [new] until the programs are loaded: the devices to filter, those with a depth,
    and the configuration of the kernel programs. *)
Definition plan (fs : FileSystem) (config : BlockIoConfig) :
    result BpfError (gset Z * gset Z * KernelConfig) :=
  match collect (map (resolve_device_filter fs) (devices config)) with
  | Err e => Err e
  | Ok device_filters =>
      let device_filters : gset Z := list_to_set device_filters in
      if max_devices config <? set_size device_filters then
        Err (too_many_filters (set_size device_filters) (max_devices config))
      else
        match
          if has_metric config Saturation then
            if bool_decide (device_filters = ∅) then discover_physical_devices fs else Ok device_filters
          else Ok ∅
        with
        | Err e => Err e
        | Ok depth_devices =>
            if max_devices config <? set_size depth_devices then
              Err (too_many_devices (set_size depth_devices) (max_devices config))
            else
              let request_tracking :=
                has_metric config Iops || has_metric config Latency || has_metric config Saturation
                || timeline config in
              Ok (device_filters, depth_devices,
                {| device_stats_entries := max_devices config;
                   device_depths_entries := if has_metric config Saturation then max_devices config else 1;
                   requests_entries := if request_tracking then max_requests config else 1;
                   tracked_devices_entries :=
                     Z.max (Z.max (max_devices config) (wrap 32 (set_size device_filters))) 1;
                   events_entries := if timeline config then wrap 32 (ringbuf config) else MIN_RINGBUF_SIZE;
                   kc_operation_mask := operation_mask config;
                   kc_timeline_sample_every := timeline_sample_every config;
                   kc_timeline_min_latency_ns := sat_mul 64 (timeline_min_latency_us config) 1000;
                   bytes_enabled := has_metric config Throughput;
                   operations_enabled := has_metric config Iops || has_metric config Latency;
                   latency_enabled := has_metric config Latency;
                   saturation_enabled := has_metric config Saturation;
                   errors_enabled := has_metric config Errors;
                   timeline_enabled := timeline config;
                   filter_enabled := negb (bool_decide (device_filters = ∅));
                   request_tracking_enabled := request_tracking |})
        end
  end.

(** ** Statistics *)

Record OperationStats := mkOperationStats {
  os_bytes : Z;
  os_operations : Z;
  os_errors : Z;
  queue_latency_ns : Z;
  service_latency_ns : Z;
  total_latency_ns : Z;
  service_histogram : list Z;
  total_histogram : list Z
}.

Definition OperationStats_default : OperationStats :=
  mkOperationStats 0 0 0 0 0 0 (replicate HISTOGRAM_BUCKETS 0) (replicate HISTOGRAM_BUCKETS 0).

Definition OperationStats_delta (self previous : OperationStats) : OperationStats :=
  {| os_bytes := sat_sub (os_bytes self) (os_bytes previous);
     os_operations := sat_sub (os_operations self) (os_operations previous);
     os_errors := sat_sub (os_errors self) (os_errors previous);
     queue_latency_ns := sat_sub (queue_latency_ns self) (queue_latency_ns previous);
     service_latency_ns := sat_sub (service_latency_ns self) (service_latency_ns previous);
     total_latency_ns := sat_sub (total_latency_ns self) (total_latency_ns previous);
     service_histogram := zip_with sat_sub (service_histogram self) (service_histogram previous);
     total_histogram := zip_with sat_sub (total_histogram self) (total_histogram previous) |}.

Record DeviceStats := mkDeviceStats {
  ds_operations : list OperationStats;
  requeues : Z;
  lost_requests : Z;
  timeline_drops : Z;
  ds_first_seen_ns : Z;
  ds_last_seen_ns : Z
}.

(** Differences are taken to the previous statistics of the same incarnation of a
    device. *)
Definition DeviceStats_delta (self : DeviceStats) (previous : option DeviceStats) : DeviceStats :=
  match previous with
  | Some previous =>
      if ds_first_seen_ns previous =? ds_first_seen_ns self then
        {| ds_operations := zip_with OperationStats_delta (ds_operations self) (ds_operations previous);
           requeues := sat_sub (requeues self) (requeues previous);
           lost_requests := sat_sub (lost_requests self) (lost_requests previous);
           timeline_drops := sat_sub (timeline_drops self) (timeline_drops previous);
           ds_first_seen_ns := ds_first_seen_ns self;
           ds_last_seen_ns := ds_last_seen_ns self |}
      else self
  | None => self
  end.

Record DeviceDepth := mkDeviceDepth {
  dd_lock : Z;
  dd_first_seen_ns : Z;
  last_update_ns : Z;
  dd_busy_ns : Z;
  dd_saturated_ns : Z;
  dd_inflight_ns : Z;
  dd_queued_ns : Z;
  dd_inflight : Z;
  dd_queued : Z;
  dd_max_inflight : Z;
  dd_max_queued : Z
}.

Record DepthSnapshot := mkDepthSnapshot {
  first_seen_ns : Z;
  busy_ns : Z;
  saturated_ns : Z;
  inflight_ns : Z;
  queued_ns : Z;
  inflight : Z;
  queued : Z;
  max_inflight : Z;
  max_queued : Z
}.

Definition snapshot (self : DeviceDepth) (now : Z) : DepthSnapshot :=
  let elapsed := sat_sub now (last_update_ns self) in
  {| first_seen_ns := dd_first_seen_ns self;
     busy_ns := sat_add 64 (dd_busy_ns self) (if 0 <? dd_inflight self then elapsed else 0);
     saturated_ns := sat_add 64 (dd_saturated_ns self) (if 0 <? dd_queued self then elapsed else 0);
     inflight_ns := sat_add 64 (dd_inflight_ns self) (sat_mul 64 elapsed (dd_inflight self));
     queued_ns := sat_add 64 (dd_queued_ns self) (sat_mul 64 elapsed (dd_queued self));
     inflight := dd_inflight self;
     queued := dd_queued self;
     max_inflight := dd_max_inflight self;
     max_queued := dd_max_queued self |}.

Definition DepthSnapshot_delta (self : DepthSnapshot) (previous : option DepthSnapshot) : DepthSnapshot :=
  match previous with
  | Some previous =>
      if first_seen_ns previous =? first_seen_ns self then
        {| first_seen_ns := first_seen_ns self;
           busy_ns := sat_sub (busy_ns self) (busy_ns previous);
           saturated_ns := sat_sub (saturated_ns self) (saturated_ns previous);
           inflight_ns := sat_sub (inflight_ns self) (inflight_ns previous);
           queued_ns := sat_sub (queued_ns self) (queued_ns previous);
           inflight := inflight self;
           queued := queued self;
           max_inflight := max_inflight self;
           max_queued := max_queued self |}
      else self
  | None => self
  end.

(** *** In the memory of the kernel *)

Definition parse_operation_stats (at_ : nat) (data : list Z) : OperationStats :=
  mkOperationStats (field 8 at_ data) (field 8 (at_ + 8) data) (field 8 (at_ + 16) data)
    (field 8 (at_ + 24) data) (field 8 (at_ + 32) data) (field 8 (at_ + 40) data)
    (words HISTOGRAM_BUCKETS (at_ + 48) data) (words HISTOGRAM_BUCKETS (at_ + 304) data).

Definition parse_device_stats (data : list Z) : DeviceStats :=
  mkDeviceStats (map (fun i => parse_operation_stats (560 * i) data) (seq 0 OPERATION_COUNT))
    (field 8 2800 data) (field 8 2808 data) (field 8 2816 data) (field 8 2824 data) (field 8 2832 data).

Definition parse_device_depth (data : list Z) : DeviceDepth :=
  mkDeviceDepth (field 4 0 data) (field 8 8 data) (field 8 16 data) (field 8 24 data) (field 8 32 data)
    (field 8 40 data) (field 8 48 data) (field 4 56 data) (field 4 60 data) (field 4 64 data)
    (field 4 68 data).

Definition read_stats (entries : batch) : result BpfError (gmap Z DeviceStats) :=
  match entries with
  | Err error => Err (MapError ("failed to read block_io device stats: " ++ error)%string)
  | Ok entries =>
      match read_entries 4 2840 (field 4 0) parse_device_stats "block_io device key"
              "block_io device stats" entries with
      | Err e => Err e
      | Ok l => Ok (foldl (fun m '(k, v) => <[k := v]> m) ∅ l)
      end
  end.

Definition read_depth (entries : batch) : result BpfError (gmap Z DeviceDepth) :=
  match entries with
  | Err error => Err (MapError ("failed to read block_io device depth: " ++ error)%string)
  | Ok entries =>
      match read_entries 4 72 (field 4 0) parse_device_depth "block_io depth key"
              "block_io depth stats" entries with
      | Err e => Err e
      | Ok l => Ok (foldl (fun m '(k, v) => <[k := v]> m) ∅ l)
      end
  end.

(** ** Percentiles *)

(** The bucket a latency is counted in, and the histogram of some latencies, as
    the kernel program keeps it (src/bpf/src/bpf/blocktrack.bpf.c). *)
Module Kernel.

Definition latency_bucket (latency_ns : Z) : Z :=
  let micros := latency_ns / 1000 in
  if micros <=? 1 then 0
  else if Z.shiftl 1 31 <=? micros then 31
  else
    let '(micros, bucket) := if Z.shiftl 1 16 <=? micros then (Z.shiftr micros 16, 16) else (micros, 0) in
    let '(micros, bucket) := if Z.shiftl 1 8 <=? micros then (Z.shiftr micros 8, bucket + 8) else (micros, bucket) in
    let '(micros, bucket) := if Z.shiftl 1 4 <=? micros then (Z.shiftr micros 4, bucket + 4) else (micros, bucket) in
    let '(micros, bucket) := if Z.shiftl 1 2 <=? micros then (Z.shiftr micros 2, bucket + 2) else (micros, bucket) in
    if Z.shiftl 1 1 <=? micros then bucket + 1 else bucket.

Definition count_latency (histogram : list Z) (latency_ns : Z) : list Z :=
  alter (fun count => count +64 1) (Z.to_nat (latency_bucket latency_ns)) histogram.

Definition histogram_of (latencies : list Z) : list Z :=
  foldl count_latency (replicate HISTOGRAM_BUCKETS 0) latencies.

End Kernel.

(** The first bucket up to which the counts reach [target]. *)
Fixpoint find_bucket (target cumulative : Z) (bucket : nat) (histogram : list Z) : option nat :=
  match histogram with
  | [] => None
  | count :: histogram =>
      let cumulative := cumulative +64 count in
      if target <=? cumulative then Some bucket
      else find_bucket target cumulative (S bucket) histogram
  end.

Definition histogram_total (histogram : list Z) : Z := foldl (fun a b => a +64 b) 0 histogram.

Definition percentile_target (total : Z) (quantile : f64) : Z := to_u64 (ceil (fmul (of_int total) quantile)).

Definition histogram_percentile (histogram : list Z) (quantile : f64) : f64 :=
  let total := histogram_total histogram in
  if total =? 0 then of_int 0
  else
    match find_bucket (percentile_target total quantile) 0 0 histogram with
    | Some O => of_int 1
    | Some bucket => of_int (Z.shiftl 1 (Z.min (Z.of_nat bucket + 1) 32))
    | None => of_int (Z.shiftl 1 32)
    end.

(** ** Samples *)

Inductive CounterKind :=
| KThroughput | KIops | QueueAverage | ServiceAverage | TotalAverage
| ServiceP50 | ServiceP95 | ServiceP99 | TotalP50 | TotalP95 | TotalP99 | KErrors
| BusyPercent | SaturatedPercent | AverageInflight | AverageQueued
| Inflight | Queued | MaxInflight | MaxQueued | Requeues | LostRequests | TimelineDrops.

#[export] Instance CounterKind_eq_dec : EqDecision CounterKind.
Proof. solve_decision. Defined.

Record SeriesKey := mkSeriesKey {
  sk_dev : Z;
  sk_operation : option BlockOperation;
  sk_kind : CounterKind
}.

#[export] Instance SeriesKey_eq_dec : EqDecision SeriesKey.
Proof. solve_decision. Defined.

Record CounterSample := mkCounterSample {
  cs_operation : option BlockOperation;
  cs_kind : CounterKind;
  cs_name : string;
  cs_value : f64;
  cs_unit : string
}.

Definition per (a : Z) (b : f64) : f64 := fdiv (of_int a) b.

Definition operation_samples (config : BlockIoConfig) (operation : BlockOperation) (stats : OperationStats)
    (elapsed_seconds : f64) : list CounterSample :=
  let prefix := Operation.name operation in
  let sample kind suffix value unit :=
    mkCounterSample (Some operation) kind (prefix ++ "_" ++ suffix)%string value unit in
  (if has_metric config Throughput
   then [sample KThroughput "throughput" (per (os_bytes stats) elapsed_seconds) "bytes/s"] else [])
  ++ (if has_metric config Iops
      then [sample KIops "iops" (per (os_operations stats) elapsed_seconds) "operations/s"] else [])
  ++ (if has_metric config Latency then
        let operations := of_int (Z.max (os_operations stats) 1) in
        let average ns := fdiv (per ns operations) (of_int 1000) in
        [sample QueueAverage "queue_latency_avg" (average (queue_latency_ns stats)) "us";
         sample ServiceAverage "service_latency_avg" (average (service_latency_ns stats)) "us";
         sample TotalAverage "total_latency_avg" (average (total_latency_ns stats)) "us";
         sample ServiceP50 "service_latency_p50" (histogram_percentile (service_histogram stats) (ratio 50 100)) "us";
         sample ServiceP95 "service_latency_p95" (histogram_percentile (service_histogram stats) (ratio 95 100)) "us";
         sample ServiceP99 "service_latency_p99" (histogram_percentile (service_histogram stats) (ratio 99 100)) "us";
         sample TotalP50 "total_latency_p50" (histogram_percentile (total_histogram stats) (ratio 50 100)) "us";
         sample TotalP95 "total_latency_p95" (histogram_percentile (total_histogram stats) (ratio 95 100)) "us";
         sample TotalP99 "total_latency_p99" (histogram_percentile (total_histogram stats) (ratio 99 100)) "us"]
      else [])
  ++ (if has_metric config Errors
      then [sample KErrors "errors" (of_int (os_errors stats)) "count"] else []).

Definition depth_samples (depth : DepthSnapshot) (elapsed_ns : Z) : list CounterSample :=
  let elapsed := of_int (Z.max elapsed_ns 1) in
  let percent ns := clamp (of_int 0) (of_int 100) (fdiv (fmul (of_int ns) (of_int 100)) elapsed) in
  let sample kind name value unit := mkCounterSample None kind name value unit in
  [sample BusyPercent "busy_percent" (percent (busy_ns depth)) "percent";
   sample SaturatedPercent "saturated_percent" (percent (saturated_ns depth)) "percent";
   sample AverageInflight "average_inflight" (per (inflight_ns depth) elapsed) "requests";
   sample AverageQueued "average_queued" (per (queued_ns depth) elapsed) "requests";
   sample Inflight "inflight" (of_int (inflight depth)) "requests";
   sample Queued "queued" (of_int (queued depth)) "requests";
   sample MaxInflight "max_inflight" (of_int (max_inflight depth)) "requests";
   sample MaxQueued "max_queued" (of_int (max_queued depth)) "requests"]%string.

#[export] Instance DeviceStats_cumulative : Cumulative DeviceStats := {
  incarnation := ds_first_seen_ns;
  delta_of := DeviceStats_delta;
  well_formed r :=
    length (ds_operations r) = OPERATION_COUNT /\
    Forall (fun o => length (service_histogram o) = HISTOGRAM_BUCKETS /\
                     length (total_histogram o) = HISTOGRAM_BUCKETS) (ds_operations r)
}.
