(* ===== verification/BlockSamples.v ===== *)
(** * The block tracker at work

    The state of [BlockIo], its samples, and the request spans of the kernel's ring
    (src/bpf/src/blocktrack.rs), on the data of [BlockTrack] and the registry of
    [BlockDevices]. *)

From S2P Require Import Prelude Protocol Text Float BpfConfig BpfEvents BlockDevices BlockTrack.
From stdpp Require Import pretty.
Open Scope Z_scope.

(** ** Keys *)

Definition all_kinds : list CounterKind :=
  [KThroughput; KIops; QueueAverage; ServiceAverage; TotalAverage; ServiceP50; ServiceP95; ServiceP99;
   TotalP50; TotalP95; TotalP99; KErrors; BusyPercent; SaturatedPercent; AverageInflight;
   AverageQueued; Inflight; Queued; MaxInflight; MaxQueued; Requeues; LostRequests; TimelineDrops].

Definition all_operations : list BlockOperation := [Read; Write; Flush; Discard; Other].

#[export] Instance CounterKind_countable : Countable CounterKind.
Proof.
  refine (inj_countable' (fun k => default 0%nat (position k all_kinds)) (fun n => nth n all_kinds KIops) _).
  by intros [].
Defined.

#[export] Instance BlockOperation_countable : Countable BlockOperation.
Proof.
  refine (inj_countable' (fun o => default 0%nat (position o all_operations))
    (fun n => nth n all_operations Read) _).
  by intros [].
Defined.

#[export] Instance SeriesKey_countable : Countable SeriesKey.
Proof.
  refine (inj_countable' (fun k => (sk_dev k, sk_operation k, sk_kind k))
    (fun '(d, o, k) => mkSeriesKey d o k) _).
  by intros [].
Defined.

(** ** State *)

Record BlockIo := mkBlockIo {
  port : Port;
  registry : DeviceRegistry;
  last_sample_ns : Z;
  previous_stats : gmap Z DeviceStats;
  previous_depth : gmap Z DepthSnapshot;
  series_ids : gmap SeriesKey Z
}.

Definition set_port (s : BlockIo) (p : Port) : BlockIo :=
  mkBlockIo p (registry s) (last_sample_ns s) (previous_stats s) (previous_depth s) (series_ids s).

Definition set_registry (s : BlockIo) (r : DeviceRegistry) (p : Port) : BlockIo :=
  mkBlockIo p r (last_sample_ns s) (previous_stats s) (previous_depth s) (series_ids s).

Section BlockIo.

Variable fs : FileSystem.
Variable user : list Message -> Message -> Z.
Variable rng : nat -> Z.
Variable config : BlockIoConfig.

(** The iteration order of a hash set. *)
Variable iter : gset Z -> list Z.

(** ** Counters *)

Definition emit_counter (dev timestamp : Z) (sample : CounterSample) (s : BlockIo) : Z * BlockIo :=
  let '((device_track, result), r, p) := ensure_track fs user rng dev (registry s) (port s) in
  let s := set_registry s r p in
  if negb (result =? 0) then (result, s)
  else
    let key := mkSeriesKey dev (cs_operation sample) (cs_kind sample) in
    let '(id, new_track, s) :=
      match series_ids s !! key with
      | Some id => (id, false, s)
      | None =>
          let '(id, p) := draw rng (port s) in
          (id, true, mkBlockIo p (registry s) (last_sample_ns s) (previous_stats s) (previous_depth s)
                       (<[key := id]> (series_ids s)))
      end in
    let '(result, s) :=
      if new_track then
        let '(result, p) := send user
          (counter_track (cs_name sample) id (cs_unit sample) (Some (TrackType.Custom device_track)))
          (port s) in
        (result, set_port s p)
      else (0, s) in
    if negb (result =? 0) then (result, s)
    else
      let '(result, p) := send user
        (counter_message (cs_name sample) (cs_value sample) timestamp id (cs_unit sample)) (port s) in
      (result, set_port s p).

Definition count_sample (kind : CounterKind) (name : string) (value : Z) : CounterSample :=
  mkCounterSample None kind name (of_int value) "count".

(** The statistics of a device: every operation, then the errors, then the
    timeline; whether the loop goes on with the depth of the device. *)
Definition sample_stats (now : Z) (elapsed_seconds : f64) (dev : Z) (current : DeviceStats) (s : BlockIo) :
    bool * BlockIo :=
  let delta := DeviceStats_delta current (previous_stats s !! dev) in
  let s := mkBlockIo (port s) (registry s) (last_sample_ns s) (<[dev := current]> (previous_stats s))
             (previous_depth s) (series_ids s) in
  let s := foldl (fun s operation =>
      (until_refused (emit_counter dev now)
         (operation_samples config operation
            (default OperationStats_default (ds_operations delta !! Z.to_nat (Operation.index operation)))
            elapsed_seconds) s).2) s (operations config) in
  let s :=
    if has_metric config Errors then
      (until_refused (emit_counter dev now)
         [count_sample Requeues "requeues" (requeues delta);
          count_sample LostRequests "lost_requests" (lost_requests delta)] s).2
    else s in
  if timeline config then
    let '(result, s) :=
      emit_counter dev now (count_sample TimelineDrops "timeline_drops" (timeline_drops delta)) s in
    (result =? 0, s)
  else (true, s).

Definition sample_depth (now elapsed_ns dev : Z) (current : DeviceDepth) (s : BlockIo) : BlockIo :=
  let snapshot := snapshot current now in
  let delta := DepthSnapshot_delta snapshot (previous_depth s !! dev) in
  let s := mkBlockIo (port s) (registry s) (last_sample_ns s) (previous_stats s)
             (<[dev := snapshot]> (previous_depth s)) (series_ids s) in
  (until_refused (emit_counter dev now) (depth_samples delta elapsed_ns) s).2.

Definition sample_device (now elapsed_ns : Z) (stats : gmap Z DeviceStats) (depths : gmap Z DeviceDepth)
    (dev : Z) (s : BlockIo) : BlockIo :=
  let elapsed_seconds := ratio elapsed_ns 1000000000 in
  let '(go_on, s) :=
    match stats !! dev with
    | Some current => sample_stats now elapsed_seconds dev current s
    | None => (true, s)
    end in
  if go_on then
    match depths !! dev with
    | Some current => sample_depth now elapsed_ns dev current s
    | None => s
    end
  else s.

(** A device with a depth is reported once there was a request in it. *)
Definition depth_used (depth : DeviceDepth) : bool :=
  (0 <? dd_busy_ns depth) || (0 <? dd_saturated_ns depth) || (0 <? dd_inflight depth)
  || (0 <? dd_queued depth) || (0 <? dd_max_inflight depth) || (0 <? dd_max_queued depth).

Definition sampled_devices (stats : gmap Z DeviceStats) (depths : gmap Z DeviceDepth) : gset Z :=
  dom stats ∪ dom (filter (fun '(_, depth) => depth_used depth = true) depths).

Definition sample (now : Z) (stats depths : batch) (s : BlockIo) : result BpfError unit * BlockIo :=
  let elapsed_ns := Z.max (sat_sub now (last_sample_ns s)) 1 in
  match read_stats stats with
  | Err e => (Err e, s)
  | Ok stats =>
      match (if has_metric config Saturation then read_depth depths else Ok ∅) with
      | Err e => (Err e, s)
      | Ok depths =>
          let s := foldl (fun s dev => sample_device now elapsed_ns stats depths dev s) s
                     (iter (sampled_devices stats depths)) in
          (Ok tt, mkBlockIo (port s) (registry s) now (previous_stats s) (previous_depth s) (series_ids s))
      end
  end.

Definition sample_if_due (force : bool) (now : Z) (stats depths : batch) (s : BlockIo) :
    result BpfError unit * BlockIo :=
  let interval := 1000000000 / frequency config in
  if force || (interval <=? sat_sub now (last_sample_ns s)) then sample now stats depths s
  else (Ok tt, s).

(** ** Request spans *)

Record RequestSpanEvent := mkRequestSpanEvent {
  request_id : Z;
  start_ns : Z;
  end_ns : Z;
  queue_ns : Z;
  service_ns : Z;
  total_ns : Z;
  sector : Z;
  rs_dev : Z;
  partition_dev : Z;
  rs_bytes : Z;
  tgid : Z;
  pid : Z;
  rs_requeues : Z;
  error : Z;
  operation : Z;
  completed : Z;
  comm : list Z
}.

Definition parse_request_span (data : list Z) : RequestSpanEvent :=
  mkRequestSpanEvent (field 8 0 data) (field 8 8 data) (field 8 16 data) (field 8 24 data)
    (field 8 32 data) (field 8 40 data) (field 8 48 data) (field 4 56 data) (field 4 60 data)
    (field 4 64 data) (field 4 68 data) (field 4 72 data) (field 4 76 data)
    (as_signed 32 (field 4 80 data)) (field 1 84 data) (field 1 85 data) (take 16 (drop 92 data)).

Definition comm_of (event : RequestSpanEvent) : string := str_of (utf8_lossy (until_nul (comm event))).

Definition format_bytes (bytes : Z) : string :=
  if (0 <? bytes) && (bytes mod (1024 * 1024) =? 0) then (pretty (bytes / (1024 * 1024)) ++ " MiB")%string
  else if (0 <? bytes) && (bytes mod 1024 =? 0) then (pretty (bytes / 1024) ++ " KiB")%string
  else (pretty bytes ++ " B")%string.

Definition micros (ns : Z) : Z := to_bits (ratio ns 1000).

Definition request_labels (event : RequestSpanEvent) (operation : BlockOperation) (partition : DeviceInfo) :
    Labels.t Z Z :=
  Labels.mk _ _
    ([("comm", comm_of event); ("operation", Operation.name operation);
      ("partition", di_name partition ++ " (" ++ major_minor partition ++ ")")]%string
     ++ match di_mounts partition with
        | [] => []
        | mounts =>
            [("filesystems", join_with "," (sorted_set (map filesystem mounts)));
             ("mountpoints", join_with "," (map mountpoint mounts));
             ("sources", join_with "," (map source mounts))]%string
        end)
    [("bytes", rs_bytes event); ("sector", as_signed 64 (sector event)); ("pid", pid event);
     ("tgid", tgid event); ("error", error event); ("requeues", rs_requeues event)]%string
    [("completed"%string, negb (completed event =? 0))]
    [("queue_latency_us", micros (queue_ns event)); ("service_latency_us", micros (service_ns event));
     ("total_latency_us", micros (total_ns event))]%string.

Definition request_status (event : RequestSpanEvent) (operation : BlockOperation) : string :=
  if negb (completed event =? 0) then
    if error event =? 0 then Operation.name operation else "error"
  else "requeued".

Definition request_span (event : RequestSpanEvent) (operation : BlockOperation) (partition : DeviceInfo)
    (track_id : Z) : Message :=
  Message.Event (Event.Span (Span.mk _ _ _ _ _
    (request_status event operation ++ " " ++ format_bytes (rs_bytes event))%string
    (Z.lxor (request_id event) (start_ns event)) (start_ns event) (end_ns event)
    (TrackId.Custom track_id) (request_labels event operation partition))).

Definition emit_request_span (event : RequestSpanEvent) (s : BlockIo) : Z * BlockIo :=
  let op := default Other (Operation.from_index (operation event)) in
  let '((track_id, result), r, p) := ensure_track fs user rng (rs_dev event) (registry s) (port s) in
  if negb (result =? 0) then (result, set_registry s r p)
  else
    let '(partition, r) := info fs (partition_dev event) r in
    let '(result, p) := send user (request_span event op partition track_id) p in
    (result, set_registry s r p).

(** A record of the ring; what is no event is skipped. *)
Definition request_record (data : list Z) (s : BlockIo) : option (Z * BlockIo) :=
  Some match parse_plain 112 parse_request_span data "request span" with
       | Ok event => emit_request_span event s
       | Err _ => (0, s)
       end.

(** ** Rounds *)

(** What a round finds: the records of the ring and how reading them ends, the
    clock, and the kernel maps. *)
Record Round := mkRound {
  records : list (list Z);
  at_end : result string unit;
  now : Z;
  stats_batch : batch;
  depth_batch : batch
}.

Variable stops : Z -> option (result string unit).

Definition spans_then_samples (what : string) (force : bool) (round : Round) (s : BlockIo) :
    option (result BpfError unit * BlockIo) :=
  '(read, s) ←
    (if timeline config then deliver stops request_record (records round) (at_end round) s
     else Some (Ok tt, s));
  match read with
  | Err e => Some (Err (MapError ("failed to " ++ what ++ " block_io spans: " ++ e)%string), s)
  | Ok _ => Some (sample_if_due force (now round) (stats_batch round) (depth_batch round) s)
  end.

Definition consume : Round -> BlockIo -> option (result BpfError unit * BlockIo) :=
  spans_then_samples "consume" false.

Definition poll : Round -> BlockIo -> option (result BpfError unit * BlockIo) :=
  spans_then_samples "poll" false.

Definition flush : Round -> BlockIo -> option (result BpfError unit * BlockIo) :=
  spans_then_samples "flush" true.

End BlockIo.

(** The state [new] ends with, once the programs are loaded and attached. *)
Definition BlockIo_init (registry : DeviceRegistry) (now : Z) : BlockIo :=
  mkBlockIo no_port registry now ∅ ∅ ∅.
