(* ===== verification/BlockProps.v ===== *)
(** * Properties of the block tracker

    Tracks are described first whatever the callback answers, and no round panics;
    the buckets of the kernel against the logarithm of a latency, and the bucket of a
    percentile. *)

From S2P Require Import Prelude Protocol Text Float BpfConfig BpfEvents BlockDevices BlockTrack BlockSamples.
From stdpp Require Import pretty.
Open Scope Z_scope.

(** ** Tracks are described first *)

Section Described.

Variable fs : FileSystem.
Variable user : list Message -> Message -> Z.
Variable rng : nat -> Z.
Variable config : BlockIoConfig.
Variable iter : gset Z -> list Z.

Definition registry_ok (r : DeviceRegistry) (p : Port) : Prop :=
  forall dev id, track_ids r !! dev = Some id -> TrackId.Custom id ∈ described (sent p).

(** What was sent before. *)
Variable base : list Message.

Record block_ok (s : BlockIo) : Prop := {
  bo_base : base `prefix_of` sent (port s);
  bo_order : in_order (sent (port s));
  bo_registry : registry_ok (registry s) (port s);
  bo_series key id : series_ids s !! key = Some id -> TrackId.Counter id ∈ described (sent (port s))
}.

Lemma described_send t m p : t ∈ described (sent p) -> t ∈ described (sent (send user m p).2).
Proof. intros H. cbn. apply described_snoc. by left. Qed.

Lemma in_order_send m p :
  in_order (sent p) -> (forall t, t ∈ refers m -> t ∈ described (sent p)) ->
  in_order (sent (send user m p).2).
Proof. intros H Hm. by constructor. Qed.

Lemma info_track_ids dev r : track_ids (info fs dev r).2 = track_ids r.
Proof. unfold info. by destruct (infos r !! dev). Qed.

(** The track of a device is described after [ensure_track], and nothing that was
    described is forgotten. *)
Lemma ensure_track_ok dev r p :
  in_order (sent p) -> registry_ok r p ->
  let '((id, result), r', p') := ensure_track fs user rng dev r p in
  in_order (sent p') /\ registry_ok r' p' /\ TrackId.Custom id ∈ described (sent p') /\
  (forall t, t ∈ described (sent p) -> t ∈ described (sent p')) /\ sent p `prefix_of` sent p'.
Proof.
  intros Hp Hr. unfold ensure_track. destruct (track_ids r !! dev) as [id|] eqn:E.
  { split_and!; [done..|by apply (Hr dev)|done|done]. }
  cbn [draw]. destruct (info fs dev r) as [i r1] eqn:Ei.
  assert (track_ids r1 = track_ids r) as Hr1 by (rewrite <-(info_track_ids dev r); by rewrite Ei).
  cbn. set (id := rng (draws p)). set (m := custom_track (track_name i) id None).
  assert (forall t, t ∈ described (sent p) -> t ∈ described (sent p ++ [m])) as Hsub.
  { intros t Ht. apply described_snoc. by left. }
  assert (TrackId.Custom id ∈ described (sent p ++ [m])) as Hid.
  { apply described_snoc. right. cbn. set_solver. }
  split_and!; [constructor; [done|cbn; set_solver]| |done|done|by apply prefix_app_r].
  intros d i' Hd. destruct (user (sent p) m =? 0); cbn in Hd; rewrite Hr1 in Hd; cbn.
  - destruct (decide (d = dev)) as [->|Hne].
    + rewrite lookup_insert_eq in Hd. by injection Hd as <-.
    + rewrite lookup_insert_ne in Hd by done. apply Hsub. by apply (Hr d).
  - apply Hsub. by apply (Hr d).
Qed.

Lemma emit_counter_ok dev timestamp sample s :
  block_ok s -> block_ok (emit_counter fs user rng dev timestamp sample s).2.
Proof.
  intros [Hb Ho Hr Hs]. unfold emit_counter.
  pose proof (ensure_track_ok dev (registry s) (port s) Ho Hr) as He.
  destruct (ensure_track _ _ _ _ _ _) as [[[track result] r] p].
  destruct He as (Ho' & Hr' & Ht & Hsub & Hpre).
  assert (base `prefix_of` sent p) as Hb' by by etrans.
  assert (block_ok (set_registry s r p)) as Hok.
  { split; [done|done|done|]. intros key id Hk. by apply Hsub, (Hs key). }
  destruct (negb (result =? 0)); [done|]. cbn [set_registry series_ids port registry last_sample_ns
    previous_stats previous_depth draw].
  set (key := mkSeriesKey _ _ _). destruct (series_ids s !! key) as [id|] eqn:Ek.
  - cbn. split; cbn.
    + by apply prefix_app_r.
    + constructor; [done|]. cbn. intros t [->|[]%elem_of_nil]%elem_of_cons. by apply Hsub, (Hs key).
    + intros d i Hd. apply described_snoc. left. by apply (Hr' d).
    + intros k i Hk. apply described_snoc. left. by apply Hsub, (Hs k).
  - set (id := rng (draws p)).
    set (m1 := counter_track (cs_name sample) id (cs_unit sample) (Some (TrackType.Custom track))).
    assert (in_order (sent p ++ [m1])) as Ho1.
    { constructor; [done|]. cbn. by intros t [->|[]%elem_of_nil]%elem_of_cons. }
    assert (TrackId.Counter id ∈ described (sent p ++ [m1])) as Hid.
    { apply described_snoc. right. cbn. set_solver. }
    assert (forall t, t ∈ described (sent p) -> t ∈ described (sent p ++ [m1])) as Hsub1.
    { intros t H. apply described_snoc. by left. }
    assert (forall k i, <[key := id]> (series_ids s) !! k = Some i ->
      TrackId.Counter i ∈ described (sent p ++ [m1])) as Hs1.
    { intros k i. destruct (decide (k = key)) as [->|Hne].
      - rewrite lookup_insert_eq. by intros [= <-].
      - rewrite lookup_insert_ne by done. intros Hk. by apply Hsub1, Hsub, (Hs k). }
    cbn. destruct (negb (user (sent p) m1 =? 0)); cbn.
    + split; cbn; [by apply prefix_app_r|done| |done]. intros d i Hd. by apply Hsub1, (Hr' d).
    + split; cbn.
      * rewrite <-app_assoc. by apply prefix_app_r.
      * constructor; [done|]. cbn. by intros t [->|[]%elem_of_nil]%elem_of_cons.
      * intros d i Hd. apply described_snoc. left. by apply Hsub1, (Hr' d).
      * intros k i Hk. apply described_snoc. left. by apply (Hs1 k).
Qed.

(** Changes of the state that touch neither the tracks nor the outbox. *)
Lemma block_ok_same s s' :
  port s' = port s -> registry s' = registry s -> series_ids s' = series_ids s ->
  block_ok s -> block_ok s'.
Proof. intros E1 E2 E3 [H0 H1 H2 H3]. split; rewrite ?E1, ?E2, ?E3; auto. Qed.

Lemma emit_counters_ok dev now l s :
  block_ok s -> block_ok (until_refused (emit_counter fs user rng dev now) l s).2.
Proof. apply until_refused_ind. intros. by apply emit_counter_ok. Qed.

Lemma sample_stats_ok now secs dev current s :
  block_ok s -> block_ok (sample_stats fs user rng config now secs dev current s).2.
Proof.
  intros Hs. unfold sample_stats.
  set (s0 := mkBlockIo _ _ _ _ _ _). assert (block_ok s0) as H0 by by apply (block_ok_same s).
  set (s1 := foldl _ s0 _). assert (block_ok s1) as H1.
  { apply foldl_ind; [|done]. intros op st Hst. by apply emit_counters_ok. }
  set (s2 := if has_metric config Errors then _ else s1). assert (block_ok s2) as H2.
  { unfold s2. destruct (has_metric config Errors); [by apply emit_counters_ok|done]. }
  destruct (timeline config); [|done].
  pose proof (emit_counter_ok dev now
    (count_sample TimelineDrops "timeline_drops"
       (timeline_drops (DeviceStats_delta current (previous_stats s !! dev)))) s2 H2) as H3.
  by destruct (emit_counter _ _ _ _ _ _ s2) as [r s3].
Qed.

Lemma sample_device_ok now elapsed stats depths dev s :
  block_ok s -> block_ok (sample_device fs user rng config now elapsed stats depths dev s).
Proof.
  intros Hs. unfold sample_device.
  set (p := match stats !! dev with Some _ => _ | None => _ end).
  assert (block_ok p.2) as Hp.
  { unfold p. destruct (stats !! dev); [by apply sample_stats_ok|done]. }
  destruct p as [go_on s1]. cbn in Hp. destruct go_on; [|done].
  destruct (depths !! dev); [|done]. apply emit_counters_ok. by apply (block_ok_same s1).
Qed.

Lemma sample_ok now stats depths s :
  block_ok s -> block_ok (sample fs user rng config iter now stats depths s).2.
Proof.
  intros Hs. unfold sample. destruct (read_stats stats); [|done].
  destruct (if has_metric config Saturation then _ else _); [|done]. cbn [snd].
  set (s1 := foldl _ s _). assert (block_ok s1) as H1.
  { apply foldl_ind; [|done]. intros dev st Hst. by apply sample_device_ok. }
  by apply (block_ok_same s1).
Qed.

Lemma emit_request_span_ok event s :
  block_ok s -> block_ok (emit_request_span fs user rng event s).2.
Proof.
  intros [Hb Ho Hr Hs]. unfold emit_request_span.
  pose proof (ensure_track_ok (rs_dev event) (registry s) (port s) Ho Hr) as He.
  destruct (ensure_track _ _ _ _ _ _) as [[[track result] r] p].
  destruct He as (Ho' & Hr' & Ht & Hsub & Hpre).
  assert (base `prefix_of` sent p) as Hb' by by etrans.
  destruct (negb (result =? 0)).
  { split; [done|done|done|]. intros key id Hk. by apply Hsub, (Hs key). }
  destruct (info fs (partition_dev event) r) as [part r1] eqn:Ei.
  assert (track_ids r1 = track_ids r) as Hr1 by (rewrite <-(info_track_ids (partition_dev event) r); by rewrite Ei).
  cbn. split; cbn.
  - by apply prefix_app_r.
  - constructor; [done|]. cbn. by intros t [->|[]%elem_of_nil]%elem_of_cons.
  - intros d i Hd. rewrite Hr1 in Hd. apply described_snoc. left. by apply (Hr' d).
  - intros k i Hk. apply described_snoc. left. by apply Hsub, (Hs k).
Qed.

Variable stops : Z -> option (result string unit).

Lemma round_ok what force round s r s' :
  spans_then_samples fs user rng config iter stops what force round s = Some (r, s') ->
  block_ok s -> block_ok s'.
Proof.
  unfold spans_then_samples. intros H Hs.
  destruct (if timeline config then _ else _) as [[read s1]|] eqn:E; [|done]. cbn in H.
  assert (block_ok s1) as H1.
  { destruct (timeline config); [|by injection E as _ <-].
    revert E. apply deliver_ind; [|done]. intros data st z st' Hd Hst.
    unfold request_record in Hd. destruct (parse_plain _ _ _ _) as [event|].
    - injection Hd as Hd. replace st' with (emit_request_span fs user rng event st).2 by by rewrite Hd.
      by apply emit_request_span_ok.
    - by injection Hd as _ <-. }
  destruct read; [|by injection H as _ <-].
  injection H as H. unfold sample_if_due in H.
  destruct (force || _); [|by injection H as _ <-].
  replace s' with (sample fs user rng config iter (now round) (stats_batch round) (depth_batch round) s1).2
    by by rewrite H.
  by apply sample_ok.
Qed.

(** Rounds that end, with the name of the operation and whether it forces a sample. *)
Inductive rounds : BlockIo -> BlockIo -> Prop :=
| rounds_refl s : rounds s s
| rounds_step s what force round r s1 s2 :
    spans_then_samples fs user rng config iter stops what force round s = Some (r, s1) ->
    rounds s1 s2 -> rounds s s2.

Lemma block_rounds_ok s s' : rounds s s' -> block_ok s -> block_ok s'.
Proof. induction 1 as [|s what force round r s1 s2 Hr _ IH]; [done|]. eauto using round_ok. Qed.

(** A round always ends. *)
Lemma round_total what force round s :
  exists r s', spans_then_samples fs user rng config iter stops what force round s = Some (r, s').
Proof.
  unfold spans_then_samples.
  assert (exists r s1, (if timeline config
      then deliver stops (request_record fs user rng) (records round) (at_end round) s
      else Some (Ok tt, s)) = Some (r, s1)) as (r & s1 & ->).
  { destruct (timeline config); [|by do 2 eexists]. generalize (at_end round) s.
    induction (records round) as [|data l IH]; intros e s0; [by do 2 eexists|]. cbn [deliver].
    destruct (request_record fs user rng data s0) as [[z s1]|] eqn:E; [|done]. cbn.
    destruct (stops z); [by do 2 eexists|apply IH]. }
  cbn. destruct r; [|by do 2 eexists].
  by destruct (sample_if_due _ _ _ _ _ _ _ _ _ _) as [r s2]; do 2 eexists.
Qed.

End Described.

(** ** Percentiles *)

(** One step of the search for the highest bit. *)
Lemma bucket_step (x w : Z) :
  0 <= w -> 1 <= x < 2 ^ (2 * w) ->
  let '(y, d) := if Z.shiftl 1 w <=? x then (Z.shiftr x w, w) else (x, 0) in
  1 <= y < 2 ^ w /\ 0 <= d /\ y * 2 ^ d <= x < (y + 1) * 2 ^ d.
Proof.
  intros Hw Hx. rewrite Z.shiftl_1_l. assert (0 < 2 ^ w) by (apply Z.pow_pos_nonneg; lia).
  destruct (Z.leb_spec (2 ^ w) x); [|lia].
  rewrite Z.shiftr_div_pow2 by done. pose proof (Z.div_mod x (2 ^ w) ltac:(lia)).
  pose proof (Z.mod_pos_bound x (2 ^ w) ltac:(lia)).
  replace (2 ^ (2 * w)) with (2 ^ w * 2 ^ w) in Hx by (rewrite <-Z.pow_add_r; f_equal; lia).
  split_and!; nia.
Qed.

Lemma bucket_compose (x y z d e : Z) :
  0 <= d -> 0 <= e -> y * 2 ^ d <= x < (y + 1) * 2 ^ d -> z * 2 ^ e <= y < (z + 1) * 2 ^ e ->
  z * 2 ^ (d + e) <= x < (z + 1) * 2 ^ (d + e).
Proof.
  intros Hd He Hx Hy. rewrite Z.pow_add_r by done.
  assert (0 < 2 ^ d) by (apply Z.pow_pos_nonneg; lia). nia.
Qed.

(** The bucket is the position of the highest bit of the microseconds. *)
Lemma latency_bucket_log ns :
  2 <= ns / 1000 < 2 ^ 31 ->
  let b := Kernel.latency_bucket ns in 0 <= b /\ 2 ^ b <= ns / 1000 < 2 ^ (b + 1).
Proof.
  unfold Kernel.latency_bucket. set (m := ns / 1000). intros Hm.
  destruct (Z.leb_spec m 1); [lia|]. change (Z.shiftl 1 31) with (2 ^ 31).
  destruct (Z.leb_spec (2 ^ 31) m); [lia|].
  pose proof (bucket_step m 16 ltac:(lia) ltac:(lia)) as S1.
  destruct (if Z.shiftl 1 16 <=? m then _ else _) as [y1 d1]. destruct S1 as (B1 & D1 & E1).
  pose proof (bucket_step y1 8 ltac:(lia) ltac:(lia)) as S2.
  replace (if Z.shiftl 1 8 <=? y1 then (Z.shiftr y1 8, d1 + 8) else (y1, d1)) with
    (let '(y, d) := if Z.shiftl 1 8 <=? y1 then (Z.shiftr y1 8, 8) else (y1, 0) in (y, d1 + d))
    by (destruct (_ <=? _); [done|by rewrite Z.add_0_r]).
  destruct (if Z.shiftl 1 8 <=? y1 then _ else _) as [y2 d2]. destruct S2 as (B2 & D2 & E2).
  pose proof (bucket_compose _ _ _ _ _ D1 D2 E1 E2) as C2.
  pose proof (bucket_step y2 4 ltac:(lia) ltac:(lia)) as S3.
  replace (if Z.shiftl 1 4 <=? y2 then (Z.shiftr y2 4, d1 + d2 + 4) else (y2, d1 + d2)) with
    (let '(y, d) := if Z.shiftl 1 4 <=? y2 then (Z.shiftr y2 4, 4) else (y2, 0) in (y, d1 + d2 + d))
    by (destruct (_ <=? _); [done|by rewrite Z.add_0_r]).
  destruct (if Z.shiftl 1 4 <=? y2 then _ else _) as [y3 d3]. destruct S3 as (B3 & D3 & E3).
  pose proof (bucket_compose _ _ _ _ _ (Z.add_nonneg_nonneg _ _ D1 D2) D3 C2 E3) as C3.
  pose proof (bucket_step y3 2 ltac:(lia) ltac:(lia)) as S4.
  replace (if Z.shiftl 1 2 <=? y3 then (Z.shiftr y3 2, d1 + d2 + d3 + 2) else (y3, d1 + d2 + d3)) with
    (let '(y, d) := if Z.shiftl 1 2 <=? y3 then (Z.shiftr y3 2, 2) else (y3, 0) in (y, d1 + d2 + d3 + d))
    by (destruct (_ <=? _); [done|by rewrite Z.add_0_r]).
  destruct (if Z.shiftl 1 2 <=? y3 then _ else _) as [y4 d4]. destruct S4 as (B4 & D4 & E4).
  pose proof (bucket_compose _ _ _ _ _
    (Z.add_nonneg_nonneg _ _ (Z.add_nonneg_nonneg _ _ D1 D2) D3) D4 C3 E4) as C4.
  set (D := d1 + d2 + d3 + d4) in *. change (Z.shiftl 1 1) with 2. assert (0 <= D) by lia.
  assert (0 < 2 ^ D) by (apply Z.pow_pos_nonneg; lia).
  assert (2 ^ (D + 1) = 2 * 2 ^ D) as P1 by (rewrite Z.pow_add_r by lia; lia).
  assert (2 ^ (D + 1 + 1) = 4 * 2 ^ D) as P2 by (rewrite !Z.pow_add_r by lia; lia).
  destruct (Z.leb_spec 2 y4); cbn zeta; rewrite ?P2, ?P1; split; nia.
Qed.

Lemma latency_bucket_spec ns b :
  0 <= b <= 30 -> (Kernel.latency_bucket ns <= b <-> ns / 1000 < 2 ^ (b + 1)).
Proof.
  intros Hb. assert (2 ^ 1 <= 2 ^ (b + 1) <= 2 ^ 31) as Hp by (split; apply Z.pow_le_mono_r; lia).
  destruct (Z_lt_le_dec (ns / 1000) 2) as [H|H].
  { unfold Kernel.latency_bucket. destruct (Z.leb_spec (ns / 1000) 1); lia. }
  destruct (Z_lt_le_dec (ns / 1000) (2 ^ 31)) as [H'|H'].
  - destruct (latency_bucket_log ns ltac:(lia)) as (H0 & H1 & H2). split; intros H3.
    + assert (2 ^ (Kernel.latency_bucket ns + 1) <= 2 ^ (b + 1)) by (apply Z.pow_le_mono_r; lia). lia.
    + destruct (Z_le_gt_dec (Kernel.latency_bucket ns) b); [done|].
      assert (2 ^ (b + 1) <= 2 ^ Kernel.latency_bucket ns) by (apply Z.pow_le_mono_r; lia). lia.
  - unfold Kernel.latency_bucket. destruct (Z.leb_spec (ns / 1000) 1); [lia|].
    change (Z.shiftl 1 31) with (2 ^ 31). destruct (Z.leb_spec (2 ^ 31) (ns / 1000)); lia.
Qed.

Lemma latency_bucket_bound ns : 0 <= Kernel.latency_bucket ns <= 31.
Proof.
  destruct (Z_lt_le_dec (ns / 1000) 2) as [H|H].
  { unfold Kernel.latency_bucket. destruct (Z.leb_spec (ns / 1000) 1); lia. }
  destruct (Z_lt_le_dec (ns / 1000) (2 ^ 31)) as [H'|H'].
  - destruct (latency_bucket_log ns ltac:(lia)) as (H0 & H1 & H2). split; [done|].
    destruct (Z_le_gt_dec (Kernel.latency_bucket ns) 31); [done|].
    assert (2 ^ 31 <= 2 ^ Kernel.latency_bucket ns) by (apply Z.pow_le_mono_r; lia). lia.
  - unfold Kernel.latency_bucket. destruct (Z.leb_spec (ns / 1000) 1); [lia|].
    change (Z.shiftl 1 31) with (2 ^ 31). destruct (Z.leb_spec (2 ^ 31) (ns / 1000)); lia.
Qed.

Definition count_if {A} (f : A -> bool) (l : list A) : Z := Z.of_nat (length (List.filter f l)).

(** The counts of the first [n] buckets. *)
Definition sum_first (n : nat) (h : list Z) : Z := foldr Z.add 0 (take n h).

Lemma sum_first_S n h x : h !! n = Some x -> sum_first (S n) h = sum_first n h + x.
Proof.
  intros H. unfold sum_first. rewrite (take_S_r _ _ _ H), foldr_app. cbn.
  generalize (take n h). intros l. induction l as [|y l IH]; cbn; lia.
Qed.

Lemma sum_first_alter n i h x :
  h !! i = Some x ->
  sum_first n (alter (fun c => c + 1) i h) = sum_first n h + (if Nat.ltb i n then 1 else 0).
Proof.
  revert i h. induction n as [|n IH]; intros i h Hx; [done|]. destruct h as [|y h]; [done|].
  destruct i as [|i].
  - unfold sum_first. cbn. lia.
  - specialize (IH i h Hx). unfold sum_first in *. change (Nat.ltb (S i) (S n)) with (Nat.ltb i n).
    cbn [alter list_alter take foldr]. rewrite IH. destruct (Nat.ltb i n); lia.
Qed.

(** The histogram of less than 2^64 latencies holds how many are in each bucket. *)
Lemma histogram_counts ls :
  Z.of_nat (length ls) < 2 ^ 64 ->
  let h := Kernel.histogram_of ls in
  length h = HISTOGRAM_BUCKETS /\ Forall (fun c => 0 <= c <= Z.of_nat (length ls)) h /\
  forall n, (n <= 32)%nat ->
    sum_first n h = count_if (fun ns => Kernel.latency_bucket ns <? Z.of_nat n) ls.
Proof.
  induction ls as [|ns ls IH] using rev_ind; intros Hlen.
  { split_and!; [done|apply Forall_forall; cbn; set_solver|].
    intros n Hn. do 33 (destruct n as [|n]; [done|]). lia. }
  rewrite length_app in *. cbn [length] in *. destruct IH as (Hl & Hb & Hs); [lia|].
  unfold Kernel.histogram_of in *. rewrite foldl_app. cbn [foldl].
  set (h := foldl _ _ ls) in *. cbn zeta. unfold Kernel.count_latency.
  pose proof (latency_bucket_bound ns) as Hbk. set (i := Z.to_nat (Kernel.latency_bucket ns)).
  destruct (lookup_lt_is_Some_2 h i) as [x Hx]; [rewrite Hl; unfold i, HISTOGRAM_BUCKETS; lia|].
  pose proof (proj1 (Forall_lookup _ _) Hb i x Hx) as Hx0. cbn in Hx0.
  assert (alter (fun count => count +64 1) i h = alter (fun count => count + 1) i h) as ->.
  { apply list_eq. intros j. destruct (decide (j = i)) as [->|Hne].
    - rewrite !list_lookup_alter_eq, Hx. cbn. f_equal. apply wrap_small. lia.
    - by rewrite !list_lookup_alter_ne. }
  split_and!.
  - by rewrite length_alter.
  - apply Forall_lookup. intros j y. destruct (decide (j = i)) as [->|Hne].
    + rewrite list_lookup_alter_eq, Hx. intros [= <-]. lia.
    + rewrite list_lookup_alter_ne by done. intros Hy.
      pose proof (proj1 (Forall_lookup _ _) Hb j y Hy) as Hy0. cbn in Hy0. lia.
  - intros n Hn. rewrite (sum_first_alter _ _ _ _ Hx), (Hs n Hn). unfold count_if.
    rewrite List.filter_app, length_app. cbn [List.filter].
    assert (Nat.ltb i n = (Kernel.latency_bucket ns <? Z.of_nat n)) as ->.
    { unfold i. destruct (Nat.ltb_spec (Z.to_nat (Kernel.latency_bucket ns)) n),
        (Z.ltb_spec (Kernel.latency_bucket ns) (Z.of_nat n)); lia || done. }
    destruct (_ <? _); cbn; lia.
Qed.

Lemma sum_first_mono h n m :
  Forall (fun c => 0 <= c) h -> (n <= m)%nat -> 0 <= sum_first n h <= sum_first m h.
Proof.
  intros Hh. revert n m. induction Hh as [|c h Hc _ IH]; intros n m Hnm; unfold sum_first in *.
  - by rewrite !take_nil.
  - destruct n as [|n], m as [|m]; cbn; try lia.
    + specialize (IH 0%nat m ltac:(lia)). cbn in IH. lia.
    + specialize (IH n m ltac:(lia)). lia.
Qed.

Lemma histogram_total_sum h :
  Forall (fun c => 0 <= c) h -> foldr Z.add 0 h < 2 ^ 64 -> histogram_total h = foldr Z.add 0 h.
Proof.
  intros Hh Ht. unfold histogram_total.
  assert (forall acc, 0 <= acc -> acc + foldr Z.add 0 h < 2 ^ 64 ->
    foldl (fun a b => a +64 b) acc h = acc + foldr Z.add 0 h) as H.
  { clear Ht. induction Hh as [|c h Hc Hh IH]; intros acc Ha Hb; cbn in *; [lia|].
    assert (0 <= foldr Z.add 0 h) by (clear -Hh; induction Hh; cbn; lia).
    rewrite wrap_small by lia. rewrite IH; lia. }
  rewrite H; lia.
Qed.

Lemma find_bucket_none h target :
  Forall (fun c => 0 <= c) h -> foldr Z.add 0 h < 2 ^ 64 -> foldr Z.add 0 h < target ->
  find_bucket target 0 0 h = None.
Proof.
  intros Hh Hs Ht.
  assert (forall acc n, 0 <= acc -> acc + foldr Z.add 0 h < 2 ^ 64 -> acc + foldr Z.add 0 h < target ->
    find_bucket target acc n h = None) as H; [|apply H; lia].
  clear Hs Ht. induction Hh as [|c h Hc Hh IH]; intros acc n Ha Hb Ht; [done|]. cbn in *.
  assert (0 <= foldr Z.add 0 h) by (clear -Hh; induction Hh; cbn; lia).
  rewrite wrap_small by lia. destruct (Z.leb_spec target (acc + c)); [lia|]. apply IH; lia.
Qed.

(** The bucket that is found is the first one up to which the counts reach the
    target. *)
Lemma find_bucket_spec h target :
  Forall (fun c => 0 <= c) h -> foldr Z.add 0 h < 2 ^ 64 -> target <= foldr Z.add 0 h ->
  0 < foldr Z.add 0 h ->
  exists k, find_bucket target 0 0 h = Some k /\ (k < length h)%nat /\
    target <= sum_first (S k) h /\ (k <> 0%nat -> sum_first k h < target).
Proof.
  intros Hh Hs Ht Hpos.
  assert (forall done_ rest, h = done_ ++ rest -> (done_ <> [] -> sum_first (length done_) h < target) ->
    rest <> [] ->
    exists k, find_bucket target (sum_first (length done_) h) (length done_) rest = Some k /\
      (k < length h)%nat /\ target <= sum_first (S k) h /\ (k <> 0%nat -> sum_first k h < target)) as H.
  { intros done_ rest. revert done_. induction rest as [|c rest IH]; intros done_ Hd Hlt Hne; [done|].
    assert (h !! length done_ = Some c) as Hc by (rewrite Hd; by rewrite lookup_app_r, Nat.sub_diag by lia).
    pose proof (sum_first_S _ _ _ Hc) as HS.
    assert (length h = (length done_ + S (length rest))%nat) as Hl by (rewrite Hd, length_app; done).
    pose proof (sum_first_mono h (S (length done_)) (length h) Hh ltac:(lia)) as Hm.
    assert (sum_first (length h) h = foldr Z.add 0 h) as Hall
      by (unfold sum_first; by rewrite take_ge by lia).
    cbn [find_bucket]. rewrite wrap_small, <-HS by lia.
    destruct (Z.leb_spec target (sum_first (S (length done_)) h)) as [Hle|Hgt].
    - exists (length done_). split_and!; [done|lia|done|]. intros Hn. apply Hlt. by destruct done_.
    - destruct rest as [|c' rest].
      { exfalso. replace (S (length done_)) with (length h) in Hgt by (rewrite Hl; cbn; lia). lia. }
      specialize (IH (done_ ++ [c])). rewrite length_app in IH. cbn [length] in IH.
      rewrite Nat.add_1_r in IH. apply IH; [by rewrite <-app_assoc|intros _; lia|done]. }
  apply (H [] h); [done|done|]. by destruct h.
Qed.
