(* ===== verification/BlockNames.v ===== *)
(** * Names of devices and mounts

    What [BlockDevices] reads back is what the kernel wrote: device numbers, and the
    escaped fields of /proc/self/mountinfo. *)

From S2P Require Import Prelude Text BpfConfig BpfEvents BlockDevices.
From stdpp Require Import pretty.
From Stdlib Require Import Ascii.
Open Scope Z_scope.

(** ** Decimal numbers *)

Lemma u64_digits_char acc d s :
  0 <= acc -> (d < 10)%N -> 10 * acc + Z.of_N d <= u64_max ->
  u64_digits acc (String.String (pretty_N_char d) s) = u64_digits (10 * acc + Z.of_N d) s.
Proof.
  intros Ha Hd Hm. cbn [u64_digits].
  assert (byte_of (pretty_N_char d) - 48 = Z.of_N d) as ->.
  { assert (d = 0 \/ d = 1 \/ d = 2 \/ d = 3 \/ d = 4 \/ d = 5 \/ d = 6 \/ d = 7 \/ d = 8 \/ d = 9)%N
      as Hc by lia.
    by destruct Hc as [->|[->|[->|[->|[->|[->|[->|[->|[->| ->]]]]]]]]]. }
  unfold byte_in. destruct (Z.leb_spec 0 (Z.of_N d)), (Z.leb_spec (Z.of_N d) 9); try lia. cbn [andb negb].
  by destruct (Z.ltb_spec u64_max (10 * acc + Z.of_N d)); [lia|].
Qed.

Lemma u64_digits_pretty (x : N) s :
  (0 < x)%N -> Z.of_N x <= u64_max -> u64_digits 0 (pretty_N_go x s) = u64_digits (Z.of_N x) s.
Proof.
  revert s. induction (N.lt_wf_0 x) as [x _ IH]. intros s Hx Hm. rewrite pretty_N_go_step by done.
  pose proof (N.div_mod x 10 ltac:(lia)) as Hdm. pose proof (N.mod_lt x 10 ltac:(lia)) as Hmod.
  revert Hdm Hmod. generalize (x / 10)%N (x mod 10)%N. intros q r Hdm Hmod.
  destruct (decide (q = 0)%N) as [H0|H0].
  - rewrite H0, pretty_N_go_0. rewrite u64_digits_char; [f_equal; lia|lia|lia|lia].
  - rewrite IH; [|lia..]. rewrite u64_digits_char; [f_equal; lia|lia|lia|lia].
Qed.

(** A number that is printed has digits only. *)
Lemma u64_digits_no_char c acc s n rest :
  byte_in 0 9 (byte_of c - 48) = false -> u64_digits acc s = Ok n ->
  split_once c (s ++ String.String c rest) = Some (s, rest).
Proof.
  intros Hc. revert acc.
  induction s as [|d s IH]; intros acc H; cbn [u64_digits] in *.
  - change (split_once c (String.String c rest) = Some (String.EmptyString, rest)). cbn [split_once].
    by rewrite Ascii.eqb_refl.
  - change (String.String d s ++ String.String c rest)%string with
      (String.String d (s ++ String.String c rest)). cbn [split_once].
    destruct (byte_in 0 9 (byte_of d - 48)) eqn:Hd; [|done]. cbn [negb] in H.
    destruct (Ascii.eqb_spec d c) as [->|_]; [congruence|].
    destruct (u64_max <? _); [done|]. by rewrite (IH _ H).
Qed.

Lemma pretty_digits (n : Z) :
  0 <= n <= u64_max -> u64_digits 0 (pretty n) = Ok n /\ pretty n <> String.EmptyString.
Proof.
  intros Hn. destruct n as [|p|p]; [done| |lia].
  change (pretty (Z.pos p)) with (pretty_N_go (N.pos p) ""). split.
  - by rewrite u64_digits_pretty by lia.
  - intros E. pose proof (u64_digits_pretty (N.pos p) "" ltac:(lia) ltac:(cbn; lia)) as H.
    rewrite E in H. cbn in H. by injection H.
Qed.

Lemma parse_u64_pretty (n : Z) : 0 <= n <= u64_max -> parse_u64 (pretty n) = Ok n.
Proof.
  intros Hn. destruct (pretty_digits n Hn) as [Hd Hne]. unfold parse_u64.
  destruct (pretty n) as [|c s]; [done|]. destruct (Ascii.eqb_spec c "+"%char) as [->|_]; [|done].
  by cbn in Hd.
Qed.

Lemma decode_encode dev : in_u 32 dev ->
  let '(major, minor) := decode_device dev in
  0 <= major < 2 ^ 12 /\ 0 <= minor < 2 ^ 20 /\ encode_device major minor = Ok dev.
Proof.
  unfold in_u, decode_device, encode_device. intros Hd. change (2 ^ 20 - 1) with (Z.ones 20).
  rewrite Z.land_ones, Z.shiftr_div_pow2 by lia.
  pose proof (Z.mod_pos_bound dev (2 ^ 20) ltac:(lia)). pose proof (Z.div_mod dev (2 ^ 20) ltac:(lia)).
  assert (0 <= dev / 2 ^ 20 < 2 ^ 12) by lia. split_and!; try lia.
  destruct (Z.leb_spec (2 ^ 12) (dev / 2 ^ 20)), (Z.leb_spec (2 ^ 20) (dev mod 2 ^ 20)); try lia.
  cbn [orb]. rewrite (wrap_small 32 (dev / 2 ^ 20)), (wrap_small 32 (dev mod 2 ^ 20)) by lia.
  rewrite wrap_small by (rewrite Z.shiftl_mul_pow2 by lia; lia).
  f_equal. rewrite <-(Z.shiftr_div_pow2 dev 20), <-Z.ldiff_ones_r by lia.
  rewrite <-(Z.land_ones dev 20) by lia. apply Z.lor_ldiff_and.
Qed.

(** Reading a device number back gives the number: the form in which devices are
    named in sysfs, in the mount table and in configurations is exact. *)
Lemma device_numbers_roundtrip dev :
  in_u 32 dev -> parse_major_minor (format_device dev) = Ok dev.
Proof.
  intros Hd. pose proof (decode_encode dev Hd) as H. unfold format_device.
  destruct (decode_device dev) as [major minor]. destruct H as (Hmaj & Hmin & He).
  unfold parse_major_minor.
  destruct (pretty_digits major ltac:(unfold u64_max; lia)) as [Hdig _].
  change (pretty major ++ ":" ++ pretty minor)%string with
    (pretty major ++ String.String ":"%char (pretty minor))%string.
  rewrite (u64_digits_no_char ":"%char 0 _ major _ eq_refl Hdig).
  by rewrite !parse_u64_pretty by (unfold u64_max; lia).
Qed.

(** ** Fields of the mount table *)

(** How the kernel writes a byte of a field: white space and the backslash are
    escaped in octal. *)
Definition mangle_byte (b : Z) : list Z :=
  if b =? 32 then bytes_of "\040"
  else if b =? 9 then bytes_of "\011"
  else if b =? 10 then bytes_of "\012"
  else if b =? 92 then bytes_of "\134"
  else [b].

Definition mangle (bs : list Z) : list Z := concat (map mangle_byte bs).

(** A byte written by one of four escapes, or by itself. *)
Definition escapes : list (list Z) := map bytes_of ["\040"; "\011"; "\012"; "\134"]%string.

Definition piece (p : list Z) : Prop := p ∈ escapes \/ exists b, p = [b] /\ b <> 92.

Lemma escape_shape p :
  p ∈ escapes -> exists x y z, p = [92; x; y; z] /\ x <> 92 /\ y <> 92 /\ z <> 92.
Proof.
  unfold escapes. cbn. intros Hp.
  repeat (apply elem_of_cons in Hp as [->|Hp]; [by repeat eexists|]). by apply elem_of_nil in Hp.
Qed.

(** Replacing an escape changes the pieces that are it. *)
Lemma replace_pieces pat rep ps n :
  pat ∈ escapes -> Forall piece ps -> (length (concat ps) <= n)%nat ->
  replace_from n pat rep (concat ps) =
  concat (map (fun p => if bool_decide (p = pat) then rep else p) ps).
Proof.
  intros Hpat Hps. revert n. induction Hps as [|p ps Hp _ IH]; intros n Hn; cbn [concat map] in *.
  { by destruct n. }
  rewrite length_app in Hn.
  assert (forall d1 d2 d3 rest m, (3 <= m)%nat -> d1 <> 92 -> d2 <> 92 -> d3 <> 92 ->
    replace_from m pat rep (d1 :: d2 :: d3 :: rest) = d1 :: d2 :: d3 :: replace_from (m - 3) pat rep rest) as Hskip.
  { intros d1 d2 d3 rest m Hm H1 H2 H3.
    destruct (escape_shape pat Hpat) as (x & y & z & -> & _).
    destruct m as [|[|[|m]]]; try lia. cbn [replace_from Nat.sub].
    rewrite !bool_decide_false by (cbn; congruence). by destruct m. }
  destruct Hp as [Hp|(b & -> & Hb)].
  - destruct (escape_shape p Hp) as (x & y & z & -> & Hx & Hy & Hz).
    cbn [length] in Hn. destruct n as [|n]; [lia|]. cbn [app replace_from].
    destruct (escape_shape pat Hpat) as (x' & y' & z' & -> & _).
    change (take (length [92; x'; y'; z']) (92 :: x :: y :: z :: concat ps)) with [92; x; y; z].
    destruct (decide ([92; x; y; z] = [92; x'; y'; z'])) as [E|E].
    + rewrite !bool_decide_true by done. f_equal. apply IH. lia.
    + rewrite !bool_decide_false by done. cbn [app]. rewrite Hskip by (done || lia).
      do 4 f_equal. apply IH. lia.
  - destruct (escape_shape pat Hpat) as (x' & y' & z' & -> & _).
    cbn [length] in Hn. destruct n as [|n]; [lia|]. cbn [app replace_from length take].
    rewrite !bool_decide_false by congruence. cbn [app]. f_equal. apply IH. lia.
Qed.

Lemma pieces_kept pat r ps :
  r <> 92 -> Forall piece ps -> Forall piece (map (fun p => if bool_decide (p = pat) then [r] else p) ps).
Proof.
  intros Hr. induction 1 as [|p ps Hp _ IH]; constructor; [|done].
  case_bool_decide; [|done]. right. by exists r.
Qed.

Lemma replace_unfold pat rep ps :
  pat ∈ escapes -> Forall piece ps ->
  replace pat rep (concat ps) = concat (map (fun p => if bool_decide (p = pat) then rep else p) ps).
Proof. intros. by apply replace_pieces. Qed.

Lemma mangle_byte_piece b : piece (mangle_byte b).
Proof.
  unfold mangle_byte, piece, escapes.
  repeat case_match; try (left; cbn; set_solver). right. exists b. split; [done|]. lia.
Qed.

(** What the kernel wrote of a field is read back. *)
Lemma decode_mangle bs : decode_mount_field (mangle bs) = bs.
Proof.
  unfold decode_mount_field, mangle.
  assert (Forall piece (map mangle_byte bs)) as H0.
  { apply Forall_forall. intros p (b & <- & _)%list_elem_of_In%in_map_iff. apply mangle_byte_piece. }
  rewrite replace_unfold by (done || (cbn; set_solver)).
  apply (pieces_kept (bytes_of "\040") 32) in H0; [|done].
  rewrite replace_unfold by (done || (cbn; set_solver)).
  apply (pieces_kept (bytes_of "\011") 9) in H0; [|done].
  rewrite replace_unfold by (done || (cbn; set_solver)).
  apply (pieces_kept (bytes_of "\012") 10) in H0; [|done].
  rewrite replace_unfold by (done || (cbn; set_solver)). clear H0.
  induction bs as [|b bs IH]; [done|]. cbn [map concat]. rewrite IH. clear IH.
  unfold mangle_byte.
  destruct (Z.eqb_spec b 32) as [->|]; [done|]. destruct (Z.eqb_spec b 9) as [->|]; [done|].
  destruct (Z.eqb_spec b 10) as [->|]; [done|]. destruct (Z.eqb_spec b 92) as [->|]; [done|].
  cbv beta. rewrite (bool_decide_false ([b] = bytes_of "\040")), (bool_decide_false ([b] = bytes_of "\011")),
    (bool_decide_false ([b] = bytes_of "\012")), (bool_decide_false ([b] = bytes_of "\134")) by done.
  done.
Qed.

(** ** Lines of the mount table *)

Lemma str_of_bytes s : str_of (bytes_of s) = s.
Proof.
  unfold str_of, bytes_of. rewrite map_map.
  induction s as [|c s IH]; [done|]. cbn. rewrite IH. f_equal. unfold char_of, byte_of.
  by rewrite N2Z.id, ascii_N_embedding.
Qed.

(** A word: graphic characters of ASCII. *)
Definition graphic (b : Z) : Prop := 33 <= b <= 126.

Definition word (w : list Z) : Prop := w <> [] /\ Forall graphic w.

Fixpoint spaced (ws : list (list Z)) : list Z :=
  match ws with
  | [] => []
  | [w] => w
  | w :: ws => w ++ 32 :: spaced ws
  end.

Lemma graphic_no_space b rest :
  graphic b -> List.find (fun w => bool_decide (take (length w) (b :: rest) = w)) whitespace = None.
Proof.
  unfold graphic, whitespace. intros Hb. cbn [List.find length take].
  rewrite !bool_decide_false by (intros [=]; lia). done.
Qed.

Lemma split_ws_word w n acc rest :
  Forall graphic w ->
  split_ws (length w + n) acc (w ++ rest) = split_ws n (reverse w ++ acc) rest.
Proof.
  intros Hw. revert acc. induction Hw as [|b w Hb _ IH]; intros acc; [done|].
  cbn [length Nat.add split_ws app]. rewrite graphic_no_space by done. rewrite IH.
  by rewrite reverse_cons, <-app_assoc.
Qed.

Lemma split_ws_nil n acc : split_ws n acc [] = match acc with [] => [] | _ => [reverse acc] end.
Proof. by destruct n. Qed.

Lemma split_spaced ws : Forall word ws -> split_whitespace (spaced ws) = ws.
Proof.
  unfold split_whitespace. induction 1 as [|w ws [Hne Hw] Hws IH]; [done|].
  assert (reverse w ++ [] <> []) as Hr.
  { rewrite app_nil_r. intros E. apply Hne. by rewrite <-(reverse_involutive w), E. }
  destruct ws as [|w2 ws].
  - cbn [spaced]. rewrite <-(app_nil_r w) at 2. rewrite <-(Nat.add_0_r (length w)), split_ws_word by done.
    rewrite split_ws_nil. destruct (reverse w ++ []) eqn:E; [done|]. rewrite <-E, app_nil_r.
    by rewrite reverse_involutive.
  - change (spaced (w :: w2 :: ws)) with (w ++ 32 :: spaced (w2 :: ws)).
    rewrite length_app. rewrite split_ws_word by done. cbn [length split_ws].
    change (List.find _ whitespace) with (Some [32]). cbn [length drop].
    rewrite drop_0, IH. destruct (reverse w ++ []) eqn:E; [done|]. rewrite <-E, app_nil_r.
    by rewrite reverse_involutive.
Qed.

Lemma position_app {A} `{EqDecision A} (x : A) l1 l2 :
  x ∉ l1 -> position x (l1 ++ x :: l2) = Some (length l1).
Proof.
  induction l1 as [|y l1 IH]; intros Hx; cbn; [by rewrite decide_True|].
  apply not_elem_of_cons in Hx as [Hy Hx]. rewrite decide_False by done. by rewrite IH.
Qed.

Lemma bytes_of_cons c s : bytes_of (String.String c s) = byte_of c :: bytes_of s.
Proof. done. Qed.

Lemma digits_graphic s acc n : u64_digits acc s = Ok n -> Forall graphic (bytes_of s).
Proof.
  revert acc. induction s as [|c s IH]; intros acc H; [constructor|]. rewrite bytes_of_cons.
  cbn [u64_digits] in H. destruct (byte_in 0 9 (byte_of c - 48)) eqn:Hc; [|done]. cbn [negb] in H.
  destruct (u64_max <? _); [done|]. constructor; [|by apply (IH _ H)].
  unfold byte_in in Hc. unfold graphic. lia.
Qed.

Lemma bytes_of_app s1 s2 : bytes_of (s1 ++ s2) = bytes_of s1 ++ bytes_of s2.
Proof.
  induction s1 as [|c s1 IH]; [done|].
  change (String.String c s1 ++ s2)%string with (String.String c (s1 ++ s2)).
  by rewrite !bytes_of_cons, IH.
Qed.

Lemma format_device_word dev : in_u 32 dev -> word (bytes_of (format_device dev)).
Proof.
  intros Hd. pose proof (decode_encode dev Hd) as H. unfold format_device.
  destruct (decode_device dev) as [major minor]. destruct H as (Hmaj & Hmin & _).
  destruct (pretty_digits major ltac:(unfold u64_max; lia)) as [H1 Hne].
  destruct (pretty_digits minor ltac:(unfold u64_max; lia)) as [H2 _].
  rewrite !bytes_of_app. split; [by destruct (pretty major)|].
  apply Forall_app_2; [by apply (digits_graphic _ 0 major)|].
  apply Forall_app_2; [|by apply (digits_graphic _ 0 minor)].
  apply Forall_singleton. by vm_compute.
Qed.

(** The text of a field before the kernel escapes it: graphic characters, spaces,
    tabs and line feeds. *)
Definition field_text (s : string) : Prop :=
  s <> ""%string /\ Forall (fun b => graphic b \/ b = 32 \/ b = 9 \/ b = 10) (bytes_of s).

Lemma escapes_graphic p : p ∈ escapes -> Forall graphic p.
Proof.
  unfold escapes, graphic. intros Hp. cbn in Hp.
  repeat (apply elem_of_cons in Hp as [->|Hp];
    [repeat (apply Forall_cons; split; [by vm_compute|]); apply Forall_nil_2|]).
  by apply elem_of_nil in Hp.
Qed.

Lemma mangle_word s : field_text s -> word (mangle (bytes_of s)).
Proof.
  intros [Hne Hs]. split.
  - destruct s as [|c s]; [done|]. rewrite bytes_of_cons. unfold mangle. cbn [map concat].
    unfold mangle_byte. by repeat case_match.
  - clear Hne. unfold mangle. induction Hs as [|b bs Hb _ IH]; [constructor|]. cbn [map concat].
    apply Forall_app_2; [|done].
    assert (mangle_byte b ∈ escapes \/ mangle_byte b = [b] /\ graphic b) as [Hp|[-> Hg]].
    { unfold mangle_byte, escapes. destruct (b =? 32) eqn:?, (b =? 9) eqn:?, (b =? 10) eqn:?, (b =? 92) eqn:?;
        try (left; cbn; set_solver). right. unfold graphic in *. split; [done|lia]. }
    + by apply escapes_graphic.
    + by apply Forall_singleton.
Qed.

(** A mount, as the kernel writes a line of it. *)
Record Mount := mkMount {
  m_id : string; m_parent : string; m_dev : Z; m_root : string; m_point : string; m_options : string;
  m_optional : list string; m_type : string; m_source : string; m_super : string
}.

Definition before_separator (m : Mount) : list (list Z) :=
  [bytes_of (m_id m); bytes_of (m_parent m); bytes_of (format_device (m_dev m));
   mangle (bytes_of (m_root m)); mangle (bytes_of (m_point m)); bytes_of (m_options m)]
  ++ map bytes_of (m_optional m).

Definition write_mount (m : Mount) : list Z :=
  spaced (before_separator m ++ bytes_of "-" ::
    [bytes_of (m_type m); mangle (bytes_of (m_source m)); bytes_of (m_super m)]).

(** The number sign is left out of sources: there the kernel writes it as \043, which
    is not read back. *)
Record mount_ok (m : Mount) : Prop := {
  mo_words : Forall (fun s => word (bytes_of s))
    ([m_id m; m_parent m; m_options m; m_type m; m_super m] ++ m_optional m);
  mo_texts : Forall field_text [m_root m; m_point m; m_source m];
  mo_dev : in_u 32 (m_dev m);
  mo_source : 35 ∉ bytes_of (m_source m);
  mo_separator : bytes_of "-" ∉ before_separator m
}.

Lemma mount_words m : mount_ok m ->
  Forall word (before_separator m ++ bytes_of "-" ::
    [bytes_of (m_type m); mangle (bytes_of (m_source m)); bytes_of (m_super m)]).
Proof.
  intros [Hw Ht Hd _ _]. cbn in Hw.
  rewrite !Forall_cons in Hw. rewrite !Forall_cons in Ht. destruct Hw as (H1 & H2 & H3 & H4 & H5 & H6), Ht as (T1 & T2 & T3 & _).
  apply Forall_app_2.
  - unfold before_separator. cbn. repeat constructor; try by apply mangle_word.
    all: try (by apply H1 || by apply H2 || by apply H3).
    1-2: by apply format_device_word.
    clear -H6. induction H6; constructor; auto.
  - repeat constructor; try by apply mangle_word. all: try (by apply H4 || by apply H5). all: cbn; try done; lia.
Qed.

(** C40. A line of /proc/self/mountinfo that the kernel writes for a mount is read back
    as the device, the type, the source and the mount point of that mount, whatever
    its optional fields are and whichever spaces, tabs, line feeds and backslashes
    there are in its paths (ASCII, and no number sign in the source). *)
Theorem mount_line_read m : mount_ok m ->
  mount_line (write_mount m) = Some (m_dev m, mkMountInfo (m_type m) (m_source m) (m_point m)).
Proof.
  intros Hm. pose proof (mount_words m Hm) as Hw. destruct Hm as [_ _ Hd _ Hs].
  unfold mount_line, write_mount. rewrite split_spaced by done. rewrite position_app by done. cbn [mbind option_bind].
  rewrite length_app. cbn [length].
  destruct (Nat.leb_spec (length (before_separator m) + 4) (length (before_separator m) + 2)); [lia|].
  assert (6 <= length (before_separator m))%nat by (unfold before_separator; rewrite length_app; cbn [length]; lia).
  destruct (Nat.ltb_spec (length (before_separator m) + 4) 5); [lia|]. cbn [orb].
  set (tail := bytes_of "-" :: _).
  rewrite (lookup_app_r (before_separator m) tail (length (before_separator m) + 1)) by lia.
  rewrite (lookup_app_r (before_separator m) tail (length (before_separator m) + 2)) by lia.
  replace (length (before_separator m) + 1 - length (before_separator m))%nat with 1%nat by lia.
  replace (length (before_separator m) + 2 - length (before_separator m))%nat with 2%nat by lia.
  change ((before_separator m ++ tail) !! 2%nat) with (Some (bytes_of (format_device (m_dev m)))).
  change ((before_separator m ++ tail) !! 4%nat) with (Some (mangle (bytes_of (m_point m)))).
  cbn [mbind option_bind]. rewrite str_of_bytes, device_numbers_roundtrip by done.
  change (tail !! 1%nat) with (Some (bytes_of (m_type m))).
  change (tail !! 2%nat) with (Some (mangle (bytes_of (m_source m)))).
  cbn [mbind option_bind]. by rewrite !decode_mangle, !str_of_bytes.
Qed.

(** The conditions on a mount are decidable. *)
Lemma words_decided l :
  forallb (fun s => forallb (fun b => (33 <=? b) && (b <=? 126)) (bytes_of s)) l = true ->
  EmptyString ∉ l -> Forall (fun s => word (bytes_of s)) l.
Proof.
  rewrite forallb_forall, Forall_forall. intros H Hne s Hs. split.
  - destruct s; [by intros _; apply Hne|done].
  - specialize (H s ltac:(by apply list_elem_of_In)). rewrite forallb_forall in H.
    apply Forall_forall. intros b Hb. specialize (H b ltac:(by apply list_elem_of_In)). unfold graphic. lia.
Qed.

Lemma texts_decided l :
  forallb (fun s => forallb (fun b => (33 <=? b) && (b <=? 126) || (b =? 32) || (b =? 9) || (b =? 10))
                      (bytes_of s)) l = true ->
  EmptyString ∉ l -> Forall field_text l.
Proof.
  rewrite forallb_forall, Forall_forall. intros H Hne s Hs. split.
  - by intros ->.
  - specialize (H s ltac:(by apply list_elem_of_In)). rewrite forallb_forall in H.
    apply Forall_forall. intros b Hb. specialize (H b ltac:(by apply list_elem_of_In)). unfold graphic. lia.
Qed.

(** A mount point with a space and a backslash. *)
Definition demo_mount : Mount :=
  mkMount "36" "35" 8388609 "/" "/media/my disk\a" "rw,noatime" ["shared:1"; "master:2"] "ext4" "/dev/sda1" "rw".

Lemma mount_line_read_witness :
  str_of (write_mount demo_mount) =
    "36 35 8:1 / /media/my\040disk\134a rw,noatime shared:1 master:2 - ext4 /dev/sda1 rw"%string /\
  mount_line (write_mount demo_mount) = Some (8388609, mkMountInfo "ext4" "/dev/sda1" "/media/my disk\a").
Proof.
  split; [by vm_compute|]. apply (mount_line_read demo_mount). split.
  - apply words_decided; [by vm_compute|]. by apply (bool_decide_unpack _).
  - apply texts_decided; [by vm_compute|]. by apply (bool_decide_unpack _).
  - by vm_compute.
  - vm_compute. intros H. repeat (apply elem_of_cons in H as [H|H]; [done|]). by apply elem_of_nil in H.
  - vm_compute. intros H. repeat (apply elem_of_cons in H as [H|H]; [done|]). by apply elem_of_nil in H.
Defined.

(** The kernel writes other bytes as they are, and Unicode has more white space: the
    fields after a no-break space (194 160) in a mount point are taken for others,
    and the mount point ends at it. *)
Definition nbsp_mount : Mount :=
  mkMount "36" "35" 8388609 "/" (str_of [47; 97; 194; 160; 98]) "rw" [] "ext4" "/dev/sda1" "rw".

Lemma no_break_space_splits :
  mount_line (write_mount nbsp_mount) = Some (8388609, mkMountInfo "ext4" "/dev/sda1" "/a").
Proof. by vm_compute. Qed.
