(* ===== verification/BlockReports.v ===== *)
(** * What the block tracker reports

    Percentiles of latencies against the latencies the kernel counted; what the
    callback gets of a sample; reported differences add up. *)

From S2P Require Import Prelude Protocol Text Float BpfConfig BpfEvents BlockDevices BlockTrack BlockSamples BlockProps.
From stdpp Require Import pretty.
Open Scope Z_scope.

(** ** Percentiles *)

(** How many latencies are below [us] microseconds. *)
Definition faster (us : Z) (ls : list Z) : Z := count_if (fun ns => ns / 1000 <? us) ls.

Lemma count_if_ext {A} (f g : A -> bool) l :
  Forall (fun a => f a = g a) l -> count_if f l = count_if g l.
Proof.
  unfold count_if. induction 1 as [|a l E _ IH]; [done|]. cbn [List.filter]. rewrite E.
  destruct (g a); cbn [length]; lia.
Qed.

(** The counts of an interval: those at its end less those at its beginning. *)
Lemma count_if_app {A} (f : A -> bool) l1 l2 : count_if f (l1 ++ l2) = count_if f l1 + count_if f l2.
Proof. unfold count_if. rewrite List.filter_app, length_app. lia. Qed.

Lemma histogram_lookup ls i :
  Z.of_nat (length ls) < 2 ^ 64 -> (i < 32)%nat ->
  Kernel.histogram_of ls !! i =
  Some (count_if (fun ns => Kernel.latency_bucket ns <? Z.of_nat (S i)) ls
        - count_if (fun ns => Kernel.latency_bucket ns <? Z.of_nat i) ls).
Proof.
  intros Hlen Hi. destruct (histogram_counts ls Hlen) as (Hl & _ & Hc).
  destruct (lookup_lt_is_Some_2 (Kernel.histogram_of ls) i) as [x Hx]; [by rewrite Hl|].
  rewrite <-!Hc by lia. rewrite (sum_first_S _ _ _ Hx), Hx. f_equal. lia.
Qed.

Lemma count_if_mono {A} (f g : A -> bool) l :
  (forall a, f a = true -> g a = true) -> count_if f l <= count_if g l.
Proof.
  intros H. unfold count_if. induction l as [|a l IH]; [done|]. cbn [List.filter].
  specialize (H a). destruct (f a), (g a); cbn [length]; lia || by specialize (H eq_refl).
Qed.

Lemma histogram_interval before ls :
  Z.of_nat (length (before ++ ls)) < 2 ^ 64 ->
  zip_with sat_sub (Kernel.histogram_of (before ++ ls)) (Kernel.histogram_of before) = Kernel.histogram_of ls.
Proof.
  intros Hlen. rewrite length_app in Hlen.
  assert (forall l, Z.of_nat (length l) < 2 ^ 64 -> length (Kernel.histogram_of l) = 32%nat) as Hl.
  { intros l H. by destruct (histogram_counts l H). }
  apply list_eq. intros i. destruct (decide (i < 32)%nat) as [Hi|Hi].
  - rewrite lookup_zip_with, !histogram_lookup by (done || (rewrite ?length_app; lia)). cbn [mbind option_bind].
    rewrite !count_if_app. f_equal. unfold sat_sub.
    assert (count_if (fun ns => Kernel.latency_bucket ns <? Z.of_nat i) ls <=
            count_if (fun ns => Kernel.latency_bucket ns <? Z.of_nat (S i)) ls); [|lia].
    apply count_if_mono. intros ns. rewrite !Z.ltb_lt. lia.
  - pose proof (Hl ls ltac:(lia)). pose proof (Hl before ltac:(lia)).
    rewrite !lookup_ge_None_2; [done|lia|]. rewrite length_zip_with. lia.
Qed.

(** The first [k] buckets hold the latencies below [2 ^ k] microseconds. *)
Lemma sum_first_faster ls k :
  Z.of_nat (length ls) < 2 ^ 64 -> Forall (fun ns => 0 <= ns / 1000 < 2 ^ 32) ls -> (1 <= k <= 32)%nat ->
  sum_first k (Kernel.histogram_of ls) = faster (2 ^ Z.of_nat k) ls.
Proof.
  intros Hlen Hls Hk. destruct (histogram_counts ls Hlen) as (_ & _ & Hc). rewrite Hc by lia.
  apply count_if_ext. eapply Forall_impl; [exact Hls|]. intros ns Hns. cbn in Hns |- *.
  pose proof (latency_bucket_bound ns) as Hb. destruct (decide (k = 32%nat)) as [->|Hne].
  - destruct (Z.ltb_spec (ns / 1000) (2 ^ Z.of_nat 32)), (Z.ltb_spec (Kernel.latency_bucket ns) (Z.of_nat 32));
      lia.
  - pose proof (latency_bucket_spec ns (Z.of_nat k - 1) ltac:(lia)) as Hs.
    replace (Z.of_nat k - 1 + 1) with (Z.of_nat k) in Hs by lia.
    destruct (Z.ltb_spec (ns / 1000) (2 ^ Z.of_nat k)), (Z.ltb_spec (Kernel.latency_bucket ns) (Z.of_nat k));
      lia.
Qed.

(** Which power of two is reported: the smallest one below which there are enough
    latencies. *)
Definition reported_percentile (ls : list Z) (target : Z) (reported : f64) : Prop :=
  if Z.of_nat (length ls) <? target then reported = of_int (2 ^ 32)
  else
    exists k, 0 <= k <= 31 /\ reported = of_int (if k =? 0 then 1 else 2 ^ (k + 1)) /\
      target <= faster (2 ^ (k + 1)) ls /\ (k <> 0 -> faster (2 ^ k) ls < target).

(** C20. The percentile the block tracker reports of an interval is the smallest power
    of two, from 2 us on, below which there are as many of the latencies of the
    interval as the quantile asks for (1 us stands for all latencies below 2 us),
    computed from the difference of two histograms as the kernel program keeps them:
    enough latencies are below it, and too few are below half of it.  The latencies
    of the interval are less than 2^32 us, where the last bucket of the histogram
    ends, and fewer than 2^64 are counted. *)
Theorem percentile_bounds (before ls : list Z) (quantile : f64) :
  ls <> [] -> Z.of_nat (length (before ++ ls)) < 2 ^ 64 -> Forall (fun ns => 0 <= ns / 1000 < 2 ^ 32) ls ->
  reported_percentile ls (percentile_target (Z.of_nat (length ls)) quantile)
    (histogram_percentile
       (zip_with sat_sub (Kernel.histogram_of (before ++ ls)) (Kernel.histogram_of before)) quantile).
Proof.
  intros Hne Hlen Hls. rewrite histogram_interval by done. rewrite length_app in Hlen.
  assert (Z.of_nat (length ls) < 2 ^ 64) as Hlen' by lia. clear Hlen. rename Hlen' into Hlen.
  destruct (histogram_counts ls Hlen) as (Hl & Hb & Hc).
  pose proof (sum_first_faster ls) as Hf. set (h := Kernel.histogram_of ls) in *.
  assert (Forall (fun c => 0 <= c) h) as Hpos by (eapply Forall_impl; [exact Hb|cbn; lia]).
  assert (foldr Z.add 0 h = Z.of_nat (length ls)) as Hsum.
  { specialize (Hf 32%nat Hlen Hls ltac:(lia)). unfold sum_first in Hf. rewrite take_ge in Hf by (rewrite Hl; done).
    rewrite Hf. unfold faster. rewrite (count_if_ext _ (fun _ => true)).
    - unfold count_if. f_equal. f_equal. clear. induction ls; cbn; by f_equal.
    - eapply Forall_impl; [exact Hls|]. intros ns Hns. cbn in Hns. apply Z.ltb_lt. lia. }
  assert (0 < Z.of_nat (length ls)) by (destruct ls; [done|cbn; lia]).
  unfold histogram_percentile. rewrite histogram_total_sum, Hsum by lia || done.
  destruct (Z.eqb_spec (Z.of_nat (length ls)) 0) as [E|_]; [lia|].
  set (target := percentile_target _ _). unfold reported_percentile.
  destruct (Z.ltb_spec (Z.of_nat (length ls)) target) as [Hgt|Hle].
  - by rewrite (find_bucket_none h target) by lia || done.
  - destruct (find_bucket_spec h target) as (k & -> & Hk & H1 & H2); [done|lia..|].
    rewrite Hl in Hk. change HISTOGRAM_BUCKETS with 32%nat in Hk. exists (Z.of_nat k).
    rewrite (Hf (S k)) in H1 by done || lia. rewrite Nat2Z.inj_succ, <-Z.add_1_r in H1.
    split_and!; [lia|lia| |done|].
    + destruct k as [|k]; [done|]. rewrite Z.shiftl_1_l. f_equal.
      destruct (Z.eqb_spec (Z.of_nat (S k)) 0); [lia|]. f_equal. lia.
    + intros Hk0. rewrite <-Hf by done || lia. apply H2. lia.
Qed.

Lemma percentile_bounds_witness :
  let before := [1500000; 40000] in
  let ls := [700; 3000; 5200; 6100; 9000000] in
  percentile_target 5 (ratio 50 100) = 3 /\
  reported_percentile ls (percentile_target (Z.of_nat (length ls)) (ratio 50 100))
    (histogram_percentile
       (zip_with sat_sub (Kernel.histogram_of (before ++ ls)) (Kernel.histogram_of before)) (ratio 50 100)).
Proof.
  split; [by vm_compute|]. apply percentile_bounds; [done|done|].
  repeat (apply Forall_cons; split; [by vm_compute|]). apply Forall_nil_2.
Defined.

(** ** Samples *)

Section Accepted.

Variable fs : FileSystem.
Variable user : list Message -> Message -> Z.
Variable rng : nat -> Z.
Variable config : BlockIoConfig.
Variable iter : gset Z -> list Z.

(** The callback accepts everything, and a set is iterated over element by element. *)
Hypothesis accepts : forall ms m, user ms m = 0.
Hypothesis iterates : forall s, iter s ≡ₚ elements s.

(** The reading of a sample. *)
Definition reading_of (now : Z) (sample : CounterSample) : string * Z * Z * option string :=
  (cs_name sample, to_bits (cs_value sample), now, Some (cs_unit sample)).

(** Nothing of the state but the outbox, the registry and the series has changed. *)
Definition same_statistics (s s' : BlockIo) : Prop :=
  previous_stats s' = previous_stats s /\ previous_depth s' = previous_depth s /\
  last_sample_ns s' = last_sample_ns s.

Lemma ensure_track_accepted dev r p :
  let '((id, result), r', p') := ensure_track fs user rng dev r p in
  result = 0 /\ readings (sent p') = readings (sent p).
Proof.
  unfold ensure_track. destruct (track_ids r !! dev); [done|]. cbn [draw].
  destruct (info fs dev r) as [i r1]. cbn. rewrite accepts. cbn. split; [done|].
  by rewrite readings_snoc, app_nil_r.
Qed.

Lemma emit_counter_accepted dev now sample s :
  (emit_counter fs user rng dev now sample s).1 = 0 /\
  same_statistics s (emit_counter fs user rng dev now sample s).2 /\
  readings (sent (port (emit_counter fs user rng dev now sample s).2)) =
    readings (sent (port s)) ++ [reading_of now sample].
Proof.
  unfold emit_counter. pose proof (ensure_track_accepted dev (registry s) (port s)) as H.
  destruct (ensure_track _ _ _ _ _ _) as [[[track result] r] p]. destruct H as [-> Hr]. cbn.
  destruct (series_ids s !! _); cbn; rewrite ?accepts; cbn; rewrite ?accepts; cbn;
    (split_and!; [done..|]); by rewrite !readings_snoc, Hr, ?app_nil_r.
Qed.

Lemma emit_counters_accepted dev now l s :
  let s' := (until_refused (emit_counter fs user rng dev now) l s).2 in
  same_statistics s s' /\
  readings (sent (port s')) = readings (sent (port s)) ++ map (reading_of now) l.
Proof.
  rewrite until_refused_accepted by (intros; apply emit_counter_accepted). cbn [snd].
  revert s. induction l as [|a l IH]; intros s; [by rewrite app_nil_r|]. cbn [foldl map].
  destruct (emit_counter_accepted dev now a s) as (_ & (E1 & E2 & E3) & Hr).
  destruct (IH (emit_counter fs user rng dev now a s).2) as ((F1 & F2 & F3) & ->).
  split; [split_and!; congruence|]. by rewrite Hr, <-app_assoc.
Qed.

(** What is reported of the statistics of a device, and of its depth. *)
Definition operation_report (elapsed_seconds : f64) (delta : DeviceStats) (operation : BlockOperation) :
    list CounterSample :=
  operation_samples config operation
    (default OperationStats_default (ds_operations delta !! Z.to_nat (Operation.index operation)))
    elapsed_seconds.

Definition stats_report (elapsed_seconds : f64) (current : DeviceStats) (previous : option DeviceStats) :
    list CounterSample :=
  let delta := DeviceStats_delta current previous in
  concat (map (operation_report elapsed_seconds delta) (operations config))
  ++ (if has_metric config Errors then
        [count_sample Requeues "requeues" (requeues delta);
         count_sample LostRequests "lost_requests" (lost_requests delta)] else [])
  ++ (if timeline config then [count_sample TimelineDrops "timeline_drops" (timeline_drops delta)] else []).

Definition depth_report (now elapsed_ns : Z) (current : DeviceDepth) (previous : option DepthSnapshot) :
    list CounterSample :=
  depth_samples (DepthSnapshot_delta (snapshot current now) previous) elapsed_ns.

Definition device_report (now elapsed_ns : Z) (stats : gmap Z DeviceStats) (depths : gmap Z DeviceDepth)
    (s : BlockIo) (dev : Z) : list CounterSample :=
  match stats !! dev with
  | Some current => stats_report (ratio elapsed_ns 1000000000) current (previous_stats s !! dev)
  | None => []
  end ++
  match depths !! dev with
  | Some current => depth_report now elapsed_ns current (previous_depth s !! dev)
  | None => []
  end.

Lemma operations_accepted now dev elapsed delta ops s :
  let s' := foldl (fun s operation =>
    (until_refused (emit_counter fs user rng dev now)
       (operation_samples config operation
          (default OperationStats_default (ds_operations delta !! Z.to_nat (Operation.index operation)))
          elapsed) s).2) s ops in
  same_statistics s s' /\
  readings (sent (port s')) = readings (sent (port s)) ++
    map (reading_of now) (concat (map (operation_report elapsed delta) ops)).
Proof.
  revert s. induction ops as [|op ops IH]; intros s; [by rewrite app_nil_r|]. cbn [foldl map concat].
  destruct (emit_counters_accepted dev now (operation_report elapsed delta op) s) as ((E1 & E2 & E3) & Hr).
  destruct (IH (until_refused (emit_counter fs user rng dev now) (operation_report elapsed delta op) s).2)
    as ((F1 & F2 & F3) & Hr2).
  fold (operation_report elapsed delta op). split; [split_and!; congruence|].
  rewrite Hr2, Hr, map_app. by rewrite app_assoc.
Qed.

Lemma sample_stats_accepted now elapsed dev current s :
  let '(go_on, s') := sample_stats fs user rng config now elapsed dev current s in
  go_on = true /\ previous_stats s' = <[dev := current]> (previous_stats s) /\
  previous_depth s' = previous_depth s /\ last_sample_ns s' = last_sample_ns s /\
  readings (sent (port s')) = readings (sent (port s)) ++
    map (reading_of now) (stats_report elapsed current (previous_stats s !! dev)).
Proof.
  unfold sample_stats, stats_report. set (delta := DeviceStats_delta _ _).
  set (s0 := mkBlockIo _ _ _ _ _ _).
  destruct (operations_accepted now dev elapsed delta (operations config) s0) as ((E1 & E2 & E3) & Hr1).
  set (s1 := foldl _ s0 _) in *. set (errs := if has_metric config Errors then _ else []).
  assert (exists s2, (if has_metric config Errors
    then (until_refused (emit_counter fs user rng dev now)
         [count_sample Requeues "requeues" (requeues delta);
          count_sample LostRequests "lost_requests" (lost_requests delta)] s1).2 else s1) = s2 /\
    same_statistics s1 s2 /\
    readings (sent (port s2)) = readings (sent (port s1)) ++ map (reading_of now) errs)
    as (s2 & -> & (F1 & F2 & F3) & Hr2).
  { unfold errs. destruct (has_metric config Errors); eexists; (split; [done|]).
    - apply emit_counters_accepted.
    - by rewrite app_nil_r. }
  rewrite !map_app. destruct (timeline config).
  - destruct (emit_counter_accepted dev now
      (count_sample TimelineDrops "timeline_drops" (timeline_drops delta)) s2) as (Hz & (G1 & G2 & G3) & Hr3).
    destruct (emit_counter _ _ _ _ _ _ s2) as [z s3]. cbn in Hz, G1, G2, G3, Hr3. subst z.
    split_and!; [done|by rewrite G1, F1, E1|by rewrite G2, F2, E2|by rewrite G3, F3, E3|].
    rewrite Hr3, Hr2, Hr1. by rewrite <-!app_assoc.
  - split_and!; [done|by rewrite F1, E1|by rewrite F2, E2|by rewrite F3, E3|].
    rewrite Hr2, Hr1, app_nil_r. by rewrite <-!app_assoc.
Qed.

(** What a sample does to the statistics of a device that are kept for the next
    one. *)
Definition keep_stats (stats : gmap Z DeviceStats) (dev : Z) (kept : gmap Z DeviceStats) : gmap Z DeviceStats :=
  match stats !! dev with Some current => <[dev := current]> kept | None => kept end.

Definition keep_depth (now : Z) (depths : gmap Z DeviceDepth) (dev : Z) (kept : gmap Z DepthSnapshot) :
    gmap Z DepthSnapshot :=
  match depths !! dev with Some current => <[dev := snapshot current now]> kept | None => kept end.

Lemma sample_device_accepted now elapsed_ns stats depths dev s :
  let s' := sample_device fs user rng config now elapsed_ns stats depths dev s in
  previous_stats s' = keep_stats stats dev (previous_stats s) /\
  previous_depth s' = keep_depth now depths dev (previous_depth s) /\
  last_sample_ns s' = last_sample_ns s /\
  readings (sent (port s')) = readings (sent (port s)) ++
    map (reading_of now) (device_report now elapsed_ns stats depths s dev).
Proof.
  unfold sample_device, device_report, keep_stats, keep_depth. rewrite map_app.
  set (p := match stats !! dev with Some _ => _ | None => (true, s) end).
  set (rep := match stats !! dev with Some _ => _ | None => [] end).
  assert (p.1 = true /\ previous_stats p.2 = keep_stats stats dev (previous_stats s) /\
    previous_depth p.2 = previous_depth s /\ last_sample_ns p.2 = last_sample_ns s /\
    readings (sent (port p.2)) = readings (sent (port s)) ++ map (reading_of now) rep)
    as (Hg & Hs & Hd & Hl & Hr).
  { unfold p, rep, keep_stats. destruct (stats !! dev) as [current|].
    - pose proof (sample_stats_accepted now (ratio elapsed_ns 1000000000) dev current s) as H.
      destruct (sample_stats _ _ _ _ _ _ _ _ s) as [go_on s']. exact H.
    - by rewrite app_nil_r. }
  destruct p as [go_on s1]. cbn in Hg, Hs, Hd, Hl, Hr. subst go_on.
  destruct (depths !! dev) as [current|]; [|by rewrite app_nil_r].
  unfold sample_depth. set (s2 := mkBlockIo _ _ _ _ _ _).
  destruct (emit_counters_accepted dev now
    (depth_samples (DepthSnapshot_delta (snapshot current now) (previous_depth s1 !! dev)) elapsed_ns) s2)
    as ((E1 & E2 & E3) & Hr2).
  split_and!; [by rewrite E1|by rewrite E2; cbn; rewrite Hd|by rewrite E3|].
  rewrite Hr2. cbn. rewrite Hr, Hd. by rewrite app_assoc.
Qed.

(** One device's report does not depend on what is kept of another. *)
Lemma devices_accepted now elapsed_ns stats depths l s s0 :
  NoDup l ->
  (forall dev, dev ∈ l -> previous_stats s !! dev = previous_stats s0 !! dev /\
                          previous_depth s !! dev = previous_depth s0 !! dev) ->
  let s' := foldl (fun s dev => sample_device fs user rng config now elapsed_ns stats depths dev s) s l in
  previous_stats s' = foldr (keep_stats stats) (previous_stats s) (reverse l) /\
  previous_depth s' = foldr (keep_depth now depths) (previous_depth s) (reverse l) /\
  readings (sent (port s')) = readings (sent (port s)) ++
    map (reading_of now) (concat (map (device_report now elapsed_ns stats depths s0) l)).
Proof.
  intros Hl. revert s. induction Hl as [|dev l Hdev Hl IH]; intros s Hs; [by rewrite app_nil_r|].
  cbn [foldl map concat].
  destruct (sample_device_accepted now elapsed_ns stats depths dev s) as (Es & Ed & _ & Hr).
  set (s1 := sample_device _ _ _ _ _ _ _ _ _ s) in *.
  destruct (IH s1) as (Fs & Fd & Fr).
  { intros d Hd. rewrite Es, Ed. unfold keep_stats, keep_depth.
    assert (dev <> d) by (by intros ->). destruct (Hs d) as [<- <-]; [by right|].
    split; case_match; by rewrite ?lookup_insert_ne. }
  rewrite Fs, Fd, Fr, Es, Ed, Hr, reverse_cons, !foldr_app. split_and!; [done..|].
  rewrite map_app, <-app_assoc. do 2 f_equal. unfold device_report.
  by destruct (Hs dev) as [-> ->]; [left|].
Qed.

Lemma kept_lookup {A B} (f : A -> B) (current : gmap Z A) l (kept : gmap Z B) dev :
  foldr (fun d m => match current !! d with Some c => <[d := f c]> m | None => m end) kept l !! dev =
  if decide (dev ∈ l) then match current !! dev with Some c => Some (f c) | None => kept !! dev end
  else kept !! dev.
Proof.
  induction l as [|d l IH]; [done|]. cbn [foldr].
  set (m := foldr _ kept l) in *. destruct (decide (d = dev)) as [->|Hne].
  - rewrite (decide_True (P := dev ∈ dev :: l)) by (by left).
    destruct (current !! dev) eqn:E; [by rewrite lookup_insert_eq|]. rewrite IH.
    by destruct (decide (dev ∈ l)).
  - assert (match current !! d with Some c => <[d := f c]> m | None => m end !! dev = m !! dev) as ->
      by (destruct (current !! d); by rewrite ?lookup_insert_ne).
    rewrite IH. apply decide_ext. rewrite elem_of_cons. split; [by right|by intros [-> |]].
Qed.

Lemma keep_lookup_stats stats l kept dev :
  foldr (keep_stats stats) kept l !! dev =
  if decide (dev ∈ l) then match stats !! dev with Some c => Some c | None => kept !! dev end
  else kept !! dev.
Proof. apply (kept_lookup id). Qed.

Lemma keep_lookup_depth now depths l kept dev :
  foldr (keep_depth now depths) kept l !! dev =
  if decide (dev ∈ l) then match depths !! dev with Some c => Some (snapshot c now) | None => kept !! dev end
  else kept !! dev.
Proof. apply (kept_lookup (fun d => snapshot d now)). Qed.

(** C22. A sample of the block tracker, when the callback accepts everything: device
    by device it reports the rates, averages, percentiles and errors of each
    configured operation, the requeued and lost requests, the drops of the timeline
    and the depth of the queue, computed from the difference to the statistics of the
    sample before; these are then replaced by the present ones, for the devices the
    kernel has statistics of, and the others are kept. *)
Theorem block_sample_reports now stats depths stats_map depths_map s :
  read_stats stats = Ok stats_map ->
  (if has_metric config Saturation then read_depth depths else Ok ∅) = Ok depths_map ->
  let elapsed_ns := Z.max (sat_sub now (last_sample_ns s)) 1 in
  let devices := sampled_devices stats_map depths_map in
  let '(r, s') := sample fs user rng config iter now stats depths s in
  r = Ok tt /\ last_sample_ns s' = now /\
  readings (sent (port s')) = readings (sent (port s)) ++
    map (reading_of now) (concat (map (device_report now elapsed_ns stats_map depths_map s) (iter devices))) /\
  previous_stats s' = stats_map ∪ previous_stats s /\
  (forall dev, previous_depth s' !! dev =
     match depths_map !! dev with
     | Some depth => if decide (dev ∈ devices) then Some (snapshot depth now) else previous_depth s !! dev
     | None => previous_depth s !! dev
     end).
Proof.
  intros Hs Hd elapsed devices. unfold sample. rewrite Hs, Hd. fold elapsed devices.
  assert (NoDup (iter devices)) as Hnd by (rewrite iterates; apply NoDup_elements).
  assert (forall d, d ∈ reverse (iter devices) <-> d ∈ devices) as Hin.
  { intros d. by rewrite elem_of_reverse, iterates, elem_of_elements. }
  destruct (devices_accepted now elapsed stats_map depths_map (iter devices) s s Hnd ltac:(done))
    as (Es & Ed & Er).
  split_and!; [done|done|exact Er| |]; cbn.
  - rewrite Es. apply map_eq. intros d. rewrite keep_lookup_stats, lookup_union.
    destruct (stats_map !! d) as [c|] eqn:Ec.
    + rewrite decide_True; [by destruct (previous_stats s !! d)|].
      apply Hin. unfold devices, sampled_devices. apply elem_of_union. left. apply elem_of_dom. by exists c.
    + rewrite left_id by apply _. by destruct (decide _).
  - intros d. rewrite Ed, keep_lookup_depth.
    destruct (decide (d ∈ devices)) as [H|H].
    + rewrite decide_True by by apply Hin. done.
    + rewrite decide_False by (by rewrite Hin). by destruct (depths_map !! d).
Qed.

End Accepted.

(** A device that has served reads and writes, sampled for the first time. *)
Definition demo_files : FileSystem :=
  mkFileSystem (fun _ => Err "") (fun _ => false) (fun _ => Err "") (fun _ => Err "") (fun _ => Err "")
    (fun dev => dev) (fun dev => dev).

Definition demo_stats : batch :=
  Ok [(le_bytes 4 8388608, le_bytes 8 4096 ++ le_bytes 8 2 ++ replicate 2824 0)].

Definition demo_stats_map : gmap Z DeviceStats :=
  match read_stats demo_stats with Ok m => m | Err _ => ∅ end.

Definition demo_config : BlockIoConfig :=
  mkBlockIoConfig 9 [Read] [Throughput; Iops; Errors] [] 64 32768 false 1 0 4096.

Definition demo_block : BlockIo := BlockIo_init (mkDeviceRegistry ∅ ∅ ∅) 0.

Lemma block_sample_reports_witness :
  let '(r, s') :=
    sample demo_files (fun _ _ => 0) Z.of_nat demo_config elements 1000000000 demo_stats (Ok []) demo_block in
  r = Ok tt /\ last_sample_ns s' = 1000000000 /\
  map (fun '(name, _, _, _) => name) (readings (sent (port s'))) =
    ["read_throughput"; "read_iops"; "read_errors"; "requeues"; "lost_requests"]%string /\
  previous_stats s' = demo_stats_map ∪ ∅.
Proof.
  assert (read_stats demo_stats = Ok demo_stats_map) as Hs by by vm_compute.
  pose proof (block_sample_reports demo_files (fun _ _ => 0) Z.of_nat demo_config elements
    (fun _ _ => eq_refl) (fun _ => Permutation_refl _) 1000000000 demo_stats (Ok []) demo_stats_map ∅
    demo_block Hs eq_refl) as H.
  destruct (sample _ _ _ _ _ _ _ _ _) as [r s']. cbn zeta in H. destruct H as (H1 & H2 & H3 & H4 & _).
  split; [exact H1|]. split; [exact H2|]. split; [|exact H4]. rewrite H3. by vm_compute.
Defined.

(** ** Differences *)

(** The counts of an operation, and those of a device. *)
Definition operation_counts : list (OperationStats -> Z) :=
  [os_bytes; os_operations; os_errors; queue_latency_ns; service_latency_ns; total_latency_ns]
  ++ map (fun b o => nth b (service_histogram o) 0) (seq 0 HISTOGRAM_BUCKETS)
  ++ map (fun b o => nth b (total_histogram o) 0) (seq 0 HISTOGRAM_BUCKETS).

Definition operation_of (i : nat) (r : DeviceStats) : OperationStats :=
  nth i (ds_operations r) OperationStats_default.

Definition device_counts : list (DeviceStats -> Z) :=
  [requeues; lost_requests; timeline_drops]
  ++ concat (map (fun i => map (fun f r => f (operation_of i r)) operation_counts) (seq 0 OPERATION_COUNT)).

Lemma nth_zip_with {A B C} (f : A -> B -> C) l1 l2 i a b c :
  (i < length l1)%nat -> length l1 = length l2 -> nth i (zip_with f l1 l2) c = f (nth i l1 a) (nth i l2 b).
Proof.
  revert i l2. induction l1 as [|x l1 IH]; intros i l2 Hi Hl; cbn in Hi; [lia|].
  destruct l2 as [|y l2]; [done|]. destruct i as [|i]; [done|]. cbn. apply IH; [lia|]. by injection Hl.
Qed.

Definition histograms_ok (o : OperationStats) : Prop :=
  length (service_histogram o) = HISTOGRAM_BUCKETS /\ length (total_histogram o) = HISTOGRAM_BUCKETS.

Lemma operation_counts_delta f o p :
  f ∈ operation_counts -> histograms_ok o -> histograms_ok p ->
  f (OperationStats_delta o p) = sat_sub (f o) (f p).
Proof.
  unfold operation_counts. intros Hf [Ho1 Ho2] [Hp1 Hp2].
  apply elem_of_app in Hf as [Hf|Hf]; [|apply elem_of_app in Hf as [Hf|Hf]].
  - repeat (apply elem_of_cons in Hf as [->|Hf]; [done|]). by apply elem_of_nil in Hf.
  - apply list_elem_of_In, in_map_iff in Hf as (b & <- & Hb%in_seq). apply nth_zip_with; [lia|congruence].
  - apply list_elem_of_In, in_map_iff in Hf as (b & <- & Hb%in_seq). apply nth_zip_with; [lia|congruence].
Qed.

Lemma device_counts_of f : f ∈ device_counts -> count_of f.
Proof.
  unfold device_counts. intros Hf r p Hr Hp. cbn [delta_of incarnation DeviceStats_cumulative] in *.
  unfold DeviceStats_delta. destruct p as [p|]; [|done]. specialize (Hp p eq_refl).
  destruct (ds_first_seen_ns p =? ds_first_seen_ns r); [|done].
  apply elem_of_app in Hf as [Hf|Hf].
  { repeat (apply elem_of_cons in Hf as [->|Hf]; [done|]). by apply elem_of_nil in Hf. }
  apply list_elem_of_In, in_concat in Hf as (fs & (i & <- & Hi%in_seq)%in_map_iff & (g & <- & Hg)%in_map_iff).
  destruct Hr as [Hlr Hr], Hp as [Hlp Hp]. rewrite Forall_forall in Hr, Hp.
  unfold operation_of. cbn [ds_operations].
  rewrite (nth_zip_with _ _ _ _ OperationStats_default OperationStats_default) by (rewrite ?Hlr, ?Hlp; lia || done).
  apply operation_counts_delta; [by apply list_elem_of_In| |].
  - apply Hr, list_elem_of_In, nth_In. rewrite Hlr. lia.
  - apply Hp, list_elem_of_In, nth_In. rewrite Hlp. lia.
Qed.
