(* ===== verification/BlockKernel.v ===== *)
(** * The kernel programs of the block tracker

    The tracepoints of src/bpf/src/bpf/blocktrack.bpf.c on the requests, the
    statistics and the depths of the devices, and the ring of request spans, with
    the structures of [BlockTrack] and [BlockSamples] that the collector reads. *)

From S2P Require Import Prelude Protocol Text Float BpfConfig BpfEvents KernelRecords BlockDevices BlockTrack.
From S2P Require Import BlockSamples.
Open Scope Z_scope.

Definition REQ_OP_MASK : Z := 255.

(** ** State *)

(** What a [struct request] holds, as far as it is read: its address, its command,
    its length and its sector, the device of the disk of its queue, if there is one,
    and that of its partition. *)
Record Request := mkRequest {
  rq_id : Z;
  cmd_flags : Z;
  data_len : Z;
  rq_sector : Z;
  part0_dev : option Z;
  part_dev : option Z
}.

Record RequestState := mkRequestState {
  first_seen : Z;
  insert_ns : Z;
  issue_ns : Z;
  service : Z;
  r_sector : Z;
  r_bytes : Z;
  remaining_bytes : Z;
  r_dev : Z;
  r_partition : Z;
  r_tgid : Z;
  r_pid : Z;
  r_requeues : Z;
  r_operation : Z;
  inserted : bool;
  issued : bool;
  r_comm : list Z
}.

Record Kernel := mkKernel {
  device_stats : gmap Z DeviceStats;
  device_depths : gmap Z DeviceDepth;
  requests : gmap Z RequestState;
  tracked_devices : gset Z;
  events : list (list Z)
}.

(** What the helpers answer in one call of a handler: whether the ring has room and
    what its memory held behind the fields of a record, whether the maps take a new device or request while they are not full, a random
    number, and the current thread. *)
Record Helpers := mkHelpers {
  room : bool;
  hole : Z;
  device_stored : bool;
  request_stored : bool;
  prandom : Z;
  current_tgid : Z;
  current_pid : Z;
  current_comm : list Z
}.

Definition set_stats (m : gmap Z DeviceStats) (k : Kernel) : Kernel :=
  mkKernel m (device_depths k) (requests k) (tracked_devices k) (events k).

Definition set_depths (m : gmap Z DeviceDepth) (k : Kernel) : Kernel :=
  mkKernel (device_stats k) m (requests k) (tracked_devices k) (events k).

Definition set_requests (m : gmap Z RequestState) (k : Kernel) : Kernel :=
  mkKernel (device_stats k) (device_depths k) m (tracked_devices k) (events k).

(** [bpf_map_update_elem] with [BPF_NOEXIST]. *)
Definition update_noexist {V} (takes : bool) (entries key : Z) (v : V) (m : gmap Z V) : option (gmap Z V) :=
  match m !! key with
  | Some _ => None
  | None => if takes && (Z.of_nat (size m) <? entries) then Some (<[key := v]> m) else None
  end.

(** ** Requests *)

Definition request_operation (rq : Request) : Z :=
  let command := Z.land (cmd_flags rq) REQ_OP_MASK in
  if command =? 0 then 0
  else if (command =? 1) || (command =? 9) || (command =? 13) then 1
  else if command =? 2 then 2
  else if (command =? 3) || (command =? 5) then 3
  else 4.

Definition request_device (rq : Request) : Z := default 0 (part0_dev rq).

Definition request_partition (rq : Request) : Z := default (request_device rq) (part_dev rq).

Definition set_bytes (bytes remaining : Z) (r : RequestState) : RequestState :=
  mkRequestState (first_seen r) (insert_ns r) (issue_ns r) (service r) (r_sector r) bytes remaining (r_dev r)
    (r_partition r) (r_tgid r) (r_pid r) (r_requeues r) (r_operation r) (inserted r) (issued r) (r_comm r).

Definition set_inserted (now : Z) (b : bool) (r : RequestState) : RequestState :=
  mkRequestState (first_seen r) now (issue_ns r) (service r) (r_sector r) (r_bytes r) (remaining_bytes r)
    (r_dev r) (r_partition r) (r_tgid r) (r_pid r) (r_requeues r) (r_operation r) b (issued r) (r_comm r).

Definition set_issued (now : Z) (b : bool) (r : RequestState) : RequestState :=
  mkRequestState (first_seen r) (insert_ns r) now (service r) (r_sector r) (r_bytes r) (remaining_bytes r)
    (r_dev r) (r_partition r) (r_tgid r) (r_pid r) (r_requeues r) (r_operation r) (inserted r) b (r_comm r).

Definition add_service (ns : Z) (r : RequestState) : RequestState :=
  mkRequestState (first_seen r) (insert_ns r) (issue_ns r) (service r +64 ns) (r_sector r) (r_bytes r)
    (remaining_bytes r) (r_dev r) (r_partition r) (r_tgid r) (r_pid r) (r_requeues r) (r_operation r)
    (inserted r) (issued r) (r_comm r).

Definition add_requeue (r : RequestState) : RequestState :=
  mkRequestState (first_seen r) (insert_ns r) (issue_ns r) (service r) (r_sector r) (r_bytes r)
    (remaining_bytes r) (r_dev r) (r_partition r) (r_tgid r) (r_pid r) (wrap 32 (r_requeues r + 1))
    (r_operation r) (inserted r) (issued r) (r_comm r).

Section Programs.

Context (cfg : KernelConfig).

Definition should_track (k : Kernel) (dev operation : Z) : bool :=
  if (dev =? 0) || (5 <=? operation) then false
  else if negb (Z.testbit (kc_operation_mask cfg) operation) then false
  else if negb (filter_enabled cfg) then true
  else bool_decide (dev ∈ tracked_devices k).

(** ** Statistics of the devices *)

Definition device_stats_zero : DeviceStats :=
  mkDeviceStats (replicate OPERATION_COUNT OperationStats_default) 0 0 0 0 0.

Definition set_seen (first last : Z) (s : DeviceStats) : DeviceStats :=
  mkDeviceStats (ds_operations s) (requeues s) (lost_requests s) (timeline_drops s) first last.

(** Enters a device at its first use; afterwards it is in the map unless that takes
    no more. *)
Definition get_device_stats (h : Helpers) (dev now : Z) (k : Kernel) : Kernel :=
  match device_stats k !! dev with
  | Some s =>
      if ds_first_seen_ns s =? 0 then set_stats (<[dev := set_seen now (ds_last_seen_ns s) s]> (device_stats k)) k
      else k
  | None =>
      match update_noexist (device_stored h) (device_stats_entries cfg) dev (set_seen now now device_stats_zero)
              (device_stats k) with
      | Some m => set_stats m k
      | None => k
      end
  end.

(** A change of the statistics of a device, where it has any. *)
Definition with_device_stats (h : Helpers) (dev now : Z) (f : DeviceStats -> DeviceStats) (k : Kernel) : Kernel :=
  let k := get_device_stats h dev now k in set_stats (alter f dev (device_stats k)) k.

Definition with_operation (operation : Z) (f : OperationStats -> OperationStats) (s : DeviceStats) : DeviceStats :=
  mkDeviceStats (alter f (Z.to_nat operation) (ds_operations s)) (requeues s) (lost_requests s) (timeline_drops s)
    (ds_first_seen_ns s) (ds_last_seen_ns s).

Definition add_bytes (bytes error : Z) (o : OperationStats) : OperationStats :=
  mkOperationStats
    (if bytes_enabled cfg && negb (bytes =? 0) then os_bytes o +64 bytes else os_bytes o)
    (os_operations o)
    (if errors_enabled cfg && negb (error =? 0) then os_errors o +64 1 else os_errors o)
    (queue_latency_ns o) (service_latency_ns o) (total_latency_ns o) (service_histogram o) (total_histogram o).

Definition record_bytes (h : Helpers) (dev operation bytes error now : Z) (k : Kernel) : Kernel :=
  if 5 <=? operation then k
  else if negb (bytes_enabled cfg) && (negb (errors_enabled cfg) || (error =? 0)) then k
  else
    with_device_stats h dev now (fun s =>
      with_operation operation (add_bytes bytes error) (set_seen (ds_first_seen_ns s) now s)) k.

Definition count_operation (o : OperationStats) : OperationStats :=
  mkOperationStats (os_bytes o) (os_operations o +64 1) (os_errors o) (queue_latency_ns o) (service_latency_ns o)
    (total_latency_ns o) (service_histogram o) (total_histogram o).

Definition add_latency (queue_ns service_ns total_ns : Z) (o : OperationStats) : OperationStats :=
  mkOperationStats (os_bytes o) (os_operations o) (os_errors o) (queue_latency_ns o +64 queue_ns)
    (service_latency_ns o +64 service_ns) (total_latency_ns o +64 total_ns)
    (Kernel.count_latency (service_histogram o) service_ns) (Kernel.count_latency (total_histogram o) total_ns).

Definition count_completion (queue_ns service_ns total_ns : Z) (o : OperationStats) : OperationStats :=
  let o := if operations_enabled cfg then count_operation o else o in
  if latency_enabled cfg then add_latency queue_ns service_ns total_ns o else o.

Definition record_completion (h : Helpers) (dev operation queue_ns service_ns total_ns now : Z) (k : Kernel) :
    Kernel :=
  if 5 <=? operation then k
  else if negb (operations_enabled cfg) && negb (latency_enabled cfg) then k
  else
    with_device_stats h dev now (fun s =>
      with_operation operation (count_completion queue_ns service_ns total_ns)
        (set_seen (ds_first_seen_ns s) now s)) k.

Definition record_lost_request (h : Helpers) (dev now : Z) (k : Kernel) : Kernel :=
  if errors_enabled cfg then
    with_device_stats h dev now (fun s =>
      mkDeviceStats (ds_operations s) (requeues s) (lost_requests s +64 1) (timeline_drops s) (ds_first_seen_ns s)
        (ds_last_seen_ns s)) k
  else k.

(** ** Depths of the devices *)

(** The time since the last update is accounted with the depths it was spent at. *)
Definition accrue (now : Z) (d : DeviceDepth) : DeviceDepth :=
  if negb (last_update_ns d =? 0) && (last_update_ns d <? now) then
    let elapsed := now -64 last_update_ns d in
    mkDeviceDepth (dd_lock d) (dd_first_seen_ns d) (last_update_ns d)
      (if negb (dd_inflight d =? 0) then dd_busy_ns d +64 elapsed else dd_busy_ns d)
      (if negb (dd_queued d =? 0) then dd_saturated_ns d +64 elapsed else dd_saturated_ns d)
      (dd_inflight_ns d +64 (elapsed *64 dd_inflight d)) (dd_queued_ns d +64 (elapsed *64 dd_queued d))
      (dd_inflight d) (dd_queued d) (dd_max_inflight d) (dd_max_queued d)
  else d.

Definition moved (delta depth : Z) : Z :=
  if 0 <? delta then wrap 32 (depth + 1)
  else if (delta <? 0) && negb (depth =? 0) then depth - 1
  else depth.

Definition adjust (queued_delta inflight_delta now : Z) (d : DeviceDepth) : DeviceDepth :=
  let d := accrue now d in
  let queued := moved queued_delta (dd_queued d) in
  let inflight := moved inflight_delta (dd_inflight d) in
  mkDeviceDepth (dd_lock d) (dd_first_seen_ns d) now (dd_busy_ns d) (dd_saturated_ns d) (dd_inflight_ns d)
    (dd_queued_ns d) inflight queued
    (if dd_max_inflight d <? inflight then inflight else dd_max_inflight d)
    (if dd_max_queued d <? queued then queued else dd_max_queued d).

Definition adjust_depth (dev queued_delta inflight_delta now : Z) (k : Kernel) : Kernel :=
  if saturation_enabled cfg then
    set_depths (alter (adjust queued_delta inflight_delta now) dev (device_depths k)) k
  else k.

(** ** The handlers *)

Definition create_request (h : Helpers) (rq : Request) (dev partition_dev operation now : Z) (inserted : bool)
    (k : Kernel) : bool * Kernel :=
  let initial :=
    mkRequestState now (if inserted then now else 0) 0 0 (rq_sector rq) (data_len rq) (data_len rq) dev
      partition_dev (current_tgid h) (current_pid h) 0 operation inserted false (current_comm h) in
  match update_noexist (request_stored h) (requests_entries cfg) (rq_id rq) initial (requests k) with
  | None => (false, record_lost_request h dev now k)
  | Some m =>
      let k := set_requests m k in
      (true, if inserted then adjust_depth dev 1 0 now k else k)
  end.

Definition span_record (e : RequestSpanEvent) (hole : Z) : layout :=
  [(8%nat, request_id e); (8%nat, start_ns e); (8%nat, end_ns e); (8%nat, queue_ns e); (8%nat, service_ns e);
   (8%nat, total_ns e); (8%nat, sector e); (4%nat, rs_dev e); (4%nat, partition_dev e); (4%nat, rs_bytes e);
   (4%nat, tgid e); (4%nat, pid e); (4%nat, rs_requeues e); (4%nat, wrap 32 (error e)); (1%nat, operation e);
   (1%nat, completed e); (6%nat, 0)] ++ map (fun c => (1%nat, c)) (comm e) ++ [(4%nat, hole)].

Definition emit_request_span (h : Helpers) (request_id : Z) (r : RequestState)
    (start_ns end_ns queue_ns service_ns total_ns error : Z) (completed : bool) (k : Kernel) : Kernel :=
  if negb (timeline_enabled cfg) || (end_ns <=? start_ns) || (total_ns <? kc_timeline_min_latency_ns cfg) then k
  else if (1 <? kc_timeline_sample_every cfg) && negb (prandom h mod kc_timeline_sample_every cfg =? 0) then k
  else if room h then
    mkKernel (device_stats k) (device_depths k) (requests k) (tracked_devices k)
      (ringbuf_submit true
        (encode (span_record (mkRequestSpanEvent request_id start_ns end_ns queue_ns service_ns total_ns
          (r_sector r) (r_dev r) (r_partition r) (r_bytes r) (r_tgid r) (r_pid r) (r_requeues r) error
          (r_operation r) (if completed then 1 else 0) (r_comm r)) (hole h))) (events k))
  else
    with_device_stats h (r_dev r) end_ns (fun s =>
      mkDeviceStats (ds_operations s) (requeues s) (lost_requests s) (timeline_drops s +64 1) (ds_first_seen_ns s)
        (ds_last_seen_ns s)) k.

Definition put (id : Z) (r : RequestState) (k : Kernel) : Kernel := set_requests (<[id := r]> (requests k)) k.

Definition trace_block_rq_insert (h : Helpers) (rq : Request) (now : Z) (k : Kernel) : Kernel :=
  if negb (request_tracking_enabled cfg) then k
  else
    let dev := request_device rq in
    let operation := request_operation rq in
    if negb (should_track k dev operation) then k
    else
      match requests k !! rq_id rq with
      | None => (create_request h rq dev (request_partition rq) operation now true k).2
      | Some r =>
          let r := set_bytes (data_len rq)
            (if remaining_bytes r <? data_len rq then data_len rq else remaining_bytes r) r in
          if negb (inserted r) && negb (issued r) then
            adjust_depth dev 1 0 now (put (rq_id rq) (set_inserted now true r) k)
          else put (rq_id rq) r k
      end.

Definition trace_block_rq_merge (rq : Request) (k : Kernel) : Kernel :=
  if negb (request_tracking_enabled cfg) then k
  else
    match requests k !! rq_id rq with
    | Some r => put (rq_id rq) (set_bytes (data_len rq) (data_len rq) r) k
    | None => k
    end.

(** The second half of [trace_block_rq_issue], for a request that is in the map. *)
Definition issue_request (rq : Request) (now : Z) (r : RequestState) (k : Kernel) : Kernel :=
  let dev := request_device rq in
  let '(r, k) :=
    if inserted r then (set_inserted (insert_ns r) false r, adjust_depth dev (-1) 0 now k) else (r, k) in
  let k := if issued r then k else adjust_depth dev 0 1 now k in
  let r := set_issued now true r in
  put (rq_id rq)
    (set_bytes (data_len rq) (if remaining_bytes r =? 0 then data_len rq else remaining_bytes r) r) k.

Definition trace_block_rq_issue (h : Helpers) (rq : Request) (now : Z) (k : Kernel) : Kernel :=
  if negb (request_tracking_enabled cfg) then k
  else
    let dev := request_device rq in
    let operation := request_operation rq in
    if negb (should_track k dev operation) then k
    else
      match requests k !! rq_id rq with
      | Some r => issue_request rq now r k
      | None =>
          let '(created, k) := create_request h rq dev (request_partition rq) operation now false k in
          if negb created then k
          else
            match requests k !! rq_id rq with
            | Some r => issue_request rq now r k
            | None => k
            end
      end.

(** The end of an attempt, if the clock went on since the request was issued. *)
Definition end_attempt (now : Z) (r : RequestState) (k : Kernel) : Z * RequestState * Kernel :=
  if issued r && (issue_ns r <? now) then
    let attempt_ns := now -64 issue_ns r in
    (attempt_ns, set_issued (issue_ns r) false (add_service attempt_ns r), adjust_depth (r_dev r) 0 (-1) now k)
  else (0, r, k).

Definition trace_block_rq_requeue (h : Helpers) (rq : Request) (now : Z) (k : Kernel) : Kernel :=
  if negb (errors_enabled cfg) && negb (request_tracking_enabled cfg) then k
  else
    let dev := request_device rq in
    let operation := request_operation rq in
    if negb (should_track k dev operation) then k
    else
      let k :=
        if errors_enabled cfg then
          with_device_stats h dev now (fun s =>
            mkDeviceStats (ds_operations s) (requeues s +64 1) (lost_requests s) (timeline_drops s)
              (ds_first_seen_ns s) (ds_last_seen_ns s)) k
        else k in
      if negb (request_tracking_enabled cfg) then k
      else
        match requests k !! rq_id rq with
        | None => k
        | Some r =>
            let '(attempt_ns, r, k) := end_attempt now r k in
            let r := add_requeue r in
            let k := emit_request_span h (rq_id rq) r (issue_ns r) now 0 attempt_ns (now -64 first_seen r) 0 false k in
            put (rq_id rq) (set_issued 0 (issued r) r) k
        end.

Definition trace_block_rq_complete (h : Helpers) (rq : Request) (error nr_bytes now : Z) (k : Kernel) : Kernel :=
  let dev := request_device rq in
  let operation := request_operation rq in
  if negb (should_track k dev operation) then k
  else
    let k := record_bytes h dev operation nr_bytes error now k in
    if negb (request_tracking_enabled cfg) then k
    else
      match requests k !! rq_id rq with
      | None => record_completion h dev operation 0 0 0 now k
      | Some r =>
          if negb (negb (error =? 0) || (remaining_bytes r <=? nr_bytes)) then
            put (rq_id rq) (set_bytes (r_bytes r) (remaining_bytes r - nr_bytes) r) k
          else
            let '(_, r, k) := end_attempt now r k in
            let '(r, k) :=
              if inserted r then (set_inserted (insert_ns r) false r, adjust_depth (r_dev r) (-1) 0 now k)
              else (r, k) in
            let total := if first_seen r <? now then now - first_seen r else 0 in
            let queue := if service r <? total then total - service r else 0 in
            let k := record_completion h (r_dev r) (r_operation r) queue (service r) total now k in
            let k := emit_request_span h (rq_id rq) r (if issue_ns r =? 0 then first_seen r else issue_ns r) now
              queue (service r) total error true k in
            set_requests (delete (rq_id rq) (requests k)) k
      end.

(** What happens in the block layer. *)
Inductive Tracepoint :=
| Insert (h : Helpers) (rq : Request) (now : Z)
| Merge (rq : Request)
| Issue (h : Helpers) (rq : Request) (now : Z)
| Requeue (h : Helpers) (rq : Request) (now : Z)
| Complete (h : Helpers) (rq : Request) (error nr_bytes now : Z).

Definition handle (t : Tracepoint) (k : Kernel) : Kernel :=
  match t with
  | Insert h rq now => trace_block_rq_insert h rq now k
  | Merge rq => trace_block_rq_merge rq k
  | Issue h rq now => trace_block_rq_issue h rq now k
  | Requeue h rq now => trace_block_rq_requeue h rq now k
  | Complete h rq error nr_bytes now => trace_block_rq_complete h rq error nr_bytes now k
  end.

Definition handle_all (ts : list Tracepoint) (k : Kernel) : Kernel := foldl (fun k t => handle t k) k ts.

(** The maps when [BlockIo::new] has filled them: a depth for each device it watches,
    from the time it read, and the filter. *)
Definition kernel_init (depths filters : gset Z) (initialized_at : Z) : Kernel :=
  mkKernel ∅
    (gset_to_gmap (mkDeviceDepth 0 initialized_at initialized_at 0 0 0 0 0 0 0 0) depths)
    ∅ filters [].

End Programs.

(** ** What the parts of a handler leave alone *)

Create Rewrite HintDb block.

Lemma get_device_stats_frame cfg h dev now k :
  let k' := get_device_stats cfg h dev now k in
  requests k' = requests k /\ device_depths k' = device_depths k /\ tracked_devices k' = tracked_devices k /\
  events k' = events k.
Proof. unfold get_device_stats. repeat case_match; done. Qed.

Lemma requests_with cfg h dev now f k : requests (with_device_stats cfg h dev now f k) = requests k.
Proof. apply get_device_stats_frame. Qed.

Lemma depths_with cfg h dev now f k : device_depths (with_device_stats cfg h dev now f k) = device_depths k.
Proof. apply get_device_stats_frame. Qed.

Lemma tracked_with cfg h dev now f k : tracked_devices (with_device_stats cfg h dev now f k) = tracked_devices k.
Proof. apply get_device_stats_frame. Qed.

#[export] Hint Rewrite requests_with depths_with tracked_with : block.

Lemma record_bytes_frame cfg h dev op bytes error now k :
  let k' := record_bytes cfg h dev op bytes error now k in
  requests k' = requests k /\ device_depths k' = device_depths k /\ tracked_devices k' = tracked_devices k.
Proof. unfold record_bytes. repeat case_match; by autorewrite with block. Qed.

Lemma record_completion_frame cfg h dev op queue service total now k :
  let k' := record_completion cfg h dev op queue service total now k in
  requests k' = requests k /\ device_depths k' = device_depths k /\ tracked_devices k' = tracked_devices k.
Proof. unfold record_completion. repeat case_match; by autorewrite with block. Qed.

Lemma emit_request_span_frame cfg h id r start end_ queue service total error completed k :
  let k' := emit_request_span cfg h id r start end_ queue service total error completed k in
  requests k' = requests k /\ device_depths k' = device_depths k /\ tracked_devices k' = tracked_devices k.
Proof. unfold emit_request_span. repeat case_match; by autorewrite with block. Qed.

Lemma adjust_depth_frame cfg dev a b now k :
  let k' := adjust_depth cfg dev a b now k in
  requests k' = requests k /\ device_stats k' = device_stats k /\ tracked_devices k' = tracked_devices k.
Proof. unfold adjust_depth. by case_match. Qed.

Section Frames.

Context (cfg : KernelConfig).

Lemma requests_bytes h dev op bytes error now k : requests (record_bytes cfg h dev op bytes error now k) = requests k.
Proof. apply record_bytes_frame. Qed.

Lemma depths_bytes h dev op bytes error now k :
  device_depths (record_bytes cfg h dev op bytes error now k) = device_depths k.
Proof. apply record_bytes_frame. Qed.

Lemma tracked_bytes h dev op bytes error now k :
  tracked_devices (record_bytes cfg h dev op bytes error now k) = tracked_devices k.
Proof. apply record_bytes_frame. Qed.

Lemma requests_completion h dev op queue service total now k :
  requests (record_completion cfg h dev op queue service total now k) = requests k.
Proof. apply record_completion_frame. Qed.

Lemma depths_completion h dev op queue service total now k :
  device_depths (record_completion cfg h dev op queue service total now k) = device_depths k.
Proof. apply record_completion_frame. Qed.

Lemma tracked_completion h dev op queue service total now k :
  tracked_devices (record_completion cfg h dev op queue service total now k) = tracked_devices k.
Proof. apply record_completion_frame. Qed.

Lemma requests_emit h id r start end_ queue service total error completed k :
  requests (emit_request_span cfg h id r start end_ queue service total error completed k) = requests k.
Proof. apply emit_request_span_frame. Qed.

Lemma depths_emit h id r start end_ queue service total error completed k :
  device_depths (emit_request_span cfg h id r start end_ queue service total error completed k) = device_depths k.
Proof. apply emit_request_span_frame. Qed.

Lemma tracked_emit h id r start end_ queue service total error completed k :
  tracked_devices (emit_request_span cfg h id r start end_ queue service total error completed k) = tracked_devices k.
Proof. apply emit_request_span_frame. Qed.

Lemma requests_adjust dev a b now k : requests (adjust_depth cfg dev a b now k) = requests k.
Proof. apply adjust_depth_frame. Qed.

Lemma stats_adjust dev a b now k : device_stats (adjust_depth cfg dev a b now k) = device_stats k.
Proof. apply adjust_depth_frame. Qed.

Lemma tracked_adjust dev a b now k : tracked_devices (adjust_depth cfg dev a b now k) = tracked_devices k.
Proof. apply adjust_depth_frame. Qed.

End Frames.

#[export] Hint Rewrite requests_bytes depths_bytes tracked_bytes requests_completion depths_completion
  tracked_completion requests_emit depths_emit tracked_emit requests_adjust stats_adjust tracked_adjust : block.

(** Two adjustments at one time are one. *)
Lemma accrue_again now d : last_update_ns d = now -> accrue now d = d.
Proof. intros <-. unfold accrue. by rewrite Z.ltb_irrefl, andb_false_r. Qed.

Definition maxima_ok (d : DeviceDepth) : Prop :=
  dd_inflight d <= dd_max_inflight d /\ dd_queued d <= dd_max_queued d.

Lemma accrue_same now d :
  dd_inflight (accrue now d) = dd_inflight d /\ dd_queued (accrue now d) = dd_queued d /\
  dd_max_inflight (accrue now d) = dd_max_inflight d /\ dd_max_queued (accrue now d) = dd_max_queued d.
Proof. unfold accrue. by case_match. Qed.

Lemma adjust_maxima a b now d : maxima_ok (adjust a b now d).
Proof. unfold maxima_ok, adjust. cbn. split; case_match; to_prop; lia. Qed.

Lemma moved_0 depth : moved 0 depth = depth.
Proof. done. Qed.

Lemma adjust_twice a b now d : maxima_ok d -> adjust 0 b now (adjust a 0 now d) = adjust a b now d.
Proof.
  destruct (accrue_same now d) as (Hi & Hq & Hmi & Hmq). unfold maxima_ok. rewrite <-Hi, <-Hq, <-Hmi, <-Hmq.
  intros [H1 H2]. unfold adjust at 1. rewrite accrue_again by done. unfold adjust. rewrite !moved_0. cbn.
  repeat case_match; to_prop; try lia; done.
Qed.

(** *** Statistics *)

(** What the statistics of a device hold, before it has any too. *)
Definition ops_of (dev : Z) (k : Kernel) : list OperationStats :=
  match device_stats k !! dev with
  | Some s => ds_operations s
  | None => replicate OPERATION_COUNT OperationStats_default
  end.

(** The map of statistics has or takes an entry for the device. *)
Definition has_room (cfg : KernelConfig) (h : Helpers) (dev : Z) (k : Kernel) : Prop :=
  is_Some (device_stats k !! dev) \/
  device_stored h = true /\ Z.of_nat (size (device_stats k)) < device_stats_entries cfg.

Lemma ops_insert dev s k :
  ds_operations s = ops_of dev k -> forall dev', ops_of dev' (set_stats (<[dev := s]> (device_stats k)) k) = ops_of dev' k.
Proof.
  intros Hs dev'. unfold ops_of. cbn. destruct (decide (dev' = dev)) as [-> | ?].
  - rewrite lookup_insert_eq. exact Hs.
  - by rewrite lookup_insert_ne.
Qed.

Lemma inserted_key {A} (m : gmap Z A) i x j : is_Some (<[i := x]> m !! j) -> j = i \/ is_Some (m !! j).
Proof. intros [-> | [_ H]]%lookup_insert_is_Some; auto. Qed.

Lemma get_device_stats_lookup cfg h dev now k :
  let k' := get_device_stats cfg h dev now k in
  (forall dev', ops_of dev' k' = ops_of dev' k) /\
  (forall dev', is_Some (device_stats k' !! dev') -> dev' = dev \/ is_Some (device_stats k !! dev')) /\
  (has_room cfg h dev k -> is_Some (device_stats k' !! dev)).
Proof.
  unfold get_device_stats, has_room, update_noexist. destruct (device_stats k !! dev) as [s|] eqn:E.
  - destruct (ds_first_seen_ns s =? 0); [|by split_and!; auto; intros _; rewrite E]. split_and!.
    + apply ops_insert. unfold ops_of. by rewrite E.
    + intros dev'. apply inserted_key.
    + intros _. cbn. by rewrite lookup_insert_eq.
  - destruct (device_stored h && _) eqn:Et.
    + split_and!.
      * apply ops_insert. unfold ops_of. by rewrite E.
      * intros dev'. apply inserted_key.
      * intros _. cbn. by rewrite lookup_insert_eq.
    + split_and!; [done|by auto|]. intros [[? ?]|[H1 H2]]; [done|]. rewrite H1 in Et. apply Z.ltb_ge in Et. lia.
Qed.

(** A change of the statistics of a device that has or gets an entry. *)
Lemma ops_with cfg h dev now f g k dev' :
  has_room cfg h dev k -> (forall s, ds_operations (f s) = g (ds_operations s)) ->
  ops_of dev' (with_device_stats cfg h dev now f k) = if decide (dev' = dev) then g (ops_of dev k) else ops_of dev' k.
Proof.
  intros Hr Hf. destruct (get_device_stats_lookup cfg h dev now k) as (Ho & _ & Hs). specialize (Hs Hr).
  unfold with_device_stats. set (k1 := get_device_stats cfg h dev now k) in *. clearbody k1.
  rewrite <-!Ho. unfold ops_of. cbn. destruct (decide (dev' = dev)) as [-> | ?].
  - rewrite lookup_alter_eq. destruct Hs as [s ->]. cbn. apply Hf.
  - by rewrite lookup_alter_ne.
Qed.

(** One that leaves the operations alone. *)
Lemma ops_with_same cfg h dev now f k dev' :
  (forall s, ds_operations (f s) = ds_operations s) -> ops_of dev' (with_device_stats cfg h dev now f k) = ops_of dev' k.
Proof.
  intros Hf. destruct (get_device_stats_lookup cfg h dev now k) as (Ho & _ & _).
  unfold with_device_stats. set (k1 := get_device_stats cfg h dev now k) in *. clearbody k1.
  rewrite <-Ho. unfold ops_of. cbn. destruct (decide (dev' = dev)) as [-> | ?]; [|by rewrite lookup_alter_ne].
  rewrite lookup_alter_eq. destruct (device_stats k1 !! dev); [apply Hf|done].
Qed.

Lemma keys_with cfg h dev now f k dev' :
  is_Some (device_stats (with_device_stats cfg h dev now f k) !! dev') -> dev' = dev \/ is_Some (device_stats k !! dev').
Proof.
  destruct (get_device_stats_lookup cfg h dev now k) as (_ & Hk & _). unfold with_device_stats. cbn.
  intros H%lookup_alter_is_Some. by apply Hk.
Qed.

Lemma ops_bytes cfg h dev op bytes error now k dev' :
  has_room cfg h dev k -> 0 <= op < 5 ->
  ops_of dev' (record_bytes cfg h dev op bytes error now k) =
  if decide (dev' = dev) then alter (add_bytes cfg bytes error) (Z.to_nat op) (ops_of dev k) else ops_of dev' k.
Proof.
  intros Hr Hop. unfold record_bytes. destruct (Z.leb_spec 5 op); [lia|].
  destruct (negb (bytes_enabled cfg) && _) eqn:E; [|by apply ops_with].
  destruct (decide (dev' = dev)) as [-> | ?]; [|done]. rewrite list_alter_id; [done|]. intros [].
  apply andb_prop in E as [E1 E2]. unfold add_bytes. destruct (bytes_enabled cfg); [done|].
  destruct (errors_enabled cfg); [|done]. cbn in *. by rewrite E2.
Qed.

Lemma ops_completion cfg h dev op queue service total now k dev' :
  has_room cfg h dev k -> 0 <= op < 5 ->
  ops_of dev' (record_completion cfg h dev op queue service total now k) =
  if decide (dev' = dev) then alter (count_completion cfg queue service total) (Z.to_nat op) (ops_of dev k)
  else ops_of dev' k.
Proof.
  intros Hr Hop. unfold record_completion. destruct (Z.leb_spec 5 op); [lia|].
  destruct (negb (operations_enabled cfg) && _) eqn:E; [|by apply ops_with].
  destruct (decide (dev' = dev)) as [-> | ?]; [|done]. rewrite list_alter_id; [done|]. intros o.
  unfold count_completion. destruct (operations_enabled cfg), (latency_enabled cfg); done.
Qed.

Lemma ops_emit cfg h id r start end_ queue service total error completed k dev :
  ops_of dev (emit_request_span cfg h id r start end_ queue service total error completed k) = ops_of dev k.
Proof. unfold emit_request_span. repeat case_match; try done. by apply ops_with_same. Qed.

Lemma ops_same_stats k k' dev : device_stats k' = device_stats k -> ops_of dev k' = ops_of dev k.
Proof. unfold ops_of. by intros ->. Qed.

Lemma ops_adjust cfg dev a b now k dev' : ops_of dev' (adjust_depth cfg dev a b now k) = ops_of dev' k.
Proof. apply ops_same_stats, stats_adjust. Qed.

Lemma ops_set_requests m k dev : ops_of dev (set_requests m k) = ops_of dev k.
Proof. done. Qed.

#[export] Hint Rewrite ops_emit ops_adjust ops_set_requests : block.

(** *** Which devices have statistics *)

Definition only_new (dev : Z) (k k' : Kernel) : Prop :=
  forall j, is_Some (device_stats k' !! j) -> j = dev \/ is_Some (device_stats k !! j).

#[export] Instance only_new_trans dev : Transitive (only_new dev).
Proof. intros k1 k2 k3 H1 H2 j [-> | H]%H2; auto. Qed.

Lemma only_new_same dev k k' : device_stats k' = device_stats k -> only_new dev k k'.
Proof. intros E j. rewrite E. auto. Qed.

Lemma only_new_with cfg h dev now f k : only_new dev k (with_device_stats cfg h dev now f k).
Proof. intros j. apply keys_with. Qed.

Lemma only_new_bytes cfg h dev op bytes error now k : only_new dev k (record_bytes cfg h dev op bytes error now k).
Proof. unfold record_bytes. repeat case_match; solve [by apply only_new_same | apply only_new_with]. Qed.

Lemma only_new_completion cfg h dev op queue service total now k :
  only_new dev k (record_completion cfg h dev op queue service total now k).
Proof. unfold record_completion. repeat case_match; solve [by apply only_new_same | apply only_new_with]. Qed.

Lemma only_new_emit cfg h id r start end_ queue service total error completed dev k :
  r_dev r = dev ->
  only_new dev k (emit_request_span cfg h id r start end_ queue service total error completed k).
Proof. intros <-. unfold emit_request_span. repeat case_match; solve [by apply only_new_same | apply only_new_with]. Qed.

Lemma only_new_adjust cfg dev dev' a b now k : only_new dev k (adjust_depth cfg dev' a b now k).
Proof. apply only_new_same, stats_adjust. Qed.

#[export] Hint Resolve only_new_with only_new_bytes only_new_completion only_new_emit only_new_adjust : block.

Lemma has_room_with cfg h dev now f k : has_room cfg h dev k -> has_room cfg h dev (with_device_stats cfg h dev now f k).
Proof.
  intros Hr. left. destruct (get_device_stats_lookup cfg h dev now k) as (_ & _ & Hs).
  apply lookup_alter_is_Some. by apply Hs.
Qed.

Lemma has_room_same cfg h dev k k' : device_stats k' = device_stats k -> has_room cfg h dev k -> has_room cfg h dev k'.
Proof. unfold has_room. by intros ->. Qed.

Lemma has_room_bytes cfg h dev op bytes error now k :
  has_room cfg h dev k -> has_room cfg h dev (record_bytes cfg h dev op bytes error now k).
Proof. intros Hr. unfold record_bytes. repeat case_match; (done || by apply has_room_with). Qed.

Lemma has_room_adjust cfg h dev dev' a b now k :
  has_room cfg h dev k -> has_room cfg h dev (adjust_depth cfg dev' a b now k).
Proof. apply has_room_same, stats_adjust. Qed.

#[export] Hint Resolve has_room_with has_room_bytes has_room_adjust : block.
