(* ===== verification/BlockMemory.v ===== *)
(** * The memory of the block tracker's kernel programs

    What the programs of [BlockKernel] keep in their maps and put into the ring is
    well typed, field by field, and is read back by the collector as it is. *)

From S2P Require Import Prelude Protocol Text Float BpfConfig BpfEvents KernelRecords BlockDevices BlockTrack.
From S2P Require Import BlockSamples BlockProps BlockKernel.
From Stdlib Require Import Permutation.
Open Scope Z_scope.

(** ** Structures *)

Definition operation_record (o : OperationStats) : layout :=
  [(8%nat, os_bytes o); (8%nat, os_operations o); (8%nat, os_errors o); (8%nat, queue_latency_ns o);
   (8%nat, service_latency_ns o); (8%nat, total_latency_ns o)]
  ++ words_record (service_histogram o) ++ words_record (total_histogram o).

Definition stats_record (s : DeviceStats) : layout :=
  concat (map operation_record (ds_operations s))
  ++ [(8%nat, requeues s); (8%nat, lost_requests s); (8%nat, timeline_drops s); (8%nat, ds_first_seen_ns s);
      (8%nat, ds_last_seen_ns s)].

Definition depth_record (d : DeviceDepth) : layout :=
  [(4%nat, dd_lock d); (4%nat, 0); (8%nat, dd_first_seen_ns d); (8%nat, last_update_ns d); (8%nat, dd_busy_ns d);
   (8%nat, dd_saturated_ns d); (8%nat, dd_inflight_ns d); (8%nat, dd_queued_ns d); (4%nat, dd_inflight d);
   (4%nat, dd_queued d); (4%nat, dd_max_inflight d); (4%nat, dd_max_queued d)].

(** ** Types *)

Notation u64 := (in_u 64).
Notation u32 := (in_u 32).

Record operation_typed (o : OperationStats) : Prop := {
  ot_bytes : u64 (os_bytes o);
  ot_operations : u64 (os_operations o);
  ot_errors : u64 (os_errors o);
  ot_queue : u64 (queue_latency_ns o);
  ot_service : u64 (service_latency_ns o);
  ot_total : u64 (total_latency_ns o);
  ot_service_length : length (service_histogram o) = HISTOGRAM_BUCKETS;
  ot_total_length : length (total_histogram o) = HISTOGRAM_BUCKETS;
  ot_service_counts : Forall u64 (service_histogram o);
  ot_total_counts : Forall u64 (total_histogram o)
}.

Record stats_typed (s : DeviceStats) : Prop := {
  st_length : length (ds_operations s) = OPERATION_COUNT;
  st_operations : Forall operation_typed (ds_operations s);
  st_requeues : u64 (requeues s);
  st_lost : u64 (lost_requests s);
  st_drops : u64 (timeline_drops s);
  st_first : u64 (ds_first_seen_ns s);
  st_last : u64 (ds_last_seen_ns s)
}.

Record depth_typed (d : DeviceDepth) : Prop := {
  dt_lock : u32 (dd_lock d);
  dt_first : u64 (dd_first_seen_ns d);
  dt_update : u64 (last_update_ns d);
  dt_busy : u64 (dd_busy_ns d);
  dt_saturated : u64 (dd_saturated_ns d);
  dt_inflight_ns : u64 (dd_inflight_ns d);
  dt_queued_ns : u64 (dd_queued_ns d);
  dt_inflight : u32 (dd_inflight d);
  dt_queued : u32 (dd_queued d);
  dt_max_inflight : u32 (dd_max_inflight d);
  dt_max_queued : u32 (dd_max_queued d)
}.

Definition comm_typed (c : list Z) : Prop := length c = 16%nat /\ Forall (in_u 8) c.

Record request_typed (r : RequestState) : Prop := {
  rt_first : u64 (first_seen r);
  rt_issue : u64 (issue_ns r);
  rt_service : u64 (service r);
  rt_sector : u64 (r_sector r);
  rt_bytes : u32 (r_bytes r);
  rt_remaining : u32 (remaining_bytes r);
  rt_dev : u32 (r_dev r);
  rt_partition : u32 (r_partition r);
  rt_tgid : u32 (r_tgid r);
  rt_pid : u32 (r_pid r);
  rt_requeues : u32 (r_requeues r);
  rt_operation : in_u 8 (r_operation r);
  rt_comm : comm_typed (r_comm r)
}.

(** A record of the ring: a span of an error the block layer knows. *)
Definition span_typed (data : list Z) : Prop :=
  exists e hole, data = encode (span_record e hole) /\ fits (span_record e hole) /\ 0 <= error e < 2 ^ 31 /\
    length (comm e) = 16%nat.

Record kernel_typed (cfg : KernelConfig) (k : Kernel) : Prop := {
  kt_stats : forall dev s, device_stats k !! dev = Some s -> u32 dev /\ stats_typed s;
  kt_depths : forall dev d, device_depths k !! dev = Some d -> u32 dev /\ depth_typed d;
  kt_requests : forall id r, requests k !! id = Some r -> request_typed r;
  kt_stats_size : Z.of_nat (size (device_stats k)) <= Z.max 0 (device_stats_entries cfg);
  kt_requests_size : Z.of_nat (size (requests k)) <= Z.max 0 (requests_entries cfg);
  kt_events : Forall span_typed (events k)
}.

(** ** Reading back *)

Lemma in_u_nonneg w x : in_u w x -> 0 <= x.
Proof. unfold in_u. lia. Qed.

Lemma fits_words l : Forall u64 l -> fits (words_record l).
Proof. intros H. apply Forall_map. by eapply Forall_impl. Qed.

Lemma fits_bytes l : Forall (in_u 8) l -> fits (bytes_record l).
Proof. intros H. apply Forall_map. by eapply Forall_impl. Qed.

Lemma fits_operation o : operation_typed o -> fits (operation_record o).
Proof.
  intros []. apply fits_app. split; [by repeat (apply Forall_cons; split); try apply Forall_nil_2|].
  apply fits_app. split; by apply fits_words.
Qed.

Lemma sizeof_operation o : operation_typed o -> sizeof (operation_record o) = 560%nat.
Proof. intros []. unfold operation_record. rewrite !sizeof_app, !sizeof_words, ot_service_length0, ot_total_length0. done. Qed.

Lemma parse_operation_encode l1 o l2 at_ :
  operation_typed o -> at_ = sizeof l1 -> parse_operation_stats at_ (encode (l1 ++ operation_record o ++ l2)) = o.
Proof.
  intros Ho ->. pose proof Ho as []. unfold parse_operation_stats, operation_record.
  set (head := [(8%nat, os_bytes o); _; _; _; _; _]).
  set (rest := words_record (service_histogram o) ++ words_record (total_histogram o) ++ l2).
  replace (l1 ++ (head ++ words_record (service_histogram o) ++ words_record (total_histogram o)) ++ l2)
    with (l1 ++ head ++ rest) by (unfold rest; by rewrite <-!app_assoc).
  assert (forall k x at_, head !! k = Some (8%nat, x) -> u64 x -> at_ = (sizeof l1 + sizeof (take k head))%nat ->
    field 8 at_ (encode (l1 ++ head ++ rest)) = x) as Hf.
  { intros k x at_ Hk Hx ->. rewrite <-(take_drop_middle head k _ Hk) at 2. rewrite <-app_assoc, app_assoc.
    apply field_encode; [done|]. by rewrite sizeof_app. }
  destruct o as [b n e q sv tt hs ht]. cbn [os_bytes os_operations os_errors queue_latency_ns service_latency_ns
    total_latency_ns service_histogram total_histogram] in *. f_equal.
  - by apply (Hf 0%nat).
  - by apply (Hf 1%nat).
  - by apply (Hf 2%nat).
  - by apply (Hf 3%nat).
  - by apply (Hf 4%nat).
  - by apply (Hf 5%nat).
  - unfold rest. rewrite app_assoc. apply words_encode; [done|done|]. by rewrite sizeof_app.
  - unfold rest. rewrite !app_assoc, <-(app_assoc _ _ l2). apply words_encode; [done|done|].
    rewrite !sizeof_app, sizeof_words, ot_service_length0. change (sizeof head) with 48%nat. unfold HISTOGRAM_BUCKETS. lia.
Qed.

(** The operations of a device, one behind the other. *)
Lemma sizeof_operations ops : Forall operation_typed ops -> sizeof (concat (map operation_record ops)) = (560 * length ops)%nat.
Proof.
  induction 1 as [|o ops Ho _ IH]; [done|]. cbn [map concat length]. rewrite sizeof_app, sizeof_operation, IH by done. lia.
Qed.

Lemma fits_operations ops : Forall operation_typed ops -> fits (concat (map operation_record ops)).
Proof.
  induction 1 as [|o ops Ho _ IH]; [apply Forall_nil_2|]. cbn [map concat]. apply fits_app. split; [by apply fits_operation|done].
Qed.

Lemma parse_stats_encode s : stats_typed s -> parse_device_stats (encode (stats_record s)) = s.
Proof.
  intros Hs. pose proof Hs as []. unfold parse_device_stats, stats_record.
  pose proof (sizeof_operations _ st_operations0) as Hsize. rewrite st_length0 in Hsize.
  set (front := concat (map operation_record (ds_operations s))) in *.
  assert (forall k x at_ tail, u64 x -> (k + 2800 = at_)%nat -> forall before, sizeof before = k ->
    field 8 at_ (encode (front ++ (before ++ (8%nat, x) :: tail))) = x) as Hf.
  { intros k x at_ tail Hx <- before <-. rewrite app_assoc. apply field_encode; [done|].
    rewrite sizeof_app, Hsize. unfold OPERATION_COUNT. lia. }
  destruct s as [ops r l d f ls]. cbn [ds_operations requeues lost_requests timeline_drops ds_first_seen_ns
    ds_last_seen_ns] in *. f_equal.
  - apply list_eq. intros i. rewrite list_lookup_fmap. destruct (ops !! i) as [o|] eqn:E.
    + pose proof (lookup_lt_Some _ _ _ E). rewrite lookup_seq_lt by lia. cbn [fmap option_fmap option_map Nat.add]. f_equal.
      unfold front. rewrite <-(take_drop_middle ops i o E) at 1. rewrite map_app, concat_app. cbn [map concat].
      rewrite <-!app_assoc. apply parse_operation_encode.
      * exact (proj1 (Forall_lookup _ _) st_operations0 i o E).
      * rewrite sizeof_operations by (by apply Forall_take). rewrite length_take. lia.
    + rewrite lookup_seq_ge; [done|]. apply lookup_ge_None in E. lia.
  - by apply (Hf 0%nat _ _ _ st_requeues0 eq_refl []).
  - by apply (Hf 8%nat _ _ _ st_lost0 eq_refl [_]).
  - by apply (Hf 16%nat _ _ _ st_drops0 eq_refl [_; _]).
  - by apply (Hf 24%nat _ _ _ st_first0 eq_refl [_; _; _]).
  - by apply (Hf 32%nat _ _ _ st_last0 eq_refl [_; _; _; _]).
Qed.

Lemma parse_depth_encode d : depth_typed d -> parse_device_depth (encode (depth_record d)) = d.
Proof.
  intros []. assert (fits (depth_record d)) as Hf.
  { by repeat (apply Forall_cons; split); try apply Forall_nil_2. }
  unfold parse_device_depth. transitivity (mkDeviceDepth (dd_lock d) (dd_first_seen_ns d) (last_update_ns d)
    (dd_busy_ns d) (dd_saturated_ns d) (dd_inflight_ns d) (dd_queued_ns d) (dd_inflight d) (dd_queued d)
    (dd_max_inflight d) (dd_max_queued d)); [|by destruct d]. read_fields.
Qed.

Lemma parse_span_encode e hole :
  fits (span_record e hole) -> 0 <= error e < 2 ^ 31 -> length (comm e) = 16%nat ->
  parse_request_span (encode (span_record e hole)) = e.
Proof.
  intros Hf He Hc. unfold parse_request_span.
  assert (take 16 (drop 92 (encode (span_record e hole))) = comm e) as ->.
  { rewrite <-Hc at 1. apply (bytes_encode (take 17 (span_record e hole)) (comm e) [(4%nat, hole)]); [|done].
    apply fits_app in Hf as [_ [Hf _]%fits_app]. unfold fits in Hf. rewrite Forall_map in Hf. exact Hf. }
  transitivity (mkRequestSpanEvent (request_id e) (start_ns e) (end_ns e) (queue_ns e) (service_ns e) (total_ns e)
    (sector e) (rs_dev e) (partition_dev e) (rs_bytes e) (tgid e) (pid e) (rs_requeues e) (as_signed 32 (wrap 32 (error e)))
    (operation e) (completed e) (comm e)).
  - f_equal; try read_field 0%nat. f_equal. read_field 0%nat.
  - destruct e. cbn. f_equal. unfold as_signed, wrap. cbn in He.
    rewrite Zmod_mod, Z.mod_small by lia. destruct (Z.ltb_spec error (2 ^ (32 - 1))); lia.
Qed.

(** ** Every operation keeps the types *)

Lemma wrap_u w x : 0 <= w -> in_u w (wrap w x).
Proof. apply wrap_bound. Qed.

#[export] Hint Resolve wrap_u : block.

Ltac u_solve := unfold in_u in *; first [done | apply wrap_bound; lia | lia].

Lemma add_bytes_typed cfg bytes error o : operation_typed o -> operation_typed (add_bytes cfg bytes error o).
Proof. intros []. unfold add_bytes. constructor; cbn; try done; case_match; u_solve. Qed.

Lemma count_latency_typed h ns :
  length h = HISTOGRAM_BUCKETS -> Forall u64 h ->
  length (Kernel.count_latency h ns) = HISTOGRAM_BUCKETS /\ Forall u64 (Kernel.count_latency h ns).
Proof.
  intros Hl Hf. unfold Kernel.count_latency. split; [by rewrite length_alter|]. apply Forall_alter; [done|].
  intros x _ _. u_solve.
Qed.

Lemma count_completion_typed cfg queue service total o :
  operation_typed o -> operation_typed (count_completion cfg queue service total o).
Proof.
  intros Ho. unfold count_completion.
  assert (operation_typed (if operations_enabled cfg then count_operation o else o)) as Ho'.
  { case_match; [|done]. destruct Ho. constructor; cbn; try done; u_solve. }
  set (o' := if operations_enabled cfg then _ else o) in *. clearbody o'. cbv zeta. case_match; [|done].
  destruct Ho'. unfold add_latency.
  destruct (count_latency_typed _ service ot_service_length0 ot_service_counts0).
  destruct (count_latency_typed _ total ot_total_length0 ot_total_counts0).
  constructor; cbn; try done; u_solve.
Qed.

Lemma with_operation_typed op f s :
  (forall o, operation_typed o -> operation_typed (f o)) -> stats_typed s -> stats_typed (with_operation op f s).
Proof.
  intros Hf []. constructor; cbn; try done; [by rewrite length_alter|]. apply Forall_alter; [done|]. auto.
Qed.

Lemma set_seen_typed first last s : u64 first -> u64 last -> stats_typed s -> stats_typed (set_seen first last s).
Proof. intros H1 H2 []. by constructor. Qed.

Lemma zero_typed : stats_typed device_stats_zero.
Proof.
  assert (operation_typed OperationStats_default) as H.
  { constructor; cbn; try done; by repeat (apply Forall_cons; split); try apply Forall_nil_2. }
  constructor; cbn; try done. by repeat (apply Forall_cons; split); try apply Forall_nil_2.
Qed.

Lemma accrue_typed now d : u64 now -> depth_typed d -> depth_typed (accrue now d).
Proof. intros Hn []. unfold accrue. case_match; [|by constructor]. constructor; cbn; try done; repeat case_match; u_solve. Qed.

Lemma moved_typed delta depth : u32 depth -> u32 (moved delta depth).
Proof. intros H. unfold moved. repeat case_match; to_prop; u_solve. Qed.

Lemma adjust_typed a b now d : u64 now -> depth_typed d -> depth_typed (adjust a b now d).
Proof.
  intros Hn Hd. destruct (accrue_typed now d Hn Hd). unfold adjust.
  pose proof (moved_typed a _ dt_queued0). pose proof (moved_typed b _ dt_inflight0).
  constructor; cbn; try done; case_match; done.
Qed.

Section Typed.

Context (cfg : KernelConfig).

Notation typed := (kernel_typed cfg).

Lemma set_stats_typed m k :
  (forall dev s, m !! dev = Some s -> u32 dev /\ stats_typed s) ->
  Z.of_nat (size m) <= Z.max 0 (device_stats_entries cfg) -> typed k -> typed (set_stats m k).
Proof. intros H1 H2 []. by constructor. Qed.

Lemma update_noexist_some {V} takes entries key (v : V) m m' :
  update_noexist takes entries key v m = Some m' ->
  m' = <[key := v]> m /\ m !! key = None /\ Z.of_nat (size m') <= entries.
Proof.
  unfold update_noexist. destruct (m !! key) eqn:E; [done|]. destruct (takes && _) eqn:Et; [|done]. intros [= <-].
  to_prop. split_and!; [done|done|]. rewrite map_size_insert_None by done. lia.
Qed.

Lemma get_device_stats_typed h dev now k : u32 dev -> u64 now -> typed k -> typed (get_device_stats cfg h dev now k).
Proof.
  intros Hd Hn Hk. pose proof Hk as []. unfold get_device_stats. destruct (device_stats k !! dev) as [s|] eqn:E.
  - case_match; [|done]. destruct (kt_stats0 _ _ E) as [_ Hs]. apply set_stats_typed; [|by rewrite map_size_insert_Some|done].
    intros dev' s' [[<- <-]|[_ H']]%lookup_insert_Some; [|by apply kt_stats0]. split; [done|].
    apply set_seen_typed; [done|apply Hs|done].
  - case_match eqn:Eu; [|done]. apply update_noexist_some in Eu as (-> & _ & Hsz).
    apply set_stats_typed; [|lia|done].
    intros dev' s' [[<- <-]|[_ H']]%lookup_insert_Some; [|by apply kt_stats0]. split; [done|].
    by apply set_seen_typed; [done|done|apply zero_typed].
Qed.

Lemma size_alter {A} (f : A -> A) i (m : gmap Z A) : size (alter f i m) = size m.
Proof. by rewrite <-!size_dom, dom_alter_L. Qed.

Lemma with_device_stats_typed h dev now f k :
  u32 dev -> u64 now -> (forall s, stats_typed s -> stats_typed (f s)) -> typed k ->
  typed (with_device_stats cfg h dev now f k).
Proof.
  intros Hd Hn Hf Hk. unfold with_device_stats. pose proof (get_device_stats_typed h dev now k Hd Hn Hk) as Hk'.
  set (k1 := get_device_stats cfg h dev now k) in *. clearbody k1. pose proof Hk' as [].
  apply set_stats_typed; [|by rewrite size_alter|done].
  intros dev' s' H. apply lookup_alter_Some in H as [(-> & s & Hs & ->)|[_ H]]; [|by apply kt_stats0].
  destruct (kt_stats0 _ _ Hs). auto.
Qed.

Lemma record_bytes_typed h dev op bytes error now k :
  u32 dev -> u64 now -> typed k -> typed (record_bytes cfg h dev op bytes error now k).
Proof.
  intros Hd Hn Hk. unfold record_bytes. repeat case_match; try done. apply with_device_stats_typed; try done.
  intros s Hs. apply with_operation_typed; [intros o; apply add_bytes_typed|].
  apply set_seen_typed; [apply Hs|done|done].
Qed.

Lemma record_completion_typed h dev op queue service total now k :
  u32 dev -> u64 now -> typed k -> typed (record_completion cfg h dev op queue service total now k).
Proof.
  intros Hd Hn Hk. unfold record_completion. repeat case_match; try done. apply with_device_stats_typed; try done.
  intros s Hs. apply with_operation_typed; [intros o; apply count_completion_typed|].
  apply set_seen_typed; [apply Hs|done|done].
Qed.

Lemma record_lost_typed h dev now k : u32 dev -> u64 now -> typed k -> typed (record_lost_request cfg h dev now k).
Proof.
  intros Hd Hn Hk. unfold record_lost_request. case_match; [|done]. apply with_device_stats_typed; try done.
  intros s []. constructor; cbn; try done. u_solve.
Qed.

Lemma adjust_depth_typed dev a b now k : u64 now -> typed k -> typed (adjust_depth cfg dev a b now k).
Proof.
  intros Hn Hk. unfold adjust_depth. case_match; [|done]. pose proof Hk as []. constructor; cbn; try done.
  intros dev' d' H'. apply lookup_alter_Some in H' as [(-> & d & Hd & ->)|[_ H']]; [|by apply kt_depths0].
  destruct (kt_depths0 _ _ Hd). split; [done|]. by apply adjust_typed.
Qed.

Lemma put_typed id r k : request_typed r -> is_Some (requests k !! id) -> typed k -> typed (put id r k).
Proof.
  intros Hr [r0 H0] []. constructor; cbn; try done.
  - intros id' r' [[<- <-]|[_ H]]%lookup_insert_Some; [done|by eapply kt_requests0].
  - by rewrite map_size_insert_Some.
Qed.

Lemma delete_typed id k : typed k -> typed (set_requests (delete id (requests k)) k).
Proof.
  intros []. constructor; cbn; try done.
  - intros id' r' [_ H]%lookup_delete_Some. by eapply kt_requests0.
  - rewrite map_size_delete. destruct (requests k !! id); unfold Datatypes.id; lia.
Qed.

(** *** Requests *)

(** What the block layer and the helpers hand over. *)
Record rq_typed (rq : Request) : Prop := {
  rqt_id : u64 (rq_id rq);
  rqt_len : u32 (data_len rq);
  rqt_sector : u64 (rq_sector rq);
  rqt_part0 : forall dev, part0_dev rq = Some dev -> u32 dev;
  rqt_part : forall dev, part_dev rq = Some dev -> u32 dev
}.

Record helpers_typed (h : Helpers) : Prop := {
  ht_hole : u32 (hole h);
  ht_tgid : u32 (current_tgid h);
  ht_pid : u32 (current_pid h);
  ht_comm : comm_typed (current_comm h)
}.

Definition tracepoint_typed (t : Tracepoint) : Prop :=
  match t with
  | Insert h rq now | Issue h rq now | Requeue h rq now => helpers_typed h /\ rq_typed rq /\ u64 now
  | Merge rq => rq_typed rq
  | Complete h rq error nr_bytes now => helpers_typed h /\ rq_typed rq /\ in_u 8 error /\ u32 nr_bytes /\ u64 now
  end.

Lemma request_device_typed rq : rq_typed rq -> u32 (request_device rq).
Proof. intros []. unfold request_device. destruct (part0_dev rq); cbn; [auto|done]. Qed.

Lemma request_partition_typed rq : rq_typed rq -> u32 (request_partition rq).
Proof.
  intros H. unfold request_partition. pose proof (request_device_typed rq H). destruct H.
  destruct (part_dev rq); cbn; auto.
Qed.

Lemma request_operation_typed rq : in_u 8 (request_operation rq).
Proof. unfold request_operation, in_u. repeat case_match; lia. Qed.

Lemma create_request_typed h rq op now inserted k :
  helpers_typed h -> rq_typed rq -> u64 now -> in_u 8 op -> typed k ->
  typed (create_request cfg h rq (request_device rq) (request_partition rq) op now inserted k).2.
Proof.
  intros Hh Hrq Hn Hop Hk. pose proof (request_device_typed rq Hrq). pose proof (request_partition_typed rq Hrq).
  unfold create_request. case_match eqn:Eu; [|by apply record_lost_typed].
  apply update_noexist_some in Eu as (-> & _ & Hsz).
  assert (typed (set_requests (<[rq_id rq := mkRequestState now (if inserted then now else 0) 0 0 (rq_sector rq)
    (data_len rq) (data_len rq) (request_device rq) (request_partition rq) (current_tgid h) (current_pid h) 0 op
    inserted false (current_comm h)]> (requests k)) k)) as Hk'.
  { destruct Hk. constructor; cbn; try done; [|lia].
    intros id r [[<- <-]|[_ Hr]]%lookup_insert_Some; [|by eapply kt_requests0]. destruct Hh, Hrq. by constructor. }
  destruct inserted; [by apply adjust_depth_typed|done].
Qed.

Lemma end_attempt_typed now r k :
  u64 now -> request_typed r -> typed k ->
  let '(attempt_ns, r', k') := end_attempt cfg now r k in
  u64 attempt_ns /\ request_typed r' /\ requests k' = requests k /\ typed k'.
Proof.
  intros Hn Hr Hk. unfold end_attempt.
  destruct (issued r && (issue_ns r <? now)); [|done]. cbn [fst snd]. split_and!.
  - u_solve.
  - destruct Hr. constructor; cbn; try done. u_solve.
  - apply adjust_depth_frame.
  - by apply adjust_depth_typed.
Qed.

Lemma emit_typed h id r start end_ queue service total error completed k :
  helpers_typed h -> u64 id -> request_typed r -> u64 start -> u64 end_ -> u64 queue -> u64 service -> u64 total ->
  in_u 8 error -> typed k ->
  typed (emit_request_span cfg h id r start end_ queue service total error completed k).
Proof.
  intros Hh Hid Hr Hst He Hq Hsv Ht Herr Hk. unfold emit_request_span. case_match; [done|]. case_match; [done|].
  case_match.
  - pose proof Hk as []. constructor; cbn [device_stats device_depths requests events]; try done.
    unfold ringbuf_submit. apply Forall_app. split; [done|]. apply Forall_singleton.
    eexists _, _. split; [reflexivity|]. destruct Hr, rt_comm0 as [Hc1 Hc2]. split_and!; [|cbn; u_solve..|done].
    apply fits_app. split.
    + repeat (apply Forall_cons; split); try apply Forall_nil_2; cbn; try done; [u_solve|].
      by destruct completed.
    + apply fits_app. split; [by apply fits_bytes|]. apply Forall_singleton, Hh.
  - apply with_device_stats_typed; [apply Hr|done| |done]. intros s []. constructor; cbn; try done. u_solve.
Qed.

(** *** Handlers *)

Lemma insert_typed h rq now k :
  helpers_typed h -> rq_typed rq -> u64 now -> typed k -> typed (trace_block_rq_insert cfg h rq now k).
Proof.
  intros Hh Hrq Hn Hk. unfold trace_block_rq_insert. case_match; [done|]. cbv zeta. case_match; [done|].
  destruct (requests k !! rq_id rq) as [r|] eqn:E.
  - destruct (kt_requests _ _ Hk _ _ E). case_match.
    + apply adjust_depth_typed; [done|]. apply put_typed; [|exact (mk_is_Some _ _ E)|done]. destruct Hrq.
      constructor; cbn; try done. by case_match.
    + apply put_typed; [|exact (mk_is_Some _ _ E)|done]. destruct Hrq. constructor; cbn; try done. by case_match.
  - apply create_request_typed; try done. apply request_operation_typed.
Qed.

Lemma merge_typed rq k : rq_typed rq -> typed k -> typed (trace_block_rq_merge cfg rq k).
Proof.
  intros Hrq Hk. unfold trace_block_rq_merge. case_match; [done|]. case_match eqn:E; [|done].
  destruct (kt_requests _ _ Hk _ _ E). apply put_typed; [|exact (mk_is_Some _ _ E)|done]. destruct Hrq. by constructor.
Qed.

Lemma issue_request_typed rq now r k :
  rq_typed rq -> u64 now -> requests k !! rq_id rq = Some r -> typed k -> typed (issue_request cfg rq now r k).
Proof.
  intros Hrq Hn E Hk. destruct (kt_requests _ _ Hk _ _ E). unfold issue_request.
  destruct Hrq. destruct (inserted r); cbn; destruct (issued r); (apply put_typed;
    [constructor; cbn; try done; by case_match
    |autorewrite with block; exact (mk_is_Some _ _ E)|by repeat apply adjust_depth_typed]).
Qed.

Lemma issue_typed h rq now k :
  helpers_typed h -> rq_typed rq -> u64 now -> typed k -> typed (trace_block_rq_issue cfg h rq now k).
Proof.
  intros Hh Hrq Hn Hk. unfold trace_block_rq_issue. case_match; [done|]. cbv zeta. case_match; [done|].
  destruct (requests k !! rq_id rq) as [r|] eqn:E; [by apply issue_request_typed|].
  pose proof (create_request_typed h rq (request_operation rq) now false k Hh Hrq Hn (request_operation_typed rq) Hk) as Hc.
  destruct (create_request _ _ _ _ _ _ _ _ _) as [created k']. cbn in Hc. case_match; [done|].
  destruct (requests k' !! rq_id rq) as [r|] eqn:E'; [|done]. by apply issue_request_typed.
Qed.

Lemma requeue_typed h rq now k :
  helpers_typed h -> rq_typed rq -> u64 now -> typed k -> typed (trace_block_rq_requeue cfg h rq now k).
Proof.
  intros Hh Hrq Hn Hk. unfold trace_block_rq_requeue. case_match; [done|]. cbv zeta. case_match; [done|].
  set (k1 := if errors_enabled cfg then _ else k).
  assert (typed k1) as Hk1.
  { subst k1. destruct (errors_enabled cfg); [|done]. apply with_device_stats_typed; [by apply request_device_typed|done| |done].
    intros s []. constructor; cbn; try done. u_solve. }
  clearbody k1. case_match; [done|]. destruct (requests k1 !! rq_id rq) as [r|] eqn:E; [|done].
  pose proof (end_attempt_typed now r k1 Hn (kt_requests _ _ Hk1 _ _ E) Hk1) as He.
  destruct (end_attempt cfg now r k1) as [[attempt r'] k2]. destruct He as (Ha & Hr & Ek & Hk2).
  assert (request_typed (add_requeue r')) as Hr' by (destruct Hr; constructor; cbn; try done; u_solve).
  apply put_typed.
  - destruct Hr'. by constructor.
  - autorewrite with block. rewrite Ek. exact (mk_is_Some _ _ E).
  - apply emit_typed; try done; [apply Hrq|apply Hr'|u_solve].
Qed.

Lemma complete_typed h rq error nr_bytes now k :
  helpers_typed h -> rq_typed rq -> in_u 8 error -> u32 nr_bytes -> u64 now -> typed k ->
  typed (trace_block_rq_complete cfg h rq error nr_bytes now k).
Proof.
  intros Hh Hrq Herr Hnr Hn Hk. unfold trace_block_rq_complete. cbv zeta. case_match; [done|].
  pose proof (record_bytes_typed h (request_device rq) (request_operation rq) nr_bytes error now k
    (request_device_typed rq Hrq) Hn Hk) as Hk1.
  set (k1 := record_bytes _ _ _ _ _ _ _ k) in *. clearbody k1. case_match; [done|].
  destruct (requests k1 !! rq_id rq) as [r|] eqn:E.
  2: { apply record_completion_typed; [by apply request_device_typed|done|done]. }
  pose proof (kt_requests _ _ Hk1 _ _ E) as Hr. case_match eqn:Ec.
  { apply put_typed; [|exact (mk_is_Some _ _ E)|done]. to_prop. destruct Hr. constructor; cbn; try done. u_solve. }
  pose proof (end_attempt_typed now r k1 Hn Hr Hk1) as He.
  destruct (end_attempt cfg now r k1) as [[attempt r1] k2]. destruct He as (_ & Hr1 & _ & Hk2).
  assert (exists r2 k3, (if inserted r1 then (set_inserted (insert_ns r1) false r1, adjust_depth cfg (r_dev r1) (-1) 0 now k2)
    else (r1, k2)) = (r2, k3) /\ request_typed r2 /\ typed k3) as (r2 & k3 & -> & Hr2 & Hk3).
  { destruct (inserted r1); eexists _, _; (split; [done|]); split; try done.
    - destruct Hr1. by constructor.
    - by apply adjust_depth_typed. }
  apply delete_typed, emit_typed; try done; try apply Hrq; try apply Hr2;
    try (apply record_completion_typed; [apply Hr2|done|done]);
    destruct Hr2; repeat case_match; to_prop; u_solve.
Qed.

Lemma handle_typed t k : tracepoint_typed t -> typed k -> typed (handle cfg t k).
Proof.
  intros Ht Hk. destruct t; cbn in *; destruct_and?.
  - by apply insert_typed.
  - by apply merge_typed.
  - by apply issue_typed.
  - by apply requeue_typed.
  - by apply complete_typed.
Qed.

Lemma handle_all_typed ts k : Forall tracepoint_typed ts -> typed k -> typed (handle_all cfg ts k).
Proof.
  intros Hts. revert k. induction Hts as [|t ts Ht _ IH]; intros k Hk; [done|]. by apply IH, handle_typed.
Qed.

Lemma kernel_init_typed depths filters at_ :
  u64 at_ -> (forall dev, dev ∈ depths -> u32 dev) -> typed (kernel_init depths filters at_).
Proof.
  intros Ha Hd. constructor; cbn; try done.
  - intros dev d [Hdev <-]%lookup_gset_to_gmap_Some. split; [by apply Hd|]. by constructor.
  - rewrite map_size_empty. lia.
  - rewrite map_size_empty. lia.
Qed.

End Typed.

(** ** What the collector reads *)

Lemma collect_map {A E B} (f : A -> result E B) (g : A -> B) l :
  (forall a, a ∈ l -> f a = Ok (g a)) -> collect (map f l) = Ok (map g l).
Proof.
  induction l as [|a l IH]; intros H; [done|]. cbn [map collect]. rewrite (H a) by left.
  rewrite IH; [done|]. intros b Hb. apply H. by right.
Qed.

(** Entering the entries of a map one by one gives the map. *)
Lemma enter_union {V} (l : list (Z * V)) (m : gmap Z V) :
  NoDup l.*1 -> foldl (fun m '(k, v) => <[k := v]> m) m l = list_to_map l ∪ m.
Proof.
  revert m. induction l as [|[k v] l IH]; intros m; [by rewrite list_to_map_nil, (left_id_L ∅ (∪))|].
  rewrite fmap_cons. intros [Hk Hl]%NoDup_cons. cbn [foldl]. rewrite IH, list_to_map_cons by done.
  rewrite <-insert_union_l, <-insert_union_r; [done|]. by apply not_elem_of_list_to_map_1.
Qed.

Lemma enter_all {V} (m : gmap Z V) l :
  Permutation l (map_to_list m) -> foldl (fun m '(k, v) => <[k := v]> m) ∅ l = m.
Proof.
  intros Hl. assert (NoDup l.*1) as Hn by (rewrite Hl; apply NoDup_fst_map_to_list).
  rewrite enter_union by done. rewrite (right_id_L ∅ (∪)).
  rewrite (list_to_map_proper _ _ Hn Hl). apply list_to_map_to_list.
Qed.

(** The entries of a map of devices in the memory of the kernel. *)
Definition entries {V} (record : V -> layout) (l : list (Z * V)) : list (list Z * list Z) :=
  map (fun '(dev, v) => (le_bytes 4 dev, encode (record v))) l.

Lemma read_entries_back {V} size (parse : list Z -> V) (record : V -> layout) kn vn l :
  (forall dev v, (dev, v) ∈ l -> u32 dev /\ parse (encode (record v)) = v /\ sizeof (record v) = size) ->
  read_entries 4 size (field 4 0) parse kn vn (entries record l) = Ok l.
Proof.
  intros H. unfold read_entries, entries. rewrite map_map, (collect_map _ (fun x => x)); [by rewrite map_id|].
  intros [dev v] Hin. destruct (H dev v Hin) as (Hd & Hp & Hs).
  change (le_bytes 4 dev) with (encode [(4%nat, dev)]). rewrite !parse_plain_encode by (cbn; lia). rewrite Hp.
  by rewrite (field_encode [] 4 dev []).
Qed.

(** C33. The memory of the block tracker's kernel programs is well typed.  Whatever
    tracepoints arrive, in any order and at any times: every value in a map and every
    record in the ring has all its fields within their machine widths, the maps
    stay within the sizes asked for, and the collector reads back exactly the
    statistics and depths the maps hold, in whichever order they are listed, and an
    event from every record. *)
Theorem block_memory_typed cfg depths filters at_ ts :
  u64 at_ -> (forall dev, dev ∈ depths -> u32 dev) -> Forall tracepoint_typed ts ->
  let k := handle_all cfg ts (kernel_init depths filters at_) in
  kernel_typed cfg k /\
  (forall l, Permutation l (map_to_list (device_stats k)) -> read_stats (Ok (entries stats_record l)) = Ok (device_stats k)) /\
  (forall l, Permutation l (map_to_list (device_depths k)) -> read_depth (Ok (entries depth_record l)) = Ok (device_depths k)) /\
  (forall data, data ∈ events k -> exists e hole,
    parse_plain 112 parse_request_span data "request span" = Ok e /\ data = encode (span_record e hole)).
Proof.
  intros Ha Hd Hts k.
  assert (kernel_typed cfg k) as Hk by (by apply handle_all_typed, kernel_init_typed).
  split; [done|]. clearbody k. split_and!.
  - intros l Hl. unfold read_stats. rewrite read_entries_back; [by rewrite (enter_all (device_stats k))|].
    intros dev s Hin. rewrite Hl in Hin. apply elem_of_map_to_list in Hin.
    destruct (kt_stats _ _ Hk _ _ Hin) as [H1 H2]. split_and!; [done|by apply parse_stats_encode|].
    pose proof H2 as []. unfold stats_record. rewrite sizeof_app, sizeof_operations, st_length0 by done. done.
  - intros l Hl. unfold read_depth. rewrite read_entries_back; [by rewrite (enter_all (device_depths k))|].
    intros dev d Hin. rewrite Hl in Hin. apply elem_of_map_to_list in Hin.
    destruct (kt_depths _ _ Hk _ _ Hin) as [H1 H2]. split_and!; [done|by apply parse_depth_encode|done].
  - intros data Hin. pose proof (kt_events _ _ Hk) as He. rewrite Forall_forall in He.
    destruct (He data Hin) as (e & hole & -> & Hf & Herr & Hc). exists e, hole. split; [|done].
    rewrite parse_plain_encode; [by rewrite parse_span_encode|].
    unfold span_record. rewrite !sizeof_app. change (map (fun c => (1%nat, c)) (comm e)) with (bytes_record (comm e)).
    rewrite sizeof_bytes, Hc. cbn. lia.
Qed.

(** ** Examples *)

Definition demo_helpers : Helpers := mkHelpers true 7 true true 0 6 7 (bytes_of "dd" ++ replicate 14 0).

(** A write of 4096 bytes to the disk 8388608, which is 8:0. *)
Definition demo_rq (id : Z) : Request := mkRequest id 1 4096 2048 (Some 8388608) None.

(** All metrics, for reads and writes, with a timeline. *)
Definition demo_cfg : KernelConfig := mkKernelConfig 4 4 16 1 4096 3 1 0 true true true true true true false true.

Definition demo_requeue : list Tracepoint :=
  let h := demo_helpers in
  [Insert h (demo_rq 1) 100; Issue h (demo_rq 1) 110; Requeue h (demo_rq 1) 130; Issue h (demo_rq 1) 140;
   Complete h (demo_rq 1) 0 4096 150].

Lemma demo_helpers_typed : helpers_typed demo_helpers.
Proof. split; try done. split; [done|]. repeat (apply Forall_cons; split); try apply Forall_nil_2; done. Qed.

Lemma demo_rq_typed id : u64 id -> rq_typed (demo_rq id).
Proof. intros H. split; try done. by intros dev [= <-]. Qed.

Lemma block_memory_typed_witness :
  let k := handle_all demo_cfg demo_requeue (kernel_init {[8388608]} ∅ 50) in
  kernel_typed demo_cfg k /\ length (events k) = 2%nat /\
  read_stats (Ok (entries stats_record (map_to_list (device_stats k)))) = Ok (device_stats k) /\
  read_depth (Ok (entries depth_record (map_to_list (device_depths k)))) = Ok (device_depths k).
Proof.
  destruct (block_memory_typed demo_cfg {[8388608]} ∅ 50 demo_requeue) as (H1 & H2 & H3 & _).
  - done.
  - by intros dev ->%elem_of_singleton.
  - pose proof demo_helpers_typed. pose proof (demo_rq_typed 1 ltac:(done)).
    repeat (apply Forall_cons; split); try apply Forall_nil_2; hnf; split_and!; done.
  - split; [exact H1|]. split; [by vm_compute|]. split; [by apply H2|by apply H3].
Defined.

(** A request that is requeued before it was issued gets a span that begins at the
    start of the clock. *)
Example unissued_requeue_span :
  let ts := [Insert demo_helpers (demo_rq 1) 1000; Requeue demo_helpers (demo_rq 1) 1010] in
  map (fun data => (start_ns (parse_request_span data), end_ns (parse_request_span data)))
    (events (handle_all demo_cfg ts (kernel_init {[8388608]} ∅ 50))) = [(0, 1010)].
Proof. by vm_compute. Qed.
