(* ===== verification/BlockLives.v ===== *)
(** * What the block tracker counts of a request

    The life of a request between the tracepoints of [BlockKernel], independent of
    any map: how long it waits in a queue, how long its attempts take, and what is
    accounted when it completes.  The depths and the statistics of a device, and what
    the collector reads of them, are the sums over the lives of its requests. *)

From S2P Require Import Prelude Protocol Text Float BpfConfig BpfEvents KernelRecords BlockDevices BlockTrack.
From S2P Require Import BlockSamples BlockProps BlockReports BlockKernel.
Open Scope Z_scope.

(** ** Lives *)

(** A request is not known; or it waits, since it was inserted into a queue, if it
    was; or the device works on it.  It has been known since [first], was worked on
    for [spent] in earlier attempts, and has [rest] bytes to go. *)
Inductive Phase :=
| Gone
| Waiting (first spent op rest : Z) (since : option Z)
| InService (first spent op rest issued_at : Z).

(** What is accounted when a request completes. *)
Record Served := mkServed { sv_op : Z; sv_queue : Z; sv_service : Z; sv_total : Z }.

(** The phase of a request, the time it spent in queues and in attempts that ended,
    and its completions: the address of a request is used again. *)
Record Life := mkLife { phase : Phase; waited : Z; worked : Z; served : list Served }.

Definition unborn : Life := mkLife Gone 0 0 [].

Definition enter (p : Phase) (l : Life) : Life := mkLife p (waited l) (worked l) (served l).

Definition complete (s : Served) (waits works : Z) (l : Life) : Life :=
  mkLife Gone (waited l + waits) (worked l + works) (served l ++ [s]).

Definition request_of (t : Tracepoint) : Request :=
  match t with
  | Insert _ rq _ | Issue _ rq _ | Requeue _ rq _ | Complete _ rq _ _ _ => rq
  | Merge rq => rq
  end.

Definition time_of (t : Tracepoint) (before : Z) : Z :=
  match t with
  | Insert _ _ now | Issue _ _ now | Requeue _ _ now | Complete _ _ _ _ now => now
  | Merge _ => before
  end.

(** The time since the request was inserted into a queue, if it was. *)
Definition in_queue (since : option Z) (now : Z) : Z :=
  match since with Some q => now - q | None => 0 end.

Section Life.

(** Which requests the programs look at. *)
Context (tracked : Request -> bool).

Definition inserts (rq : Request) (now : Z) (l : Life) : option Life :=
  match phase l with
  | Gone => Some (enter (Waiting now 0 (request_operation rq) (data_len rq) (Some now)) l)
  | Waiting first spent op rest None =>
      Some (enter (Waiting first spent op (Z.max rest (data_len rq)) (Some now)) l)
  | _ => None
  end.

Definition merges (rq : Request) (l : Life) : option Life :=
  Some match phase l with
       | Gone => l
       | Waiting first spent op _ since => enter (Waiting first spent op (data_len rq) since) l
       | InService first spent op _ at_ => enter (InService first spent op (data_len rq) at_) l
       end.

Definition issues (rq : Request) (now : Z) (l : Life) : option Life :=
  match phase l with
  | Gone => Some (enter (InService now 0 (request_operation rq) (data_len rq) now) l)
  | Waiting first spent op rest since =>
      Some (mkLife (InService first spent op (if rest =? 0 then data_len rq else rest) now)
        (waited l + in_queue since now) (worked l) (served l))
  | InService _ _ _ _ _ => None
  end.

(** An attempt takes some time. *)
Definition requeues (now : Z) (l : Life) : option Life :=
  match phase l with
  | Gone => Some l
  | Waiting _ _ _ _ _ => Some l
  | InService first spent op rest at_ =>
      if at_ <? now then
        Some (mkLife (Waiting first (spent + (now - at_)) op rest None) (waited l) (worked l + (now - at_)) (served l))
      else None
  end.

Definition completes (rq : Request) (error nr_bytes now : Z) (l : Life) : option Life :=
  match phase l with
  | Gone => Some (complete (mkServed (request_operation rq) 0 0 0) 0 0 l)
  | Waiting first spent op rest since =>
      if negb (error =? 0) || (rest <=? nr_bytes) then
        Some (complete (mkServed op (now - first - spent) spent (now - first)) (in_queue since now) 0 l)
      else Some (enter (Waiting first spent op (rest - nr_bytes) since) l)
  | InService first spent op rest at_ =>
      if negb (error =? 0) || (rest <=? nr_bytes) then
        if at_ <? now then
          let spent := spent + (now - at_) in
          Some (complete (mkServed op (now - first - spent) spent (now - first)) 0 (now - at_) l)
        else None
      else Some (enter (InService first spent op (rest - nr_bytes) at_) l)
  end.

(** One tracepoint in the life of the request at [id]; none, if requests do not live
    like that. *)
Definition follow (id : Z) (t : Tracepoint) (l : Life) : option Life :=
  if negb (rq_id (request_of t) =? id) then Some l
  else
    match t with
    | Merge rq => merges rq l
    | Insert _ rq now => if tracked rq then inserts rq now l else Some l
    | Issue _ rq now => if tracked rq then issues rq now l else Some l
    | Requeue _ rq now => if tracked rq then requeues now l else Some l
    | Complete _ rq error nr_bytes now => if tracked rq then completes rq error nr_bytes now l else Some l
    end.

Definition life (id : Z) (ts : list Tracepoint) : option Life :=
  foldl (fun l t => l ≫= follow id t) (Some unborn) ts.

End Life.

(** *** What a step of a life changes *)

Definition queued_since (p : Phase) : option Z := match p with Waiting _ _ _ _ since => since | _ => None end.

Definition issued_since (p : Phase) : option Z := match p with InService _ _ _ _ at_ => Some at_ | _ => None end.

Definition is_some (o : option Z) : bool := match o with Some _ => true | None => false end.

Definition one (o : option Z) : Z := match o with Some _ => 1 | None => 0 end.

Definition queue_time (now : Z) (l : Life) : Z := waited l + in_queue (queued_since (phase l)) now.

Definition service_time (now : Z) (l : Life) : Z := worked l + in_queue (issued_since (phase l)) now.

(** A life up to a time. *)
Definition phase_ok (time : Z) (p : Phase) : Prop :=
  match p with
  | Gone => True
  | Waiting first spent op rest since =>
      0 < first /\ 0 <= spent /\ first + spent <= time /\ 0 <= op < 5 /\ 0 <= rest < 2 ^ 32 /\
      match since with Some q => first + spent <= q <= time | None => True end
  | InService first spent op rest at_ =>
      0 < first /\ 0 <= spent /\ first + spent <= at_ <= time /\ 0 <= op < 5 /\ 0 <= rest < 2 ^ 32
  end.

Definition rq_ok (rq : Request) : Prop := in_u 64 (rq_id rq) /\ in_u 32 (data_len rq).

Definition tracepoint_ok (t : Tracepoint) : Prop :=
  rq_ok (request_of t) /\
  match t with Complete _ _ error nr_bytes _ => in_u 8 error /\ in_u 32 nr_bytes | _ => True end.

Lemma request_operation_bound rq : 0 <= request_operation rq < 5.
Proof. unfold request_operation. repeat case_match; lia. Qed.

(** Times in queues and in attempts are not lost when a phase ends. *)
Record progress (now : Z) (l l' : Life) : Prop := {
  pr_phase : phase_ok now (phase l');
  pr_queue_time : queue_time now l' = queue_time now l;
  pr_service_time : service_time now l' = service_time now l;
  pr_queue_same : one (queued_since (phase l')) = one (queued_since (phase l)) ->
    queued_since (phase l') = queued_since (phase l) /\ waited l' = waited l;
  pr_service_same : one (issued_since (phase l')) = one (issued_since (phase l)) ->
    issued_since (phase l') = issued_since (phase l) /\ worked l' = worked l
}.

Lemma phase_ok_later time now p : time <= now -> phase_ok time p -> phase_ok now p.
Proof. destruct p as [|? ? ? ? [q|]|]; cbn; lia. Qed.

Lemma progress_refl now l : phase_ok now (phase l) -> progress now l l.
Proof. by constructor. Qed.

Ltac progress_by_cases :=
  repeat match goal with
  | H : context [match ?x with _ => _ end] |- _ => destruct x eqn:?; try discriminate H
  end; simplify_eq/=; constructor; unfold queue_time, service_time, enter, complete, in_u in *; cbn in *; to_prop;
  repeat match goal with H : _ = phase _ |- _ => rewrite <-H in * | H : phase _ = _ |- _ => rewrite H in * end;
  repeat match goal with o : option Z |- _ => destruct o end;
  cbn in *; lia || done || (intros; split; (done || lia)) || (repeat case_match; lia).

Lemma inserts_progress rq now l l' :
  rq_ok rq -> 0 < now -> phase_ok now (phase l) -> inserts rq now l = Some l' -> progress now l l'.
Proof.
  intros [_ Hlen] Hn Hl H. pose proof (request_operation_bound rq). unfold inserts in H. progress_by_cases.
Qed.

Lemma merges_progress rq now l l' :
  rq_ok rq -> 0 < now -> phase_ok now (phase l) -> merges rq l = Some l' -> progress now l l'.
Proof. intros [_ Hlen] Hn Hl H. unfold merges in H. progress_by_cases. Qed.

Lemma issues_progress rq now l l' :
  rq_ok rq -> 0 < now -> phase_ok now (phase l) -> issues rq now l = Some l' -> progress now l l'.
Proof.
  intros [_ Hlen] Hn Hl H. pose proof (request_operation_bound rq). unfold issues in H. progress_by_cases.
Qed.

Lemma requeues_progress now l l' : phase_ok now (phase l) -> requeues now l = Some l' -> progress now l l'.
Proof. intros Hl H. unfold requeues in H. progress_by_cases. Qed.

Lemma completes_progress rq error nr_bytes now l l' :
  in_u 32 nr_bytes -> phase_ok now (phase l) -> completes rq error nr_bytes now l = Some l' -> progress now l l'.
Proof. intros Hnr Hl H. unfold completes in H. progress_by_cases. Qed.

Lemma follow_progress tracked id t l l' time :
  tracepoint_ok t -> 0 < time -> time <= time_of t time -> phase_ok time (phase l) ->
  follow tracked id t l = Some l' -> progress (time_of t time) l l'.
Proof.
  intros [Hrq Ht] H0 Hle Hl H. assert (phase_ok (time_of t time) (phase l)) as Hl' by by eapply phase_ok_later.
  unfold follow in H. destruct (negb _).
  { simplify_eq. by apply progress_refl. }
  destruct t; cbn in *; try (destruct (tracked rq); [|simplify_eq; by apply progress_refl]).
  - apply (inserts_progress rq); (done || lia).
  - apply (merges_progress rq); (done || lia).
  - apply (issues_progress rq); (done || lia).
  - by apply requeues_progress.
  - eapply completes_progress; [apply Ht|done|done].
Qed.

(** The time of a request is that in its attempts and the rest. *)
Definition op_ok (s : Served) : Prop :=
  0 <= sv_op s < 5 /\ 0 <= sv_queue s /\ 0 <= sv_service s /\ sv_queue s + sv_service s = sv_total s.

Definition life_ok (l : Life) : Prop := Forall op_ok (served l) /\ 0 <= waited l /\ 0 <= worked l.

Lemma follow_life_ok tracked id t l l' time :
  time <= time_of t time -> phase_ok time (phase l) -> life_ok l -> follow tracked id t l = Some l' -> life_ok l'.
Proof.
  intros Hle Hp Hl H. unfold follow in H. destruct (negb _); [by simplify_eq|].
  destruct t; try (destruct (tracked rq); [|by simplify_eq]);
    [unfold inserts in H|unfold merges in H|unfold issues in H|unfold requeues in H|unfold completes in H];
    repeat (case_match; simplify_eq/=; try done); unfold life_ok in *; cbn; to_prop; destruct Hl as (Hs & Hl);
    unfold in_queue; repeat case_match; simplify_eq; split; try done; try lia; apply Forall_app; split; try done;
    apply Forall_singleton; unfold op_ok; cbn; pose proof (request_operation_bound rq); lia.
Qed.

(** ** One step of the programs *)

(** The request as the map holds it. *)
Record holds (dev first spent op rest : Z) (waits works : bool) (r : RequestState) : Prop := {
  ho_dev : r_dev r = dev;
  ho_first : first_seen r = first;
  ho_service : service r = spent;
  ho_op : r_operation r = op;
  ho_rest : remaining_bytes r = rest;
  ho_inserted : inserted r = waits;
  ho_issued : issued r = works
}.

Definition request_as (dev : Z) (p : Phase) (r : option RequestState) : Prop :=
  match p with
  | Gone => r = None
  | Waiting first spent op rest since =>
      exists r0, r = Some r0 /\ holds dev first spent op rest (is_some since) false r0
  | InService first spent op rest at_ =>
      exists r0, r = Some r0 /\ holds dev first spent op rest false true r0 /\ issue_ns r0 = at_
  end.

(** What a tracepoint adds to the statistics of its device. *)
Definition add_moved (cfg : KernelConfig) (t : Tracepoint) (ops : list OperationStats) : list OperationStats :=
  match t with
  | Complete _ rq error nr_bytes _ => alter (add_bytes cfg nr_bytes error) (Z.to_nat (request_operation rq)) ops
  | _ => ops
  end.

Definition add_served (cfg : KernelConfig) (ops : list OperationStats) (s : Served) : list OperationStats :=
  alter (count_completion cfg (sv_queue s) (sv_service s) (sv_total s)) (Z.to_nat (sv_op s)) ops.

(** The depths after requests have entered or left the queue and the device. *)
Definition shift (dev queued_delta inflight_delta now : Z) (m : gmap Z DeviceDepth) : gmap Z DeviceDepth :=
  if (queued_delta =? 0) && (inflight_delta =? 0) then m else alter (adjust queued_delta inflight_delta now) dev m.

Definition depths_maximal (dev : Z) (k : Kernel) : Prop := forall d, device_depths k !! dev = Some d -> maxima_ok d.

Record effect (cfg : KernelConfig) (id dev now : Z) (moves : list OperationStats -> list OperationStats) (l l' : Life)
    (k k' : Kernel) : Prop := {
  ef_tracked : tracked_devices k' = tracked_devices k;
  ef_request : request_as dev (phase l') (requests k' !! id);
  ef_others : forall j, j <> id -> requests k' !! j = requests k !! j;
  ef_depths : saturation_enabled cfg = true -> depths_maximal dev k ->
    device_depths k' =
      shift dev (one (queued_since (phase l')) - one (queued_since (phase l)))
        (one (issued_since (phase l')) - one (issued_since (phase l))) now (device_depths k);
  ef_keys : only_new dev k k';
  ef_ops : exists new, served l' = served l ++ new /\
    forall j, ops_of j k' = if decide (j = dev) then foldl (add_served cfg) (moves (ops_of dev k)) new else ops_of j k
}.

Section Effects.

Context (cfg : KernelConfig) (Htracking : request_tracking_enabled cfg = true).
Context (h : Helpers) (rq : Request) (now : Z) (k : Kernel).

Local Notation dev := (request_device rq).

Context (Htracked : should_track cfg k dev (request_operation rq) = true).
Context (Hroom : has_room cfg h dev k).
Context (Hstored : requests k !! rq_id rq = None ->
  request_stored h = true /\ Z.of_nat (size (requests k)) < requests_entries cfg).
Context (Hrq : rq_ok rq) (Hnow : 0 < now <= u64_max).

Ltac unfold_handler f := unfold f; cbv zeta; rewrite Htracking, Htracked; cbn [negb].

(** A step that leaves the statistics alone and changes the request. *)
Lemma effect_put moves l l' r k' :
  (forall ops, moves ops = ops) -> served l' = served l ->
  tracked_devices k' = tracked_devices k -> requests k' = <[rq_id rq := r]> (requests k) ->
  (forall j, ops_of j k' = ops_of j k) -> only_new dev k k' -> request_as dev (phase l') (Some r) ->
  (saturation_enabled cfg = true -> depths_maximal dev k -> device_depths k' =
     shift dev (one (queued_since (phase l')) - one (queued_since (phase l)))
       (one (issued_since (phase l')) - one (issued_since (phase l))) now (device_depths k)) ->
  effect cfg (rq_id rq) dev now moves l l' k k'.
Proof.
  intros Ht Hs Htr Hreq Ho Hk Has Hd. split; [done| | |done|done|].
  - by rewrite Hreq, lookup_insert_eq.
  - intros j Hj. by rewrite Hreq, lookup_insert_ne.
  - exists []. rewrite app_nil_r. split; [done|]. intros j. rewrite Ht, Ho. cbn.
    by destruct (decide (j = dev)) as [-> |].
Qed.

(** The obligations of [effect_put] on the parts of a state. *)
Ltac frames := repeat (progress (cbn; autorewrite with block)); rewrite ?insert_insert_eq; done || congruence.

Ltac put_by r :=
  apply effect_put with r; unfold put;
  [done|done|frames|frames|intros ?; by autorewrite with block|apply only_new_same; frames
  |eexists; split; [done|]|intros Hsat Hmax].

Lemma insert_effect l l' :
  request_as dev (phase l) (requests k !! rq_id rq) -> inserts rq now l = Some l' ->
  effect cfg (rq_id rq) dev now (add_moved cfg (Insert h rq now)) l l' k (trace_block_rq_insert cfg h rq now k).
Proof.
  intros Hr Hl. unfold inserts in Hl. unfold_handler trace_block_rq_insert.
  destruct (phase l) as [|first spent op rest [q|]|] eqn:Ep; [| |..]; simplify_eq; cbn in Hr.
  - destruct (Hstored Hr) as [Hs Hsz%Z.ltb_lt]. rewrite Hr. unfold create_request, update_noexist.
    rewrite Hr, Hs, Hsz. cbn [andb snd].
    match goal with |- context [<[_ := ?r]> _] => put_by r end; [done|].
    unfold adjust_depth, shift. by rewrite Hsat, Ep.
  - destruct Hr as (r & Hr & Hh). rewrite Hr. pose proof Hh as [].
    cbn [inserted issued set_bytes]. rewrite ho_inserted0, ho_issued0. cbn [is_some negb andb].
    match goal with |- context [put _ ?r _] => put_by r end.
    + constructor; cbn; try done. case_match; to_prop; lia.
    + unfold adjust_depth, shift. by rewrite Hsat, Ep.
Qed.

Lemma shift_twice (m : gmap Z DeviceDepth) :
  (forall d, m !! dev = Some d -> maxima_ok d) ->
  alter (adjust 0 1 now) dev (alter (adjust (-1) 0 now) dev m) = alter (adjust (-1) 1 now) dev m.
Proof.
  intros Hm. apply map_eq. intros j. destruct (decide (j = dev)) as [-> | Hj].
  - rewrite !lookup_alter_eq. destruct (m !! dev) as [d|] eqn:E; [|done]. cbn [fmap option_fmap option_map].
    f_equal. by apply adjust_twice, Hm.
  - by rewrite !lookup_alter_ne.
Qed.

Lemma issue_effect l l' :
  request_as dev (phase l) (requests k !! rq_id rq) -> issues rq now l = Some l' ->
  effect cfg (rq_id rq) dev now (add_moved cfg (Issue h rq now)) l l' k (trace_block_rq_issue cfg h rq now k).
Proof.
  intros Hr Hl. unfold issues in Hl. unfold_handler trace_block_rq_issue.
  destruct (phase l) as [|first spent op rest since|] eqn:Ep; simplify_eq; cbn in Hr.
  - destruct (Hstored Hr) as [Hs Hsz%Z.ltb_lt]. rewrite Hr. unfold create_request, update_noexist.
    rewrite Hr, Hs, Hsz. cbn [andb negb requests set_requests]. rewrite lookup_insert_eq. unfold issue_request.
    cbn [inserted issued].
    match goal with |- context [put _ ?r _] => put_by r end.
    + split; [constructor; cbn; try done; by case_match|done].
    + unfold adjust_depth, shift. by rewrite Hsat, Ep.
  - destruct Hr as (r & Hr & Hh). rewrite Hr. pose proof Hh as []. unfold issue_request.
    rewrite ho_inserted0. destruct since as [q|]; cbn [is_some issued set_inserted]; rewrite ho_issued0.
    all: match goal with |- context [put _ ?r _] => put_by r end.
    all: try (split; [constructor; cbn; try done; by rewrite ho_rest0|done]).
    + unfold adjust_depth, shift. rewrite Hsat, Ep. by apply shift_twice.
    + unfold adjust_depth, shift. by rewrite Hsat, Ep.
Qed.

Lemma merge_effect l l' :
  request_as dev (phase l) (requests k !! rq_id rq) -> merges rq l = Some l' ->
  effect cfg (rq_id rq) dev now (add_moved cfg (Merge rq)) l l' k (trace_block_rq_merge cfg rq k).
Proof.
  intros Hr Hl. unfold merges in Hl. unfold trace_block_rq_merge. rewrite Htracking. cbn [negb].
  destruct (phase l) as [|first spent op rest since|first spent op rest at_] eqn:Ep; simplify_eq; cbn in Hr.
  - rewrite Hr. split; try done.
    + by rewrite Ep, Hr.
    + intros _ _. unfold shift. by rewrite !Z.sub_diag.
    + by apply only_new_same.
    + exists []. rewrite app_nil_r. split; [done|]. intros j. by destruct (decide (j = dev)) as [-> |].
  - destruct Hr as (r & Hr & []). rewrite Hr. match goal with |- context [put _ ?r _] => put_by r end.
    + by constructor.
    + unfold shift. cbn. by rewrite Ep, !Z.sub_diag.
  - destruct Hr as (r & Hr & [] & Hi). rewrite Hr. match goal with |- context [put _ ?r _] => put_by r end.
    + split; [by constructor|done].
    + unfold shift. cbn. by rewrite Ep, !Z.sub_diag.
Qed.

(** An attempt that took some time. *)
Lemma end_attempt_some first spent op rest r k1 :
  holds dev first spent op rest false true r -> 0 <= spent -> first + spent <= issue_ns r < now -> 0 < first ->
  end_attempt cfg now r k1 =
  (now - issue_ns r, set_issued (issue_ns r) false (add_service (now - issue_ns r) r), adjust_depth cfg dev 0 (-1) now k1) /\
  holds dev first (spent + (now - issue_ns r)) op rest false false
    (set_issued (issue_ns r) false (add_service (now - issue_ns r) r)).
Proof.
  intros [] Hs Ha Hf. split.
  - unfold end_attempt. rewrite ho_issued0, ho_dev0. destruct (Z.ltb_spec (issue_ns r) now); [|lia]. cbn [andb].
    by rewrite wrap64_small by lia.
  - constructor; cbn; try done. rewrite ho_service0, wrap64_small by lia. done.
Qed.

Lemma end_attempt_none r k1 : issued r = false -> end_attempt cfg now r k1 = (0, r, k1).
Proof. unfold end_attempt. by intros ->. Qed.

Lemma requeue_effect l l' :
  request_as dev (phase l) (requests k !! rq_id rq) -> phase_ok now (phase l) -> requeues now l = Some l' ->
  effect cfg (rq_id rq) dev now (add_moved cfg (Requeue h rq now)) l l' k (trace_block_rq_requeue cfg h rq now k).
Proof.
  intros Hr Hok Hl. unfold requeues in Hl. unfold trace_block_rq_requeue. rewrite Htracking, andb_false_r, Htracked.
  cbn [negb]. set (k1 := if errors_enabled cfg then _ else k).
  assert (requests k1 = requests k /\ device_depths k1 = device_depths k /\ tracked_devices k1 = tracked_devices k)
    as (E1 & E2 & E3) by (subst k1; destruct (errors_enabled cfg); by autorewrite with block).
  assert (forall j, ops_of j k1 = ops_of j k) as E4 by (intros j; subst k1; destruct (errors_enabled cfg); [by apply ops_with_same|done]).
  assert (only_new dev k k1) as E5 by (subst k1; destruct (errors_enabled cfg); [apply only_new_with|by apply only_new_same]).
  clearbody k1. rewrite E1.
  destruct (phase l) as [|first spent op rest since|first spent op rest at_] eqn:Ep; simplify_eq; cbn in Hr, Hok.
  - rewrite Hr. split; try done.
    + by rewrite Ep, E1, Hr.
    + intros j _. by rewrite E1.
    + intros _ _. unfold shift. by rewrite !Z.sub_diag, E2.
    + exists []. rewrite app_nil_r. split; [done|]. intros j. rewrite E4. by destruct (decide (j = dev)) as [-> |].
  - destruct Hr as (r & Hr & Hh). pose proof Hh as []. rewrite Hr, end_attempt_none by done. cbv zeta.
    match goal with |- context [put _ ?r _] => apply effect_put with r end; unfold put; try done.
    + frames.
    + frames.
    + intros j. autorewrite with block. apply E4.
    + transitivity k1; [done|]. intros j. by apply only_new_emit.
    + rewrite Ep. eexists. split; [done|]. by constructor.
    + intros _ _. unfold shift. rewrite !Z.sub_diag. frames.
  - destruct Hr as (r & Hr & Hh & Hi). destruct (Z.ltb_spec at_ now); [|done]. simplify_eq. rewrite Hr.
    destruct (end_attempt_some _ _ _ _ r k1 Hh) as [-> Hh']; [lia..|]. pose proof Hh' as []. cbv zeta.
    match goal with |- context [put _ ?r _] => apply effect_put with r end; unfold put; try done.
    + frames.
    + frames.
    + intros j. autorewrite with block. apply E4.
    + transitivity (adjust_depth cfg dev 0 (-1) now k1); [transitivity k1; [done|apply only_new_adjust]|].
      intros j. by apply only_new_emit.
    + eexists. split; [done|]. by constructor.
    + intros Hsat _. rewrite Ep. unfold shift, adjust_depth. rewrite Hsat. cbn. autorewrite with block.
      cbn. by rewrite E2.
Qed.

(** A completion that ends the request, which neither waits nor is worked on any
    more. *)
Lemma finish_effect error nr_bytes l l' first spent op rest r k2 :
  let k1 := record_bytes cfg h dev (request_operation rq) nr_bytes error now k in
  holds dev first spent op rest false false r -> 0 <= op < 5 -> 0 <= spent -> first + spent <= now -> 0 < first ->
  phase l' = Gone -> served l' = served l ++ [mkServed op (now - first - spent) spent (now - first)] ->
  requests k2 = requests k1 -> tracked_devices k2 = tracked_devices k1 -> device_stats k2 = device_stats k1 ->
  (saturation_enabled cfg = true -> depths_maximal dev k -> device_depths k2 =
     shift dev (- one (queued_since (phase l))) (- one (issued_since (phase l))) now (device_depths k)) ->
  let total := if first_seen r <? now then now - first_seen r else 0 in
  let queue := if service r <? total then total - service r else 0 in
  let k3 := record_completion cfg h (r_dev r) (r_operation r) queue (service r) total now k2 in
  forall start, let k4 := emit_request_span cfg h (rq_id rq) r start now queue (service r) total error true k3 in
  effect cfg (rq_id rq) dev now (add_moved cfg (Complete h rq error nr_bytes now)) l l' k
    (set_requests (delete (rq_id rq) (requests k4)) k4).
Proof.
  intros k1 [] Hop Hs Hle Hf Hp Hsv E1 E3 E4 Hd total queue k3 start k4.
  assert (total = now - first /\ queue = now - first - spent) as [Etotal Equeue].
  { unfold queue, total. rewrite ho_first0, ho_service0.
    destruct (Z.ltb_spec first now), (Z.ltb_spec spent (now - first)); try destruct (Z.ltb_spec spent 0); lia. }
  subst k4 k3. rewrite ho_dev0, ho_op0, ho_service0, Etotal, Equeue. clearbody total queue. split.
  - cbn. autorewrite with block. rewrite E3. unfold k1. by autorewrite with block.
  - rewrite Hp. cbn. by rewrite lookup_delete_eq.
  - intros j Hj. cbn. rewrite lookup_delete_ne by done. autorewrite with block. rewrite E1. unfold k1.
    by autorewrite with block.
  - intros Hsat Hmax. cbn. autorewrite with block. rewrite Hd, Hp by done. done.
  - transitivity k2; [transitivity k1; [apply only_new_bytes|by apply only_new_same]|].
    transitivity (record_completion cfg h dev op (now - first - spent) spent (now - first) now k2);
      [apply only_new_completion|]. intros j. by apply only_new_emit.
  - eexists. split; [exact Hsv|]. intros j. autorewrite with block.
    assert (has_room cfg h dev k2) as Hr2 by (apply (has_room_same _ _ _ k1); [done|by apply has_room_bytes]).
    rewrite ops_completion by done. rewrite !(ops_same_stats k1 k2) by done. unfold k1.
    rewrite !ops_bytes by (done || apply request_operation_bound). cbn [foldl add_moved]. unfold add_served. cbn.
    destruct (decide (j = dev)) as [-> | ?]; [|done]. by rewrite decide_True.
Qed.

(** A completion of a part. *)
Lemma partial_effect error nr_bytes l l' r r' :
  let k1 := record_bytes cfg h dev (request_operation rq) nr_bytes error now k in
  served l' = served l -> queued_since (phase l') = queued_since (phase l) ->
  issued_since (phase l') = issued_since (phase l) -> request_as dev (phase l') (Some r') ->
  requests k !! rq_id rq = Some r ->
  effect cfg (rq_id rq) dev now (add_moved cfg (Complete h rq error nr_bytes now)) l l' k (put (rq_id rq) r' k1).
Proof.
  intros k1 Hs Hq Hi Hr' Hr. split.
  - unfold k1. frames.
  - cbn. by rewrite lookup_insert_eq.
  - intros j Hj. cbn. rewrite lookup_insert_ne by done. unfold k1. by autorewrite with block.
  - intros _ _. rewrite Hq, Hi. unfold shift. rewrite !Z.sub_diag. unfold k1. frames.
  - intros j H. by apply (only_new_bytes cfg h dev (request_operation rq) nr_bytes error now k).
  - exists []. rewrite app_nil_r. split; [done|]. intros j. unfold put. autorewrite with block. unfold k1.
    apply ops_bytes; [done|apply request_operation_bound].
Qed.

Lemma complete_effect error nr_bytes l l' :
  request_as dev (phase l) (requests k !! rq_id rq) -> phase_ok now (phase l) ->
  completes rq error nr_bytes now l = Some l' ->
  effect cfg (rq_id rq) dev now (add_moved cfg (Complete h rq error nr_bytes now)) l l' k
    (trace_block_rq_complete cfg h rq error nr_bytes now k).
Proof.
  intros Hr Hok Hl. unfold completes in Hl. unfold_handler trace_block_rq_complete.
  rewrite requests_bytes.
  destruct (phase l) as [|first spent op rest since|first spent op rest at_] eqn:Ep; cbn in Hr, Hok.
  - simplify_eq. rewrite Hr. split.
    + by autorewrite with block.
    + autorewrite with block. by rewrite Hr.
    + intros j _. by autorewrite with block.
    + intros _ _. rewrite Ep. unfold shift. cbn. by autorewrite with block.
    + transitivity (record_bytes cfg h dev (request_operation rq) nr_bytes error now k);
        [apply only_new_bytes|apply only_new_completion].
    + eexists. split; [done|]. intros j. rewrite ops_completion, !ops_bytes by
        (try apply request_operation_bound; auto with block). cbn [foldl add_moved]. unfold add_served. cbn.
      destruct (decide (j = dev)) as [-> | ?]; [|done]. by rewrite decide_True.
  - destruct Hr as (r & Hr & Hh). pose proof Hh as []. rewrite Hr, ho_rest0.
    destruct (negb (error =? 0) || (rest <=? nr_bytes)) eqn:Ed; cbn [negb]; injection Hl as <-.
    + rewrite end_attempt_none by done. rewrite ho_inserted0. destruct since as [q|]; cbn [is_some]; cbv zeta.
      * eapply (finish_effect _ _ _ _ first spent op rest); [by constructor|lia..|done|done|frames|frames|frames|].
        intros Hsat _. rewrite Ep. unfold shift, adjust_depth. rewrite Hsat. cbn. autorewrite with block.
        by rewrite ho_dev0.
      * eapply (finish_effect _ _ _ _ first spent op rest); [by constructor|lia..|done|done|frames|frames|frames|].
        intros Hsat _. rewrite Ep. unfold shift. cbn. by autorewrite with block.
    + eapply partial_effect; [done|by rewrite Ep|by rewrite Ep| |done]. eexists. split; [done|]. by constructor.
  - destruct Hr as (r & Hr & Hh & Hi). pose proof Hh as []. rewrite Hr, ho_rest0.
    destruct (negb (error =? 0) || (rest <=? nr_bytes)) eqn:Ed; cbn [negb].
    + subst at_. destruct (Z.ltb_spec (issue_ns r) now); [|done]. injection Hl as <-.
      destruct (end_attempt_some _ _ _ _ r (record_bytes cfg h dev (request_operation rq) nr_bytes error now k) Hh)
        as [-> Hh']; [lia..|]. pose proof (ho_inserted _ _ _ _ _ _ _ _ Hh') as ->. cbv zeta.
      eapply (finish_effect _ _ _ _ _ _ _ _ _ _ Hh'); [lia..|done| |frames|frames|frames|].
      * cbn. repeat f_equal.
      * intros Hsat _. rewrite Ep. unfold shift, adjust_depth. rewrite Hsat. cbn. by autorewrite with block.
    + injection Hl as <-. eapply partial_effect; [done|by rewrite Ep|by rewrite Ep| |done]. eexists.
      split; [done|]. split; [by constructor|done].
Qed.

End Effects.
