(* ===== verification/BlockSums.v ===== *)
(** * From the block layer to the values of a device

    Over any run of the kernel programs of [BlockKernel], the depths of a device, as
    the collector extrapolates them ([snapshot]), and its statistics are the sums over
    the lives ([BlockLives]) of its requests. *)

From S2P Require Import Prelude Protocol Text Float BpfConfig BpfEvents KernelRecords BlockDevices BlockTrack.
From S2P Require Import BlockSamples BlockProps BlockReports BlockKernel BlockMemory BlockLives.
From Stdlib Require Import Permutation.
Open Scope Z_scope.

(** ** Sums over the requests of a device *)

(** All lives but one stay. *)
Definition differ_at (id : Z) (lives lives' : Z -> Life) : Prop := forall j, j <> id -> lives' j = lives j.

Lemma concat_map_update {A B} `{EqDecision A} (f g : A -> list B) a x l :
  NoDup l -> a ∈ l -> g a = f a ++ x -> (forall y, y <> a -> g y = f y) ->
  Permutation (concat (map g l)) (concat (map f l) ++ x).
Proof.
  intros Hl Ha Hx Hy. induction Hl as [|y l Hn Hl IH]; [by apply elem_of_nil in Ha|]. cbn [map concat].
  apply elem_of_cons in Ha as [-> | Ha].
  - rewrite Hx. assert (map g l = map f l) as ->.
    { apply map_ext_in. intros z Hz%list_elem_of_In. apply Hy. by intros ->. }
    rewrite <-!app_assoc. apply Permutation_app_head, Permutation_app_comm.
  - rewrite (Hy y) by (by intros ->). rewrite (IH Ha). by rewrite app_assoc.
Qed.

(** A map with room for one more of some keys. *)
Lemma keys_bounded {A} (m : gmap Z A) (l : list Z) i :
  (forall j, is_Some (m !! j) -> j ∈ l) -> i ∈ l -> m !! i = None -> (size m < length l)%nat.
Proof.
  intros H Hi Hm. rewrite <-length_map_to_list, <-(length_fmap fst).
  change (length (i :: (map_to_list m).*1) <= length l)%nat. apply submseteq_length, NoDup_submseteq.
  - constructor; [|apply NoDup_fst_map_to_list]. rewrite list_elem_of_fmap. intros ([j a] & -> & Hj%elem_of_map_to_list).
    cbn in *. congruence.
  - intros j [-> | ([k a] & -> & Hj%elem_of_map_to_list)%list_elem_of_fmap]%elem_of_cons; [done|]. apply H. by eexists.
Qed.

Lemma moved_by_one count delta :
  0 <= count < 2 ^ 32 - 1 -> -1 <= delta <= 1 -> 0 <= count + delta -> moved delta count = count + delta.
Proof.
  intros Hc Hd H. unfold moved. destruct (Z.ltb_spec 0 delta).
  - rewrite wrap_small by lia. lia.
  - destruct (Z.ltb_spec delta 0), (Z.eqb_spec count 0); cbn [andb negb]; lia.
Qed.

Section Gauge.

(** A gauge of a device counts its requests in some state and the time they are in
    it: those in a queue, or those in service. *)
Context (since : Phase -> option Z) (closed : Life -> Z).

Definition in_state (now : Z) (l : Life) : Z := closed l + in_queue (since (phase l)) now.

Definition present (l : Life) : Z := one (since (phase l)).

Record gauge (l : list Z) (lives : Z -> Life) (updated count ns : Z) : Prop := {
  ga_count : count = sum_of (fun id => present (lives id)) l;
  ga_ns : ns = wrap 64 (sum_of (fun id => in_state updated (lives id)) l);
  ga_since : forall id q, id ∈ l -> since (phase (lives id)) = Some q -> q <= updated
}.

Lemma in_state_later now later l : in_state later l = in_state now l + (later - now) * present l.
Proof. unfold in_state, present. destruct (since (phase l)); cbn; lia. Qed.

Lemma gauge_later l lives updated count ns now :
  updated <= now -> gauge l lives updated count ns ->
  gauge l lives now count (wrap 64 (ns + wrap 64 ((now - updated) * count))).
Proof.
  intros Hle [-> -> Hs]. split; [done| |].
  - rewrite (sum_of_ext _ _ l (fun id _ => in_state_later updated now (lives id))), sum_of_plus, sum_of_scale.
    unfold wrap. by rewrite <-Zplus_mod.
  - intros id q Hid Hq. specialize (Hs id q Hid Hq). lia.
Qed.

(** A request enters or leaves the state: the time it has been in it is kept. *)
Lemma gauge_move l id lives lives' now count ns :
  NoDup l -> id ∈ l -> differ_at id lives lives' -> in_state now (lives' id) = in_state now (lives id) ->
  (forall q, since (phase (lives' id)) = Some q -> q <= now) ->
  gauge l lives now count ns -> gauge l lives' now (count + (present (lives' id) - present (lives id))) ns.
Proof.
  intros Hl Hid Hd Hin Hq [-> -> Hs]. split.
  - pose proof (sum_of_update (fun id => present (lives id)) (fun id => present (lives' id)) id l Hl Hid
      ltac:(intros j Hj; cbv beta; by rewrite Hd)) as H. cbv beta in H. lia.
  - f_equal. apply sum_of_ext. intros j _. destruct (decide (j = id)) as [-> | Hj]; [done|]. by rewrite Hd.
  - intros j q Hj. destruct (decide (j = id)) as [-> | Hne]; [apply Hq|]. rewrite Hd by done. by apply Hs.
Qed.

(** Nothing happens to the state. *)
Lemma gauge_same l id lives lives' updated count ns :
  (id ∈ l -> since (phase (lives' id)) = since (phase (lives id)) /\ closed (lives' id) = closed (lives id)) ->
  differ_at id lives lives' -> gauge l lives updated count ns -> gauge l lives' updated count ns.
Proof.
  intros Hi Hd [-> -> Hs].
  assert (forall j, j ∈ l -> since (phase (lives' j)) = since (phase (lives j)) /\ closed (lives' j) = closed (lives j))
    as Hall.
  { intros j Hj. destruct (decide (j = id)) as [-> | Hne]; [by apply Hi|]. by rewrite Hd. }
  split.
  - apply sum_of_ext. intros j [E _]%Hall. unfold present. by rewrite E.
  - f_equal. apply sum_of_ext. intros j [E1 E2]%Hall. unfold in_state. by rewrite E1, E2.
  - intros j q Hj. destruct (Hall j Hj) as [-> _]. by apply Hs.
Qed.

Lemma present_bound l : 0 <= present l <= 1.
Proof. unfold present. destruct (since (phase l)); cbn; lia. Qed.

Lemma gauge_bound l lives updated count ns : gauge l lives updated count ns -> 0 <= count <= Z.of_nat (length l).
Proof.
  intros [-> _ _]. pose proof (sum_of_bounds (fun id => present (lives id)) 0 1 l
    ltac:(intros id _; apply present_bound)). lia.
Qed.

Lemma gauge_present l lives updated count ns id :
  gauge l lives updated count ns -> NoDup l -> id ∈ l -> present (lives id) <= count.
Proof.
  intros [-> _ _] Hl Hid.
  pose proof (sum_of_update (fun j => present (lives j)) (fun j => if decide (j = id) then 0 else present (lives j))
    id l Hl Hid ltac:(intros j Hj; cbv beta; by rewrite decide_False)) as H.
  cbv beta in H. rewrite decide_True in H by done.
  pose proof (sum_of_bounds (fun j => if decide (j = id) then 0 else present (lives j)) 0 1 l
    ltac:(intros j _; pose proof (present_bound (lives j)); cbv beta; destruct (decide (j = id)); lia)). lia.
Qed.

Lemma gauge_wrapped l lives updated count ns : gauge l lives updated count ns -> wrap 64 ns = ns.
Proof. intros [_ -> _]. unfold wrap. by rewrite Zmod_mod. Qed.

(** What the programs do to a gauge when a request moves. *)
Lemma gauge_adjust l id lives lives' updated now count ns :
  NoDup l -> id ∈ l -> Z.of_nat (length l) < 2 ^ 32 - 1 -> differ_at id lives lives' -> updated <= now ->
  in_state now (lives' id) = in_state now (lives id) ->
  (forall q, since (phase (lives' id)) = Some q -> q <= now) -> gauge l lives updated count ns ->
  gauge l lives' now (moved (present (lives' id) - present (lives id)) count)
    (wrap 64 (ns + wrap 64 ((now - updated) * count))).
Proof.
  intros Hl Hid Hlen Hd Hle Hin Hq Hg. pose proof (gauge_bound _ _ _ _ _ Hg).
  pose proof (gauge_present _ _ _ _ _ _ Hg Hl Hid). pose proof (present_bound (lives id)).
  pose proof (present_bound (lives' id)). rewrite moved_by_one by lia.
  apply (gauge_move l id lives); try done. by apply gauge_later.
Qed.

End Gauge.

Notation queue_gauge := (gauge queued_since waited).
Notation service_gauge := (gauge issued_since worked).

(** The depth of a device brought up to the time. *)
Lemma accrue_ns now d :
  0 < last_update_ns d <= now -> now <= u64_max ->
  wrap 64 (dd_queued_ns d) = dd_queued_ns d -> wrap 64 (dd_inflight_ns d) = dd_inflight_ns d ->
  dd_queued_ns (accrue now d) = wrap 64 (dd_queued_ns d + wrap 64 ((now - last_update_ns d) * dd_queued d)) /\
  dd_inflight_ns (accrue now d) = wrap 64 (dd_inflight_ns d + wrap 64 ((now - last_update_ns d) * dd_inflight d)).
Proof.
  intros Hu Hm Hq Hi. unfold accrue. destruct (Z.eqb_spec (last_update_ns d) 0); [lia|]. cbn [negb andb].
  destruct (Z.ltb_spec (last_update_ns d) now).
  - cbn. by rewrite (wrap64_small (now - _)) by lia.
  - replace (now - last_update_ns d) with 0 by lia. by rewrite !Z.mul_0_l, !Z.add_0_r, Hq, Hi.
Qed.

(** ** Runs *)

Section Run.

Context (cfg : KernelConfig) (k0 : Kernel) (dev_of : Z -> Z) (ids devs : list Z).
Context (Htracking : request_tracking_enabled cfg = true).
Context (Hids : NoDup ids) (Hentries : Z.of_nat (length ids) <= requests_entries cfg < 2 ^ 32 - 1).
Context (watched : gset Z).
Context (Hdevs : Z.of_nat (length devs) <= device_stats_entries cfg).

(** The requests the programs look at; the filter does not change. *)
Definition tracked (rq : Request) : bool := should_track cfg k0 (request_device rq) (request_operation rq).

(** The requests of a device. *)
Definition on (dev : Z) : list Z := List.filter (fun id => dev_of id =? dev) ids.

Lemma on_elem dev j : j ∈ on dev <-> j ∈ ids /\ dev_of j = dev.
Proof. unfold on. by rewrite list_elem_of_In, filter_In, <-list_elem_of_In, Z.eqb_eq. Qed.

Lemma on_nodup dev : NoDup (on dev).
Proof. unfold on. by apply NoDup_ListNoDup, List.NoDup_filter, NoDup_ListNoDup. Qed.

Lemma on_length dev : Z.of_nat (length (on dev)) < 2 ^ 32 - 1.
Proof. unfold on. pose proof (List.filter_length_le (fun j => dev_of j =? dev) ids). lia. Qed.

Definition lossless (t : Tracepoint) : Prop :=
  match t with
  | Insert h _ _ | Issue h _ _ | Requeue h _ _ | Complete h _ _ _ _ => request_stored h = true /\ device_stored h = true
  | Merge _ => True
  end.

(** A request at an address is always of the same device, and the devices are no
    more than the maps take. *)
Record known (t : Tracepoint) : Prop := {
  kn_ok : tracepoint_ok t;
  kn_lossless : lossless t;
  kn_id : rq_id (request_of t) ∈ ids;
  kn_device : request_device (request_of t) = dev_of (rq_id (request_of t));
  kn_devs : tracked (request_of t) = true -> request_device (request_of t) ∈ devs
}.

(** The clock does not go back. *)
Fixpoint clock_ok (time : Z) (ts : list Tracepoint) : Prop :=
  match ts with
  | [] => time <= u64_max
  | t :: ts => time <= time_of t time /\ clock_ok (time_of t time) ts
  end.

Definition clock_after (time : Z) (ts : list Tracepoint) : Z := foldl (fun time t => time_of t time) time ts.

(** What the completions of a device move, and how many of them fail. *)
Definition moved_by (dev op : Z) (t : Tracepoint) : Z :=
  match t with
  | Complete _ rq _ nr_bytes _ =>
      if tracked rq && (request_device rq =? dev) && (request_operation rq =? op) then nr_bytes else 0
  | _ => 0
  end.

Definition failed_by (dev op : Z) (t : Tracepoint) : Z :=
  match t with
  | Complete _ rq error _ _ =>
      if tracked rq && (request_device rq =? dev) && (request_operation rq =? op) && negb (error =? 0) then 1 else 0
  | _ => 0
  end.

(** The statistics of an operation after some completions. *)
Definition counted (moved failed : Z) (all : list Served) : OperationStats :=
  let timed := if latency_enabled cfg then all else [] in
  mkOperationStats (if bytes_enabled cfg then wrap 64 moved else 0)
    (if operations_enabled cfg then wrap 64 (Z.of_nat (length all)) else 0)
    (if errors_enabled cfg then wrap 64 failed else 0)
    (wrap 64 (sum_of sv_queue timed)) (wrap 64 (sum_of sv_service timed)) (wrap 64 (sum_of sv_total timed))
    (Kernel.histogram_of (map sv_service timed)) (Kernel.histogram_of (map sv_total timed)).

Definition served_as (op : Z) (l : Life) : list Served := List.filter (fun s => sv_op s =? op) (served l).

Record depth_ok (time : Z) (lives : Z -> Life) (dev : Z) (d : DeviceDepth) : Prop := {
  do_maxima : maxima_ok d;
  do_updated : 0 < last_update_ns d <= time;
  do_queue : queue_gauge (on dev) lives (last_update_ns d) (dd_queued d) (dd_queued_ns d);
  do_service : service_gauge (on dev) lives (last_update_ns d) (dd_inflight d) (dd_inflight_ns d)
}.

Definition stats_ok (hist : list Tracepoint) (lives : Z -> Life) (dev : Z) (k : Kernel) : Prop :=
  length (ops_of dev k) = OPERATION_COUNT /\
  forall op, 0 <= op < 5 -> exists all,
    Permutation all (concat (map (fun id => served_as op (lives id)) (on dev))) /\
    ops_of dev k !! Z.to_nat op = Some (counted (sum_of (moved_by dev op) hist) (sum_of (failed_by dev op) hist) all).

Record sums_ok (time : Z) (hist : list Tracepoint) (lives : Z -> Life) (k : Kernel) : Prop := {
  so_tracked : tracked_devices k = tracked_devices k0;
  so_requests : forall id, id ∈ ids -> request_as (dev_of id) (phase (lives id)) (requests k !! id);
  so_known : forall id, is_Some (requests k !! id) -> id ∈ ids;
  so_phases : forall id, id ∈ ids -> phase_ok time (phase (lives id));
  so_lives : forall id, id ∈ ids -> life_ok (lives id);
  so_watched : saturation_enabled cfg = true -> forall dev, dev ∈ watched -> is_Some (device_depths k !! dev);
  so_devices : forall dev, is_Some (device_stats k !! dev) -> dev ∈ devs;
  so_depths : saturation_enabled cfg = true -> forall dev d, device_depths k !! dev = Some d -> depth_ok time lives dev d;
  so_stats : forall dev, stats_ok hist lives dev k
}.

Lemma should_track_same k dev op : tracked_devices k = tracked_devices k0 -> should_track cfg k dev op = should_track cfg k0 dev op.
Proof. unfold should_track. by intros ->. Qed.


(** *** Statistics *)

Lemma wrap_add_l a b : wrap 64 (wrap 64 a + b) = wrap 64 (a + b).
Proof. apply Zplus_mod_idemp_l. Qed.

Lemma histogram_of_snoc ls ns : Kernel.histogram_of (ls ++ [ns]) = Kernel.count_latency (Kernel.histogram_of ls) ns.
Proof. unfold Kernel.histogram_of. by rewrite foldl_app. Qed.

Lemma sum_of_snoc {A} (f : A -> Z) l x : sum_of f (l ++ [x]) = sum_of f l + f x.
Proof. rewrite sum_of_app. cbn. lia. Qed.

Lemma counted_served moved failed all s :
  count_completion cfg (sv_queue s) (sv_service s) (sv_total s) (counted moved failed all) =
  counted moved failed (all ++ [s]).
Proof.
  unfold count_completion, counted, count_operation, add_latency.
  destruct (operations_enabled cfg), (latency_enabled cfg); cbn; f_equal;
    rewrite ?wrap_add_l, ?sum_of_snoc, ?length_app, ?map_app; cbn [map]; rewrite ?histogram_of_snoc; try done;
    f_equal; cbn; lia.
Qed.

Lemma counted_moved moved failed all nr_bytes error :
  add_bytes cfg nr_bytes error (counted moved failed all) =
  counted (moved + nr_bytes) (failed + if negb (error =? 0) then 1 else 0) all.
Proof.
  unfold add_bytes, counted. cbn. f_equal.
  - destruct (bytes_enabled cfg); [|done]. cbn. destruct (Z.eqb_spec nr_bytes 0); cbn [negb];
      rewrite ?wrap_add_l; [f_equal; lia|done].
  - destruct (errors_enabled cfg); [|done]. cbn. destruct (negb _); [by rewrite wrap_add_l|f_equal; lia].
Qed.

Lemma served_lookup op new moved failed all ops :
  0 <= op < 5 -> Forall op_ok new -> ops !! Z.to_nat op = Some (counted moved failed all) ->
  foldl (add_served cfg) ops new !! Z.to_nat op =
  Some (counted moved failed (all ++ List.filter (fun s => sv_op s =? op) new)).
Proof.
  intros Hop Hnew. revert all ops. induction Hnew as [|s new Hs Hnew IH]; intros all ops Ho; [by rewrite app_nil_r|].
  cbn [foldl List.filter]. destruct Hs as [Hs _]. unfold add_served at 2. destruct (Z.eqb_spec (sv_op s) op) as [<-|Hne].
  - rewrite (IH (all ++ [s])); [by rewrite <-app_assoc|]. rewrite list_lookup_alter_eq, Ho. cbn.
    by rewrite counted_served.
  - apply IH. by rewrite list_lookup_alter_ne by lia.
Qed.

Lemma length_served ops new : length (foldl (add_served cfg) ops new) = length ops.
Proof.
  revert ops. induction new as [|s new IH]; intros ops; [done|]. cbn [foldl]. rewrite IH. apply length_alter.
Qed.

(** *** One step *)

Section Step.

Context (time : Z) (hist : list Tracepoint) (lives lives' : Z -> Life) (k : Kernel) (t : Tracepoint).

Local Notation rq := (request_of t).
Local Notation id := (rq_id (request_of t)).
Local Notation now := (time_of t time).

Context (Hok : sums_ok time hist lives k) (Ht : known t) (Htime : 0 < time <= now) (Hmax : now <= u64_max).
Context (Hfollow : forall j, j ∈ ids -> follow tracked j t (lives j) = Some (lives' j)).
Context (Hsame : forall j, j ∉ ids -> lives' j = lives j).

Lemma step_differ : differ_at id lives lives'.
Proof.
  intros j Hj. destruct (decide (j ∈ ids)) as [Hin|Hin]; [|by apply Hsame].
  specialize (Hfollow j Hin). unfold follow in Hfollow. destruct (Z.eqb_spec id j); [congruence|].
  cbn [negb] in Hfollow. congruence.
Qed.

Lemma step_progress : progress now (lives id) (lives' id).
Proof.
  eapply (follow_progress tracked id t); [apply Ht|lia|lia| |apply Hfollow, (kn_id t Ht)].
  apply (so_phases _ _ _ _ Hok), (kn_id t Ht).
Qed.

Lemma step_follow : follow tracked id t (lives id) = Some (lives' id).
Proof. apply Hfollow, (kn_id t Ht). Qed.

(** Whether the programs look at the tracepoint. *)
Definition looked_at : bool := match t with Merge _ => true | _ => tracked rq end.

Lemma step_ignored : looked_at = false -> lives' id = lives id /\ handle cfg t k = k.
Proof.
  unfold looked_at. pose proof step_follow as Hf. unfold follow in Hf. rewrite Z.eqb_refl in Hf. cbn [negb] in Hf.
  intros Hl. destruct t; try done; cbn in *; rewrite Hl in Hf; simplify_eq; split; try done;
    unfold tracked in Hl; rewrite <-(should_track_same k _ _ (so_tracked _ _ _ _ Hok)) in Hl.
  - unfold trace_block_rq_insert. cbv zeta. by rewrite Htracking, Hl.
  - unfold trace_block_rq_issue. cbv zeta. by rewrite Htracking, Hl.
  - unfold trace_block_rq_requeue. cbv zeta. by rewrite Htracking, andb_false_r, Hl.
  - unfold trace_block_rq_complete. cbv zeta. by rewrite Hl.
Qed.

Lemma step_effect : looked_at = true -> effect cfg id (dev_of id) now (add_moved cfg t) (lives id) (lives' id) k (handle cfg t k).
Proof.
  unfold looked_at. intros Hl. pose proof step_follow as Hf. unfold follow in Hf. rewrite Z.eqb_refl in Hf. cbn [negb] in Hf.
  rewrite <-(kn_device t Ht). destruct Ht as [[Hrq Hargs] Hless Hid Hdv Hdevs'].
  pose proof (so_requests _ _ _ _ Hok id Hid) as Hr. rewrite <-Hdv in Hr.
  pose proof (phase_ok_later _ _ _ (proj2 Htime) (so_phases _ _ _ _ Hok id Hid)) as Hp.
  assert (requests k !! id = None -> Z.of_nat (size (requests k)) < requests_entries cfg) as Hsize.
  { intros Hn. pose proof (keys_bounded _ ids id (so_known _ _ _ _ Hok) Hid Hn). lia. }
  assert (tracked rq = true -> forall h, device_stored h = true -> has_room cfg h (request_device rq) k) as Hroom.
  { intros Htr h Hh. unfold has_room. destruct (device_stats k !! request_device rq) eqn:E; [left; by eexists|right].
    pose proof (keys_bounded _ devs _ (so_devices _ _ _ _ Hok) (Hdevs' Htr) E). split; [done|lia]. }
  destruct t; cbn in *; try (rewrite Hl in Hf); try destruct Hless as [Hs1 Hs2];
    pose proof Hl as Htr; unfold tracked in Htr;
    try rewrite <-(should_track_same k _ _ (so_tracked _ _ _ _ Hok)) in Htr.
  - apply insert_effect; auto; lia.
  - apply merge_effect; auto; lia.
  - apply issue_effect; auto; lia.
  - apply requeue_effect; auto; lia.
  - apply complete_effect; auto; lia.
Qed.

(** What the tracepoint moves. *)
Definition moves : list OperationStats -> list OperationStats :=
  if looked_at then add_moved cfg t else fun ops => ops.

Lemma step_any : effect cfg id (dev_of id) now moves (lives id) (lives' id) k (handle cfg t k).
Proof.
  unfold moves. destruct looked_at eqn:El; [by apply step_effect|]. destruct (step_ignored El) as [-> ->].
  split; try done.
  - apply (so_requests _ _ _ _ Hok), (kn_id t Ht).
  - intros _ _. unfold shift. by rewrite !Z.sub_diag.
  - by apply only_new_same.
  - exists []. rewrite app_nil_r. split; [done|]. intros j. by destruct (decide (j = dev_of id)) as [-> |].
Qed.

(** *** Depths *)

Lemma step_depth d :
  device_depths k !! dev_of id = Some d -> depth_ok time lives (dev_of id) d ->
  exists d', shift (dev_of id) (one (queued_since (phase (lives' id))) - one (queued_since (phase (lives id))))
      (one (issued_since (phase (lives' id))) - one (issued_since (phase (lives id)))) now (device_depths k)
      !! dev_of id = Some d' /\ depth_ok now lives' (dev_of id) d'.
Proof.
  intros Hd [Hm Hu Hq Hs]. pose proof step_progress as [Hp Eq Es Hqs Hss]. pose proof step_differ as Hdiff.
  unfold shift. destruct (_ && _) eqn:E.
  - to_prop. exists d. split; [done|]. destruct (Hqs ltac:(lia)) as [E1 E2], (Hss ltac:(lia)) as [E3 E4].
    split; [done|lia| |]; by apply (gauge_same _ _ _ id lives).
  - exists (adjust (one (queued_since (phase (lives' id))) - one (queued_since (phase (lives id))))
      (one (issued_since (phase (lives' id))) - one (issued_since (phase (lives id)))) now d).
    rewrite lookup_alter_eq, Hd. split; [done|]. assert (id ∈ on (dev_of id)) as Hid by (apply on_elem; split; [apply Ht|done]).
    destruct (accrue_same now d) as (E1 & E2 & _ & _).
    destruct (accrue_ns now d) as [E3 E4]; [lia|done|by apply gauge_wrapped in Hq|by apply gauge_wrapped in Hs|].
    split; [apply adjust_maxima|cbn; lia| |]; cbn; rewrite ?E1, ?E2, ?E3, ?E4.
    + apply gauge_adjust; try done; [apply on_nodup|apply on_length|lia|].
      intros q. destruct (phase (lives' id)); try done. cbn in *. intros ->. lia.
    + apply gauge_adjust; try done; [apply on_nodup|apply on_length|lia|].
      intros q. destruct (phase (lives' id)); try done. cbn in *. intros [= ->]. lia.
Qed.

Lemma step_depths :
  saturation_enabled cfg = true -> forall dev d, device_depths (handle cfg t k) !! dev = Some d -> depth_ok now lives' dev d.
Proof.
  intros Hsat dev d Hd. pose proof (so_depths _ _ _ _ Hok Hsat) as Hall. pose proof step_differ as Hdiff.
  rewrite (ef_depths _ _ _ _ _ _ _ _ _ step_any Hsat) in Hd.
  2: { intros d0 Hd0. apply (Hall _ _ Hd0). }
  destruct (decide (dev = dev_of id)) as [-> | Hne].
  - destruct (device_depths k !! dev_of id) as [d0|] eqn:E.
    + destruct (step_depth d0 E (Hall _ _ E)) as (d' & Hd' & Hok'). congruence.
    + exfalso. unfold shift in Hd. destruct (_ && _); [congruence|]. rewrite lookup_alter_eq, E in Hd. done.
  - assert (device_depths k !! dev = Some d) as Hd0.
    { unfold shift in Hd. destruct (_ && _); [done|]. by rewrite lookup_alter_ne in Hd. }
    destruct (Hall _ _ Hd0) as [Hm Hu Hq Hs].
    assert (id ∉ on dev) by (rewrite on_elem; intros [_ ?]; congruence).
    split; [done|lia| |]; by apply (gauge_same _ _ _ id lives).
Qed.

Lemma moves_lookup op moved failed all ops :
  0 <= op < 5 -> ops !! Z.to_nat op = Some (counted moved failed all) ->
  moves ops !! Z.to_nat op =
  Some (counted (moved + moved_by (dev_of id) op t) (failed + failed_by (dev_of id) op t) all).
Proof.
  intros Hop Ho. pose proof (kn_device t Ht) as Hd. unfold moves, looked_at.
  assert (ops !! Z.to_nat op = Some (counted (moved + 0) (failed + 0) all)) as H0 by by rewrite !Z.add_0_r.
  destruct t; cbn in *; try (destruct (tracked rq)); try done. rewrite Hd, Z.eqb_refl.
  cbn [andb add_moved].
  pose proof (request_operation_bound rq). destruct (Z.eqb_spec (request_operation rq) op) as [<-|Hne]; cbn [andb].
  - by rewrite list_lookup_alter_eq, Ho, <-counted_moved.
  - by rewrite list_lookup_alter_ne by lia.
Qed.

Lemma moves_length ops : length (moves ops) = length ops.
Proof. unfold moves, looked_at. destruct t; cbn; try (destruct (tracked _)); try done; apply length_alter. Qed.

Lemma step_stats dev : stats_ok (hist ++ [t]) lives' dev (handle cfg t k).
Proof.
  destruct (so_stats _ _ _ _ Hok dev) as [Hlen Hall]. pose proof step_differ as Hdiff.
  destruct (ef_ops _ _ _ _ _ _ _ _ _ step_any) as (new & Hnew & Hops). unfold stats_ok. rewrite Hops.
  assert (Forall op_ok new) as Hok5.
  { destruct (follow_life_ok _ _ _ _ _ time (proj2 Htime) (so_phases _ _ _ _ Hok id (kn_id t Ht))
      (so_lives _ _ _ _ Hok id (kn_id t Ht)) step_follow) as [H _]. rewrite Hnew in H. by apply Forall_app in H as [_ H]. }
  destruct (decide (dev = dev_of id)) as [-> | Hne].
  - split; [by rewrite length_served, moves_length|]. intros op Hop. destruct (Hall op Hop) as (all & Hp & Ho).
    eexists. rewrite !sum_of_snoc. split; [|apply served_lookup; [done|done|by apply moves_lookup]].
    symmetry. etransitivity.
    + apply (concat_map_update (fun j => served_as op (lives j)) _ id); [apply on_nodup| | |].
      * apply on_elem. split; [apply Ht|done].
      * unfold served_as. by rewrite Hnew, List.filter_app.
      * intros j Hj. by rewrite Hdiff.
    + by rewrite Hp.
  - split; [done|]. intros op Hop. destruct (Hall op Hop) as (all & Hp & Ho). exists all. rewrite !sum_of_snoc.
    assert (moved_by dev op t = 0 /\ failed_by dev op t = 0) as [-> ->].
    { pose proof (kn_device t Ht). unfold moved_by, failed_by. destruct t; try done. cbn in *.
      destruct (Z.eqb_spec (request_device rq) dev); [congruence|]. by rewrite andb_false_r. }
    rewrite !Z.add_0_r. split; [|done]. rewrite Hp. erewrite map_ext_in; [done|].
    intros j [_ Hj]%list_elem_of_In%on_elem. rewrite Hdiff; [done|]. congruence.
Qed.

Lemma step_watched :
  saturation_enabled cfg = true -> forall dev, dev ∈ watched -> is_Some (device_depths (handle cfg t k) !! dev).
Proof.
  intros Hsat dev Hdev. rewrite (ef_depths _ _ _ _ _ _ _ _ _ step_any Hsat).
  2: { intros d Hd. apply (so_depths _ _ _ _ Hok Hsat _ _ Hd). }
  unfold shift. destruct (_ && _); [|apply lookup_alter_is_Some]; by apply (so_watched _ _ _ _ Hok).
Qed.

Lemma step_devices dev : is_Some (device_stats (handle cfg t k) !! dev) -> dev ∈ devs.
Proof.
  intros H. destruct (ef_keys _ _ _ _ _ _ _ _ _ step_any dev H) as [-> | H']; [|by apply (so_devices _ _ _ _ Hok)].
  destruct looked_at eqn:El.
  - unfold looked_at in El. destruct t; try (rewrite <-(kn_device _ Ht); by apply (kn_devs _ Ht)).
    apply (so_devices _ _ _ _ Hok). cbn in H. unfold trace_block_rq_merge in H.
    destruct (negb _); [done|]. by destruct (requests k !! _).
  - rewrite (proj2 (step_ignored El)) in H. by apply (so_devices _ _ _ _ Hok).
Qed.

Lemma step_ok : sums_ok now (hist ++ [t]) lives' (handle cfg t k).
Proof.
  pose proof step_any as [Htr Hr Hoth _ Hk _]. pose proof step_differ as Hdiff. split.
  - rewrite Htr. apply Hok.
  - intros j Hj. destruct (decide (j = id)) as [-> | Hne]; [done|]. rewrite Hoth, Hdiff by done. by apply Hok.
  - intros j Hj. destruct (decide (j = id)) as [-> | Hne]; [apply Ht|]. rewrite Hoth in Hj by done.
    by apply (so_known _ _ _ _ Hok).
  - intros j Hj. destruct (decide (j = id)) as [-> | Hne]; [apply step_progress|]. rewrite Hdiff by done.
    apply (phase_ok_later time); [lia|]. by apply (so_phases _ _ _ _ Hok).
  - intros j Hj. destruct (decide (j = id)) as [-> | Hne].
    + eapply follow_life_ok; [apply Htime| | |apply step_follow];
        [by apply (so_phases _ _ _ _ Hok)|by apply (so_lives _ _ _ _ Hok)].
    + rewrite Hdiff by done. by apply (so_lives _ _ _ _ Hok).
  - apply step_watched.
  - apply step_devices.
  - apply step_depths.
  - apply step_stats.
Qed.

End Step.

(** *** Whole runs *)

Definition live (ts : list Tracepoint) (lives lives' : Z -> Life) : Prop :=
  forall j, j ∈ ids -> foldl (fun l t => l ≫= follow tracked j t) (Some (lives j)) ts = Some (lives' j).

Lemma life_dead j ts : foldl (fun l t => l ≫= follow tracked j t) None ts = None.
Proof. by induction ts. Qed.

Lemma live_cons t ts lives lives' :
  live (t :: ts) lives lives' ->
  exists mid, (forall j, j ∈ ids -> follow tracked j t (lives j) = Some (mid j)) /\
    (forall j, j ∉ ids -> mid j = lives j) /\ live ts mid lives'.
Proof.
  intros H. exists (fun j => if decide (j ∈ ids) then default (lives j) (follow tracked j t (lives j)) else lives j).
  assert (forall j, j ∈ ids -> exists l, follow tracked j t (lives j) = Some l) as Hf.
  { intros j Hj. specialize (H j Hj). cbn in H. destruct (follow tracked j t (lives j)) as [l|]; [by exists l|].
    by rewrite life_dead in H. }
  split_and!.
  - intros j Hj. rewrite decide_True by done. by destruct (Hf j Hj) as [l ->].
  - intros j Hj. by rewrite decide_False.
  - intros j Hj. rewrite decide_True by done. specialize (H j Hj). cbn in H. destruct (Hf j Hj) as [l E].
    rewrite E in H |- *. exact H.
Qed.

Lemma clock_after_bound time ts : clock_ok time ts -> clock_after time ts <= u64_max.
Proof. revert time. induction ts as [|t ts IH]; intros time H; [exact H|]. apply IH, H. Qed.

Lemma clock_ok_bound time ts : clock_ok time ts -> time <= u64_max.
Proof. revert time. induction ts as [|t ts IH]; intros time H; [exact H|]. destruct H as [H1 H2%IH]. lia. Qed.

Lemma run_ok ts time hist lives lives' k :
  sums_ok time hist lives k -> 0 < time -> clock_ok time ts -> Forall known ts -> live ts lives lives' ->
  exists lives1, (forall j, j ∈ ids -> lives1 j = lives' j) /\
    sums_ok (clock_after time ts) (hist ++ ts) lives1 (handle_all cfg ts k).
Proof.
  revert time hist lives k. induction ts as [|t ts IH]; intros time hist lives k Hok H0 Hc Hkn Hl.
  - exists lives. rewrite app_nil_r. split; [|done]. intros j Hj. specialize (Hl j Hj). cbn in Hl. by simplify_eq.
  - apply Forall_cons in Hkn as [Ht Hkn]. destruct Hc as [Hle Hc]. apply live_cons in Hl as (mid & Hf & Hs & Hl).
    pose proof (clock_ok_bound _ _ Hc).
    destruct (IH (time_of t time) (hist ++ [t]) mid (handle cfg t k)) as (lives1 & E & Hk); try done; [|lia|].
    + by apply (step_ok time hist lives mid k t).
    + exists lives1. split; [done|]. by rewrite <-app_assoc in Hk.
Qed.

Lemma run_start filters at_ :
  0 < at_ -> tracked_devices k0 = filters -> sums_ok at_ [] (fun _ => unborn) (kernel_init watched filters at_).
Proof.
  intros H0 <-. split; try done.
  all: try (by intros ? [? ?]).
  - intros _ dev Hd. exists (mkDeviceDepth 0 at_ at_ 0 0 0 0 0 0 0 0). by apply lookup_gset_to_gmap_Some.
  - intros _ dev d [Hd <-]%lookup_gset_to_gmap_Some.
    assert (forall l, sum_of (fun _ : Z => 0) l = 0) as Hz by (intros l; induction l; [done|by rewrite sum_of_cons]).
    split; [done|cbn; lia| |]; split; cbn; try done; by rewrite ?Hz.
  - intros dev. split; [done|]. intros op Hop. exists []. split.
    + induction (on dev) as [|j l IH]; [done|]. exact IH.
    + change (ops_of dev _) with (replicate OPERATION_COUNT OperationStats_default).
      rewrite lookup_replicate_2 by (unfold OPERATION_COUNT; lia).
      unfold counted, OperationStats_default. by destruct (bytes_enabled cfg), (operations_enabled cfg), (errors_enabled cfg), (latency_enabled cfg).
Qed.

End Run.

(** ** The sums over the lives of requests *)

(** A run of the programs over whole lives of requests, from the time the maps are
    set up: the clock does not go back, an address is always of the same device, the
    maps are large enough, and every request lives as [follow] says. *)
Record block_run (cfg : KernelConfig) (depths filters : gset Z) (at_ : Z) (dev_of : Z -> Z) (ids devs : list Z)
    (ts : list Tracepoint) (lives : Z -> Life) : Prop := {
  br_tracking : request_tracking_enabled cfg = true;
  br_ids : NoDup ids;
  br_entries : Z.of_nat (length ids) <= requests_entries cfg < 2 ^ 32 - 1;
  br_devs : Z.of_nat (length devs) <= device_stats_entries cfg;
  br_start : 0 < at_;
  br_clock : clock_ok at_ ts;
  br_known : Forall (known cfg (kernel_init depths filters at_) dev_of ids devs) ts;
  br_lives : forall id, id ∈ ids -> life (tracked cfg (kernel_init depths filters at_)) id ts = Some (lives id)
}.

Lemma block_run_ok cfg depths filters at_ dev_of ids devs ts lives :
  block_run cfg depths filters at_ dev_of ids devs ts lives ->
  exists lives1, (forall j, j ∈ ids -> lives1 j = lives j) /\
    sums_ok cfg (kernel_init depths filters at_) dev_of ids devs depths (clock_after at_ ts) ts lives1
      (handle_all cfg ts (kernel_init depths filters at_)).
Proof.
  intros []. apply (run_ok cfg (kernel_init depths filters at_) dev_of ids devs br_tracking0 br_ids0 br_entries0
    depths br_devs0 ts at_ [] (fun _ => unborn)); try done. by apply run_start.
Qed.

(** What the collector extrapolates from a gauge is what the requests have been in
    the state by then. *)
Lemma extrapolated since closed l lives updated count ns now :
  gauge since closed l lives updated count ns -> updated <= now -> 0 <= count ->
  0 <= sum_of (fun id => in_state since closed updated (lives id)) l ->
  sum_of (fun id => in_state since closed now (lives id)) l <= u64_max ->
  sat_add 64 ns (sat_mul 64 (sat_sub now updated) count) = sum_of (fun id => in_state since closed now (lives id)) l.
Proof.
  intros [Hc -> _] Hle H0 Hn.
  rewrite (sum_of_ext _ _ l (fun id _ => in_state_later since closed updated now (lives id))), sum_of_plus, sum_of_scale.
  rewrite <-Hc. intros Hm. assert (0 <= (now - updated) * count) by nia.
  unfold sat_add, sat_mul, sat_sub. rewrite Z.max_r by lia. rewrite wrap64_small by lia. unfold u64_max in *. lia.
Qed.

Lemma time_nonneg since closed l lives updated count ns :
  gauge since closed l lives updated count ns -> (forall id, id ∈ l -> 0 <= closed (lives id)) ->
  0 <= sum_of (fun id => in_state since closed updated (lives id)) l.
Proof.
  intros [_ _ Hs] Hc. assert (forall id, id ∈ l -> 0 <= in_state since closed updated (lives id)) as H.
  { intros id Hid. specialize (Hc id Hid). unfold in_state. destruct (since (phase (lives id))) as [q|] eqn:E; cbn; [|lia].
    specialize (Hs id q Hid E). lia. }
  clear -H. induction l as [|x l IH]; [done|]. rewrite sum_of_cons. specialize (H x ltac:(left)) as Hx.
  specialize (IH ltac:(intros y Hy; apply H; by right)). lia.
Qed.

(** C30. Little's law of the block tracker.  Over any interleaving of requests on any
    devices, whatever is merged, requeued and completed in parts: the depth of a
    device, as the collector extrapolates it to the time it reads the map, counts
    exactly the requests that wait in its queue and those it works on, and the two
    time integrals are the sums of the times its requests have waited and have been
    worked on, unless these exceed 64 bits. *)
Theorem depth_accounted cfg depths filters at_ dev_of ids devs ts lives dev now :
  block_run cfg depths filters at_ dev_of ids devs ts lives -> saturation_enabled cfg = true -> dev ∈ depths ->
  clock_after at_ ts <= now <= u64_max ->
  exists d, device_depths (handle_all cfg ts (kernel_init depths filters at_)) !! dev = Some d /\
    let requests := map lives (on dev_of ids dev) in
    let s := snapshot d now in
    queued s = sum_of (fun l => one (queued_since (phase l))) requests /\
    inflight s = sum_of (fun l => one (issued_since (phase l))) requests /\
    queued s <= max_queued s /\ inflight s <= max_inflight s /\
    (sum_of (queue_time now) requests <= u64_max -> queued_ns s = sum_of (queue_time now) requests) /\
    (sum_of (service_time now) requests <= u64_max -> inflight_ns s = sum_of (service_time now) requests).
Proof.
  intros Hrun Hsat Hdev Hnow. destruct (block_run_ok _ _ _ _ _ _ _ _ _ Hrun) as (lives1 & E & Hok).
  set (k := handle_all _ _ _) in *. clearbody k. destruct (so_watched _ _ _ _ _ _ _ _ _ _ Hok Hsat dev Hdev) as [d Hd].
  exists d. split; [done|]. destruct (so_depths _ _ _ _ _ _ _ _ _ _ Hok Hsat dev d Hd) as [[Hm1 Hm2] Hu Hq Hs].
  assert (forall f : Life -> Z, sum_of f (map lives (on dev_of ids dev)) = sum_of (fun id => f (lives1 id)) (on dev_of ids dev))
    as Hsum.
  { intros f. rewrite sum_of_map. apply sum_of_ext. intros j [Hj _]%on_elem. by rewrite E. }
  assert (forall j, j ∈ on dev_of ids dev -> 0 <= waited (lives1 j) /\ 0 <= worked (lives1 j)) as Hpos.
  { intros j [Hj _]%on_elem. by destruct (so_lives _ _ _ _ _ _ _ _ _ _ Hok j Hj) as (_ & ? & ?). }
  cbv zeta. rewrite !Hsum. unfold snapshot. cbn. split_and!.
  - apply Hq.
  - apply Hs.
  - done.
  - done.
  - intros Hle. apply (extrapolated queued_since waited); [exact Hq|lia|apply (gauge_bound _ _ _ _ _ _ _ Hq)| |exact Hle].
    apply (time_nonneg _ _ _ _ _ _ _ Hq). intros j Hj. by apply Hpos.
  - intros Hle. apply (extrapolated issued_since worked); [exact Hs|lia|apply (gauge_bound _ _ _ _ _ _ _ Hs)| |exact Hle].
    apply (time_nonneg _ _ _ _ _ _ _ Hs). intros j Hj. by apply Hpos.
Qed.

(** C18. From the block layer to the statistics.  Over any such run: the statistics of
    an operation on a device hold the bytes and the failures of all its completions,
    and count each completed request once, with its latencies and in the histograms
    the percentiles are taken of; of every request the latencies are the time of its
    attempts, the rest, and their sum. *)
Theorem completions_counted cfg depths filters at_ dev_of ids devs ts lives dev op :
  block_run cfg depths filters at_ dev_of ids devs ts lives -> 0 <= op < 5 ->
  let k0 := kernel_init depths filters at_ in
  let requests := map lives (on dev_of ids dev) in
  exists all, Permutation all (concat (map (served_as op) requests)) /\
    ops_of dev (handle_all cfg ts k0) !! Z.to_nat op =
      Some (counted cfg (sum_of (moved_by cfg k0 dev op) ts) (sum_of (failed_by cfg k0 dev op) ts) all) /\
    forall s, s ∈ all -> 0 <= sv_queue s /\ 0 <= sv_service s /\ sv_queue s + sv_service s = sv_total s.
Proof.
  intros Hrun Hop k0 requests. destruct (block_run_ok _ _ _ _ _ _ _ _ _ Hrun) as (lives1 & E & Hok). fold k0 in Hok.
  destruct (so_stats _ _ _ _ _ _ _ _ _ _ Hok dev) as [_ Hall]. destruct (Hall op Hop) as (all & Hp & Ho). exists all.
  assert (map (fun id => served_as op (lives1 id)) (on dev_of ids dev) = map (served_as op) requests) as Em.
  { unfold requests. rewrite map_map. apply map_ext_in. intros j [Hj _]%list_elem_of_In%on_elem. by rewrite E. }
  rewrite Em in Hp. split_and!; [exact Hp|exact Ho|]. intros s Hs. rewrite Hp in Hs.
  apply list_elem_of_In, in_concat in Hs as (l & (x & <- & (id & <- & Hid)%in_map_iff)%in_map_iff & Hs).
  apply list_elem_of_In, on_elem in Hid as [Hid _]. destruct (so_lives _ _ _ _ _ _ _ _ _ _ Hok id Hid) as [Hsv _].
  rewrite E in Hsv by done. unfold served_as in Hs. apply filter_In in Hs as [Hs _].
  destruct (proj1 (Forall_forall _ _) Hsv s ltac:(by apply list_elem_of_In)) as [_ H]. exact H.
Qed.

(** ** Examples *)

(** Two requests: one is completed, the other is requeued and is worked on again. *)
Definition demo_ts : list Tracepoint :=
  let h := demo_helpers in
  [Insert h (demo_rq 1) 100; Insert h (demo_rq 2) 105; Issue h (demo_rq 1) 110; Issue h (demo_rq 2) 120;
   Requeue h (demo_rq 2) 130; Issue h (demo_rq 2) 140; Complete h (demo_rq 1) 0 1024 145;
   Complete h (demo_rq 1) 0 3072 150].

Definition demo_k0 : Kernel := kernel_init {[8388608]} ∅ 50.

Definition demo_lives (id : Z) : Life := default unborn (life (tracked demo_cfg demo_k0) id demo_ts).

Lemma demo_block_run : block_run demo_cfg {[8388608]} ∅ 50 (fun _ => 8388608) [1; 2] [8388608] demo_ts demo_lives.
Proof.
  split; [done|repeat constructor; set_solver|cbn; lia|cbn; lia|lia|cbn; unfold u64_max; lia| |].
  - repeat (apply Forall_cons; split); try apply Forall_nil_2; 
      (split; [by repeat split|done|set_solver|done|intros _; set_solver]).
  - intros id Hid. unfold demo_lives. repeat (apply elem_of_cons in Hid as [-> | Hid]; [by vm_compute|]).
    by apply elem_of_nil in Hid.
Qed.

Lemma depth_accounted_witness :
  exists d, device_depths (handle_all demo_cfg demo_ts demo_k0) !! 8388608 = Some d /\
    let s := snapshot d 200 in
    queued s = 0 /\ inflight s = 1 /\ queued_ns s = 25 /\ inflight_ns s = 110.
Proof.
  destruct (depth_accounted _ _ _ _ _ _ _ _ _ 8388608 200 demo_block_run eq_refl ltac:(set_solver))
    as (d & Hd & Hq & Hi & _ & _ & H1 & H2); [by vm_compute|].
  exists d. split; [exact Hd|]. cbv zeta. rewrite Hq, Hi, H1, H2 by (by vm_compute).
  clear. vm_compute. repeat split.
Defined.

Lemma completions_counted_witness :
  exists all, Permutation all [mkServed 1 10 40 50] /\
    ops_of 8388608 (handle_all demo_cfg demo_ts demo_k0) !! 1%nat = Some (counted demo_cfg 4096 0 all) /\
    forall s, s ∈ all -> sv_queue s + sv_service s = sv_total s.
Proof.
  destruct (completions_counted _ _ _ _ _ _ _ _ _ 8388608 1 demo_block_run ltac:(lia)) as (all & Hp & Ho & H).
  exists all. split; [exact Hp|]. split; [exact Ho|]. intros s Hs. by apply H.
Defined.

(** A request that completes within the resolution of the clock stays in the depth of
    its device for good. *)
Example same_instant_stays :
  let h := demo_helpers in
  let ts := [Issue h (demo_rq 1) 100; Complete h (demo_rq 1) 0 4096 100] in
  let k := handle_all demo_cfg ts demo_k0 in
  dd_inflight <$> device_depths k !! 8388608 = Some 1 /\ requests k = ∅.
Proof. by vm_compute. Qed.
