(* ===== verification/NetTrack.v ===== *)
(** * The network tracker

    The traffic the kernel counts per protocol, process and peer, and what is
    reported of it in regular samples (src/bpf/src/nettrack.rs). *)

From S2P Require Import Prelude Protocol Text Float BpfConfig BpfEvents.
From stdpp Require Import pretty.
Open Scope Z_scope.

Definition AF_INET : Z := 2.

Definition AF_INET6 : Z := 10.

Definition TCP_INDEX : Z := 0.

Definition UDP_INDEX : Z := 1.

(** ** Configuration *)

#[export] Instance NetProtocol_eq_dec : EqDecision NetProtocol.
Proof. solve_decision. Defined.

#[export] Instance NetDirection_eq_dec : EqDecision NetDirection.
Proof. solve_decision. Defined.

#[export] Instance NetScope_eq_dec : EqDecision NetScope.
Proof. solve_decision. Defined.

#[export] Instance NetMetric_eq_dec : EqDecision NetMetric.
Proof. solve_decision. Defined.

Module Protocol.

Definition index (self : NetProtocol) : Z := match self with Tcp => TCP_INDEX | Udp => UDP_INDEX end.

Definition from_index (index : Z) : option NetProtocol :=
  if index =? TCP_INDEX then Some Tcp else if index =? UDP_INDEX then Some Udp else None.

Definition name (self : NetProtocol) : string := match self with Tcp => "tcp" | Udp => "udp" end.

End Protocol.

Definition NetTrackConfig_default : NetTrackConfig :=
  {| nt_frequency := 9;
     nt_peer_frequency := 1;
     nt_ringbuf := 1024 * 1024;
     nt_scaled := false;
     nt_protocols := [Tcp; Udp];
     nt_directions := [Send; Receive];
     nt_scopes := [Host];
     nt_metrics := [Bytes];
     nt_pid_filters := [];
     nt_filter_process := [];
     nt_max_process_entries := 1024;
     nt_max_peer_entries := 4096;
     nt_max_peer_tracks := 512 |}.

(** [Vec::contains] *)
Definition has {A} `{EqDecision A} (x : A) (l : list A) : bool := bool_decide (x ∈ l).

Definition has_protocol (config : NetTrackConfig) (protocol : NetProtocol) : bool :=
  has protocol (nt_protocols config).

Definition has_direction (config : NetTrackConfig) (direction : NetDirection) : bool :=
  has direction (nt_directions config).

Definition has_scope (config : NetTrackConfig) (scope : NetScope) : bool := has scope (nt_scopes config).

Definition has_metric (config : NetTrackConfig) (metric : NetMetric) : bool := has metric (nt_metrics config).

Definition validate (config : NetTrackConfig) : result BpfError unit :=
  if nt_frequency config =? 0 then Err (LoadError "nettrack frequency must be greater than zero")
  else if has_scope config Peer && (nt_peer_frequency config =? 0) then
    Err (LoadError "nettrack peer_frequency must be greater than zero")
  else if is_empty (nt_protocols config) || is_empty (nt_directions config)
          || is_empty (nt_scopes config) || is_empty (nt_metrics config) then
    Err (LoadError "nettrack protocols, directions, scopes, and metrics must not be empty")
  else if has_scope config Process && (nt_max_process_entries config =? 0) then
    Err (LoadError "nettrack max_process_entries must be greater than zero")
  else if has_scope config Peer && ((nt_max_peer_entries config =? 0) || (nt_max_peer_tracks config =? 0)) then
    Err (LoadError "nettrack peer entry and track limits must be greater than zero")
  else Ok tt.

(** What [new] asks of the kernel programs: the sizes of their maps, the constants
    they read, and the programs that are loaded. *)
Record KernelConfig := mkKernelConfig {
  process_entries : Z;
  peer_entries : Z;
  tcp_enabled : bool;
  udp_enabled : bool;
  send_enabled : bool;
  receive_enabled : bool;
  host_enabled : bool;
  process_enabled : bool;
  peer_enabled : bool;
  bytes_enabled : bool;
  operations_enabled : bool;
  errors_enabled : bool;
  filter_enabled : bool;
  trace_tcp_sendmsg : bool;
  trace_tcp_recvmsg : bool;
  trace_udp_sendmsg : bool;
  trace_udp_recvmsg : bool
}.

Definition kernel_config (config : NetTrackConfig) : KernelConfig :=
  let tcp := has_protocol config Tcp in
  let udp := has_protocol config Udp in
  let send := has_direction config Send in
  let receive := has_direction config Receive in
  {| process_entries := if has_scope config Process then nt_max_process_entries config else 1;
     peer_entries := if has_scope config Peer then nt_max_peer_entries config else 1;
     tcp_enabled := tcp;
     udp_enabled := udp;
     send_enabled := send;
     receive_enabled := receive;
     host_enabled := has_scope config Host;
     process_enabled := has_scope config Process;
     peer_enabled := has_scope config Peer;
     bytes_enabled := has_metric config Bytes;
     operations_enabled := has_metric config Operations;
     errors_enabled := has_metric config Errors;
     filter_enabled := negb (is_empty (nt_pid_filters config)) || negb (is_empty (nt_filter_process config));
     trace_tcp_sendmsg := tcp && send;
     trace_tcp_recvmsg := tcp && receive;
     trace_udp_sendmsg := udp && send;
     trace_udp_recvmsg := udp && receive |}.

(** The processes to filter, as [new] enters them in the kernel's map; the first
    negative one ends it. *)
Fixpoint tracked_tgids (pids : list Z) : result BpfError (list Z) :=
  match pids with
  | [] => Ok []
  | pid :: pids =>
      if pid <? 0 then
        Err (LoadError ("nettrack PID filter must be positive: " ++ pretty pid)%string)
      else match tracked_tgids pids with Ok l => Ok (pid :: l) | Err e => Err e end
  end.

(** [filter]: the process the kernel's map gets. *)
Definition filter_pid (pid : Z) : result BpfError Z :=
  if pid <? 0 then Err (MapError ("invalid PID filter: " ++ pretty pid)%string) else Ok pid.

(** ** Statistics *)

Record StatsValue := mkStatsValue {
  send_bytes : Z;
  recv_bytes : Z;
  send_operations : Z;
  recv_operations : Z;
  send_errors : Z;
  recv_errors : Z;
  send_would_block : Z;
  recv_would_block : Z;
  tcp_recv_eof : Z;
  udp_recv_truncated : Z;
  first_seen_ns : Z;
  last_seen_ns : Z
}.

Definition StatsValue_default : StatsValue := mkStatsValue 0 0 0 0 0 0 0 0 0 0 0 0.

Definition accumulate (self other : StatsValue) : StatsValue :=
  {| send_bytes := sat_add 64 (send_bytes self) (send_bytes other);
     recv_bytes := sat_add 64 (recv_bytes self) (recv_bytes other);
     send_operations := sat_add 64 (send_operations self) (send_operations other);
     recv_operations := sat_add 64 (recv_operations self) (recv_operations other);
     send_errors := sat_add 64 (send_errors self) (send_errors other);
     recv_errors := sat_add 64 (recv_errors self) (recv_errors other);
     send_would_block := sat_add 64 (send_would_block self) (send_would_block other);
     recv_would_block := sat_add 64 (recv_would_block self) (recv_would_block other);
     tcp_recv_eof := sat_add 64 (tcp_recv_eof self) (tcp_recv_eof other);
     udp_recv_truncated := sat_add 64 (udp_recv_truncated self) (udp_recv_truncated other);
     first_seen_ns :=
       if (first_seen_ns self =? 0)
          || (negb (first_seen_ns other =? 0) && (first_seen_ns other <? first_seen_ns self))
       then first_seen_ns other else first_seen_ns self;
     last_seen_ns := Z.max (last_seen_ns self) (last_seen_ns other) |}.

Definition delta (self : StatsValue) (previous : option StatsValue) : StatsValue :=
  match previous with
  | Some previous =>
      if first_seen_ns previous =? first_seen_ns self then
        {| send_bytes := sat_sub (send_bytes self) (send_bytes previous);
           recv_bytes := sat_sub (recv_bytes self) (recv_bytes previous);
           send_operations := sat_sub (send_operations self) (send_operations previous);
           recv_operations := sat_sub (recv_operations self) (recv_operations previous);
           send_errors := sat_sub (send_errors self) (send_errors previous);
           recv_errors := sat_sub (recv_errors self) (recv_errors previous);
           send_would_block := sat_sub (send_would_block self) (send_would_block previous);
           recv_would_block := sat_sub (recv_would_block self) (recv_would_block previous);
           tcp_recv_eof := sat_sub (tcp_recv_eof self) (tcp_recv_eof previous);
           udp_recv_truncated := sat_sub (udp_recv_truncated self) (udp_recv_truncated previous);
           first_seen_ns := first_seen_ns self;
           last_seen_ns := last_seen_ns self |}
      else self
  | None => self
  end.

#[export] Instance StatsValue_cumulative : Cumulative StatsValue := {
  incarnation := first_seen_ns;
  delta_of := delta;
  well_formed _ := True
}.

Definition parse_value (data : list Z) : StatsValue :=
  mkStatsValue (field 8 0 data) (field 8 8 data) (field 8 16 data) (field 8 24 data) (field 8 32 data)
    (field 8 40 data) (field 8 48 data) (field 8 56 data) (field 8 64 data) (field 8 72 data)
    (field 8 80 data) (field 8 88 data).

(** ** Keys *)

Record ProcessKey := mkProcessKey { pk_tgid : Z; pk_protocol : Z; pk_padding : list Z }.

Definition parse_process_key (data : list Z) : ProcessKey :=
  mkProcessKey (field 4 0 data) (field 1 4 data) (take 3 (drop 5 data)).

Record PeerKey := mkPeerKey {
  tgid : Z;
  protocol : Z;
  family : Z;
  local_port : Z;
  remote_port : Z;
  padding : Z;
  remote_addr : list Z
}.

Definition parse_peer_key (data : list Z) : PeerKey :=
  mkPeerKey (field 4 0 data) (field 1 4 data) (field 1 5 data) (field 2 6 data) (field 2 8 data)
    (field 2 10 data) (take 16 (drop 12 data)).

#[export] Instance ProcessKey_eq_dec : EqDecision ProcessKey.
Proof. solve_decision. Defined.

#[export] Instance PeerKey_eq_dec : EqDecision PeerKey.
Proof. solve_decision. Defined.

#[export] Instance ProcessKey_countable : Countable ProcessKey.
Proof.
  refine (inj_countable' (fun k => (pk_tgid k, pk_protocol k, pk_padding k))
    (fun '(t, p, d) => mkProcessKey t p d) _).
  by intros [].
Defined.

#[export] Instance PeerKey_countable : Countable PeerKey.
Proof.
  refine (inj_countable'
    (fun k => (tgid k, protocol k, family k, local_port k, remote_port k, padding k, remote_addr k))
    (fun '(t, p, f, l, r, d, a) => mkPeerKey t p f l r d a) _).
  by intros [].
Defined.

(** *** Addresses *)

Inductive IpAddr := V4 (octets : list Z) | V6 (segments : list Z).

(** The sixteen-bit segments of an address, in network order. *)
Fixpoint segments_of (octets : list Z) : list Z :=
  match octets with
  | a :: b :: octets => (256 * a + b) :: segments_of octets
  | _ => []
  end.

Definition remote_ip (self : PeerKey) : option IpAddr :=
  if family self =? AF_INET then Some (V4 (take 4 (remote_addr self)))
  else if family self =? AF_INET6 then Some (V6 (segments_of (remote_addr self)))
  else None.

Definition display_v4 (octets : list Z) : string := join_with "." (map pretty octets).

(** The first longest run of zeros: where it starts and how long it is. *)
Fixpoint longest_zeros (i current_start current best_start best : nat) (segments : list Z) : nat * nat :=
  match segments with
  | [] => (best_start, best)
  | x :: segments =>
      if x =? 0 then
        let current_start := if Nat.eqb current 0 then i else current_start in
        let current := S current in
        if Nat.ltb best current
        then longest_zeros (S i) current_start current current_start current segments
        else longest_zeros (S i) current_start current best_start best segments
      else longest_zeros (S i) 0 0 best_start best segments
  end.

Definition display_segments (segments : list Z) : string := join_with ":" (map hex segments).

(** [Ipv6Addr]'s [Display] *)
Definition display_v6 (segments : list Z) : string :=
  match segments with
  | [0; 0; 0; 0; 0; 65535; ab; cd] =>
      ("::ffff:" ++ display_v4 [ab / 256; ab mod 256; cd / 256; cd mod 256])%string
  | _ =>
      let '(start, len) := longest_zeros 0 0 0 0 0 segments in
      if Nat.ltb 1 len then
        (display_segments (take start segments) ++ "::" ++ display_segments (drop (start + len) segments))%string
      else display_segments segments
  end.

Definition track_name (self : PeerKey) : string :=
  let protocol := default "network"%string (Protocol.name <$> Protocol.from_index (protocol self)) in
  match remote_ip self with
  | Some (V4 ip) => (protocol ++ " " ++ display_v4 ip ++ ":" ++ pretty (remote_port self))%string
  | Some (V6 ip) => (protocol ++ " [" ++ display_v6 ip ++ "]:" ++ pretty (remote_port self))%string
  | None => (protocol ++ " unknown-peer")%string
  end.

Example track_names :
  let key family addr := mkPeerKey 1 0 family 0 443 0 addr in
  track_name (key 2 (127 :: 0 :: 0 :: 1 :: replicate 12 0)) = "tcp 127.0.0.1:443"%string /\
  track_name (key 10 (32 :: 1 :: 13 :: 184 :: replicate 11 0 ++ [1])) = "tcp [2001:db8::1]:443"%string /\
  track_name (key 10 (replicate 15 0 ++ [1])) = "tcp [::1]:443"%string /\
  track_name (key 10 (replicate 10 0 ++ [255; 255; 10; 0; 0; 7])) = "tcp [::ffff:10.0.0.7]:443"%string /\
  track_name (key 10 [0; 1; 0; 0; 0; 2; 0; 3; 0; 0; 0; 0; 0; 4; 0; 0]) = "tcp [1:0:2:3::4:0]:443"%string /\
  track_name (key 7 []) = "tcp unknown-peer"%string.
Proof. by vm_compute. Qed.
