(* ===== verification/NetSamples.v ===== *)
(** * The network tracker at work

    The state of [NetTrack] and its samples (src/bpf/src/nettrack.rs), on the data of
    the file [NetTrack]. *)

From S2P Require Import Prelude Protocol Text Float BpfConfig BpfEvents NetTrack.
From stdpp Require Import pretty.
Open Scope Z_scope.

(** ** Keys *)

Inductive ScopeKey := SHost | SProcess (tgid : Z) | SPeer (key : PeerKey).

Inductive CounterKind :=
| KSendBytes | KRecvBytes | KSendOperations | KRecvOperations | KSendErrors | KRecvErrors
| KSendWouldBlock | KRecvWouldBlock | KTcpRecvEof | KUdpRecvTruncated | KTotalSendBytes | KTotalRecvBytes.

Record SeriesKey := mkSeriesKey { scope : ScopeKey; sk_protocol : NetProtocol; kind : CounterKind }.

#[export] Instance ScopeKey_eq_dec : EqDecision ScopeKey.
Proof. solve_decision. Defined.

#[export] Instance CounterKind_eq_dec : EqDecision CounterKind.
Proof. solve_decision. Defined.

#[export] Instance SeriesKey_eq_dec : EqDecision SeriesKey.
Proof. solve_decision. Defined.

Definition all_kinds : list CounterKind :=
  [KSendBytes; KRecvBytes; KSendOperations; KRecvOperations; KSendErrors; KRecvErrors;
   KSendWouldBlock; KRecvWouldBlock; KTcpRecvEof; KUdpRecvTruncated; KTotalSendBytes; KTotalRecvBytes].

#[export] Instance CounterKind_countable : Countable CounterKind.
Proof.
  refine (inj_countable' (fun k => default 0%nat (fst <$> list_find (eq k) all_kinds))
    (fun n => nth n all_kinds KSendBytes) _).
  by intros [].
Defined.

#[export] Instance NetProtocol_countable : Countable NetProtocol.
Proof.
  refine (inj_countable' (fun p => match p with Tcp => true | Udp => false end)
    (fun b : bool => if b then Tcp else Udp) _).
  by intros [].
Defined.

#[export] Instance ScopeKey_countable : Countable ScopeKey.
Proof.
  refine (inj_countable'
    (fun k => match k with SHost => None | SProcess t => Some (inl t) | SPeer k => Some (inr k) end)
    (fun o => match o with None => SHost | Some (inl t) => SProcess t | Some (inr k) => SPeer k end) _).
  by intros [].
Defined.

#[export] Instance SeriesKey_countable : Countable SeriesKey.
Proof.
  refine (inj_countable' (fun k => (scope k, sk_protocol k, kind k)) (fun '(s, p, k) => mkSeriesKey s p k) _).
  by intros [].
Defined.

Record CounterSample := mkCounterSample {
  cs_kind : CounterKind;
  cs_name : string;
  cs_value : f64;
  cs_unit : string
}.

(** ** State *)

Record NetTrack := mkNetTrack {
  port : Port;
  last_sample_ns : Z;
  last_peer_sample_ns : Z;
  global_previous : list StatsValue;
  process_previous : gmap ProcessKey StatsValue;
  peer_previous : gmap PeerKey StatsValue;
  series_ids : gmap SeriesKey Z;
  submitted_tracks : gset Z;
  peer_track_ids : gmap PeerKey Z
}.

(** The state [new] ends with, once the programs are loaded and attached. *)
Definition NetTrack_init (now : Z) : NetTrack :=
  mkNetTrack no_port now now [StatsValue_default; StatsValue_default] ∅ ∅ ∅ ∅ ∅.

Definition set_port (s : NetTrack) (p : Port) : NetTrack :=
  mkNetTrack p (last_sample_ns s) (last_peer_sample_ns s) (global_previous s) (process_previous s)
    (peer_previous s) (series_ids s) (submitted_tracks s) (peer_track_ids s).

Definition set_series (s : NetTrack) (ids : gmap SeriesKey Z) (submitted : gset Z) (p : Port) : NetTrack :=
  mkNetTrack p (last_sample_ns s) (last_peer_sample_ns s) (global_previous s) (process_previous s)
    (peer_previous s) ids submitted (peer_track_ids s).

Definition set_peers (s : NetTrack) (ids : gmap PeerKey Z) (p : Port) : NetTrack :=
  mkNetTrack p (last_sample_ns s) (last_peer_sample_ns s) (global_previous s) (process_previous s)
    (peer_previous s) (series_ids s) (submitted_tracks s) ids.

(** The readings that are kept for the next sample. *)
Definition keep_global (protocol : NetProtocol) (current : StatsValue) (s : NetTrack) : NetTrack :=
  mkNetTrack (port s) (last_sample_ns s) (last_peer_sample_ns s)
    (<[Z.to_nat (Protocol.index protocol) := current]> (global_previous s)) (process_previous s)
    (peer_previous s) (series_ids s) (submitted_tracks s) (peer_track_ids s).

Definition keep_process (key : ProcessKey) (current : StatsValue) (s : NetTrack) : NetTrack :=
  mkNetTrack (port s) (last_sample_ns s) (last_peer_sample_ns s) (global_previous s)
    (<[key := current]> (process_previous s)) (peer_previous s) (series_ids s) (submitted_tracks s)
    (peer_track_ids s).

Definition keep_peer (key : PeerKey) (current : StatsValue) (s : NetTrack) : NetTrack :=
  mkNetTrack (port s) (last_sample_ns s) (last_peer_sample_ns s) (global_previous s) (process_previous s)
    (<[key := current]> (peer_previous s)) (series_ids s) (submitted_tracks s) (peer_track_ids s).

Definition set_last_sample (now : Z) (s : NetTrack) : NetTrack :=
  mkNetTrack (port s) now (last_peer_sample_ns s) (global_previous s) (process_previous s)
    (peer_previous s) (series_ids s) (submitted_tracks s) (peer_track_ids s).

Definition set_last_peer_sample (now : Z) (s : NetTrack) : NetTrack :=
  mkNetTrack (port s) (last_sample_ns s) now (global_previous s) (process_previous s)
    (peer_previous s) (series_ids s) (submitted_tracks s) (peer_track_ids s).

(** What a round finds: the clock and the kernel maps, the host's per processor. *)
Record Round := mkRound {
  now : Z;
  global_stats : NetProtocol -> result string (option (list (list Z)));
  process_stats : batch;
  peer_stats : batch
}.

(** ** Reading *)

Fixpoint add_up (total : StatsValue) (values : list (list Z)) : result BpfError StatsValue :=
  match values with
  | [] => Ok total
  | value :: values =>
      match parse_plain 96 parse_value value "host network statistics" with
      | Err e => Err e
      | Ok value => add_up (accumulate total value) values
      end
  end.

Definition read_global (round : Round) (protocol : NetProtocol) : result BpfError StatsValue :=
  match global_stats round protocol with
  | Err e => Err (MapError ("failed to read host network map: " ++ e)%string)
  | Ok values => add_up StatsValue_default (default [] values)
  end.

Definition read_processes (round : Round) : result BpfError (list (ProcessKey * StatsValue)) :=
  match process_stats round with
  | Err e => Err (MapError ("failed to read process network map: " ++ e)%string)
  | Ok entries =>
      read_entries 8 96 parse_process_key parse_value "process network key" "process network statistics" entries
  end.

Definition read_peers (round : Round) : result BpfError (list (PeerKey * StatsValue)) :=
  match peer_stats round with
  | Err e => Err (MapError ("failed to read peer network map: " ++ e)%string)
  | Ok entries =>
      read_entries 28 96 parse_peer_key parse_value "peer network key" "peer network statistics" entries
  end.

Section NetTrack.

Variable user : list Message -> Message -> Z.
Variable rng : nat -> Z.
Variable config : NetTrackConfig.

(** ** Counters *)

(** Bytes as they are reported: their number, or bits per second. *)
Definition bytes_value (bytes : Z) (elapsed_seconds : f64) : f64 :=
  if nt_scaled config then fdiv (fmul (of_int bytes) (of_int 8)) elapsed_seconds else of_int bytes.

Definition bytes_unit : string := if nt_scaled config then "bits/s" else "bytes".

Definition bytes_name (name : string) : string := if nt_scaled config then (name ++ "_rate")%string else name.

Definition samples_for (protocol : NetProtocol) (stats : StatsValue) (elapsed_seconds : f64) : list CounterSample :=
  let prefix := Protocol.name protocol in
  (if has_metric config Bytes then
     [mkCounterSample KSendBytes (bytes_name (prefix ++ "_send")%string)
        (bytes_value (send_bytes stats) elapsed_seconds) bytes_unit;
      mkCounterSample KRecvBytes (bytes_name (prefix ++ "_recv")%string)
        (bytes_value (recv_bytes stats) elapsed_seconds) bytes_unit]
   else [])
  ++ (if has_metric config Operations then
        let operation := match protocol with Udp => "datagrams" | Tcp => "calls" end%string in
        [mkCounterSample KSendOperations (prefix ++ "_send_" ++ operation)%string
           (of_int (send_operations stats)) "count";
         mkCounterSample KRecvOperations (prefix ++ "_recv_" ++ operation)%string
           (of_int (recv_operations stats)) "count";
         match protocol with
         | Tcp => mkCounterSample KTcpRecvEof "tcp_recv_eof" (of_int (tcp_recv_eof stats)) "count"
         | Udp => mkCounterSample KUdpRecvTruncated "udp_recv_truncated" (of_int (udp_recv_truncated stats)) "count"
         end]
      else [])
  ++ (if has_metric config Errors then
        map (fun '(kind, suffix, value) =>
               mkCounterSample kind (prefix ++ "_" ++ suffix)%string (of_int value) "count")
          [(KSendErrors, "send_errors", send_errors stats);
           (KRecvErrors, "recv_errors", recv_errors stats);
           (KSendWouldBlock, "send_would_block", send_would_block stats);
           (KRecvWouldBlock, "recv_would_block", recv_would_block stats)]%string
      else []).

Definition ensure_peer_track (key : PeerKey) (s : NetTrack) : option Z * NetTrack :=
  match peer_track_ids s !! key with
  | Some id => (Some id, s)
  | None =>
      if nt_max_peer_tracks config <=? Z.of_nat (size (peer_track_ids s)) then (None, s)
      else
        let '(id, p) := draw rng (port s) in
        let '(result, p) := send user (Message.Event (Event.Track (Track.mk _ _ _ (track_name key)
          (TrackType.Custom id) (Some (TrackType.Process (as_signed 32 (tgid key))))))) p in
        if negb (result =? 0) then (None, set_port s p)
        else (Some id, set_peers s (<[key := id]> (peer_track_ids s)) p)
  end.

Definition emit_sample (scope : ScopeKey) (protocol : NetProtocol) (sample : CounterSample) (timestamp : Z)
    (s : NetTrack) : Z * NetTrack :=
  let '(parent, s) :=
    match scope with
    | SHost => (Some None, s)
    | SProcess tgid => (Some (Some (TrackType.Process (as_signed 32 tgid))), s)
    | SPeer key =>
        let '(id, s) := ensure_peer_track key s in ((fun id => Some (TrackType.Custom id)) <$> id, s)
    end in
  match parent with
  | None => (0, s)
  | Some parent =>
      let series_key := mkSeriesKey scope protocol (cs_kind sample) in
      let '(id, s) :=
        match series_ids s !! series_key with
        | Some id => (id, s)
        | None =>
            let '(id, p) := draw rng (port s) in
            (id, set_series s (<[series_key := id]> (series_ids s)) (submitted_tracks s) p)
        end in
      let '(result, s) :=
        if decide (id ∈ submitted_tracks s) then (0, s)
        else
          let '(result, p) := send user (counter_track (cs_name sample) id (cs_unit sample) parent) (port s) in
          (result, set_series s (series_ids s) ({[id]} ∪ submitted_tracks s) p) in
      if negb (result =? 0) then (result, s)
      else
        let '(result, p) := send user
          (counter_message (cs_name sample) (cs_value sample) timestamp id (cs_unit sample)) (port s) in
        (result, set_port s p)
  end.

Definition emit_stats (scope : ScopeKey) (protocol : NetProtocol) (stats : StatsValue) (elapsed_seconds : f64)
    (timestamp : Z) (s : NetTrack) : Z * NetTrack :=
  until_refused (fun sample => emit_sample scope protocol sample timestamp)
    (samples_for protocol stats elapsed_seconds) s.

(** ** Samples *)

(** The protocols of the host, until one is refused: their differences, added up. *)
Fixpoint sample_host (round : Round) (elapsed_seconds : f64) (protocols : list NetProtocol)
    (host_delta : StatsValue) (s : NetTrack) : result BpfError StatsValue * NetTrack :=
  match protocols with
  | [] => (Ok host_delta, s)
  | protocol :: protocols =>
      if negb (has_protocol config protocol) then sample_host round elapsed_seconds protocols host_delta s
      else
        match read_global round protocol with
        | Err e => (Err e, s)
        | Ok current =>
            let previous := nth (Z.to_nat (Protocol.index protocol)) (global_previous s) StatsValue_default in
            let delta := delta current (Some previous) in
            let host_delta := accumulate host_delta delta in
            let s := keep_global protocol current s in
            let '(result, s) := emit_stats SHost protocol delta elapsed_seconds (now round) s in
            if negb (result =? 0) then (Ok host_delta, s)
            else sample_host round elapsed_seconds protocols host_delta s
        end
  end.

Definition total_samples (host_delta : StatsValue) (elapsed_seconds : f64) : list CounterSample :=
  [mkCounterSample KTotalSendBytes (bytes_name "total_send")
     (bytes_value (send_bytes host_delta) elapsed_seconds) bytes_unit;
   mkCounterSample KTotalRecvBytes (bytes_name "total_recv")
     (bytes_value (recv_bytes host_delta) elapsed_seconds) bytes_unit].

Definition sample_process (elapsed_seconds : f64) (timestamp : Z) (entry : ProcessKey * StatsValue)
    (s : NetTrack) : Z * NetTrack :=
  let '(key, current) := entry in
  match Protocol.from_index (pk_protocol key) with
  | None => (0, s)
  | Some protocol =>
      let previous := process_previous s !! key in
      let s := keep_process key current s in
      emit_stats (SProcess (pk_tgid key)) protocol (delta current previous) elapsed_seconds timestamp s
  end.

Definition seconds_since (now last : Z) : f64 := ratio (Z.max (sat_sub now last) 1) 1000000000.

Definition sample_host_and_processes (round : Round) (s : NetTrack) : result BpfError unit * NetTrack :=
  let elapsed_seconds := seconds_since (now round) (last_sample_ns s) in
  let '(host, s) :=
    if has_scope config Host then
      let '(host_delta, s) := sample_host round elapsed_seconds [Tcp; Udp] StatsValue_default s in
      match host_delta with
      | Err e => (Err e, s)
      | Ok host_delta =>
          if has_metric config Bytes then
            (Ok tt, (until_refused (fun sample => emit_sample SHost Tcp sample (now round))
                       (total_samples host_delta elapsed_seconds) s).2)
          else (Ok tt, s)
      end
    else (Ok tt, s) in
  match host with
  | Err e => (Err e, s)
  | Ok _ =>
      if has_scope config Process then
        match read_processes round with
        | Err e => (Err e, s)
        | Ok entries =>
            let s := (until_refused (sample_process elapsed_seconds (now round)) entries s).2 in
            (Ok tt, set_last_sample (now round) s)
        end
      else (Ok tt, set_last_sample (now round) s)
  end.

Definition sample_peer (elapsed_seconds : f64) (timestamp : Z) (entry : PeerKey * StatsValue)
    (s : NetTrack) : Z * NetTrack :=
  let '(key, current) := entry in
  match Protocol.from_index (protocol key) with
  | None => (0, s)
  | Some protocol =>
      let previous := peer_previous s !! key in
      let s := keep_peer key current s in
      emit_stats (SPeer key) protocol (delta current previous) elapsed_seconds timestamp s
  end.

Definition sample_peers (round : Round) (s : NetTrack) : result BpfError unit * NetTrack :=
  let elapsed_seconds := seconds_since (now round) (last_peer_sample_ns s) in
  match read_peers round with
  | Err e => (Err e, s)
  | Ok entries =>
      let s := (until_refused (sample_peer elapsed_seconds (now round)) entries s).2 in
      (Ok tt, set_last_peer_sample (now round) s)
  end.

Definition due (force : bool) (now last frequency : Z) : bool :=
  force || (1000000000 / frequency <=? sat_sub now last).

Definition sample_if_due (force : bool) (round : Round) (s : NetTrack) : result BpfError unit * NetTrack :=
  let '(result, s) :=
    if due force (now round) (last_sample_ns s) (nt_frequency config)
    then sample_host_and_processes round s else (Ok tt, s) in
  match result with
  | Err e => (Err e, s)
  | Ok _ =>
      if has_scope config Peer && due force (now round) (last_peer_sample_ns s) (nt_peer_frequency config)
      then sample_peers round s else (Ok tt, s)
  end.

Definition poll : Round -> NetTrack -> result BpfError unit * NetTrack := sample_if_due false.

Definition consume : Round -> NetTrack -> result BpfError unit * NetTrack := sample_if_due false.

Definition flush : Round -> NetTrack -> result BpfError unit * NetTrack := sample_if_due true.

End NetTrack.
