(* ===== verification/NetProps.v ===== *)
(** * Properties of the network tracker

    Tracks are described first and the peers' are limited, whatever the callback
    answers; what a sample reports; reported differences add up. *)

From S2P Require Import Prelude Protocol Text Float BpfConfig BpfEvents NetTrack NetSamples.
From stdpp Require Import pretty.
Open Scope Z_scope.

(** ** Tracks *)

Section Tracks.

Variable user : list Message -> Message -> Z.
Variable rng : nat -> Z.
Variable config : NetTrackConfig.

(** What was sent before. *)
Variable base : list Message.

Record net_ok (s : NetTrack) : Prop := {
  no_base : base `prefix_of` sent (port s);
  no_order : in_order (sent (port s));
  no_submitted id : id ∈ submitted_tracks s -> TrackId.Counter id ∈ described (sent (port s));
  no_peers key id : peer_track_ids s !! key = Some id -> TrackId.Custom id ∈ described (sent (port s));
  no_limit : Z.of_nat (size (peer_track_ids s)) <= Z.max 0 (nt_max_peer_tracks config)
}.

Lemma described_more t ms m : t ∈ described ms -> t ∈ described (ms ++ [m]).
Proof. intros H. apply described_snoc. by left. Qed.

Lemma described_last t ms m : t ∈ describes m -> t ∈ described (ms ++ [m]).
Proof. intros H. apply described_snoc. by right. Qed.

(** Changes of the state that touch neither the tracks nor the outbox. *)
Lemma net_ok_same s s' :
  sent (port s') = sent (port s) -> submitted_tracks s' = submitted_tracks s ->
  peer_track_ids s' = peer_track_ids s -> net_ok s -> net_ok s'.
Proof. intros E1 E2 E3 [H0 H1 H2 H3 H4]. split; rewrite ?E1, ?E2, ?E3; auto. Qed.

Lemma ensure_peer_track_ok key s :
  net_ok s ->
  let '(id, s') := ensure_peer_track user rng config key s in
  net_ok s' /\ forall i, id = Some i -> TrackId.Custom i ∈ described (sent (port s')).
Proof.
  intros [Hb Ho Hs Hp Hl]. unfold ensure_peer_track.
  destruct (peer_track_ids s !! key) as [id|] eqn:E.
  { split; [done|]. intros i [= <-]. by apply (Hp key). }
  destruct (Z.leb_spec (nt_max_peer_tracks config) (Z.of_nat (size (peer_track_ids s)))); [done|].
  cbn [draw send]. set (id := rng _). set (m := Message.Event _). cbn [sent set_peers set_port port].
  assert (in_order (sent (port s) ++ [m])) as Hom by (constructor; [done|cbn; set_solver]).
  assert (TrackId.Custom id ∈ described (sent (port s) ++ [m])) as Hid
    by (apply described_last; cbn; set_solver).
  destruct (negb _); (split; [|]); try done.
  - split; cbn; [by apply prefix_app_r|done| | |done]; intros; apply described_more; eauto.
  - split; cbn; [by apply prefix_app_r|done|intros; apply described_more; auto| |].
    + intros k i. destruct (decide (k = key)) as [->|Hne].
      * rewrite lookup_insert_eq. by intros [= <-].
      * rewrite lookup_insert_ne by done. intros Hk. apply described_more. by apply (Hp k).
    + rewrite map_size_insert_None by done. lia.
  - by intros i [= <-].
Qed.

Lemma emit_sample_ok scope protocol sample timestamp s :
  net_ok s -> net_ok (emit_sample user rng config scope protocol sample timestamp s).2.
Proof.
  intros Hs. unfold emit_sample.
  set (p := match scope with SHost => _ | SProcess t => _ | SPeer key => _ end).
  assert (net_ok p.2 /\ forall parent t, p.1 = Some (Some parent) -> t = TrackType.to_id parent ->
    invented t = true -> t ∈ described (sent (port p.2))) as [H1 Hpar].
  { unfold p. destruct scope as [|tgid|key]; [by split|split; [done|by intros ? ? [= <-] ->]|].
    pose proof (ensure_peer_track_ok key s Hs) as H. destruct (ensure_peer_track _ _ _ key s) as [id s'].
    destruct H as [Hs' Hid]. split; [done|]. intros parent t. cbn. destruct id as [id|]; [|done].
    intros [= <-] ->. by intros _; apply Hid. }
  destruct p as [[parent|] s1]; cbn in H1, Hpar; [|done].
  set (q := match series_ids s1 !! _ with Some id => (id, s1) | None => _ end).
  assert (net_ok q.2 /\ sent (port q.2) = sent (port s1)) as [H2 E2].
  { unfold q. destruct (series_ids s1 !! _); [done|]. cbn. split; [by apply (net_ok_same s1)|done]. }
  destruct q as [id s2]. cbn in H2, E2. set (tm := counter_track _ _ _ _).
  set (r := if decide (id ∈ submitted_tracks s2) then _ else _).
  assert (net_ok r.2 /\ TrackId.Counter id ∈ described (sent (port r.2))) as [H3 Hid].
  { destruct H2 as [Hb Ho Hsub Hpe Hl]. unfold r. destruct (decide _) as [Hin|Hin]; [split; [done|by apply Hsub]|].
    assert (TrackId.Counter id ∈ described (sent (port s2) ++ [tm])) as Hd
      by (apply described_last; cbn; set_solver).
    cbn. split; [|done]. split; cbn.
    - by apply prefix_app_r.
    - constructor; [done|]. intros t Ht. rewrite E2. unfold refers in Ht. cbn in Ht.
      destruct parent as [parent|]; [|by apply elem_of_nil in Ht]. cbn in Ht.
      destruct (invented (TrackType.to_id parent)) eqn:Hi; [|by apply elem_of_nil in Ht].
      apply elem_of_cons in Ht as [->|Ht]; [|by apply elem_of_nil in Ht]. by apply (Hpar parent).
    - intros i [->%elem_of_singleton|Hi]%elem_of_union; [done|]. by apply described_more, Hsub.
    - intros k i Hk. by apply described_more, (Hpe k).
    - done. }
  destruct r as [result s3]. cbn in H3, Hid. destruct (negb (result =? 0)); [done|].
  destruct H3 as [Hb Ho Hsub Hpe Hl]. cbn. split; cbn.
  - by apply prefix_app_r.
  - constructor; [done|]. cbn. by intros t [->|[]%elem_of_nil]%elem_of_cons.
  - intros i Hi. by apply described_more, Hsub.
  - intros k i Hk. by apply described_more, (Hpe k).
  - done.
Qed.

Lemma emit_all_ok scope protocol timestamp l s :
  net_ok s ->
  net_ok (until_refused (fun sample => emit_sample user rng config scope protocol sample timestamp) l s).2.
Proof. apply until_refused_ind. intros. by apply emit_sample_ok. Qed.

Lemma sample_host_ok round elapsed protocols host_delta s :
  net_ok s -> net_ok (sample_host user rng config round elapsed protocols host_delta s).2.
Proof.
  revert host_delta s. induction protocols as [|protocol protocols IH]; intros host_delta s Hs; [done|].
  cbn [sample_host]. destruct (negb _); [by apply IH|]. destruct (read_global round protocol); [|done].
  set (d := delta _ _). set (s0 := keep_global _ _ _).
  assert (net_ok s0) as H0 by by apply (net_ok_same s).
  pose proof (emit_all_ok SHost protocol (now round) (samples_for config protocol d elapsed) s0 H0) as H1.
  unfold emit_stats. destruct (until_refused _ _ s0) as [r s1]. destruct (negb (r =? 0)); [done|by apply IH].
Qed.

Lemma sample_process_ok elapsed timestamp entry s :
  net_ok s -> net_ok (sample_process user rng config elapsed timestamp entry s).2.
Proof.
  intros Hs. unfold sample_process. destruct entry as [key current]. destruct (Protocol.from_index _); [|done].
  apply emit_all_ok. by apply (net_ok_same s).
Qed.

Lemma sample_peer_ok elapsed timestamp entry s :
  net_ok s -> net_ok (sample_peer user rng config elapsed timestamp entry s).2.
Proof.
  intros Hs. unfold sample_peer. destruct entry as [key current]. destruct (Protocol.from_index _); [|done].
  apply emit_all_ok. by apply (net_ok_same s).
Qed.

Lemma sample_host_and_processes_ok round s :
  net_ok s -> net_ok (sample_host_and_processes user rng config round s).2.
Proof.
  intros Hs. unfold sample_host_and_processes. set (el := seconds_since _ _).
  set (p := if has_scope config Host then _ else _).
  assert (net_ok p.2) as Hp.
  { unfold p. destruct (has_scope config Host); [|done].
    pose proof (sample_host_ok round el [Tcp; Udp] StatsValue_default s Hs) as H.
    destruct (sample_host _ _ _ _ _ _ _ s) as [[d|e] s1]; [|done].
    destruct (has_metric config Bytes); [|done]. by apply emit_all_ok. }
  destruct p as [[[]|e] s1]; [|done]. cbn in Hp.
  destruct (has_scope config Process); [|by apply (net_ok_same s1)].
  destruct (read_processes round) as [entries|]; [|done]. cbn.
  set (s2 := (until_refused _ entries s1).2). apply (net_ok_same s2); [done..|].
  apply until_refused_ind; [|done]. intros. by apply sample_process_ok.
Qed.

Lemma sample_peers_ok round s : net_ok s -> net_ok (sample_peers user rng config round s).2.
Proof.
  intros Hs. unfold sample_peers. destruct (read_peers round) as [entries|]; [|done]. cbn.
  set (s2 := (until_refused _ entries s).2). apply (net_ok_same s2); [done..|].
  apply until_refused_ind; [|done]. intros. by apply sample_peer_ok.
Qed.

Lemma sample_if_due_ok force round s : net_ok s -> net_ok (sample_if_due user rng config force round s).2.
Proof.
  intros Hs. unfold sample_if_due. set (p := if due _ _ _ _ then _ else _).
  assert (net_ok p.2) as Hp by (unfold p; destruct (due _ _ _ _); [by apply sample_host_and_processes_ok|done]).
  destruct p as [[[]|e] s1]; [|done]. destruct (_ && _); [by apply sample_peers_ok|done].
Qed.

Inductive rounds : NetTrack -> NetTrack -> Prop :=
| rounds_refl s : rounds s s
| rounds_step s force round s' :
    rounds (sample_if_due user rng config force round s).2 s' -> rounds s s'.

Lemma net_rounds_ok s s' : rounds s s' -> net_ok s -> net_ok s'.
Proof. induction 1; eauto using sample_if_due_ok. Qed.

End Tracks.

(** ** What a sample reports *)

Section Accepted.

Variable user : list Message -> Message -> Z.
Variable rng : nat -> Z.
Variable config : NetTrackConfig.

Hypothesis accepts : forall ms m, user ms m = 0.

Definition reading_of (now : Z) (sample : CounterSample) : string * Z * Z * option string :=
  (cs_name sample, to_bits (cs_value sample), now, Some (cs_unit sample)).

(** Nothing of the state but the outbox, the series and the tracks has changed. *)
Definition same_statistics (s s' : NetTrack) : Prop :=
  global_previous s' = global_previous s /\ process_previous s' = process_previous s /\
  peer_previous s' = peer_previous s /\ last_sample_ns s' = last_sample_ns s /\
  last_peer_sample_ns s' = last_peer_sample_ns s.

(** A scope that is no peer is always reported. *)
Definition no_peer (scope : ScopeKey) : Prop := match scope with SPeer _ => False | _ => True end.

Lemma emit_sample_accepted scope protocol sample timestamp s :
  no_peer scope ->
  (emit_sample user rng config scope protocol sample timestamp s).1 = 0 /\
  same_statistics s (emit_sample user rng config scope protocol sample timestamp s).2 /\
  readings (sent (port (emit_sample user rng config scope protocol sample timestamp s).2)) =
    readings (sent (port s)) ++ [reading_of timestamp sample].
Proof.
  intros Hsc. unfold emit_sample. destruct scope; [| |done].
  all: destruct (series_ids s !! _); cbn; (destruct (decide _); cbn); rewrite ?accepts; cbn; rewrite ?accepts; cbn.
  all: (split; [done|split; [done|]]); by rewrite !readings_snoc, ?app_nil_r.
Qed.

Lemma emit_all_accepted scope protocol timestamp l s :
  no_peer scope ->
  let r := until_refused (fun sample => emit_sample user rng config scope protocol sample timestamp) l s in
  r.1 = 0 /\ same_statistics s r.2 /\
  readings (sent (port r.2)) = readings (sent (port s)) ++ map (reading_of timestamp) l.
Proof.
  intros Hsc. cbn zeta. revert s. induction l as [|a l IH]; intros s; [by rewrite app_nil_r|].
  cbn [until_refused map].
  destruct (emit_sample_accepted scope protocol a timestamp s Hsc) as (Hz & (E1 & E2 & E3 & E4 & E5) & Hr).
  destruct (emit_sample _ _ _ _ _ a _ s) as [z s1]. cbn in Hz, E1, E2, E3, E4, E5, Hr. subst z. cbn.
  destruct (IH s1) as (-> & (F1 & F2 & F3 & F4 & F5) & ->).
  split_and!; [done|split_and!; congruence|]. by rewrite Hr, <-app_assoc.
Qed.

(** The difference of the host's traffic of a protocol, in a state. *)
Definition host_difference (s : NetTrack) (current : NetProtocol -> StatsValue) (protocol : NetProtocol) : StatsValue :=
  delta (current protocol)
    (Some (nth (Z.to_nat (Protocol.index protocol)) (global_previous s) StatsValue_default)).

Definition host_protocols : list NetProtocol := List.filter (has_protocol config) [Tcp; Udp].

Definition host_report (s : NetTrack) (current : NetProtocol -> StatsValue) (elapsed : f64) : list CounterSample :=
  concat (map (fun p => samples_for config p (host_difference s current p) elapsed) host_protocols)
  ++ (if has_metric config Bytes then
        total_samples config
          (foldl accumulate StatsValue_default (map (host_difference s current) host_protocols)) elapsed
      else []).

Definition process_report (s : NetTrack) (elapsed : f64) (entry : ProcessKey * StatsValue) : list CounterSample :=
  match Protocol.from_index (pk_protocol entry.1) with
  | Some protocol => samples_for config protocol (delta entry.2 (process_previous s !! entry.1)) elapsed
  | None => []
  end.

Lemma sample_host_step round current elapsed protocol protocols acc s :
  (has_protocol config protocol = true -> read_global round protocol = Ok (current protocol)) ->
  let d := host_difference s current protocol in
  exists s', sample_host user rng config round elapsed (protocol :: protocols) acc s =
    sample_host user rng config round elapsed protocols
      (if has_protocol config protocol then accumulate acc d else acc) s' /\
  global_previous s' =
    (if has_protocol config protocol
     then <[Z.to_nat (Protocol.index protocol) := current protocol]> (global_previous s)
     else global_previous s) /\
  process_previous s' = process_previous s /\ peer_previous s' = peer_previous s /\
  last_sample_ns s' = last_sample_ns s /\
  readings (sent (port s')) = readings (sent (port s)) ++
    map (reading_of (now round)) (if has_protocol config protocol then samples_for config protocol d elapsed else []).
Proof.
  intros Hg. cbn zeta. cbn [sample_host]. destruct (has_protocol config protocol); cbn [negb].
  - rewrite Hg by done. fold (host_difference s current protocol).
    set (s0 := keep_global protocol (current protocol) s). unfold emit_stats.
    destruct (emit_all_accepted SHost protocol (now round)
      (samples_for config protocol (host_difference s current protocol) elapsed) s0 I)
      as (Hz & (E1 & E2 & E3 & E4 & E5) & Hr).
    destruct (until_refused _ _ s0) as [z s1]. cbn in Hz, E1, E2, E3, E4, Hr. subst z. cbn. exists s1.
    by split_and!.
  - exists s. by rewrite app_nil_r.
Qed.

Lemma sample_host_accepted round current elapsed s :
  (forall p, has_protocol config p = true -> read_global round p = Ok (current p)) ->
  exists s', sample_host user rng config round elapsed [Tcp; Udp] StatsValue_default s =
    (Ok (foldl accumulate StatsValue_default (map (host_difference s current) host_protocols)), s') /\
  (forall p, (length (global_previous s) = 2)%nat ->
     nth (Z.to_nat (Protocol.index p)) (global_previous s') StatsValue_default =
     if has_protocol config p then current p
     else nth (Z.to_nat (Protocol.index p)) (global_previous s) StatsValue_default) /\
  process_previous s' = process_previous s /\ last_sample_ns s' = last_sample_ns s /\
  readings (sent (port s')) = readings (sent (port s)) ++ map (reading_of (now round))
    (concat (map (fun p => samples_for config p (host_difference s current p) elapsed) host_protocols)).
Proof.
  intros Hg.
  destruct (sample_host_step round current elapsed Tcp [Udp] StatsValue_default s (Hg Tcp))
    as (s1 & -> & G1 & P1 & _ & L1 & R1).
  destruct (sample_host_step round current elapsed Udp []
    (if has_protocol config Tcp then accumulate StatsValue_default (host_difference s current Tcp)
     else StatsValue_default) s1 (Hg Udp)) as (s2 & -> & G2 & P2 & _ & L2 & R2).
  assert (host_difference s1 current Udp = host_difference s current Udp) as E.
  { unfold host_difference. f_equal. f_equal. rewrite G1. destruct (has_protocol config Tcp); [|done].
    cbn. by destruct (global_previous s). }
  rewrite E in *. exists s2. rewrite G2, G1, P2, P1, L2, L1, R2, R1. unfold host_protocols. cbn [List.filter].
  destruct (has_protocol config Tcp) eqn:ET, (has_protocol config Udp) eqn:EU; cbn;
    (split_and!; [done| |done|done|by rewrite ?map_app, ?app_nil_r, <-?app_assoc]);
    intros [] Hl; rewrite ?ET, ?EU; destruct (global_previous s) as [|x [|y [|]]]; done.
Qed.

(** The entry's protocol is one the tracker knows. *)
Definition known (key : ProcessKey) : bool :=
  match Protocol.from_index (pk_protocol key) with Some _ => true | None => false end.

Lemma sample_process_accepted elapsed timestamp entry s s0 :
  process_previous s !! entry.1 = process_previous s0 !! entry.1 ->
  let r := sample_process user rng config elapsed timestamp entry s in
  r.1 = 0 /\
  process_previous r.2 = (if known entry.1 then <[entry.1 := entry.2]> (process_previous s) else process_previous s) /\
  global_previous r.2 = global_previous s /\
  readings (sent (port r.2)) = readings (sent (port s)) ++ map (reading_of timestamp) (process_report s0 elapsed entry).
Proof.
  intros Hk. unfold sample_process, process_report, known. destruct entry as [key current]. cbn in *.
  destruct (Protocol.from_index _) as [protocol|]; [|by rewrite app_nil_r].
  rewrite <-Hk. set (s1 := keep_process key current s).
  destruct (emit_all_accepted (SProcess (pk_tgid key)) protocol timestamp
    (samples_for config protocol (delta current (process_previous s !! key)) elapsed) s1 I)
    as (Hz & (E1 & E2 & E3 & E4 & E5) & Hr).
  unfold emit_stats. by split_and!; [|rewrite E2|rewrite E1|].
Qed.

Lemma processes_accepted elapsed timestamp entries s s0 :
  NoDup (map fst entries) ->
  (forall key, key ∈ map fst entries -> process_previous s !! key = process_previous s0 !! key) ->
  let r := until_refused (sample_process user rng config elapsed timestamp) entries s in
  r.1 = 0 /\ global_previous r.2 = global_previous s /\
  (forall key c, (key, c) ∈ entries -> known key = true -> process_previous r.2 !! key = Some c) /\
  (forall key, key ∉ map fst entries \/ known key = false -> process_previous r.2 !! key = process_previous s !! key) /\
  readings (sent (port r.2)) = readings (sent (port s)) ++
    map (reading_of timestamp) (concat (map (process_report s0 elapsed) entries)).
Proof.
  cbn zeta. revert s. induction entries as [|entry entries IH]; intros s Hnd Hs.
  { cbn. rewrite app_nil_r. split_and!; try done. by intros key c Hin%elem_of_nil. }
  cbn [map] in Hnd. apply NoDup_cons in Hnd as [Hne Hnd]. cbn [until_refused map concat].
  destruct (sample_process_accepted elapsed timestamp entry s s0) as (Hz & Hk & Hg & Hr).
  { apply Hs. by left. }
  destruct (sample_process _ _ _ _ _ entry s) as [z s1]. cbn in Hz, Hk, Hg, Hr. subst z. cbn.
  assert (forall key, key <> entry.1 -> process_previous s1 !! key = process_previous s !! key) as Ho.
  { intros key Hne'. rewrite Hk. destruct (known _); [by rewrite lookup_insert_ne|done]. }
  destruct (IH s1 Hnd) as (-> & Hg2 & Hin2 & Hout2 & ->).
  { intros key Hin. rewrite Ho; [apply Hs; by right|]. by intros ->. }
  split_and!; [done|congruence| | |by rewrite Hr, map_app, app_assoc].
  - intros key c [<-|Hin]%elem_of_cons Hkn; [|by apply Hin2]. cbn [fst snd] in *.
    rewrite Hout2 by by left. by rewrite Hk, Hkn, lookup_insert_eq.
  - intros key Hkey. rewrite Hout2 by (destruct Hkey as [Hkey|]; [left; set_solver|by right]).
    destruct (decide (key = entry.1)) as [->|Hne']; [|by apply Ho]. rewrite Hk.
    destruct Hkey as [Hkey | ->]; [|done]. destruct Hkey. by left.
Qed.

(** C32. A sample of the network tracker, when the callback accepts everything: it
    reports, for the host and each configured protocol, the configured differences to
    the sample before, added up over the processors, then their totals over the
    protocols, then the same for every process the kernel has an entry of; and it
    keeps the present readings for the next sample: those of the host, and those of
    the processes whose protocol it knows, and no others change. *)
Theorem net_sample_reports round current entries s :
  (forall p, has_protocol config p = true -> read_global round p = Ok (current p)) ->
  read_processes round = Ok entries -> NoDup (map fst entries) -> (length (global_previous s) = 2)%nat ->
  let elapsed := seconds_since (now round) (last_sample_ns s) in
  let '(r, s') := sample_host_and_processes user rng config round s in
  r = Ok tt /\ last_sample_ns s' = now round /\
  readings (sent (port s')) = readings (sent (port s)) ++ map (reading_of (now round))
    ((if has_scope config Host then host_report s current elapsed else [])
     ++ (if has_scope config Process then concat (map (process_report s elapsed) entries) else [])) /\
  (has_scope config Host = true -> forall p, has_protocol config p = true ->
     nth (Z.to_nat (Protocol.index p)) (global_previous s') StatsValue_default = current p) /\
  (has_scope config Process = true -> forall key c, (key, c) ∈ entries -> known key = true ->
     process_previous s' !! key = Some c) /\
  (forall key, has_scope config Process = false \/ key ∉ map fst entries \/ known key = false ->
     process_previous s' !! key = process_previous s !! key).
Proof.
  intros Hg Hp Hnd Hl. cbn zeta. unfold sample_host_and_processes. set (elapsed := seconds_since _ _).
  set (h := if has_scope config Host then _ else _).
  assert (h.1 = Ok tt /\ process_previous h.2 = process_previous s /\
    readings (sent (port h.2)) = readings (sent (port s)) ++ map (reading_of (now round))
      (if has_scope config Host then host_report s current elapsed else []) /\
    (has_scope config Host = true -> forall p, has_protocol config p = true ->
       nth (Z.to_nat (Protocol.index p)) (global_previous h.2) StatsValue_default = current p))
    as (H1 & H2 & H3 & H4).
  { unfold h. destruct (has_scope config Host); [|by rewrite app_nil_r].
    destruct (sample_host_accepted round current elapsed s Hg) as (s1 & -> & Gp & Pp & _ & Rp).
    unfold host_report. destruct (has_metric config Bytes).
    - set (tot := total_samples _ _ _).
      destruct (emit_all_accepted SHost Tcp (now round) tot s1 I) as (_ & (E1 & E2 & _) & Hr).
      cbn [fst snd]. split_and!; [done|by rewrite E2|by rewrite Hr, Rp, map_app, app_assoc|].
      intros _ p Hpp. by rewrite E1, Gp, Hpp.
    - cbn. split_and!; [done|done|by rewrite app_nil_r|]. intros _ p Hpp. by rewrite Gp, Hpp. }
  destruct h as [r s1]. cbn in H1, H2, H3, H4. subst r. destruct (has_scope config Process).
  - rewrite Hp.
    destruct (processes_accepted elapsed (now round) entries s1 s Hnd) as (_ & E1 & Hin & Hout & E2).
    { intros key _. by rewrite H2. }
    cbn. split_and!; [done|done|by rewrite E2, H3, map_app, app_assoc|by rewrite E1|done|].
    intros key [?|Hkey]; [done|]. by rewrite Hout, H2.
  - cbn. split_and!; [done|done|by rewrite app_nil_r|done|done|]. intros key _. by rewrite H2.
Qed.

End Accepted.

(** Two processors have sent, and one process. *)
Definition demo_round : Round :=
  mkRound 500000000
    (fun p => match p with
              | Tcp => Ok (Some [le_bytes 8 100 ++ replicate 88 0; le_bytes 8 28 ++ replicate 88 0])
              | Udp => Ok None
              end)
    (Ok [(le_bytes 4 77 ++ replicate 4 0, le_bytes 8 128 ++ replicate 88 0)]) (Ok []).

Definition demo_current (p : NetProtocol) : StatsValue :=
  match read_global demo_round p with Ok v => v | Err _ => StatsValue_default end.

Definition demo_entries : list (ProcessKey * StatsValue) :=
  match read_processes demo_round with Ok l => l | Err _ => [] end.

Definition demo_net_config : NetTrackConfig :=
  mkNetTrackConfig 9 1 0 false [Tcp; Udp] [Send; Receive] [Host; Process] [Bytes] [] [] 1024 1024 512.

Lemma net_sample_reports_witness :
  let '(r, s') := sample_host_and_processes (fun _ _ => 0) Z.of_nat demo_net_config demo_round (NetTrack_init 0) in
  r = Ok tt /\ last_sample_ns s' = 500000000 /\
  readings (sent (port s')) = map (fun '(name, bytes) => (name, to_bits (of_int bytes), 500000000, Some "bytes"))
    [("tcp_send", 128); ("tcp_recv", 0); ("udp_send", 0); ("udp_recv", 0);
     ("total_send", 128); ("total_recv", 0); ("tcp_send", 128); ("tcp_recv", 0)]%string /\
  send_bytes <$> process_previous s' !! mkProcessKey 77 0 [0; 0; 0] = Some 128.
Proof.
  assert (forall p, has_protocol demo_net_config p = true -> read_global demo_round p = Ok (demo_current p)) as Hg
    by (by intros []).
  assert (read_processes demo_round = Ok demo_entries) as Hp by by vm_compute.
  pose proof (net_sample_reports (fun _ _ => 0) Z.of_nat demo_net_config (fun _ _ => eq_refl) demo_round
    demo_current demo_entries (NetTrack_init 0) Hg Hp) as H.
  assert (NoDup (map fst demo_entries)) as Hnd.
  { vm_compute. constructor; [by intros Hin%elem_of_nil|constructor]. }
  specialize (H Hnd eq_refl). destruct (sample_host_and_processes _ _ _ _ _) as [r s']. cbn zeta in H.
  destruct H as (H1 & H2 & H3 & _ & H4 & _). split; [exact H1|]. split; [exact H2|]. split; [rewrite H3; by vm_compute|].
  rewrite (H4 eq_refl _ (snd (nth 0 demo_entries (mkProcessKey 0 0 [], StatsValue_default)))); [by vm_compute| |by vm_compute].
  vm_compute. by left.
Defined.

(** ** Differences *)

Definition net_counts : list (StatsValue -> Z) :=
  [send_bytes; recv_bytes; send_operations; recv_operations; send_errors; recv_errors;
   send_would_block; recv_would_block; tcp_recv_eof; udp_recv_truncated].

Lemma net_counts_of f : f ∈ net_counts -> count_of f.
Proof.
  unfold net_counts. intros Hf r p _ _. cbn [delta_of incarnation StatsValue_cumulative]. unfold delta.
  destruct p as [p|].
  - destruct (first_seen_ns p =? first_seen_ns r); [|done].
    repeat (apply elem_of_cons in Hf as [->|Hf]; [done|]). by apply elem_of_nil in Hf.
  - done.
Qed.
