(* ===== verification/NetSeries.v ===== *)
(** * The series of the network tracker

    What [NetTrack] sends on the counter track of a series (a scope, a protocol and a
    kind of count), sample by sample, when the callback accepts everything: the
    differences of that scope's readings, and nothing of another series.  A peer is
    on a track as long as there are less than [max_peer_tracks] of them. *)

From S2P Require Import Prelude Protocol Text Float BpfConfig BpfEvents NetTrack NetSamples NetProps.
Open Scope Z_scope.

(** ** The values on a counter track *)

Definition series_value (id : Z) (m : Message) : list (Z * Z) :=
  match event_of m with
  | Event.Counter c =>
      match Counter.track_id c with
      | TrackId.Counter i => if i =? id then [(Counter.value c, Counter.timestamp c)] else []
      | _ => []
      end
  | _ => []
  end.

(** The values, as 64-bit patterns of doubles, and their times. *)
Definition series_values (id : Z) (ms : list Message) : list (Z * Z) := concat (map (series_value id) ms).

Lemma series_values_app id ms ms' : series_values id (ms ++ ms') = series_values id ms ++ series_values id ms'.
Proof. unfold series_values. by rewrite map_app, concat_app. Qed.

(** ** What is reported of a series *)

Section Series.

Context (user : list Message -> Message -> Z) (rng : nat -> Z) (config : NetTrackConfig).

Hypothesis accepts : forall ms m, user ms m = 0.

(** For each series the values reported of it. *)
Definition Reports : Type := SeriesKey -> list (Z * Z).

(** The outbox holds the values of each series on a track of its own. *)
Record ledger (R : Reports) (s : NetTrack) : Prop := {
  led_values key id : series_ids s !! key = Some id -> series_values id (sent (port s)) = R key;
  led_none key : series_ids s !! key = None -> R key = [];
  led_drawn key id : series_ids s !! key = Some id -> exists n, (n < draws (port s))%nat /\ id = rng n;
  led_other id : (forall key, series_ids s !! key <> Some id) -> series_values id (sent (port s)) = [];
  led_inj key key' id : series_ids s !! key = Some id -> series_ids s !! key' = Some id -> key = key'
}.

(** No more peers get a track. *)
Definition full (s : NetTrack) : Prop := nt_max_peer_tracks config <= Z.of_nat (size (peer_track_ids s)).

(** From one state to another the values [R] are reported. *)
Record adds (R : Reports) (s s' : NetTrack) : Prop := {
  ad_draws : (draws (port s) <= draws (port s'))%nat;
  ad_ledger R0 : distinct_draws rng (draws (port s')) -> ledger R0 s -> ledger (fun key => R0 key ++ R key) s';
  ad_tracks : peer_track_ids s ⊆ peer_track_ids s';
  ad_full : full s -> peer_track_ids s' = peer_track_ids s
}.

Lemma distinct_less n n' : (n <= n')%nat -> distinct_draws rng n' -> distinct_draws rng n.
Proof. intros Hle H i j Hi Hj. apply H; lia. Qed.

Lemma ledger_ext R R' s : (forall key, R key = R' key) -> ledger R s -> ledger R' s.
Proof. intros E [H1 H2 H3 H4 H5]. split; try done; intros; rewrite <-E; auto. Qed.

Lemma adds_ext R R' s s' : (forall key, R key = R' key) -> adds R s s' -> adds R' s s'.
Proof.
  intros E [H1 H2 H3 H4]. split; try done. intros R0 Hd Hl. eapply ledger_ext; [|by apply H2]. intros key. cbn. by rewrite E.
Qed.

Lemma adds_trans R1 R2 s1 s2 s3 : adds R1 s1 s2 -> adds R2 s2 s3 -> adds (fun key => R1 key ++ R2 key) s1 s3.
Proof.
  intros [D1 L1 T1 F1] [D2 L2 T2 F2]. split; [lia| |by etrans|].
  - intros R0 Hd Hl. eapply ledger_ext; [|apply L2; [done|apply (L1 R0); [by eapply distinct_less|done]]].
    intros key. cbn. by rewrite app_assoc.
  - intros Hf. rewrite F2, F1; [done|done|]. unfold full. by rewrite F1.
Qed.

Lemma adds_same s s' :
  port s' = port s -> series_ids s' = series_ids s -> peer_track_ids s' = peer_track_ids s -> adds (fun _ => []) s s'.
Proof.
  intros E1 E2 E3. split; rewrite ?E1, ?E3; try done. intros R0 _ [H1 H2 H3 H4 H5].
  split; intros *; rewrite ?E1, ?E2, ?app_nil_r; eauto.
Qed.

(** A reading with nothing to report of it, and more after it. *)
Lemma adds_skip R s s1 s' :
  port s1 = port s -> series_ids s1 = series_ids s -> peer_track_ids s1 = peer_track_ids s ->
  adds R s1 s' -> adds R s s'.
Proof.
  intros E1 E2 E3 H. apply (adds_ext (fun key => [] ++ R key)); [done|].
  by eapply (adds_trans (fun _ => []) R); [apply (adds_same s s1)|].
Qed.

(** *** One sample *)

Definition emit_series (parent : option TrackType) (series_key : SeriesKey) (sample : CounterSample) (timestamp : Z)
    (s : NetTrack) : Z * NetTrack :=
  let '(id, s) :=
    match series_ids s !! series_key with
    | Some id => (id, s)
    | None =>
        let '(id, p) := draw rng (port s) in
        (id, set_series s (<[series_key := id]> (series_ids s)) (submitted_tracks s) p)
    end in
  let '(result, s) :=
    if decide (id ∈ submitted_tracks s) then (0, s)
    else
      let '(result, p) := send user (counter_track (cs_name sample) id (cs_unit sample) parent) (port s) in
      (result, set_series s (series_ids s) ({[id]} ∪ submitted_tracks s) p) in
  if negb (result =? 0) then (result, s)
  else
    let '(result, p) := send user
      (counter_message (cs_name sample) (cs_value sample) timestamp id (cs_unit sample)) (port s) in
    (result, set_port s p).

Definition value_of (timestamp : Z) (sample : CounterSample) : Z * Z := (to_bits (cs_value sample), timestamp).

(** The track of the series is there or drawn, and described before the value. *)
Lemma emit_series_effect parent key sample timestamp s :
  let r := emit_series parent key sample timestamp s in
  r.1 = 0 /\ same_statistics s r.2 /\ peer_track_ids r.2 = peer_track_ids s /\
  exists id, series_ids r.2 = <[key := id]> (series_ids s) /\
    (forall i, series_values i (sent (port r.2)) =
       series_values i (sent (port s)) ++ (if id =? i then [value_of timestamp sample] else [])) /\
    match series_ids s !! key with
    | Some id0 => id = id0 /\ draws (port r.2) = draws (port s)
    | None => id = rng (draws (port s)) /\ draws (port r.2) = S (draws (port s))
    end.
Proof using accepts.
  assert (forall i ms name id unit, series_values i (ms ++ [counter_track name id unit parent]) = series_values i ms) as Ht.
  { intros. rewrite series_values_app. cbn. by rewrite !app_nil_r. }
  assert (forall i ms name v id unit, series_values i (ms ++ [counter_message name v timestamp id unit]) =
    series_values i ms ++ (if id =? i then [(to_bits v, timestamp)] else [])) as Hv.
  { intros. rewrite series_values_app. cbn. by rewrite !app_nil_r. }
  cbn zeta. unfold emit_series. destruct (series_ids s !! key) as [id|] eqn:E; cbn -[series_values counter_message counter_track].
  - destruct (decide (id ∈ submitted_tracks s)); cbn -[series_values counter_message counter_track]; rewrite ?accepts; cbn -[series_values counter_message counter_track]; rewrite ?accepts; cbn -[series_values counter_message counter_track];
      (split; [done|split; [done|split; [done|]]]); exists id; rewrite insert_id by done;
      (split; [done|split; [intros i; by rewrite Hv, ?Ht|done]]).
  - destruct (decide (rng (draws (port s)) ∈ submitted_tracks s)); cbn -[series_values counter_message counter_track]; rewrite ?accepts; cbn -[series_values counter_message counter_track]; rewrite ?accepts; cbn -[series_values counter_message counter_track];
      (split; [done|split; [done|split; [done|]]]); exists (rng (draws (port s)));
      (split; [done|split; [intros i; by rewrite Hv, ?Ht|done]]).
Qed.

(** The values of one series. *)
Definition only (key : SeriesKey) (l : list (Z * Z)) : Reports := fun key' => if bool_decide (key' = key) then l else [].

Lemma emit_series_adds parent key sample timestamp s :
  adds (only key [value_of timestamp sample]) s (emit_series parent key sample timestamp s).2.
Proof using accepts.
  destruct (emit_series_effect parent key sample timestamp s) as (_ & _ & Hp & id & Hids & Hv & Hid).
  set (s' := (emit_series _ _ _ _ s).2) in *.
  assert (draws (port s) <= draws (port s'))%nat as Hd by (destruct (series_ids s !! key); destruct Hid as [_ ->]; lia).
  split; [done| |by rewrite Hp|done]. intros R0 Hdist [H1 H2 H3 H4 H5].
  assert (forall key' i, series_ids s !! key' = Some i -> (i = id <-> key' = key)) as Hfresh.
  { intros key' i Hk. destruct (series_ids s !! key) as [id0|] eqn:E; destruct Hid as [-> Hd'].
    - split; [intros ->; by eapply H5|congruence].
    - split; [|congruence]. intros ->. destruct (H3 _ _ Hk) as (n & Hn & Hr). rewrite Hd' in Hdist.
      apply Hdist in Hr; lia. }
  assert (series_values id (sent (port s)) = R0 key) as Hnew.
  { destruct (series_ids s !! key) as [id0|] eqn:E; destruct Hid as [-> Hd']; [by apply H1|].
    rewrite (H2 _ E). apply H4. intros key' Hk. pose proof (proj1 (Hfresh _ _ Hk) eq_refl). congruence. }
  unfold only. split.
  - intros key' i. rewrite Hids, Hv. intros [[<- <-]|[Hne Hk]]%lookup_insert_Some.
    + by rewrite Z.eqb_refl, bool_decide_true, Hnew by done.
    + rewrite (H1 _ _ Hk), bool_decide_false by done. f_equal. destruct (Z.eqb_spec id i) as [->|]; [|done].
      by destruct (Hne (eq_sym (proj1 (Hfresh _ _ Hk) eq_refl))).
  - intros key'. rewrite Hids. intros [Hk Hne]%lookup_insert_None. by rewrite bool_decide_false, app_nil_r, H2.
  - intros key' i. rewrite Hids. intros [[_ <-]|[_ (n & Hn & ->)%H3]]%lookup_insert_Some; [|exists n; split; [lia|done]].
    destruct (series_ids s !! key) as [id0|] eqn:E; destruct Hid as [-> Hd'].
    + destruct (H3 _ _ E) as (n & Hn & ->). exists n. split; [lia|done].
    + exists (draws (port s)). split; [lia|done].
  - intros i Hi. rewrite Hv. destruct (Z.eqb_spec id i) as [->|Hne].
    { exfalso. apply (Hi key). by rewrite Hids, lookup_insert_eq. }
    rewrite app_nil_r. apply H4. intros key' Hk. apply (Hi key'). rewrite Hids.
    rewrite lookup_insert_ne; [done|]. intros <-. apply Hne. symmetry. by apply (Hfresh _ _ Hk).
  - intros k1 k2 i. rewrite Hids.
    intros [[<- <-]|[Hne Hk]]%lookup_insert_Some [[<- ?]|[Hne' Hk']]%lookup_insert_Some; [done|..].
    + symmetry. by apply (Hfresh _ _ Hk').
    + subst i. by apply (Hfresh _ _ Hk).
    + by eapply H5.
Qed.

(** *** Scopes *)

(** A peer is reported once it has a track. *)
Definition shown (scope : ScopeKey) (s : NetTrack) : bool :=
  match scope with SPeer key => bool_decide (is_Some (peer_track_ids s !! key)) | _ => true end.

Lemma shown_later R scope s s' :
  adds R s s' -> (shown scope s = false -> full s) -> shown scope s' = shown scope s.
Proof.
  intros [_ _ Ht Hf] Hs. destruct scope as [| |key]; [done..|]. cbn in *.
  destruct (peer_track_ids s !! key) as [id|] eqn:E.
  - rewrite (lookup_weaken _ _ _ _ E Ht). done.
  - rewrite Hf, E; [done|]. apply Hs. by apply bool_decide_eq_false, is_Some_None.
Qed.

Lemma full_later R s s' : adds R s s' -> full s -> full s'.
Proof. intros [_ _ _ Hf] Hs. unfold full. by rewrite (Hf Hs). Qed.

Lemma ensure_peer_track_adds key s :
  let '(id, s') := ensure_peer_track user rng config key s in
  same_statistics s s' /\ adds (fun _ => []) s s' /\
  match id with
  | Some _ => shown (SPeer key) s' = true
  | None => shown (SPeer key) s' = false /\ full s'
  end.
Proof using accepts.
  unfold ensure_peer_track. destruct (peer_track_ids s !! key) as [id|] eqn:E.
  { split; [done|]. split; [by apply adds_same|]. cbn. by rewrite E. }
  destruct (Z.leb_spec (nt_max_peer_tracks config) (Z.of_nat (size (peer_track_ids s)))) as [Hle|Hle].
  { split; [done|]. split; [by apply adds_same|]. cbn. by rewrite E. }
  cbn [draw send]. rewrite accepts. cbn [Z.eqb negb]. split; [done|]. split.
  2: { cbn. by rewrite lookup_insert_eq. }
  split; cbn -[series_values].
  - lia.
  - assert (forall i m, (forall c, event_of m <> Event.Counter c) ->
      series_values i (sent (port s) ++ [m]) = series_values i (sent (port s))) as Hv.
    { intros i m Hm. rewrite series_values_app. unfold series_values at 2, series_value. cbn [map concat].
      destruct (event_of m); rewrite ?app_nil_r; try done. by destruct (Hm c). }
    intros R0 _ [H1 H2 H3 H4 H5]. split; cbn -[series_values].
    + intros k i Hk. rewrite Hv, app_nil_r by done. by apply H1.
    + intros k Hk. by rewrite app_nil_r, H2.
    + intros k i Hk. destruct (H3 _ _ Hk) as (n & Hn & ->). exists n. split; [lia|done].
    + intros i Hi. rewrite Hv by done. by apply H4.
    + done.
  - by apply insert_subseteq.
  - unfold full. lia.
Qed.

Lemma emit_sample_adds scope protocol sample timestamp s :
  let r := emit_sample user rng config scope protocol sample timestamp s in
  r.1 = 0 /\ same_statistics s r.2 /\ (shown scope r.2 = false -> full r.2) /\
  adds (only (mkSeriesKey scope protocol (cs_kind sample))
    (if shown scope r.2 then [value_of timestamp sample] else [])) s r.2.
Proof using accepts.
  cbn zeta. set (key := mkSeriesKey _ _ _).
  assert (forall parent s1, same_statistics s s1 -> adds (fun _ => []) s s1 -> shown scope s1 = true ->
    let r := emit_series parent key sample timestamp s1 in
    r.1 = 0 /\ same_statistics s r.2 /\ (shown scope r.2 = false -> full r.2) /\
    adds (only key (if shown scope r.2 then [value_of timestamp sample] else [])) s r.2) as Hrest.
  { intros parent s1 Hst Had Hsh. cbn zeta.
    destruct (emit_series_effect parent key sample timestamp s1) as (Hz & Hst1 & Hp & _).
    pose proof (emit_series_adds parent key sample timestamp s1) as Ha. set (s' := (emit_series _ _ _ _ s1).2) in *.
    assert (shown scope s' = true) as Hsh'.
    { rewrite <-Hsh. apply (shown_later _ _ _ _ Ha). by rewrite Hsh. }
    rewrite Hsh'. split; [done|]. split.
    { destruct Hst as (?&?&?&?&?), Hst1 as (?&?&?&?&?). repeat split; congruence. }
    split; [done|]. apply (adds_ext (fun k => [] ++ only key [value_of timestamp sample] k)); [done|]. by eapply adds_trans. }
  destruct scope as [|tg|peer]; [by apply (Hrest None s); [|apply adds_same|]|by apply (Hrest (Some _) s); [|apply adds_same|]|].
  pose proof (ensure_peer_track_adds peer s) as He. unfold emit_sample.
  destruct (ensure_peer_track user rng config peer s) as [[id|] s1]; destruct He as (Hst & Had & Hsh).
  - by apply (Hrest (Some (TrackType.Custom id)) s1).
  - destruct Hsh as [Hsh Hf]. cbn [fmap option_fmap option_map fst snd]. rewrite Hsh. split_and!; try done.
    eapply adds_ext; [|exact Had]. intros k. unfold only. by destruct (bool_decide _).
Qed.

(** The samples of a list that are of a series. *)
Definition picks (timestamp : Z) (key : SeriesKey) (l : list CounterSample) : list (Z * Z) :=
  map (value_of timestamp) (List.filter (fun c => bool_decide (cs_kind c = kind key)) l).

Definition in_scope (sc : ScopeKey) (protocol : NetProtocol) (key : SeriesKey) : bool :=
  bool_decide (scope key = sc) && bool_decide (sk_protocol key = protocol).

Lemma emit_all_adds sc protocol timestamp l s :
  let r := until_refused (fun sample => emit_sample user rng config sc protocol sample timestamp) l s in
  r.1 = 0 /\ same_statistics s r.2 /\ (l <> [] -> shown sc r.2 = false -> full r.2) /\
  adds (fun key => if in_scope sc protocol key && shown sc r.2 then picks timestamp key l else []) s r.2.
Proof using accepts.
  cbn zeta. revert s. induction l as [|a l IH]; intros s.
  { cbn. split_and!; try done. eapply adds_ext; [|by apply adds_same]. intros key. cbn. by destruct (_ && _). }
  cbn [until_refused]. destruct (emit_sample_adds sc protocol a timestamp s) as (Hz & Hst & Hf & Ha).
  destruct (emit_sample _ _ _ _ _ a _ s) as [z s1]. cbn [fst snd] in *. subst z. cbn [Z.eqb negb].
  destruct (IH s1) as (-> & Hst2 & _ & Ha2). set (s2 := (until_refused _ l s1).2) in *.
  pose proof (shown_later _ _ _ _ Ha2 Hf) as Hsh. split; [done|]. split.
  { destruct Hst as (?&?&?&?&?), Hst2 as (?&?&?&?&?). repeat split; congruence. }
  split. { intros _. rewrite Hsh. intros Hs1. by apply (full_later _ _ _ Ha2), Hf. }
  eapply adds_ext; [|eapply adds_trans; [exact Ha|exact Ha2]]. intros key. cbn beta. rewrite Hsh.
  unfold only, in_scope, picks. cbn [List.filter]. destruct key as [sk p k]. cbn [scope sk_protocol kind].
  destruct (decide (sk = sc)) as [->|Hne]; [|rewrite (bool_decide_false (sk = sc)), bool_decide_false by congruence; done].
  destruct (decide (p = protocol)) as [->|Hne].
  2: { rewrite (bool_decide_false (p = protocol)), andb_false_r, bool_decide_false by congruence. done. }
  rewrite (bool_decide_true (sc = sc)), (bool_decide_true (protocol = protocol)) by done. cbn [andb].
  destruct (shown sc s1); [|by destruct (bool_decide _)].
  destruct (decide (cs_kind a = k)) as [<-|Hne].
  - by rewrite !bool_decide_true by done.
  - by rewrite !bool_decide_false by congruence.
Qed.

(** *** Kinds of counts *)

(** The count of a kind; the totals of the host are sums of two of them. *)
Definition kind_stat (k : CounterKind) : option (StatsValue -> Z) :=
  match k with
  | KSendBytes => Some send_bytes
  | KRecvBytes => Some recv_bytes
  | KSendOperations => Some send_operations
  | KRecvOperations => Some recv_operations
  | KSendErrors => Some send_errors
  | KRecvErrors => Some recv_errors
  | KSendWouldBlock => Some send_would_block
  | KRecvWouldBlock => Some recv_would_block
  | KTcpRecvEof => Some tcp_recv_eof
  | KUdpRecvTruncated => Some udp_recv_truncated
  | KTotalSendBytes | KTotalRecvBytes => None
  end.

Definition kind_metric (k : CounterKind) : NetMetric :=
  match k with
  | KSendBytes | KRecvBytes | KTotalSendBytes | KTotalRecvBytes => Bytes
  | KSendOperations | KRecvOperations | KTcpRecvEof | KUdpRecvTruncated => Operations
  | _ => Errors
  end.

(** A kind that is configured, and is one of the protocol. *)
Definition configured (key : SeriesKey) : bool :=
  has_metric config (kind_metric (kind key)) &&
  match kind key, sk_protocol key with KTcpRecvEof, Udp | KUdpRecvTruncated, Tcp => false | _, _ => true end.

(** A difference as it is reported: bytes may be bits per second. *)
Definition kind_value (k : CounterKind) (d : Z) (elapsed_seconds : f64) : f64 :=
  match kind_metric k with Bytes => bytes_value config d elapsed_seconds | _ => of_int d end.

Definition reported_value (k : CounterKind) (d : Z) (elapsed_seconds : f64) (timestamp : Z) : Z * Z :=
  (to_bits (kind_value k d elapsed_seconds), timestamp).

Lemma picks_samples key f stats elapsed timestamp :
  kind_stat (kind key) = Some f ->
  picks timestamp key (samples_for config (sk_protocol key) stats elapsed) =
    if configured key then [reported_value (kind key) (f stats) elapsed timestamp] else [].
Proof using.
  destruct key as [sc p k]. unfold picks, samples_for, configured, reported_value, kind_value. cbn [kind sk_protocol].
  destruct k; intros [= <-]; cbn [kind_metric]; destruct (has_metric config Bytes), (has_metric config Operations),
    (has_metric config Errors), p; reflexivity.
Qed.

Lemma picks_totals key f stats elapsed timestamp :
  kind_stat (kind key) = Some f -> picks timestamp key (total_samples config stats elapsed) = [].
Proof using. destruct key as [sc p k]. unfold picks. cbn [kind]. by destruct k; intros [= <-]. Qed.

Lemma samples_configured key f stats elapsed :
  kind_stat (kind key) = Some f -> configured key = true -> samples_for config (sk_protocol key) stats elapsed <> [].
Proof using.
  intros Hf Hc Hn. pose proof (picks_samples key f stats elapsed 0 Hf) as Hp. by rewrite Hn, Hc in Hp.
Qed.

(** *** The entries of a map *)

(** What a sample reports of the series [key] from the reading of an entry. *)
Definition entry_values (key : SeriesKey) (p : NetProtocol) (sc : ScopeKey) (current : StatsValue)
    (previous : option StatsValue) (elapsed : f64) (timestamp : Z) (s' : NetTrack) : list (Z * Z) :=
  if in_scope sc p key && shown sc s' then picks timestamp key (samples_for config p (delta current previous) elapsed) else [].

Section Entries.

Context {K : Type} `{Countable K}.
Context (protocol_of : K -> Z) (scope_of : K -> ScopeKey).
Context (prev : NetTrack -> gmap K StatsValue) (keep : K -> StatsValue -> NetTrack -> NetTrack).
Context (elapsed : f64) (timestamp : Z).

Hypothesis prev_same : forall s s', same_statistics s s' -> prev s' = prev s.
Hypothesis prev_keep : forall k c s, prev (keep k c s) = <[k := c]> (prev s).
Hypothesis keep_rest : forall k c s,
  port (keep k c s) = port s /\ series_ids (keep k c s) = series_ids s /\ peer_track_ids (keep k c s) = peer_track_ids s.

Definition sample_entry (entry : K * StatsValue) (s : NetTrack) : Z * NetTrack :=
  let '(key, current) := entry in
  match Protocol.from_index (protocol_of key) with
  | None => (0, s)
  | Some protocol =>
      let previous := prev s !! key in
      let s := keep key current s in
      emit_stats user rng config (scope_of key) protocol (delta current previous) elapsed timestamp s
  end.

(** Parts of the state that no entry changes. *)
Definition untouched {B} (g : NetTrack -> B) : Prop :=
  (forall s s', same_statistics s s' -> g s' = g s) /\ (forall k c s, g (keep k c s) = g s).

Lemma sample_entry_adds entry s :
  let r := sample_entry entry s in
  r.1 = 0 /\ (forall B (g : NetTrack -> B), untouched g -> g r.2 = g s) /\
  match Protocol.from_index (protocol_of entry.1) with
  | Some p =>
      prev r.2 = <[entry.1 := entry.2]> (prev s) /\
      (forall key f, kind_stat (kind key) = Some f -> configured key = true -> sk_protocol key = p ->
         shown (scope_of entry.1) r.2 = false -> full r.2) /\
      adds (fun key => entry_values key p (scope_of entry.1) entry.2 (prev s !! entry.1) elapsed timestamp r.2) s r.2
  | None => r.2 = s
  end.
Proof using accepts prev_same prev_keep keep_rest.
  cbn zeta. destruct entry as [key current]. cbn [sample_entry fst snd].
  destruct (Protocol.from_index (protocol_of key)) as [p|]; [|by split_and!; [|intros ? ? _|]].
  destruct (keep_rest key current s) as (Ep & Es & Et). unfold emit_stats.
  set (l := samples_for _ _ _ _).
  destruct (emit_all_adds (scope_of key) p timestamp l (keep key current s)) as (Hz & Hst & Hf & Ha).
  set (s' := (until_refused _ l _).2) in *. split; [done|]. split.
  { intros B g [Hg1 Hg2]. by rewrite (Hg1 _ _ Hst), Hg2. }
  split; [by rewrite (prev_same _ _ Hst), prev_keep|]. split; [|by apply (adds_skip _ s (keep key current s))].
  intros k f Hk Hc <-. apply Hf. by eapply samples_configured.
Qed.

(** The reading of a key among the entries. *)
Definition reading_is (entries : list (K * StatsValue)) (k : K) (o : option StatsValue) : Prop :=
  match o with Some c => (k, c) ∈ entries | None => k ∉ map fst entries end.

Lemma reading_is_cons e entries k o :
  reading_is (e :: entries) k o -> k <> e.1 -> reading_is entries k o.
Proof using.
  destruct o as [c|]; cbn [reading_is map]; intros Ho Hne.
  - by apply elem_of_cons in Ho as [<-|Ho].
  - intros Hin. apply Ho. by right.
Qed.

Lemma reading_is_head e entries k o :
  reading_is (e :: entries) k o -> k = e.1 -> e.1 ∉ map fst entries -> o = Some e.2.
Proof using.
  destruct o as [c|]; cbn [reading_is map]; intros Ho -> Hn.
  - apply elem_of_cons in Ho as [<-|Ho]; [done|]. destruct Hn. apply list_elem_of_In. by apply list_elem_of_In, (in_map fst) in Ho.
  - destruct Ho. by left.
Qed.

(** The one entry a series is about, in a known protocol. *)
Definition about (entries : list (K * StatsValue)) (k : K) (key : SeriesKey) : Prop :=
  Protocol.from_index (protocol_of k) = Some (sk_protocol key) /\ scope_of k = scope key /\
  forall e, e ∈ entries -> Protocol.from_index (protocol_of e.1) = Some (sk_protocol key) -> scope_of e.1 = scope key -> e.1 = k.

Lemma about_cons e entries k key : about (e :: entries) k key -> about entries k key.
Proof using. intros (Hp & Hs & Hu). split_and!; try done. intros e' He'. apply Hu. by right. Qed.

(** What a sample reports of one series. *)
Definition report_of (key : SeriesKey) (f : StatsValue -> Z) (reading previous : option StatsValue) (elapsed : f64)
    (timestamp : Z) (s' : NetTrack) : list (Z * Z) :=
  match reading with
  | Some current =>
      if shown (scope key) s' then [reported_value (kind key) (f (delta current previous)) elapsed timestamp] else []
  | None => []
  end.

Lemma entry_values_own key f current previous s' :
  kind_stat (kind key) = Some f -> configured key = true ->
  entry_values key (sk_protocol key) (scope key) current previous elapsed timestamp s' =
  report_of key f (Some current) previous elapsed timestamp s'.
Proof using.
  intros Hf Hc. unfold entry_values, in_scope. rewrite !bool_decide_true by done. cbn [andb].
  by rewrite (picks_samples key f), Hc.
Qed.

Lemma entry_values_other key p sc current previous s' :
  (p = sk_protocol key -> sc <> scope key) -> entry_values key p sc current previous elapsed timestamp s' = [].
Proof using.
  intros Hne. unfold entry_values, in_scope. destruct (decide (sk_protocol key = p)) as [<-|Hp].
  - rewrite (bool_decide_false (scope key = sc)); [done|]. intros E. by apply (Hne eq_refl).
  - by rewrite (bool_decide_false (sk_protocol key = p)), andb_false_r.
Qed.

Lemma entries_adds entries s :
  NoDup (map fst entries) ->
  let r := until_refused sample_entry entries s in
  r.1 = 0 /\ (forall B (g : NetTrack -> B), untouched g -> g r.2 = g s) /\
  exists R, adds R s r.2 /\
  (forall key, (forall e, e ∈ entries -> scope_of e.1 <> scope key) -> R key = []) /\
  forall k key f o, kind_stat (kind key) = Some f -> configured key = true -> about entries k key ->
    reading_is entries k o ->
    prev r.2 !! k = match o with Some c => Some c | None => prev s !! k end /\
    R key = report_of key f o (prev s !! k) elapsed timestamp r.2 /\
    (o <> None -> shown (scope key) r.2 = false -> full r.2).
Proof using accepts prev_same prev_keep keep_rest.
  cbn zeta. revert s. induction entries as [|e entries IH]; intros s Hnd.
  { cbn. split_and!; [done|done|]. exists (fun _ => []). split_and!; [by apply adds_same|done|].
    intros k key f [c|] _ _ _ Ho; [by apply elem_of_nil in Ho|done]. }
  cbn [map] in Hnd. apply NoDup_cons in Hnd as [Hne Hnd]. cbn [until_refused].
  destruct (sample_entry_adds e s) as (Hz & Hg & Hs).
  destruct (sample_entry e s) as [z s1]. cbn [fst snd] in *. subst z. cbn [Z.eqb negb].
  destruct (IH s1 Hnd) as (-> & Hg2 & R & Ha2 & Hn2 & Hr2). set (s2 := (until_refused _ entries s1).2) in *.
  split; [done|]. split. { intros B g Hu. by rewrite (Hg2 B g Hu), (Hg B g Hu). }
  destruct (Protocol.from_index (protocol_of e.1)) as [p|] eqn:Ep.
  2: { subst s1. exists R. split; [done|]. split. { intros key Hk. apply Hn2. intros e' He'. apply Hk. by right. }
    intros k key f o Hf Hc Hab Ho. apply Hr2; try done; [by eapply about_cons|]. eapply reading_is_cons; [exact Ho|].
    intros ->. destruct Hab as [Hp _]. congruence. }
  destruct Hs as (Hprev & Hfull & Ha). exists (fun key => entry_values key p (scope_of e.1) e.2 (prev s !! e.1) elapsed timestamp s1 ++ R key).
  split; [by eapply (adds_trans (fun key => entry_values key p (scope_of e.1) e.2 (prev s !! e.1) elapsed timestamp s1) R)|].
  split. { intros key Hk. rewrite entry_values_other, Hn2; [done| |by intros _; apply Hk; left].
    intros e' He'. apply Hk. by right. }
  intros k key f o Hf Hc Hab Ho. destruct (decide (k = e.1)) as [->|Hk].
  - rewrite (reading_is_head _ _ _ _ Ho eq_refl Hne). destruct Hab as (Hpk & Hsk & Hu). rewrite Ep in Hpk. injection Hpk as ->.
    destruct (Hr2 e.1 key f None Hf Hc) as (Hp2 & -> & _).
    { split_and!; [done|done|]. intros e' He'. apply Hu. by right. }
    { exact Hne. }
    assert (shown (scope key) s2 = shown (scope key) s1) as Hsh.
    { apply (shown_later _ _ _ _ Ha2). rewrite <-Hsk. by apply (Hfull key f). }
    rewrite Hp2, Hprev, lookup_insert_eq, Hsk, (entry_values_own _ f), app_nil_r by done. split; [done|].
    split; [cbn; by rewrite Hsh|]. intros _. rewrite Hsh. intros Hf1. apply (full_later _ _ _ Ha2).
    apply (Hfull key f); try done. by rewrite Hsk.
  - destruct (Hr2 k key f o Hf Hc) as (Hp2 & HR & Hfl); [by eapply about_cons|by eapply reading_is_cons|].
    assert (prev s1 !! k = prev s !! k) as E by (rewrite Hprev, lookup_insert_ne; [done|congruence]).
    rewrite E in Hp2, HR. split; [done|]. split; [|done]. rewrite entry_values_other; [done|].
    intros -> Hsc. apply Hk. symmetry. apply Hab; [by left|done..].
Qed.

End Entries.

(** *** A round *)

Lemma delta_host_adds protocol delta elapsed timestamp s :
  let r := emit_stats user rng config SHost protocol delta elapsed timestamp s in
  r.1 = 0 /\ same_statistics s r.2 /\
  exists R, adds R s r.2 /\ (forall key, scope key <> SHost -> R key = []) /\
  forall key f, kind_stat (kind key) = Some f -> configured key = true -> scope key = SHost ->
    R key = if bool_decide (sk_protocol key = protocol)
            then [reported_value (kind key) (f delta) elapsed timestamp] else [].
Proof using accepts.
  cbn zeta. unfold emit_stats. destruct (emit_all_adds SHost protocol timestamp (samples_for config protocol delta elapsed) s)
    as (Hz & Hst & _ & Ha). set (s' := (until_refused _ _ s).2) in *. split; [done|]. split; [done|].
  exists (fun key => if in_scope SHost protocol key && shown SHost s'
    then picks timestamp key (samples_for config protocol delta elapsed) else []).
  split; [exact Ha|]. split.
  - intros key Hk. unfold in_scope. by rewrite (bool_decide_false (scope key = SHost)).
  - intros key f Hf Hc Hs. unfold in_scope. rewrite Hs, (bool_decide_true (SHost = SHost)) by done. cbn [andb shown].
    rewrite andb_true_r. destruct (decide (sk_protocol key = protocol)) as [<-|Hne].
    + by rewrite bool_decide_true, (picks_samples key f), Hc by done.
    + by rewrite bool_decide_false by done.
Qed.

(** The reading of the host that the next one is compared with. *)
Definition host_previous (p : NetProtocol) (s : NetTrack) : StatsValue :=
  nth (Z.to_nat (Protocol.index p)) (global_previous s) StatsValue_default.

Lemma host_previous_keep p q c s :
  length (global_previous s) = 2%nat ->
  host_previous q (keep_global p c s) = if bool_decide (q = p) then c else host_previous q s.
Proof using.
  intros Hl. unfold host_previous. cbn. destruct (global_previous s) as [|a [|b [|]]]; try done. by destruct p, q.
Qed.

Lemma keep_global_rest p c s :
  process_previous (keep_global p c s) = process_previous s /\ peer_previous (keep_global p c s) = peer_previous s /\
  last_sample_ns (keep_global p c s) = last_sample_ns s /\ last_peer_sample_ns (keep_global p c s) = last_peer_sample_ns s.
Proof using. done. Qed.

Definition others_same (s s' : NetTrack) : Prop :=
  process_previous s' = process_previous s /\ peer_previous s' = peer_previous s /\
  last_sample_ns s' = last_sample_ns s /\ last_peer_sample_ns s' = last_peer_sample_ns s.

Lemma elem_of_tail (q p : NetProtocol) l : q <> p -> bool_decide (q ∈ p :: l) = bool_decide (q ∈ l).
Proof using. clear accepts. intros Hne. apply bool_decide_ext. set_solver. Qed.

Lemma sample_host_adds round current elapsed protocols acc s :
  (forall p, has_protocol config p = true -> read_global round p = Ok (current p)) ->
  NoDup protocols -> length (global_previous s) = 2%nat ->
  let r := sample_host user rng config round elapsed protocols acc s in
  (exists v, r.1 = Ok v) /\ others_same s r.2 /\ length (global_previous r.2) = 2%nat /\
  (forall p, host_previous p r.2 =
     if bool_decide (p ∈ protocols) && has_protocol config p then current p else host_previous p s) /\
  exists R, adds R s r.2 /\ (forall key, scope key <> SHost -> R key = []) /\
  forall key f, kind_stat (kind key) = Some f -> configured key = true -> scope key = SHost ->
    let p := sk_protocol key in
    R key = if bool_decide (p ∈ protocols) && has_protocol config p
            then [reported_value (kind key) (f (delta (current p) (Some (host_previous p s)))) elapsed (now round)] else [].
Proof using accepts.
  intros Hread Hnd. revert acc s. induction Hnd as [|p protocols Hp _ IH]; intros acc s Hl; cbn zeta.
  { cbn. split; [by eexists|]. split_and!; try done. exists (fun _ => []). split; [by apply adds_same|done]. }
  cbn [sample_host]. destruct (has_protocol config p) eqn:Ep; cbn [negb].
  2: { destruct (IH acc s Hl) as (Hv & Ho & Hl2 & Hpr & R & Ha & Hn & Hr). split_and!; try done.
    - intros q. rewrite Hpr. destruct (decide (q = p)) as [->|Hne]; [by rewrite Ep, !andb_false_r|].
      by rewrite elem_of_tail.
    - exists R. split; [done|]. split; [done|]. intros key f Hf Hc Hs. cbn zeta. rewrite (Hr key f) by done.
      destruct (decide (sk_protocol key = p)) as [->|Hne]; [by rewrite Ep, !andb_false_r|].
      by rewrite elem_of_tail. }
  rewrite Hread by done. fold (host_previous p s). set (d := delta _ _). set (s0 := keep_global p (current p) s).
  destruct (delta_host_adds p d elapsed (now round) s0) as (Hz & Hst & R1 & Ha1 & Hn1 & Hr1).
  destruct (emit_stats _ _ _ _ _ _ _ _ s0) as [z s1]. cbn [fst snd] in *. subst z. cbn [Z.eqb negb].
  destruct Hst as (E1 & E2 & E3 & E4 & E5). destruct (keep_global_rest p (current p) s) as (K1 & K2 & K3 & K4).
  fold s0 in K1, K2, K3, K4.
  assert (length (global_previous s1) = 2%nat) as Hl1 by (rewrite E1; cbn; by rewrite length_insert).
  destruct (IH (accumulate acc d) s1 Hl1) as (Hv & (O1 & O2 & O3 & O4) & Hl2 & Hpr & R2 & Ha2 & Hn2 & Hr2).
  assert (forall q, host_previous q s1 = if bool_decide (q = p) then current p else host_previous q s) as Hq.
  { intros q. rewrite <-(host_previous_keep p) by done. unfold host_previous. by rewrite E1. }
  assert (bool_decide (p ∈ protocols) = false) as Hpf by by apply bool_decide_eq_false.
  split; [done|]. split. { repeat split; congruence. } split; [done|]. split.
  - intros q. rewrite Hpr, Hq. destruct (decide (q = p)) as [->|Hne].
    + by rewrite Hpf, Ep, !bool_decide_true by set_solver.
    + by rewrite (bool_decide_false (q = p)), elem_of_tail.
  - exists (fun key => R1 key ++ R2 key). split.
    { apply (adds_skip _ s s0); [done..|]. by eapply adds_trans. }
    split. { intros key Hk. by rewrite Hn1, Hn2. }
    intros key f Hf Hc Hs. cbn zeta. rewrite (Hr1 key f), (Hr2 key f), Hq by done.
    destruct (decide (sk_protocol key = p)) as [->|Hne].
    + by rewrite Hpf, Ep, !bool_decide_true by set_solver.
    + by rewrite !(bool_decide_false (sk_protocol key = p)), elem_of_tail.
Qed.

(** The state a series is about: the reading it is compared with, and when it was. *)
Definition key_of_process (tgid : Z) (p : NetProtocol) : ProcessKey := mkProcessKey tgid (Protocol.index p) [0; 0; 0].

Definition prev_of (key : SeriesKey) (s : NetTrack) : option StatsValue :=
  match scope key with
  | SHost => Some (host_previous (sk_protocol key) s)
  | SProcess tgid => process_previous s !! key_of_process tgid (sk_protocol key)
  | SPeer peer => peer_previous s !! peer
  end.

Definition last_of (key : SeriesKey) (s : NetTrack) : Z :=
  match scope key with SPeer _ => last_peer_sample_ns s | _ => last_sample_ns s end.

Definition frequency_of (key : SeriesKey) : Z :=
  match scope key with SPeer _ => nt_peer_frequency config | _ => nt_frequency config end.

(** A series that can be reported. *)
Definition reportable (key : SeriesKey) : Prop :=
  configured key = true /\
  match scope key with
  | SHost => has_scope config Host = true /\ has_protocol config (sk_protocol key) = true
  | SProcess _ => has_scope config Process = true
  | SPeer peer => has_scope config Peer = true /\ Protocol.from_index (protocol peer) = Some (sk_protocol key)
  end.

(** What a round finds, if it can be read; the keys of processes are padded with
    zeros. *)
Record finds (round : Round) (current : NetProtocol -> StatsValue) (pm : gmap ProcessKey StatsValue)
    (qm : gmap PeerKey StatsValue) : Prop := {
  fi_global p : read_global round p = Ok (current p);
  fi_processes : read_processes round = Ok (map_to_list pm);
  fi_peers : read_peers round = Ok (map_to_list qm);
  fi_padded k c : pm !! k = Some c -> pk_padding k = [0; 0; 0]
}.

Definition found_of (current : NetProtocol -> StatsValue) (pm : gmap ProcessKey StatsValue)
    (qm : gmap PeerKey StatsValue) (key : SeriesKey) : option StatsValue :=
  match scope key with
  | SHost => Some (current (sk_protocol key))
  | SProcess tgid => pm !! key_of_process tgid (sk_protocol key)
  | SPeer peer => qm !! peer
  end.

Lemma from_index_index i p : Protocol.from_index i = Some p <-> i = Protocol.index p.
Proof using.
  unfold Protocol.from_index, TCP_INDEX, UDP_INDEX. destruct (Z.eqb_spec i 0), (Z.eqb_spec i 1), p; cbn;
    unfold TCP_INDEX, UDP_INDEX; (split; [|]); intros H; simplify_eq; try done; lia.
Qed.

Lemma reading_of_map {K} `{Countable K} (m : gmap K StatsValue) k : reading_is (map_to_list m) k (m !! k).
Proof using.
  destruct (m !! k) as [c|] eqn:E; cbn; [by apply elem_of_map_to_list|].
  intros ([k' c] & -> & Hin)%list_elem_of_fmap. apply elem_of_map_to_list in Hin. cbn in E. congruence.
Qed.

Lemma NoDup_keys {K} `{Countable K} (m : gmap K StatsValue) : NoDup (map fst (map_to_list m)).
Proof using. apply NoDup_fst_map_to_list. Qed.

(** *** Processes *)

Lemma processes_adds elapsed timestamp pm s :
  (forall k c, pm !! k = Some c -> pk_padding k = [0; 0; 0]) ->
  let r := until_refused (sample_process user rng config elapsed timestamp) (map_to_list pm) s in
  global_previous r.2 = global_previous s /\ peer_previous r.2 = peer_previous s /\
  last_peer_sample_ns r.2 = last_peer_sample_ns s /\
  exists R, adds R s r.2 /\ (forall key, (forall t, scope key <> SProcess t) -> R key = []) /\
  forall key f t, kind_stat (kind key) = Some f -> configured key = true -> scope key = SProcess t ->
    let k := key_of_process t (sk_protocol key) in
    process_previous r.2 !! k = match pm !! k with Some c => Some c | None => process_previous s !! k end /\
    R key = report_of key f (pm !! k) (process_previous s !! k) elapsed timestamp r.2.
Proof using accepts.
  intros Hpad. cbn zeta.
  assert (sample_process user rng config elapsed timestamp =
    sample_entry pk_protocol (fun k => SProcess (pk_tgid k)) process_previous keep_process elapsed timestamp) as -> by done.
  destruct (entries_adds pk_protocol (fun k => SProcess (pk_tgid k)) process_previous keep_process elapsed timestamp
    ltac:(by intros s1 s2 (_ & ? & _)) ltac:(done) ltac:(done) (map_to_list pm) s (NoDup_keys pm)) as (_ & Hg & R & Ha & Hn & Hr).
  set (s' := (until_refused _ _ s).2) in *.
  split; [by apply (Hg _ global_previous); split; [by intros s1 s2 (? & _)|]|].
  split; [by apply (Hg _ peer_previous); split; [by intros s1 s2 (_ & _ & ? & _)|]|].
  split; [by apply (Hg _ last_peer_sample_ns); split; [by intros s1 s2 (_ & _ & _ & _ & ?)|]|].
  exists R. split; [done|]. split.
  { intros key Hk. apply Hn. intros e _ He. by destruct (Hk (pk_tgid e.1)). }
  intros key f t Hf Hc Hs. cbn zeta.
  destruct (Hr (key_of_process t (sk_protocol key)) key f (pm !! key_of_process t (sk_protocol key)) Hf Hc)
    as (H1 & H2 & _); [|apply reading_of_map|by split].
  split; [by apply from_index_index|]. split; [by rewrite Hs|]. intros [k c] Hin%elem_of_map_to_list Hp Hsc.
  apply from_index_index in Hp. rewrite Hs in Hsc. injection Hsc as Ht. pose proof (Hpad _ _ Hin) as Hz.
  destruct k as [a b d]. cbn in *. by subst.
Qed.

(** *** Peers *)

Lemma peers_adds elapsed timestamp qm s :
  let r := until_refused (sample_peer user rng config elapsed timestamp) (map_to_list qm) s in
  global_previous r.2 = global_previous s /\ process_previous r.2 = process_previous s /\
  last_sample_ns r.2 = last_sample_ns s /\
  exists R, adds R s r.2 /\ (forall key, (forall k, scope key <> SPeer k) -> R key = []) /\
  forall key f k, kind_stat (kind key) = Some f -> configured key = true -> scope key = SPeer k ->
    Protocol.from_index (protocol k) = Some (sk_protocol key) ->
    peer_previous r.2 !! k = match qm !! k with Some c => Some c | None => peer_previous s !! k end /\
    R key = report_of key f (qm !! k) (peer_previous s !! k) elapsed timestamp r.2 /\
    (qm !! k <> None -> shown (scope key) r.2 = false -> full r.2).
Proof using accepts.
  cbn zeta.
  assert (sample_peer user rng config elapsed timestamp =
    sample_entry protocol SPeer peer_previous keep_peer elapsed timestamp) as -> by done.
  destruct (entries_adds protocol SPeer peer_previous keep_peer elapsed timestamp
    ltac:(by intros s1 s2 (_ & _ & ? & _)) ltac:(done) ltac:(done) (map_to_list qm) s (NoDup_keys qm)) as (_ & Hg & R & Ha & Hn & Hr).
  set (s' := (until_refused _ _ s).2) in *.
  split; [by apply (Hg _ global_previous); split; [by intros s1 s2 (? & _)|]|].
  split; [by apply (Hg _ process_previous); split; [by intros s1 s2 (_ & ? & _)|]|].
  split; [by apply (Hg _ last_sample_ns); split; [by intros s1 s2 (_ & _ & _ & ? & _)|]|].
  exists R. split; [done|]. split.
  { intros key Hk. apply Hn. intros e _ He. by destruct (Hk e.1). }
  intros key f k Hf Hc Hs Hp. apply (Hr k key f (qm !! k) Hf Hc); [|apply reading_of_map].
  split; [done|]. split; [by rewrite Hs|]. intros e _ _ He. rewrite Hs in He. by injection He.
Qed.

(** *** The host, with its totals *)

Definition sample_host_part (round : Round) (elapsed : f64) (s : NetTrack) : result BpfError unit * NetTrack :=
  if has_scope config Host then
    let '(host_delta, s) := sample_host user rng config round elapsed [Tcp; Udp] StatsValue_default s in
    match host_delta with
    | Err e => (Err e, s)
    | Ok host_delta =>
        if has_metric config Bytes then
          (Ok tt, (until_refused (fun sample => emit_sample user rng config SHost Tcp sample (now round))
                     (total_samples config host_delta elapsed) s).2)
        else (Ok tt, s)
    end
  else (Ok tt, s).

Lemma host_part_adds round current elapsed s :
  (forall p, read_global round p = Ok (current p)) -> length (global_previous s) = 2%nat ->
  let r := sample_host_part round elapsed s in
  r.1 = Ok tt /\ others_same s r.2 /\ length (global_previous r.2) = 2%nat /\
  exists R, adds R s r.2 /\ (forall key, scope key <> SHost -> R key = []) /\
  forall key f, kind_stat (kind key) = Some f -> reportable key -> scope key = SHost ->
    host_previous (sk_protocol key) r.2 = current (sk_protocol key) /\
    R key = report_of key f (Some (current (sk_protocol key))) (Some (host_previous (sk_protocol key) s)) elapsed
      (now round) r.2.
Proof using accepts.
  intros Hread Hl. cbn zeta. unfold sample_host_part. destruct (has_scope config Host) eqn:Eh.
  2: { cbn. split_and!; try done. exists (fun _ => []). split; [by apply adds_same|]. split; [done|].
    intros key f _ [_ Hr] Hs. rewrite Hs, Eh in Hr. by destruct Hr. }
  destruct (sample_host_adds round current elapsed [Tcp; Udp] StatsValue_default s)
    as ((v & Hv) & Ho & Hl1 & Hp & R & Ha & Hn & Hr); [done|by apply (bool_decide_unpack _)|done|].
  destruct (sample_host _ _ _ _ _ _ _ s) as [x s1]. cbn [fst snd] in *. subst x.
  assert (forall p, bool_decide (p ∈ [Tcp; Udp]) = true) as Hin by (intros []; by apply bool_decide_eq_true; set_solver).
  assert (forall s2, shown SHost s2 = true) as Hsh by done.
  destruct (has_metric config Bytes).
  - destruct (emit_all_adds SHost Tcp (now round) (total_samples config v elapsed) s1) as (_ & Hst & _ & Ha2).
    set (s2 := (until_refused _ _ s1).2) in *. cbn [fst snd]. destruct Hst as (E1 & E2 & E3 & E4 & E5), Ho as (O1 & O2 & O3 & O4).
    split; [done|]. split; [by repeat split; congruence|]. split; [by rewrite E1|].
    eexists (fun key => R key ++ _). split; [eapply adds_trans; [exact Ha|exact Ha2]|]. cbn beta. split.
    { intros key Hk. unfold in_scope. by rewrite Hn, (bool_decide_false (scope key = SHost)). }
    intros key f Hf [Hc Hk] Hs. rewrite Hs in Hk. destruct Hk as [_ Hpk]. split.
    { unfold host_previous. rewrite E1. fold (host_previous (sk_protocol key) s1). by rewrite Hp, Hin, Hpk. }
    rewrite (Hr key f), Hin, Hpk, (picks_totals key f) by done. cbn [report_of andb]. rewrite Hs, !Hsh.
    by destruct (_ && _).
  - cbn [fst snd]. split_and!; [done|done|done|]. exists R. split; [done|]. split; [done|].
    intros key f Hf [Hc Hk] Hs. rewrite Hs in Hk. destruct Hk as [_ Hpk]. split; [by rewrite Hp, Hin, Hpk|].
    rewrite (Hr key f), Hin, Hpk by done. cbn [report_of andb]. by rewrite Hs, Hsh.
Qed.

Lemma host_processes_adds round current pm qm s :
  finds round current pm qm -> length (global_previous s) = 2%nat ->
  let r := sample_host_and_processes user rng config round s in
  r.1 = Ok tt /\ last_sample_ns r.2 = now round /\ last_peer_sample_ns r.2 = last_peer_sample_ns s /\
  peer_previous r.2 = peer_previous s /\ length (global_previous r.2) = 2%nat /\
  exists R, adds R s r.2 /\ (forall key k, scope key = SPeer k -> R key = []) /\
  forall key f, kind_stat (kind key) = Some f -> reportable key -> (forall k, scope key <> SPeer k) ->
    prev_of key r.2 = match found_of current pm qm key with Some c => Some c | None => prev_of key s end /\
    R key = report_of key f (found_of current pm qm key) (prev_of key s) (seconds_since (now round) (last_sample_ns s))
      (now round) r.2.
Proof using accepts.
  intros [Hg Hp Hq Hpad] Hl. cbn zeta. set (elapsed := seconds_since _ _).
  assert (sample_host_and_processes user rng config round s =
    let '(host, s1) := sample_host_part round elapsed s in
    match host with
    | Err e => (Err e, s1)
    | Ok _ =>
        if has_scope config Process then
          match read_processes round with
          | Err e => (Err e, s1)
          | Ok entries =>
              (Ok tt, set_last_sample (now round)
                 (until_refused (sample_process user rng config elapsed (now round)) entries s1).2)
          end
        else (Ok tt, set_last_sample (now round) s1)
    end) as -> by done.
  destruct (host_part_adds round current elapsed s Hg Hl) as (Hz & (O1 & O2 & O3 & O4) & Hl1 & R1 & Ha1 & Hn1 & Hr1).
  destruct (sample_host_part round elapsed s) as [x s1]. cbn [fst snd] in *. subst x. rewrite Hp.
  destruct (has_scope config Process) eqn:Ep.
  - destruct (processes_adds elapsed (now round) pm s1 Hpad) as (G1 & G2 & G3 & R2 & Ha2 & Hn2 & Hr2).
    set (s2 := (until_refused _ _ s1).2) in *. cbn [fst snd set_last_sample last_sample_ns last_peer_sample_ns
      peer_previous global_previous]. split_and!; [done|done|congruence|congruence|by rewrite G1|].
    exists (fun key => R1 key ++ R2 key). split.
    { apply (adds_ext (fun key => (R1 key ++ R2 key) ++ [])); [intros; by rewrite app_nil_r|].
      eapply (adds_trans _ (fun _ => [])); [eapply adds_trans; [exact Ha1|exact Ha2]|by apply adds_same]. }
    split. { intros key k Hk. rewrite Hn1, Hn2; [done|intros t|]; congruence. }
    intros key f Hf Hk Hs. destruct (scope key) as [|t|k] eqn:Es; [| |by destruct (Hs k)].
    + destruct (Hr1 key f Hf Hk Es) as [Hprev HR]. rewrite Hn2, app_nil_r by (intros t; by rewrite Es).
      unfold prev_of, found_of. rewrite Es, HR. split; [|by unfold report_of; rewrite Es].
      unfold host_previous in *. cbn [set_last_sample global_previous]. by rewrite G1, Hprev.
    + destruct Hk as [Hc Hk]. destruct (Hr2 key f t Hf Hc Es) as [Hprev HR]. rewrite Hn1 by by rewrite Es.
      unfold prev_of, found_of. rewrite Es. cbn [set_last_sample process_previous]. rewrite Hprev, HR, O1.
      split; [done|]. unfold report_of. by rewrite Es.
  - cbn [fst snd set_last_sample last_sample_ns last_peer_sample_ns peer_previous global_previous].
    split_and!; try done. exists R1. split.
    { apply (adds_ext (fun key => R1 key ++ [])); [intros; by rewrite app_nil_r|].
      eapply (adds_trans _ (fun _ => [])); [exact Ha1|by apply adds_same]. }
    split. { intros key k Hk. apply Hn1. by rewrite Hk. }
    intros key f Hf Hk Hs. destruct (scope key) as [|t|k] eqn:Es; [| |by destruct (Hs k)].
    + destruct (Hr1 key f Hf Hk Es) as [Hprev HR]. unfold prev_of, found_of. rewrite Es, HR.
      split; [|by unfold report_of; rewrite Es]. unfold host_previous in *. cbn [set_last_sample global_previous]. by rewrite Hprev.
    + destruct Hk as [_ Hk]. rewrite Es in Hk. congruence.
Qed.

(** Whether a round samples a series. *)
Definition due_of (key : SeriesKey) (force : bool) (now : Z) (last : Z) : bool := due force now last (frequency_of key).

(** The first half of a round, if it is due. *)
Lemma first_half_adds (d : bool) round current pm qm s :
  finds round current pm qm -> length (global_previous s) = 2%nat ->
  let r := if d then sample_host_and_processes user rng config round s else (Ok tt, s) in
  r.1 = Ok tt /\ length (global_previous r.2) = 2%nat /\ last_peer_sample_ns r.2 = last_peer_sample_ns s /\
  peer_previous r.2 = peer_previous s /\ last_sample_ns r.2 = (if d then now round else last_sample_ns s) /\
  exists R, adds R s r.2 /\ (forall key k, scope key = SPeer k -> R key = []) /\
  forall key f, kind_stat (kind key) = Some f -> reportable key -> (forall k, scope key <> SPeer k) ->
    prev_of key r.2 = (if d then match found_of current pm qm key with Some c => Some c | None => prev_of key s end
                       else prev_of key s) /\
    R key = if d then report_of key f (found_of current pm qm key) (prev_of key s)
              (seconds_since (now round) (last_sample_ns s)) (now round) r.2 else [].
Proof using accepts.
  intros Hfi Hl. destruct d.
  - destruct (host_processes_adds round current pm qm s Hfi Hl) as (? & ? & ? & ? & ? & R & ? & ? & ?).
    split_and!; try done. by exists R.
  - cbn. split_and!; try done. exists (fun _ => []). split_and!; [by apply adds_same|done|done].
Qed.

Lemma round_adds force round current pm qm s :
  finds round current pm qm -> length (global_previous s) = 2%nat ->
  let s' := (sample_if_due user rng config force round s).2 in
  (sample_if_due user rng config force round s).1 = Ok tt /\ length (global_previous s') = 2%nat /\
  exists R, adds R s s' /\
  forall key f, kind_stat (kind key) = Some f -> reportable key ->
    if due_of key force (now round) (last_of key s) then
      last_of key s' = now round /\
      prev_of key s' = match found_of current pm qm key with Some c => Some c | None => prev_of key s end /\
      R key = report_of key f (found_of current pm qm key) (prev_of key s) (seconds_since (now round) (last_of key s))
        (now round) s' /\
      (found_of current pm qm key <> None -> shown (scope key) s' = false -> full s')
    else last_of key s' = last_of key s /\ prev_of key s' = prev_of key s /\ R key = [].
Proof using accepts.
  intros Hfi Hl. cbn zeta. unfold sample_if_due. set (d := due force (now round) (last_sample_ns s) (nt_frequency config)).
  destruct (first_half_adds d round current pm qm s Hfi Hl) as (H1 & H2 & H3 & H4 & H5 & R1 & Ha1 & Hn1 & Hr1).
  set (p := if d then _ else _) in *.
  destruct p as [x s1]. cbn [fst snd] in *. subst x.
  destruct (has_scope config Peer && due force (now round) (last_peer_sample_ns s1) (nt_peer_frequency config)) eqn:Ed.
  - unfold sample_peers. rewrite (fi_peers _ _ _ _ Hfi), H3 in *.
    destruct (peers_adds (seconds_since (now round) (last_peer_sample_ns s)) (now round) qm s1)
      as (G1 & G2 & G3 & R2 & Ha2 & Hn2 & Hr2).
    set (s2 := (until_refused _ _ s1).2) in *. cbn [fst snd]. split; [done|]. split; [cbn; by rewrite G1|].
    exists (fun key => R1 key ++ R2 key). split.
    { apply (adds_ext (fun key => (R1 key ++ R2 key) ++ [])); [intros; by rewrite app_nil_r|].
      eapply (adds_trans _ (fun _ => [])); [eapply adds_trans; [exact Ha1|exact Ha2]|by apply adds_same]. }
    intros key f Hf Hk. unfold due_of, frequency_of, last_of. destruct (scope key) as [|t|k] eqn:Es.
    1, 2: destruct (Hr1 key f Hf Hk ltac:(intros k'; by rewrite Es)) as [Hprev HR];
      rewrite Hn2 by (intros k'; by rewrite Es); rewrite app_nil_r, HR; fold d; cbn [set_last_peer_sample last_sample_ns];
      unfold prev_of, found_of, host_previous in *; rewrite Es in *; cbn [set_last_peer_sample global_previous process_previous];
      rewrite G1 || rewrite G2; rewrite G3, H5, Hprev;
      (destruct d; [split_and!; try done; unfold report_of; by rewrite Es|done]).
    destruct Hk as [Hc Hk]. rewrite Es in Hk. destruct Hk as [Hp Hpk]. apply andb_true_iff in Ed as [_ Ed].
    destruct (Hr2 key f k Hf Hc Es Hpk) as (Hprev & HR & Hfl).
    rewrite (Hn1 _ _ Es). cbn [app]. rewrite Ed. cbn [set_last_peer_sample last_peer_sample_ns].
    unfold prev_of, found_of in *. rewrite Es in *. cbn [set_last_peer_sample peer_previous]. rewrite Hprev, HR, H4.
    split_and!; [done|done|unfold report_of; by rewrite Es|done].
  - cbn [fst snd]. split; [done|]. split; [done|]. exists R1. split; [done|].
    intros key f Hf Hk. unfold due_of, frequency_of, last_of. destruct (scope key) as [|t|k] eqn:Es.
    3: { destruct Hk as [_ Hk]. rewrite Es in Hk. destruct Hk as [Hp _]. rewrite Hp, H3 in Ed. cbn [andb] in Ed. rewrite Ed.
      split; [done|]. split; [unfold prev_of; by rewrite Es, H4|by apply (Hn1 _ k)]. }
    all: destruct (Hr1 key f Hf Hk ltac:(intros k'; by rewrite Es)) as [Hprev HR].
    all: rewrite HR, H5, Hprev; fold d; by destruct d.
Qed.

End Series.
