(* ===== verification/NetKernel.v ===== *)
(** * The kernel programs of the network tracker

    The programs of src/bpf/src/bpf/nettrack.bpf.c on the statistics of the host, of
    processes and of peers: what each call of a socket adds to them, and what the
    differences reported by [NetTrack] add up to. *)

From S2P Require Import Prelude Protocol Text Float BpfConfig BpfEvents KernelRecords NetTrack NetSamples NetProps.
From Stdlib Require Import Permutation.
Open Scope Z_scope.

Definition EAGAIN : Z := 11.

Definition MSG_TRUNC : Z := 32.

(** ** State *)

(** The statistics of the host are kept per processor and protocol. *)
Record Kernel := mkKernel {
  global_stats : gmap (Z * Z) StatsValue;
  process_stats : gmap ProcessKey StatsValue;
  peer_stats : gmap PeerKey StatsValue;
  tracked_tgids : gset Z
}.

(** What is read of a [struct sock]: the family, the port of the host, the peer's port
    in network order, and its addresses. *)
Record Sock := mkSock {
  skc_family : Z;
  skc_num : Z;
  skc_dport : Z;
  skc_daddr : list Z;
  skc_v6_daddr : list Z
}.

(** What is read of a [struct msghdr]: its flags, and the memory its name points to,
    as far as it can be read. *)
Record Msg := mkMsg { msg_flags : Z; msg_name : option (list Z) }.

(** A call of a socket function that has returned: on which processor and of which
    process, its socket and message, the protocol, the direction, the result, and the
    time; and what the maps do when they get a new entry: whether they take it, and
    which others they give up for it. *)
Record Call := mkCall {
  cpu : Z;
  current_tgid : Z;
  sock : option Sock;
  msg : option Msg;
  proto : NetProtocol;
  send : bool;
  ret : Z;
  now : Z;
  process_stored : bool;
  process_evicted : gset ProcessKey;
  peer_stored : bool;
  peer_evicted : gset PeerKey
}.

Section Programs.

Context (cfg : KernelConfig).

Definition should_track_tgid (k : Kernel) (tgid : Z) : bool :=
  if tgid =? 0 then false
  else if negb (filter_enabled cfg) then true
  else bool_decide (tgid ∈ tracked_tgids k).

(** ** Statistics *)

Definition initialize_stats (now : Z) : StatsValue := mkStatsValue 0 0 0 0 0 0 0 0 0 0 now now.

Definition set_last_seen (now : Z) (s : StatsValue) : StatsValue :=
  mkStatsValue (send_bytes s) (recv_bytes s) (send_operations s) (recv_operations s) (send_errors s) (recv_errors s)
    (send_would_block s) (recv_would_block s) (tcp_recv_eof s) (udp_recv_truncated s) (first_seen_ns s) now.

Definition incr (b : bool) (n x : Z) : Z := if b then x +64 n else x.

(** Both ways of the program to change a field, atomically or not, are the same in one
    step. *)
Definition update_stats (send : bool) (ret : Z) (protocol : NetProtocol) (msg_flags now : Z) (s : StatsValue) :
    StatsValue :=
  let s := set_last_seen now s in
  if ret <? 0 then
    if negb (errors_enabled cfg) then s
    else
      let would_block := ret =? - EAGAIN in
      mkStatsValue (send_bytes s) (recv_bytes s) (send_operations s) (recv_operations s)
        (incr send 1 (send_errors s)) (incr (negb send) 1 (recv_errors s))
        (incr (send && would_block) 1 (send_would_block s)) (incr (negb send && would_block) 1 (recv_would_block s))
        (tcp_recv_eof s) (udp_recv_truncated s) (first_seen_ns s) (last_seen_ns s)
  else
    let moved := bytes_enabled cfg && (0 <? ret) in
    let called := operations_enabled cfg in
    mkStatsValue (incr (send && moved) ret (send_bytes s)) (incr (negb send && moved) ret (recv_bytes s))
      (incr (send && called) 1 (send_operations s)) (incr (negb send && called) 1 (recv_operations s))
      (send_errors s) (recv_errors s) (send_would_block s) (recv_would_block s)
      (incr (negb send && called && match protocol with Tcp => ret =? 0 | Udp => false end) 1 (tcp_recv_eof s))
      (incr (negb send && called && match protocol with Tcp => false | Udp => negb (Z.land msg_flags MSG_TRUNC =? 0) end)
         1 (udp_recv_truncated s))
      (first_seen_ns s) (last_seen_ns s).

(** The statistics of a key in a map that gives up its oldest entries: an entry is
    updated, a missing one is initialised and entered. *)
Definition update_entry {K} `{Countable K} (stored : bool) (evicted : gset K) (key : K) (now : Z)
    (update : StatsValue -> StatsValue) (m : gmap K StatsValue) : gmap K StatsValue :=
  match m !! key with
  | Some s => <[key := update s]> m
  | None =>
      let m := filter (fun entry => entry.1 ∉ evicted) m in
      if stored then <[key := update (initialize_stats now)]> m else m
  end.

Definition protocol_index (protocol : NetProtocol) : Z := match protocol with Tcp => 0 | Udp => 1 end.

Definition process_key (tgid : Z) (protocol : NetProtocol) : ProcessKey :=
  mkProcessKey tgid (protocol_index protocol) [0; 0; 0].

(** ** Peers *)

(** [bpf_ntohs] on a little-endian machine *)
Definition ntohs (x : Z) : Z := x / 256 + 256 * (x mod 256).

Definition set_peer (fam port : Z) (addr : list Z) (k : PeerKey) : PeerKey :=
  mkPeerKey (tgid k) (protocol k) fam (local_port k) port (padding k) (addr ++ drop (length addr) (remote_addr k)).

Definition set_local_port (port : Z) (k : PeerKey) : PeerKey :=
  mkPeerKey (tgid k) (protocol k) (family k) port (remote_port k) (padding k) (remote_addr k).

Definition peer_from_sock (sk : Sock) (k : PeerKey) : bool * PeerKey :=
  let port := ntohs (skc_dport sk) in
  let k := set_local_port (skc_num sk) (set_peer (wrap 8 (skc_family sk)) port [] k) in
  if skc_family sk =? AF_INET then
    (existsb (fun b => negb (b =? 0)) (skc_daddr sk) && negb (port =? 0),
     set_peer (wrap 8 (skc_family sk)) port (skc_daddr sk) k)
  else if skc_family sk =? AF_INET6 then
    (negb (port =? 0), set_peer (wrap 8 (skc_family sk)) port (skc_v6_daddr sk) k)
  else (false, k).

(** The fields of a [sockaddr_in] and a [sockaddr_in6] that can be read as a whole. *)
Definition peer_from_message (m : option Msg) (k : PeerKey) : bool * PeerKey :=
  match m ≫= msg_name with
  | None => (false, k)
  | Some name =>
      if Nat.ltb (length name) 2 then (false, k)
      else
        let fam := field 2 0 name in
        let port := ntohs (field 2 2 name) in
        if fam =? AF_INET then
          if Nat.ltb (length name) 16 then (false, k)
          else (negb (port =? 0), set_peer AF_INET port (take 4 (drop 4 name)) k)
        else if fam =? AF_INET6 then
          if Nat.ltb (length name) 28 then (false, k)
          else (negb (port =? 0), set_peer AF_INET6 port (take 16 (drop 8 name)) k)
        else (false, k)
  end.

Definition peer_key (sk : Sock) (c : Call) : option PeerKey :=
  let key := mkPeerKey (current_tgid c) (protocol_index (proto c)) 0 (skc_num sk) 0 0 (replicate 16 0) in
  let '(found, key) := match proto c with Udp => peer_from_message (msg c) key | Tcp => (false, key) end in
  let '(found, key) := if found then (true, key) else peer_from_sock sk key in
  if found then Some key else None.

(** ** The programs *)

Definition set_global (m : gmap (Z * Z) StatsValue) (k : Kernel) : Kernel :=
  mkKernel m (process_stats k) (peer_stats k) (tracked_tgids k).

Definition set_process (m : gmap ProcessKey StatsValue) (k : Kernel) : Kernel :=
  mkKernel (global_stats k) m (peer_stats k) (tracked_tgids k).

Definition set_peer_stats (m : gmap PeerKey StatsValue) (k : Kernel) : Kernel :=
  mkKernel (global_stats k) (process_stats k) m (tracked_tgids k).

(** The host's statistics of a processor, zero at first. *)
Definition global_of (k : Kernel) (cpu : Z) (protocol : NetProtocol) : StatsValue :=
  default StatsValue_default (global_stats k !! (cpu, protocol_index protocol)).

Definition update_global_stats (c : Call) (update : StatsValue -> StatsValue) (k : Kernel) : Kernel :=
  set_global (<[(cpu c, protocol_index (proto c)) := update (global_of k (cpu c) (proto c))]> (global_stats k)) k.

Definition update_process_stats (c : Call) (update : StatsValue -> StatsValue) (k : Kernel) : Kernel :=
  set_process (update_entry (process_stored c) (process_evicted c) (process_key (current_tgid c) (proto c)) (now c)
    update (process_stats k)) k.

Definition update_peer_stats (sk : Sock) (c : Call) (update : StatsValue -> StatsValue) (k : Kernel) : Kernel :=
  match peer_key sk c with
  | None => k
  | Some key => set_peer_stats (update_entry (peer_stored c) (peer_evicted c) key (now c) update (peer_stats k)) k
  end.

Definition protocol_enabled (protocol : NetProtocol) : bool :=
  match protocol with Tcp => tcp_enabled cfg | Udp => udp_enabled cfg end.

Definition account_socket_io (c : Call) (k : Kernel) : Kernel :=
  if (send c && negb (send_enabled cfg)) || (negb (send c) && negb (receive_enabled cfg)) then k
  else if negb (should_track_tgid k (current_tgid c)) then k
  else
    match sock c with
    | None => k
    | Some sk =>
        if negb (protocol_enabled (proto c)) then k
        else
          let update := update_stats (send c) (ret c) (proto c) (default 0 (msg_flags <$> msg c)) (now c) in
          let k := if host_enabled cfg then update_global_stats c update k else k in
          let k := if process_enabled cfg then update_process_stats c update k else k in
          if peer_enabled cfg then update_peer_stats sk c update k else k
    end.

(** The four functions, of which [NetTrack::new] loads those it needs. *)
Definition traced (c : Call) : bool :=
  match proto c, send c with
  | Tcp, true => trace_tcp_sendmsg cfg
  | Tcp, false => trace_tcp_recvmsg cfg
  | Udp, true => trace_udp_sendmsg cfg
  | Udp, false => trace_udp_recvmsg cfg
  end.

(** What happens: a call returns, or a process is entered into the filter. *)
Inductive Event := Returned (c : Call) | Filter (pid : Z).

Definition handle (e : Event) (k : Kernel) : Kernel :=
  match e with
  | Returned c => if traced c then account_socket_io c k else k
  | Filter pid => mkKernel (global_stats k) (process_stats k) (peer_stats k) ({[pid]} ∪ tracked_tgids k)
  end.

Definition handle_all (es : list Event) (k : Kernel) : Kernel := foldl (fun k e => handle e k) k es.

(** The maps when the collector has entered the processes of its configuration. *)
Definition kernel_init (pids : list Z) : Kernel := mkKernel ∅ ∅ ∅ (list_to_set pids).

End Programs.

(** ** What a call counts for *)

Section Counts.

Context (cfg : KernelConfig).

(** The calls the programs account, if the process is one to follow. *)
Definition accounted (c : Call) : bool :=
  traced cfg c && (if send c then send_enabled cfg else receive_enabled cfg)
  && match sock c with Some _ => true | None => false end && protocol_enabled cfg (proto c).

(** What a call adds to each count. *)
Definition call_value (c : Call) : StatsValue :=
  let moved := if bytes_enabled cfg && (0 <? ret c) then ret c else 0 in
  let called := if operations_enabled cfg && (0 <=? ret c) then 1 else 0 in
  let failed := if errors_enabled cfg && (ret c <? 0) then 1 else 0 in
  let blocked := if errors_enabled cfg && (ret c =? - EAGAIN) then 1 else 0 in
  let at_end := if operations_enabled cfg && (ret c =? 0) && bool_decide (proto c = Tcp) then 1 else 0 in
  let cut := if operations_enabled cfg && (0 <=? ret c) && bool_decide (proto c = Udp)
    && negb (Z.land (default 0 (msg_flags <$> msg c)) MSG_TRUNC =? 0) then 1 else 0 in
  if send c then mkStatsValue moved 0 called 0 failed 0 blocked 0 0 0 (now c) (now c)
  else mkStatsValue 0 moved 0 called 0 failed 0 blocked at_end cut (now c) (now c).

(** The change of the statistics a call makes. *)
Definition update_of (c : Call) : StatsValue -> StatsValue :=
  update_stats cfg (send c) (ret c) (proto c) (default 0 (msg_flags <$> msg c)) (now c).

(** Every count grows by what the call counts for, at its width. *)
Lemma update_counts c f s : f ∈ net_counts -> 0 <= f s <= u64_max -> f (update_of c s) = f s +64 f (call_value c).
Proof.
  intros Hf Hs. assert (f s = f s +64 0) as H0 by (by rewrite Z.add_0_r, wrap64_small).
  unfold net_counts in Hf. unfold update_of, update_stats, call_value.
  destruct (send c), (proto c), (errors_enabled cfg), (bytes_enabled cfg), (operations_enabled cfg);
    cbn [negb andb incr];
    (destruct (Z.ltb_spec (ret c) 0), (Z.leb_spec 0 (ret c)), (Z.ltb_spec 0 (ret c)), (Z.eqb_spec (ret c) 0),
       (Z.eqb_spec (ret c) (- EAGAIN)); try (unfold EAGAIN in *; lia); cbn [negb andb incr];
     repeat (apply elem_of_cons in Hf as [-> | Hf]; [cbn in Hs, H0 |- *; first [done|exact H0|by destruct (negb _)]|]);
     by apply elem_of_nil in Hf).
Qed.

End Counts.
