(* ===== verification/NetCounts.v ===== *)
(** * What the network tracker reports of the kernel's counts

    The maps of [NetKernel] as [NetTrack] reads them in its rounds: their memory is
    read back as it is, and the differences of the readings add up to what the calls
    moved, for the host, for a process and for a peer. *)

From S2P Require Import Prelude Protocol Text Float BpfConfig BpfEvents KernelRecords NetTrack NetSamples NetProps.
From S2P Require Import NetKernel.
From Stdlib Require Import Permutation.
Open Scope Z_scope.

(** ** The memory of the maps *)

Definition stats_words (s : StatsValue) : list Z :=
  [send_bytes s; recv_bytes s; send_operations s; recv_operations s; send_errors s; recv_errors s;
   send_would_block s; recv_would_block s; tcp_recv_eof s; udp_recv_truncated s; first_seen_ns s; last_seen_ns s].

Definition net_stats_record (s : StatsValue) : layout := words_record (stats_words s).

Definition process_key_record (k : ProcessKey) : layout :=
  [(4%nat, pk_tgid k); (1%nat, pk_protocol k)] ++ bytes_record (pk_padding k) ++ [].

Definition peer_key_record (k : PeerKey) : layout :=
  [(4%nat, tgid k); (1%nat, protocol k); (1%nat, family k); (2%nat, local_port k); (2%nat, remote_port k);
   (2%nat, padding k)] ++ bytes_record (remote_addr k) ++ [].

Definition stats_typed (s : StatsValue) : Prop := Forall (in_u 64) (stats_words s).

Definition process_key_typed (k : ProcessKey) : Prop :=
  fits (process_key_record k) /\ length (pk_padding k) = 3%nat.

Definition peer_key_typed (k : PeerKey) : Prop := fits (peer_key_record k) /\ length (remote_addr k) = 16%nat.

Lemma fits_bytes_of l : fits (bytes_record l) <-> Forall (in_u 8) l.
Proof. apply Forall_map. Qed.

Lemma parse_value_encode s : stats_typed s -> parse_value (encode (net_stats_record s)) = s.
Proof.
  intros H. assert (fits (net_stats_record s)) as Hf by by apply Forall_map. destruct s. unfold parse_value. read_fields.
Qed.

Lemma parse_process_key_encode k : process_key_typed k -> parse_process_key (encode (process_key_record k)) = k.
Proof.
  intros [Hf Hl]. pose proof Hf as [_ [Hb%fits_bytes_of _]%fits_app]%fits_app.
  pose proof (bytes_encode [(4%nat, pk_tgid k); (1%nat, pk_protocol k)] (pk_padding k) [] 5 Hb eq_refl) as Hp.
  rewrite Hl in Hp.
  unfold parse_process_key.
  assert (take 3 (drop 5 (encode (process_key_record k))) = pk_padding k) as -> by exact Hp. destruct k. f_equal; read_field 0%nat.
Qed.

Lemma parse_peer_key_encode k : peer_key_typed k -> parse_peer_key (encode (peer_key_record k)) = k.
Proof.
  intros [Hf Hl]. pose proof Hf as [_ [Hb%fits_bytes_of _]%fits_app]%fits_app.
  pose proof (bytes_encode [(4%nat, tgid k); (1%nat, protocol k); (1%nat, family k); (2%nat, local_port k);
    (2%nat, remote_port k); (2%nat, padding k)] (remote_addr k) [] 12 Hb eq_refl) as Hp.
  rewrite Hl in Hp.
  unfold parse_peer_key.
  assert (take 16 (drop 12 (encode (peer_key_record k))) = remote_addr k) as -> by exact Hp. destruct k. f_equal; read_field 0%nat.
Qed.

(** Entries that are encoded are read back. *)
Lemma read_entries_encode {K} ks vs (kr : K -> layout) pk (kt : K -> Prop) kn vn (l : list (K * StatsValue)) :
  vs = 96%nat -> (forall k, kt k -> pk (encode (kr k)) = k /\ (ks <= sizeof (kr k))%nat) ->
  Forall (fun e => kt e.1 /\ stats_typed e.2) l ->
  read_entries ks vs pk parse_value kn vn (map (fun '(k, s) => (encode (kr k), encode (net_stats_record s))) l) = Ok l.
Proof.
  intros -> Hk Hl. unfold read_entries. rewrite map_map. induction Hl as [|[k s] l [Hkt Hs] Hl IH]; [done|].
  destruct (Hk k Hkt) as [Ep Es]. cbn [map collect]. rewrite (parse_plain_encode ks) by done.
  rewrite (parse_plain_encode 96) by done. rewrite Ep, (parse_value_encode s Hs), IH. done.
Qed.

(** ** Types *)

Record sock_typed (sk : Sock) : Prop := {
  sk_num : in_u 16 (skc_num sk);
  sk_dport : in_u 16 (skc_dport sk);
  sk_daddr : Forall (in_u 8) (skc_daddr sk) /\ length (skc_daddr sk) = 4%nat;
  sk_v6_daddr : Forall (in_u 8) (skc_v6_daddr sk) /\ length (skc_v6_daddr sk) = 16%nat
}.

Record call_typed (c : Call) : Prop := {
  ct_tgid : in_u 32 (current_tgid c);
  ct_now : in_u 64 (NetKernel.now c);
  ct_sock : forall sk, sock c = Some sk -> sock_typed sk;
  ct_name : forall m name, msg c = Some m -> msg_name m = Some name -> Forall (in_u 8) name
}.

Definition event_typed (e : Event) : Prop := match e with Returned c => call_typed c | Filter _ => True end.

Record kernel_typed (k : Kernel) : Prop := {
  kt_global : map_Forall (fun _ s => stats_typed s) (NetKernel.global_stats k);
  kt_process : map_Forall (fun key s => process_key_typed key /\ stats_typed s) (NetKernel.process_stats k);
  kt_peer : map_Forall (fun key s => peer_key_typed key /\ stats_typed s) (NetKernel.peer_stats k)
}.

Lemma incr_typed b n x : in_u 64 x -> in_u 64 (incr b n x).
Proof. intros H. destruct b; [by apply wrap_bound|done]. Qed.

Lemma update_stats_typed cfg send ret p flags now s :
  in_u 64 now -> stats_typed s -> stats_typed (update_stats cfg send ret p flags now s).
Proof.
  unfold stats_typed, update_stats. intros Hn H.
  repeat (apply Forall_cons in H as [? H]). destruct (ret <? 0); [destruct (negb _)|];
    repeat (apply Forall_cons; split); try apply Forall_nil_2; cbn; auto using incr_typed.
Qed.

Lemma stats_default_typed : stats_typed StatsValue_default.
Proof. repeat (apply Forall_cons; split); try apply Forall_nil_2; done. Qed.

Lemma initialize_stats_typed now : in_u 64 now -> stats_typed (initialize_stats now).
Proof. intros H. repeat (apply Forall_cons; split); try apply Forall_nil_2; done. Qed.

Lemma update_entry_typed {K} `{Countable K} (kt : K -> Prop) stored evicted key now update (m : gmap K StatsValue) :
  kt key -> in_u 64 now -> (forall s, stats_typed s -> stats_typed (update s)) ->
  map_Forall (fun key s => kt key /\ stats_typed s) m ->
  map_Forall (fun key s => kt key /\ stats_typed s) (update_entry stored evicted key now update m).
Proof.
  intros Hk Hn Hu Hm. unfold update_entry. destruct (m !! key) as [s|] eqn:E.
  - apply map_Forall_insert_2; [|done]. split; [done|]. by apply Hu, (Hm key s E).
  - assert (map_Forall (fun key s => kt key /\ stats_typed s) (filter (fun e => e.1 ∉ evicted) m)) as Hf.
    { intros k s [Hks _]%map_lookup_filter_Some. by apply Hm. }
    destruct stored; [|done]. apply map_Forall_insert_2; [|done]. split; [done|]. by apply Hu, initialize_stats_typed.
Qed.

(** *** Keys *)

Lemma process_key_ok tgid p : in_u 32 tgid -> process_key_typed (process_key tgid p).
Proof. intros H. split; [|done]. by repeat (apply Forall_cons; split); try apply Forall_nil_2; destruct p. Qed.

Lemma ntohs_typed x : in_u 16 x -> in_u 16 (ntohs x).
Proof. unfold in_u, ntohs. intros H. Z.div_mod_to_equations. lia. Qed.

Lemma field_typed n at_ data : Forall (in_u 8) data -> in_u (8 * Z.of_nat n) (field n at_ data).
Proof.
  intros H. unfold field.
  assert (forall l, Forall (in_u 8) l -> 0 <= le_word l < 256 ^ Z.of_nat (length l)) as Hw.
  { induction 1 as [|x l Hx Hl IH]; [done|]. cbn [le_word length]. rewrite Nat2Z.inj_succ, Z.pow_succ_r by lia.
    unfold in_u in Hx. nia. }
  specialize (Hw (take n (drop at_ data)) (Forall_take _ n _ (Forall_drop _ at_ _ H))).
  unfold in_u. rewrite Z.pow_mul_r by lia. change (2 ^ 8) with 256.
  assert (256 ^ Z.of_nat (length (take n (drop at_ data))) <= 256 ^ Z.of_nat n); [|lia].
  apply Z.pow_le_mono_r; [done|]. rewrite length_take. lia.
Qed.

Lemma set_peer_typed fam port addr k :
  in_u 8 fam -> in_u 16 port -> Forall (in_u 8) addr -> (length addr <= 16)%nat -> peer_key_typed k ->
  peer_key_typed (set_peer fam port addr k).
Proof.
  intros Hfam Hp Ha Hl [Hf Hk]. unfold peer_key_typed, peer_key_record, set_peer in *. cbn [remote_addr] in *.
  split; [|rewrite length_app, length_drop; lia].
  apply fits_app in Hf as [Hh [Hb%fits_bytes_of _]%fits_app].
  repeat (apply Forall_cons in Hh as [? Hh]). apply fits_app. split; [by repeat (apply Forall_cons; split)|].
  apply fits_app. split; [|by apply Forall_nil_2]. apply fits_bytes_of, Forall_app. split; [done|by apply Forall_drop].
Qed.

Lemma set_local_port_typed port k : in_u 16 port -> peer_key_typed k -> peer_key_typed (set_local_port port k).
Proof.
  intros Hp [Hf Hk]. split; [|done]. unfold peer_key_record in *. cbn in *.
  repeat (apply Forall_cons in Hf as [? Hf]). by repeat (apply Forall_cons; split).
Qed.

Lemma peer_from_sock_typed sk k : sock_typed sk -> peer_key_typed k -> peer_key_typed (peer_from_sock sk k).2.
Proof.
  intros [Hn Hd [Ha Hal] [H6 H6l]] Hk. unfold peer_from_sock.
  assert (in_u 8 (wrap 8 (skc_family sk))) as Hfam by by apply wrap_bound.
  assert (peer_key_typed (set_local_port (skc_num sk) (set_peer (wrap 8 (skc_family sk)) (ntohs (skc_dport sk)) [] k))) as H1.
  { apply set_local_port_typed, set_peer_typed; auto using ntohs_typed. cbn. lia. }
  destruct (_ =? AF_INET); [|destruct (_ =? AF_INET6); [|done]].
  all: apply set_peer_typed; auto using ntohs_typed; lia.
Qed.

Lemma peer_from_message_typed m k :
  (forall m' name, m = Some m' -> msg_name m' = Some name -> Forall (in_u 8) name) ->
  peer_key_typed k -> peer_key_typed (peer_from_message m k).2.
Proof.
  intros Hm Hk. unfold peer_from_message. destruct m as [m|]; [|done]. cbn [mbind option_bind].
  destruct (msg_name m) as [name|] eqn:E; [|done]. specialize (Hm m name eq_refl E).
  destruct (Nat.ltb (length name) 2); [done|].
  assert (in_u 16 (ntohs (field 2 2 name))) as Hp by by apply ntohs_typed, (field_typed 2).
  destruct (_ =? AF_INET); [|destruct (_ =? AF_INET6); [|done]].
  all: match goal with |- context [Nat.ltb ?a ?b] => destruct (Nat.ltb a b) end; [done|]; apply set_peer_typed; auto using Forall_take, Forall_drop; try done.
  all: rewrite length_take; lia.
Qed.

Lemma peer_key_ok sk c key : call_typed c -> sock c = Some sk -> peer_key sk c = Some key -> peer_key_typed key.
Proof.
  intros [Ht _ Hs Hm] Hsk. specialize (Hs sk Hsk). unfold peer_key. set (k0 := mkPeerKey _ _ _ _ _ _ _).
  assert (peer_key_typed k0) as H0.
  { destruct Hs. split; [|done]. by repeat (apply Forall_cons; split); try apply Forall_nil_2; destruct (proto c). }
  set (p := match proto c with Tcp => _ | Udp => _ end).
  assert (peer_key_typed p.2) as H1 by (unfold p; destruct (proto c); [done|by apply peer_from_message_typed]).
  destruct p as [found k1]. cbn in H1. destruct found; [by intros [= <-]|].
  pose proof (peer_from_sock_typed sk k1 Hs H1) as H2. destruct (peer_from_sock sk k1) as [[] k2]; [|done].
  by intros [= <-].
Qed.

(** ** The kernel between the rounds *)

Section Rounds.

Context (cfg : KernelConfig).

Lemma global_of_typed k c p : kernel_typed k -> stats_typed (global_of k c p).
Proof.
  intros [Hg _ _]. unfold global_of. destruct (_ !! _) as [s|] eqn:E; [by apply (Hg _ s E)|apply stats_default_typed].
Qed.

Lemma net_handle_typed e k : event_typed e -> kernel_typed k -> kernel_typed (handle cfg e k).
Proof.
  intros He Hk. destruct e as [c|pid]; [|by destruct Hk]. cbn [handle]. destruct (traced cfg c); [|done].
  cbn [event_typed] in He. unfold account_socket_io. destruct (_ || _); [done|]. destruct (negb _); [done|].
  destruct (sock c) as [sk|] eqn:Esk; [|done]. destruct (negb _); [done|].
  set (update := update_stats _ _ _ _ _ _).
  assert (forall s, stats_typed s -> stats_typed (update s)) as Hu by (intros s; apply update_stats_typed; apply He).
  set (k1 := if host_enabled cfg then _ else k).
  assert (kernel_typed k1) as H1.
  { unfold k1. destruct (host_enabled cfg); [|done]. pose proof (global_of_typed k (cpu c) (proto c) Hk) as Hc.
    destruct Hk. split; [|done|done]. apply map_Forall_insert_2; [by apply Hu|done]. }
  set (k2 := if process_enabled cfg then _ else k1).
  assert (kernel_typed k2) as H2.
  { unfold k2. destruct (process_enabled cfg); [|done]. destruct H1. split; [done| |done].
    apply update_entry_typed; [by apply process_key_ok, He|apply He|done|done]. }
  destruct (peer_enabled cfg); [|done]. unfold update_peer_stats.
  destruct (peer_key sk c) as [key|] eqn:Ek; [|done]. destruct H2. split; [done|done|].
  apply update_entry_typed; [by apply (peer_key_ok sk c)|apply He|done|done].
Qed.

Lemma net_handle_all_typed es k : Forall event_typed es -> kernel_typed k -> kernel_typed (handle_all cfg es k).
Proof.
  intros He. revert k. induction He as [|e es He _ IH]; intros k Hk; [done|]. by apply IH, net_handle_typed.
Qed.

Lemma net_kernel_init_typed pids : kernel_typed (kernel_init pids).
Proof. split; apply map_Forall_empty. Qed.

(** What the collector finds in a round, on a host with the processors [cpus]. *)
Definition round_of (cpus : list Z) (now : Z) (k : Kernel) : Round :=
  mkRound now
    (fun p => Ok (Some (map (fun c => encode (net_stats_record (global_of k c p))) cpus)))
    (Ok (map (fun '(key, s) => (encode (process_key_record key), encode (net_stats_record s)))
           (map_to_list (NetKernel.process_stats k))))
    (Ok (map (fun '(key, s) => (encode (peer_key_record key), encode (net_stats_record s)))
           (map_to_list (NetKernel.peer_stats k)))).

Lemma read_processes_of cpus now k :
  kernel_typed k -> read_processes (round_of cpus now k) = Ok (map_to_list (NetKernel.process_stats k)).
Proof.
  intros Hk. unfold read_processes, round_of. cbn [process_stats].
  apply (read_entries_encode _ _ process_key_record _ process_key_typed); [done| |].
  - intros key H. split; [by apply parse_process_key_encode|]. unfold process_key_record.
    rewrite !sizeof_app, sizeof_bytes. destruct H as [_ ->]. cbn. lia.
  - apply Forall_forall. intros [key s] H%elem_of_map_to_list. by apply (kt_process k Hk).
Qed.

Lemma read_peers_of cpus now k :
  kernel_typed k -> read_peers (round_of cpus now k) = Ok (map_to_list (NetKernel.peer_stats k)).
Proof.
  intros Hk. unfold read_peers, round_of. cbn [peer_stats].
  apply (read_entries_encode _ _ peer_key_record _ peer_key_typed); [done| |].
  - intros key H. split; [by apply parse_peer_key_encode|]. unfold peer_key_record.
    rewrite !sizeof_app, sizeof_bytes. destruct H as [_ ->]. cbn. lia.
  - apply Forall_forall. intros [key s] H%elem_of_map_to_list. by apply (kt_peer k Hk).
Qed.

Lemma add_up_of k cpus p total :
  kernel_typed k ->
  add_up total (map (fun c => encode (net_stats_record (global_of k c p))) cpus) =
  Ok (foldl accumulate total (map (fun c => global_of k c p) cpus)).
Proof.
  intros Hk. revert total. induction cpus as [|c cpus IH]; intros total; [done|]. cbn [map add_up foldl].
  rewrite parse_plain_encode by (unfold net_stats_record; rewrite sizeof_words; cbn; lia).
  by rewrite parse_value_encode, IH by by apply global_of_typed.
Qed.

Lemma read_global_of cpus now k p :
  kernel_typed k ->
  read_global (round_of cpus now k) p = Ok (foldl accumulate StatsValue_default (map (fun c => global_of k c p) cpus)).
Proof. intros Hk. unfold read_global, round_of. cbn [global_stats default from_option]. by apply add_up_of. Qed.

End Rounds.

(** ** The entries of a map *)

Section Counted.

Context (cfg : KernelConfig).

(** A call counts if the programs account it, of a process they follow. *)
Definition counted (k : Kernel) (c : Call) : bool := accounted cfg c && should_track_tgid cfg k (current_tgid c).

Fixpoint counted_calls (es : list Event) (k : Kernel) : list Call :=
  match es with
  | [] => []
  | e :: es =>
      match e with Returned c => if counted k c then [c] else [] | Filter _ => [] end
      ++ counted_calls es (handle cfg e k)
  end.

Definition total (f : StatsValue -> Z) (calls : list Call) : Z := sum_of (fun c => f (call_value cfg c)) calls.

Lemma counted_calls_app es es' k :
  counted_calls (es ++ es') k = counted_calls es k ++ counted_calls es' (handle_all cfg es k).
Proof.
  revert k. induction es as [|e es IH]; intros k; [done|]. cbn [counted_calls app].
  rewrite IH, app_assoc. done.
Qed.

Lemma total_app f l l' : total f (l ++ l') = total f l + total f l'.
Proof. apply sum_of_app. Qed.

Lemma total_one f c : total f [c] = f (call_value cfg c).
Proof. unfold total. rewrite sum_of_cons. cbn. lia. Qed.

Lemma call_value_nonneg f c : f ∈ net_counts -> 0 <= f (call_value cfg c).
Proof.
  unfold net_counts, call_value. intros Hf. destruct (send c).
  all: repeat (apply elem_of_cons in Hf as [-> | Hf];
    [cbn; repeat match goal with |- context [if ?b then _ else _] => destruct b eqn:? end; lia|]).
  all: by apply elem_of_nil in Hf.
Qed.

Lemma net_total_nonneg f l : f ∈ net_counts -> 0 <= total f l.
Proof.
  intros Hf. unfold total. induction l as [|c l IH]; [done|]. rewrite sum_of_cons.
  pose proof (call_value_nonneg f c Hf). lia.
Qed.

Lemma total_filter f (keep : Call -> bool) l : f ∈ net_counts -> total f (List.filter keep l) <= total f l.
Proof.
  intros Hf. induction l as [|c l IH]; [done|]. change (c :: l) with ([c] ++ l). rewrite List.filter_app, !total_app.
  pose proof (call_value_nonneg f c Hf). cbn [List.filter]. destruct (keep c); rewrite ?total_one; cbn [total] in *; [lia|].
  change (total f []) with 0. lia.
Qed.

Lemma typed_count f s : f ∈ net_counts -> stats_typed s -> 0 <= f s <= u64_max.
Proof.
  unfold net_counts, stats_typed. intros Hf Hs. repeat (apply Forall_cons in Hs as [? Hs]). unfold in_u, u64_max in *.
  repeat (apply elem_of_cons in Hf as [-> | Hf]; [lia|]). by apply elem_of_nil in Hf.
Qed.

Lemma update_of_typed c s : call_typed c -> stats_typed s -> stats_typed (update_of cfg c s).
Proof. intros Hc. apply update_stats_typed, Hc. Qed.

Lemma update_of_first c s : first_seen_ns (update_of cfg c s) = first_seen_ns s.
Proof. unfold update_of, update_stats. by destruct (_ <? _); [destruct (negb _)|]. Qed.

Lemma initial_count f now : f ∈ net_counts -> f (initialize_stats now) = 0.
Proof.
  unfold net_counts. intros Hf. repeat (apply elem_of_cons in Hf as [-> | Hf]; [done|]). by apply elem_of_nil in Hf.
Qed.

End Counted.

Section Entries.

Context (cfg : KernelConfig).

(** A map of statistics that gives up entries, by the key a call is counted for. *)
Context {K} `{Countable K} (entries : Kernel -> gmap K StatsValue).
Context (key_of : Call -> option K) (stored : Call -> bool) (evicted : Call -> gset K).

Definition enter (c : Call) (m : gmap K StatsValue) : gmap K StatsValue :=
  match key_of c with
  | Some key => update_entry (stored c) (evicted c) key (NetKernel.now c) (update_of cfg c) m
  | None => m
  end.

Hypothesis handle_entries : forall e k, entries (handle cfg e k) =
  match e with Returned c => if counted cfg k c then enter c (entries k) else entries k | Filter _ => entries k end.

Hypothesis entries_typed : forall k, kernel_typed k -> map_Forall (fun _ s => stats_typed s) (entries k).

(** The counted calls of a key. *)
Definition calls_for (key : K) (calls : list Call) : list Call :=
  List.filter (fun c => bool_decide (key_of c = Some key)) calls.

(** The map has an entry for the key's calls, and keeps it. *)
Definition keeps (key : K) (e : Event) : Prop :=
  match e with
  | Returned c => (key_of c = Some key -> stored c = true) /\ key ∉ evicted c
  | Filter _ => True
  end.

Lemma calls_for_app key l l' : calls_for key (l ++ l') = calls_for key l ++ calls_for key l'.
Proof. apply List.filter_app. Qed.

Lemma enter_own key c m :
  key_of c = Some key ->
  enter c m !! key =
    match m !! key with
    | Some s => Some (update_of cfg c s)
    | None => if stored c then Some (update_of cfg c (initialize_stats (NetKernel.now c))) else None
    end.
Proof.
  intros Hk. unfold enter, update_entry. rewrite Hk. destruct (m !! key) eqn:E; [by rewrite lookup_insert_eq|].
  destruct (stored c); [by rewrite lookup_insert_eq|]. apply map_lookup_filter_None_2. by left.
Qed.

Lemma enter_other key c m :
  key_of c <> Some key -> enter c m !! key = m !! key \/ (enter c m !! key = None /\ key ∈ evicted c).
Proof.
  intros Hk. unfold enter, update_entry. destruct (key_of c) as [key'|]; [|by left].
  assert (key' <> key) as Hne by congruence. destruct (m !! key'); [rewrite lookup_insert_ne by done; by left|].
  assert (filter (fun e => e.1 ∉ evicted c) m !! key = m !! key \/
    (filter (fun e => e.1 ∉ evicted c) m !! key = None /\ key ∈ evicted c)) as Hf.
  { destruct (decide (key ∈ evicted c)) as [Hin|Hin].
    - right. split; [|done]. apply map_lookup_filter_None_2. right. intros s _. cbn. tauto.
    - left. destruct (m !! key) as [s|] eqn:E; [by apply map_lookup_filter_Some_2|].
      apply map_lookup_filter_None_2. by left. }
  destruct (stored c); [rewrite lookup_insert_ne by done|]; exact Hf.
Qed.

(** *** Exactly *)

Definition count (f : StatsValue -> Z) (o : option StatsValue) : Z := from_option f 0 o.

(** An entry that is there stays the same incarnation. *)
Definition same_incarnation (o o' : option StatsValue) : Prop :=
  forall s, o = Some s -> exists s', o' = Some s' /\ first_seen_ns s' = first_seen_ns s.

Lemma enter_exact key f c k :
  f ∈ net_counts -> call_typed c -> kernel_typed k -> keeps key (Returned c) ->
  let calls := calls_for key [c] in
  count f (entries k !! key) + total cfg f calls <= u64_max ->
  count f (enter c (entries k) !! key) = count f (entries k !! key) + total cfg f calls /\
  same_incarnation (entries k !! key) (enter c (entries k) !! key).
Proof.
  intros Hf Hc Hk [Hst Hev]. unfold calls_for. cbn [List.filter]. destruct (decide (key_of c = Some key)) as [E|E].
  - rewrite bool_decide_true by done. rewrite (enter_own key c _ E), (Hst E).
    rewrite total_one.
    pose proof (call_value_nonneg cfg f c Hf) as Hv. destruct (entries k !! key) as [s|] eqn:Es; cbn [count from_option].
    + pose proof (typed_count f s Hf (entries_typed k Hk key s Es)) as Hs. intros Ht. split.
      * rewrite update_counts by done. apply wrap64_small. lia.
      * intros s' [= <-]. eexists. split; [done|]. apply update_of_first.
    + intros Ht. split; [|done]. pose proof (initial_count f (NetKernel.now c) Hf) as H0.
      rewrite update_counts by (done || rewrite H0; done). rewrite H0. apply wrap64_small. lia.
  - rewrite bool_decide_false by done. intros _. destruct (enter_other key c (entries k) E) as [-> | [_ Hin]]; [|done].
    split; [cbn; lia|]. intros s Hs. by exists s.
Qed.

Lemma entries_exact key f es k :
  f ∈ net_counts -> Forall event_typed es -> kernel_typed k -> Forall (keeps key) es ->
  let calls := calls_for key (counted_calls cfg es k) in
  count f (entries k !! key) + total cfg f calls <= u64_max ->
  count f (entries (handle_all cfg es k) !! key) = count f (entries k !! key) + total cfg f calls /\
  same_incarnation (entries k !! key) (entries (handle_all cfg es k) !! key).
Proof.
  intros Hf He. revert k. induction He as [|e es He _ IH]; intros k Hk Hes; cbn zeta.
  { intros _. split; [cbn; lia|]. intros s Hs. by exists s. }
  apply Forall_cons in Hes as [Hke Hes]. change (handle_all cfg (e :: es) k) with (handle_all cfg es (handle cfg e k)).
  cbn [counted_calls]. rewrite calls_for_app, total_app. set (k1 := handle cfg e k).
  set (now := match e with Returned c => _ | Filter _ => [] end).
  pose proof (net_total_nonneg cfg f (calls_for key (counted_calls cfg es k1)) Hf) as Hn. intros Ht.
  assert (count f (entries k1 !! key) = count f (entries k !! key) + total cfg f (calls_for key now) /\
    same_incarnation (entries k !! key) (entries k1 !! key)) as [E1 I1].
  { unfold k1, now in *. rewrite handle_entries. destruct e as [c|pid]; [destruct (counted cfg k c)|].
    1: apply enter_exact; [done|done|done|done|lia].
    all: split; [cbn; lia|intros s Hs; by exists s]. }
  destruct (IH k1) as [E2 I2]; [by apply net_handle_typed|done|rewrite E1; lia|]. split; [rewrite E2, E1; lia|].
  intros s Hs. destruct (I1 s Hs) as (s1 & H1 & F1). destruct (I2 s1 H1) as (s2 & H2 & F2). exists s2.
  split; [done|congruence].
Qed.

(** What is read of a key, in the rounds in which it has an entry. *)
Fixpoint entry_readings (key : K) (batches : list (list Event)) (k : Kernel) : list StatsValue :=
  match batches with
  | [] => []
  | es :: batches =>
      let k := handle_all cfg es k in
      match entries k !! key with Some s => [s] | None => [] end ++ entry_readings key batches k
  end.

Lemma net_delta f r p :
  f ∈ net_counts -> f (delta r p) =
    match p with
    | Some p => if first_seen_ns p =? first_seen_ns r then sat_sub (f r) (f p) else f r
    | None => f r
    end.
Proof. intros Hf. by apply (net_counts_of f Hf r p). Qed.

Lemma deltas_exact key f batches k :
  f ∈ net_counts -> Forall (Forall event_typed) batches -> kernel_typed k -> Forall (Forall (keeps key)) batches ->
  let calls := calls_for key (counted_calls cfg (concat batches) k) in
  count f (entries k !! key) + total cfg f calls <= u64_max ->
  sum_of f (deltas (entries k !! key) (entry_readings key batches k)) = total cfg f calls.
Proof.
  intros Hf Hb. revert k. induction Hb as [|es batches He _ IH]; intros k Hk Hks; [done|].
  apply Forall_cons in Hks as [Hke Hks]. cbn [concat entry_readings]. rewrite counted_calls_app, calls_for_app, total_app.
  set (k1 := handle_all cfg es k). cbn zeta. intros Ht.
  pose proof (net_total_nonneg cfg f (calls_for key (counted_calls cfg (concat batches) k1)) Hf) as Hn.
  pose proof (net_total_nonneg cfg f (calls_for key (counted_calls cfg es k)) Hf) as Hn1.
  destruct (entries_exact key f es k Hf He Hk Hke) as [E1 I1]; [lia|]. fold k1 in E1, I1.
  specialize (IH k1 ltac:(by apply net_handle_all_typed) Hks ltac:(rewrite E1; lia)).
  destruct (entries k1 !! key) as [s1|] eqn:Es1.
  - cbn [app deltas]. rewrite sum_of_cons, IH. cbn [delta_of StatsValue_cumulative]. rewrite net_delta by done.
    destruct (entries k !! key) as [s|] eqn:Es; cbn [count from_option] in E1.
    + destruct (I1 s eq_refl) as (s' & [= <-] & ->). rewrite Z.eqb_refl. unfold sat_sub. lia.
    + lia.
  - cbn [app]. destruct (entries k !! key) as [s|] eqn:Es; [by destruct (I1 s eq_refl) as (? & ? & _)|].
    cbn [count from_option] in E1. rewrite IH. lia.
Qed.

(** *** At most *)

(** An entry of which [moved] was counted since the reading [previous], at most. *)
Definition bounded (f : StatsValue -> Z) (previous o : option StatsValue) (moved : Z) : Prop :=
  forall s, o = Some s ->
    f s <= moved \/ exists p, previous = Some p /\ first_seen_ns p = first_seen_ns s /\ f s <= f p + moved.

Lemma bounded_more f previous o moved moved' : bounded f previous o moved -> moved <= moved' -> bounded f previous o moved'.
Proof.
  intros Hb Hle s Hs. destruct (Hb s Hs) as [?|(p & ? & ? & ?)]; [left; lia|right; exists p; split_and!; [done|done|lia]].
Qed.

Lemma wrap_le x y : 0 <= x -> 0 <= y -> x +64 y <= x + y.
Proof. intros. apply Z.mod_le; lia. Qed.

Lemma enter_bounded key f c k previous moved :
  f ∈ net_counts -> kernel_typed k -> 0 <= moved ->
  bounded f previous (entries k !! key) moved ->
  bounded f previous (enter c (entries k) !! key) (moved + total cfg f (calls_for key [c])).
Proof.
  intros Hf Hk Hm Hb. unfold calls_for. cbn [List.filter]. destruct (decide (key_of c = Some key)) as [E|E].
  - rewrite bool_decide_true by done. rewrite (enter_own key c _ E).
    rewrite total_one.
    pose proof (call_value_nonneg cfg f c Hf) as Hv. destruct (entries k !! key) as [s|] eqn:Es.
    + pose proof (typed_count f s Hf (entries_typed k Hk key s Es)) as Hs. intros s' [= <-].
      rewrite update_counts, update_of_first by done. pose proof (wrap_le (f s) _ (proj1 Hs) Hv).
      destruct (Hb s eq_refl) as [?|(p & ? & ? & ?)]; [left; lia|right; exists p; split_and!; [done|done|lia]].
    + destruct (stored c); [|done]. intros s' [= <-]. left. pose proof (initial_count f (NetKernel.now c) Hf) as H0.
      rewrite update_counts by (done || rewrite H0; done). rewrite H0. pose proof (wrap_le 0 _ ltac:(lia) Hv). lia.
  - rewrite bool_decide_false by done. replace (moved + total cfg f []) with moved by (cbn; lia).
    destruct (enter_other key c (entries k) E) as [-> | [-> _]]; [done|]. by intros s.
Qed.

Lemma entries_bounded key f es k previous moved :
  f ∈ net_counts -> Forall event_typed es -> kernel_typed k -> 0 <= moved ->
  bounded f previous (entries k !! key) moved ->
  bounded f previous (entries (handle_all cfg es k) !! key)
    (moved + total cfg f (calls_for key (counted_calls cfg es k))).
Proof.
  intros Hf He. revert k moved. induction He as [|e es He _ IH]; intros k moved Hk Hm Hb.
  { eapply bounded_more; [exact Hb|]. cbn. lia. }
  change (handle_all cfg (e :: es) k) with (handle_all cfg es (handle cfg e k)). cbn [counted_calls].
  rewrite calls_for_app, total_app, Z.add_assoc. set (now := match e with Returned c => _ | Filter _ => [] end).
  pose proof (net_total_nonneg cfg f (calls_for key now) Hf). apply IH; [by apply net_handle_typed|lia|].
  unfold now. rewrite handle_entries. destruct e as [c|pid]; [destruct (counted cfg k c)|].
  1: by apply enter_bounded.
  all: eapply bounded_more; [exact Hb|cbn; lia].
Qed.

Lemma deltas_bounded key f batches k previous :
  f ∈ net_counts -> Forall (Forall event_typed) batches -> kernel_typed k ->
  (forall p, previous = Some p -> 0 <= f p) -> bounded f previous (entries k !! key) 0 ->
  sum_of f (deltas previous (entry_readings key batches k)) <=
  total cfg f (calls_for key (counted_calls cfg (concat batches) k)).
Proof.
  intros Hf Hb. revert k previous. induction Hb as [|es batches He _ IH]; intros k previous Hk Hp Hbd; [done|].
  cbn [concat entry_readings]. rewrite counted_calls_app, calls_for_app, total_app.
  pose proof (net_total_nonneg cfg f (calls_for key (counted_calls cfg es k)) Hf) as Hn.
  pose proof (entries_bounded key f es k previous 0 Hf He Hk ltac:(lia) Hbd) as Hb1. rewrite Z.add_0_l in Hb1.
  assert (kernel_typed (handle_all cfg es k)) as Hk1 by by apply net_handle_all_typed.
  set (k1 := handle_all cfg es k) in *. set (moved := total cfg f (calls_for key (counted_calls cfg es k))) in *.
  destruct (entries k1 !! key) as [s|] eqn:Es.
  - cbn [app deltas]. rewrite sum_of_cons. cbn [delta_of StatsValue_cumulative]. rewrite net_delta by done.
    pose proof (typed_count f s Hf (entries_typed k1 Hk1 key s Es)) as Hs.
    specialize (IH k1 (Some s) Hk1). assert (bounded f (Some s) (entries k1 !! key) 0) as Hb2.
    { intros s' Hs'. right. exists s. assert (s' = s) as -> by congruence. split_and!; [done|done|lia]. }
    specialize (IH ltac:(intros p [= <-]; lia) Hb2).
    enough (match previous with
            | Some p => if first_seen_ns p =? first_seen_ns s then sat_sub (f s) (f p) else f s
            | None => f s
            end <= moved) by lia.
    destruct previous as [p|].
    + specialize (Hp p eq_refl). unfold sat_sub.
      destruct (Hb1 s eq_refl) as [?|(p' & [= <-] & Hfs & ?)].
      * destruct (_ =? _); lia.
      * rewrite Hfs, Z.eqb_refl. lia.
    + destruct (Hb1 s eq_refl) as [?|(p' & [=] & _)]. lia.
  - cbn [app]. assert (bounded f previous (entries k1 !! key) 0) as Hb2 by (rewrite Es; by intros s).
    specialize (IH k1 previous Hk1 Hp Hb2). lia.
Qed.

End Entries.
