(* ===== verification/NetReport.v ===== *)
(** * The reports of the network tracker add up

    The counts of the host, which are kept per processor; the tracker's rounds between
    what happens in the kernel; and the theorem that the values [NetTrack] sends on a
    counter track are differences that add up to what the calls moved. *)

From S2P Require Import Prelude Protocol Text Float BpfConfig BpfEvents KernelRecords NetTrack NetSamples NetProps.
From S2P Require Import NetSeries NetKernel NetCounts.
Open Scope Z_scope.

(** ** The maps, step by step *)

Section Host.

Context (cfg : KernelConfig).

Definition process_key_of (c : Call) : option ProcessKey :=
  if process_enabled cfg then Some (process_key (current_tgid c) (proto c)) else None.

Definition peer_key_of (c : Call) : option PeerKey :=
  if peer_enabled cfg then sock c ≫= (fun sk => peer_key sk c) else None.

(** A call that counts goes to the host, to its process and to its peer. *)
Lemma handle_counted c k :
  let k' := handle cfg (Returned c) k in
  if counted cfg k c then
    NetKernel.global_stats k' =
      (if host_enabled cfg
       then <[(cpu c, protocol_index (proto c)) := update_of cfg c (global_of k (cpu c) (proto c))]> (NetKernel.global_stats k)
       else NetKernel.global_stats k) /\
    NetKernel.process_stats k' = enter cfg process_key_of process_stored process_evicted c (NetKernel.process_stats k) /\
    NetKernel.peer_stats k' = enter cfg peer_key_of peer_stored peer_evicted c (NetKernel.peer_stats k)
  else k' = k.
Proof.
  cbn zeta. cbn [handle]. unfold counted, accounted, account_socket_io, enter, process_key_of, peer_key_of, update_of.
  destruct (traced cfg c); [|done]. destruct (should_track_tgid cfg k (current_tgid c)).
  2: { rewrite andb_false_r. by destruct (_ || _). }
  destruct (sock c) as [sk|]; [|rewrite !andb_false_r; by destruct (_ || _)].
  destruct (protocol_enabled cfg (proto c)).
  2: { rewrite !andb_false_r. by destruct (_ || _). }
  rewrite !andb_true_r. cbn [andb negb mbind option_bind].
  destruct (send c); [destruct (send_enabled cfg)|destruct (receive_enabled cfg)]; cbn [andb orb negb]; [|done| |done].
  all: destruct (host_enabled cfg), (process_enabled cfg), (peer_enabled cfg); unfold update_peer_stats; cbn;
    destruct (peer_key sk c); (split; [|split]); reflexivity.
Qed.

Lemma handle_processes e k : NetKernel.process_stats (handle cfg e k) =
  match e with
  | Returned c =>
      if counted cfg k c then enter cfg process_key_of process_stored process_evicted c (NetKernel.process_stats k)
      else NetKernel.process_stats k
  | Filter _ => NetKernel.process_stats k
  end.
Proof. destruct e as [c|]; [|done]. pose proof (handle_counted c k) as Hc. destruct (counted cfg k c); [apply Hc|by rewrite Hc]. Qed.

Lemma handle_peers e k : NetKernel.peer_stats (handle cfg e k) =
  match e with
  | Returned c =>
      if counted cfg k c then enter cfg peer_key_of peer_stored peer_evicted c (NetKernel.peer_stats k)
      else NetKernel.peer_stats k
  | Filter _ => NetKernel.peer_stats k
  end.
Proof. destruct e as [c|]; [|done]. pose proof (handle_counted c k) as Hc. destruct (counted cfg k c); [apply Hc|by rewrite Hc]. Qed.

Lemma processes_typed k : kernel_typed k -> map_Forall (fun _ s => stats_typed s) (NetKernel.process_stats k).
Proof. intros [_ Hp _] key s Hs. by apply (Hp key). Qed.

Lemma peers_typed k : kernel_typed k -> map_Forall (fun _ s => stats_typed s) (NetKernel.peer_stats k).
Proof. intros [_ _ Hp] key s Hs. by apply (Hp key). Qed.

(** ** The processors *)

Context (cpus : list Z) (Hcpus : NoDup cpus).

(** The counts of the host have no incarnation. *)
Definition timeless (k : Kernel) : Prop := map_Forall (fun _ s => first_seen_ns s = 0) (NetKernel.global_stats k).

Lemma global_timeless k c p : timeless k -> first_seen_ns (global_of k c p) = 0.
Proof. intros Hk. unfold global_of. destruct (_ !! _) eqn:E; [by apply (Hk _ _ E)|done]. Qed.

Lemma handle_timeless e k : timeless k -> timeless (handle cfg e k).
Proof.
  intros Hk. destruct e as [c|]; [|done]. pose proof (handle_counted c k) as Hc. unfold timeless.
  destruct (counted cfg k c); [|by rewrite Hc]. destruct Hc as [-> _]. destruct (host_enabled cfg); [|done].
  apply map_Forall_insert_2; [|done]. rewrite update_of_first. by apply global_timeless.
Qed.

Lemma handle_all_timeless es k : timeless k -> timeless (handle_all cfg es k).
Proof. revert k. induction es as [|e es IH]; intros k Hk; [done|]. by apply IH, handle_timeless. Qed.

Lemma accumulate_timeless a l :
  first_seen_ns a = 0 -> Forall (fun s => first_seen_ns s = 0) l -> first_seen_ns (foldl accumulate a l) = 0.
Proof.
  intros Ha Hl. revert a Ha. induction Hl as [|s l Hs _ IH]; intros a Ha; [done|]. apply IH. cbn. by rewrite Ha, Hs.
Qed.

Lemma accumulate_count f a b : f ∈ net_counts -> f (accumulate a b) = sat_add 64 (f a) (f b).
Proof.
  unfold net_counts. intros Hf. repeat (apply elem_of_cons in Hf as [-> | Hf]; [done|]). by apply elem_of_nil in Hf.
Qed.

Lemma accumulate_counts f a l :
  f ∈ net_counts -> 0 <= f a -> Forall (fun s => 0 <= f s) l -> f a + sum_of f l <= u64_max ->
  f (foldl accumulate a l) = f a + sum_of f l.
Proof.
  intros Hf Ha Hl. revert a Ha. induction Hl as [|s l Hs Hl IH]; intros a Ha; [cbn; lia|]. rewrite sum_of_cons.
  intros Hle. assert (0 <= sum_of f l) as Hn.
  { clear -Hl. induction Hl as [|s l Hs _ IH]; [done|]. rewrite sum_of_cons. lia. }
  assert (f (accumulate a s) = f a + f s) as E.
  { rewrite accumulate_count by done. unfold sat_add. unfold u64_max in Hle. lia. }
  cbn [foldl]. rewrite IH by lia. lia.
Qed.

(** What the host's processors have counted of a protocol. *)
Definition host_count (f : StatsValue -> Z) (k : Kernel) (p : NetProtocol) : Z :=
  sum_of (fun c => f (global_of k c p)) cpus.

(** The calls of a protocol. *)
Definition calls_of (p : NetProtocol) (calls : list Call) : list Call :=
  List.filter (fun c => bool_decide (proto c = p)) calls.

Lemma host_count_bounds f k p :
  f ∈ net_counts -> kernel_typed k ->
  0 <= host_count f k p /\ forall c, c ∈ cpus -> 0 <= f (global_of k c p) <= host_count f k p.
Proof.
  intros Hf Hk. unfold host_count. clear Hcpus. induction cpus as [|c l [IH1 IH2]].
  { split; [done|]. by intros c Hc%elem_of_nil. }
  rewrite sum_of_cons. pose proof (typed_count f _ Hf (global_of_typed k c p Hk)) as Hc. split; [lia|].
  intros c' [->|Hc']%elem_of_cons; [lia|]. specialize (IH2 c' Hc'). lia.
Qed.

Lemma global_of_insert k m c p c' p' s :
  NetKernel.global_stats k = <[(c, protocol_index p) := s]> m ->
  global_of k c' p' = if decide ((c, p) = (c', p')) then s else default StatsValue_default (m !! (c', protocol_index p')).
Proof.
  intros E. unfold global_of. rewrite E. destruct (decide _) as [Heq|Hne].
  - injection Heq as <- <-. by rewrite lookup_insert_eq.
  - rewrite lookup_insert_ne; [done|]. intros [= -> Hp]. apply Hne. f_equal. by destruct p, p'.
Qed.

(** An event, for the host. *)
Lemma host_step f e k p :
  host_enabled cfg = true -> f ∈ net_counts -> kernel_typed k -> event_typed e ->
  (forall c, e = Returned c -> cpu c ∈ cpus) ->
  let calls := calls_of p (match e with Returned c => if counted cfg k c then [c] else [] | Filter _ => [] end) in
  host_count f k p + total cfg f calls <= u64_max ->
  host_count f (handle cfg e k) p = host_count f k p + total cfg f calls.
Proof.
  intros Hh Hf Hk He Hc. cbn zeta. destruct e as [c|].
  2: { intros _. change (host_count f k p = host_count f k p + 0). lia. }
  specialize (Hc c eq_refl).
  pose proof (handle_counted c k) as H. destruct (counted cfg k c).
  2: { intros _. rewrite H. change (host_count f k p = host_count f k p + 0). lia. }
  destruct H as [H _].
  rewrite Hh in H. pose proof (global_of_insert _ _ _ _ (cpu c) p _ H) as Hg. unfold calls_of. cbn [List.filter].
  pose proof (host_count_bounds f k p Hf Hk) as [_ Hb]. specialize (Hb (cpu c) Hc).
  assert (forall c', c' <> cpu c -> f (global_of (handle cfg (Returned c) k) c' p) = f (global_of k c' p)) as Ho.
  { intros c' Hne. rewrite (global_of_insert _ _ _ _ c' p _ H). rewrite decide_False by congruence. done. }
  pose proof (sum_of_update _ _ (cpu c) cpus Hcpus Hc Ho) as Hs. cbn beta in Hs.
  fold (host_count f (handle cfg (Returned c) k) p) (host_count f k p) in Hs.
  destruct (decide (proto c = p)) as [Hp|Hp].
  - rewrite bool_decide_true by done. rewrite total_one.
    intros Ht. subst p. pose proof (call_value_nonneg cfg f c Hf).
    rewrite Hg, decide_True, update_counts in Hs by (done || lia). rewrite wrap64_small in Hs by lia. lia.
  - rewrite bool_decide_false by done. intros _. rewrite Hg, decide_False in Hs by congruence.
    change (default _ _) with (global_of k (cpu c) p) in Hs. change (total cfg f []) with 0. lia.
Qed.

Definition on_host (e : Event) : Prop := match e with Returned c => cpu c ∈ cpus | Filter _ => True end.

Lemma calls_of_app p l l' : calls_of p (l ++ l') = calls_of p l ++ calls_of p l'.
Proof. apply List.filter_app. Qed.

Lemma host_steps f es k p :
  host_enabled cfg = true -> f ∈ net_counts -> kernel_typed k -> Forall event_typed es -> Forall on_host es ->
  let calls := calls_of p (counted_calls cfg es k) in
  host_count f k p + total cfg f calls <= u64_max ->
  host_count f (handle_all cfg es k) p = host_count f k p + total cfg f calls.
Proof.
  intros Hh Hf Hk He. revert k Hk. induction He as [|e es He _ IH]; intros k Hk Ho; [cbn; lia|].
  apply Forall_cons in Ho as [Hoe Ho]. change (handle_all cfg (e :: es) k) with (handle_all cfg es (handle cfg e k)).
  cbn [counted_calls]. rewrite calls_of_app, total_app. cbn zeta. intros Ht.
  pose proof (net_total_nonneg cfg f (calls_of p (counted_calls cfg es (handle cfg e k))) Hf).
  pose proof (host_step f e k p Hh Hf Hk He) as Hs. cbn zeta in Hs.
  rewrite IH; [|by apply net_handle_typed|done|]; rewrite Hs; try lia; by intros c ->.
Qed.

(** The host's statistics of a protocol, as they are read. *)
Definition host_reading (p : NetProtocol) (k : Kernel) : StatsValue :=
  foldl accumulate StatsValue_default (map (fun c => global_of k c p) cpus).

Fixpoint host_readings (p : NetProtocol) (batches : list (list Event)) (k : Kernel) : list StatsValue :=
  match batches with
  | [] => []
  | es :: batches => let k := handle_all cfg es k in host_reading p k :: host_readings p batches k
  end.

Lemma host_reading_count f k p :
  f ∈ net_counts -> kernel_typed k -> host_count f k p <= u64_max -> f (host_reading p k) = host_count f k p.
Proof.
  intros Hf Hk Hle. assert (f StatsValue_default = 0) as Ez by exact (initial_count f 0 Hf). unfold host_reading.
  rewrite accumulate_counts; [rewrite sum_of_map, Ez; done|done|by rewrite Ez| |rewrite sum_of_map, Ez; exact Hle].
  apply Forall_map, Forall_true. intros c. cbn. pose proof (typed_count f _ Hf (global_of_typed k c p Hk)). lia.
Qed.

Lemma host_exact f p batches k previous :
  host_enabled cfg = true -> f ∈ net_counts -> kernel_typed k -> timeless k ->
  Forall (fun es => Forall event_typed es /\ Forall on_host es) batches ->
  first_seen_ns previous = 0 -> f previous = host_count f k p ->
  let calls := calls_of p (counted_calls cfg (concat batches) k) in
  host_count f k p + total cfg f calls <= u64_max ->
  sum_of f (deltas (Some previous) (host_readings p batches k)) = total cfg f calls.
Proof.
  intros Hh Hf Hk Ht Hb. revert k Hk Ht previous.
  induction Hb as [|es batches [He Ho] _ IH]; intros k Hk Ht previous Hp0 Hp; [done|].
  cbn [concat host_readings] in *. rewrite counted_calls_app, calls_of_app, total_app.
  pose proof (net_handle_all_typed cfg es k He Hk) as Hk1. pose proof (handle_all_timeless es k Ht) as Ht1.
  pose proof (host_steps f es k p Hh Hf Hk He Ho) as Hs. cbn zeta in Hs |- *. intros Hle.
  set (k1 := handle_all cfg es k) in *.
  pose proof (net_total_nonneg cfg f (calls_of p (counted_calls cfg (concat batches) k1)) Hf) as Hn.
  pose proof (net_total_nonneg cfg f (calls_of p (counted_calls cfg es k)) Hf) as Hn1.
  specialize (Hs ltac:(lia)). cbn [deltas]. rewrite sum_of_cons.
  pose proof (host_reading_count f k1 p Hf Hk1 ltac:(lia)) as E1.
  assert (first_seen_ns (host_reading p k1) = 0) as E0.
  { apply accumulate_timeless; [done|]. apply Forall_map, Forall_true. intros c. by apply global_timeless. }
  rewrite IH; [|done..|lia]. cbn [delta_of StatsValue_cumulative]. rewrite net_delta by done.
  rewrite E0, Hp0, E1, Hp. cbn. unfold sat_sub. lia.
Qed.

End Host.

(** ** The rounds of the tracker *)

Section Rounds.

Context (user : list Message -> Message -> Z) (rng : nat -> Z) (config : NetTrackConfig) (cpus : list Z).

Notation cfg := (kernel_config config).

(** What the tracker is called for. *)
Inductive Visit := Polled | Consumed | Flushed.

Definition forced (v : Visit) : bool := match v with Flushed => true | _ => false end.

Definition visit (v : Visit) : Round -> NetTrack -> result BpfError unit * NetTrack :=
  match v with
  | Polled => poll user rng config
  | Consumed => consume user rng config
  | Flushed => flush user rng config
  end.

(** Events in the kernel, and the call of the tracker after them. *)
Record Batch := mkBatch { happened : list Event; at_time : Z; by_call : Visit }.

Fixpoint collect (batches : list Batch) (k : Kernel) (s : NetTrack) : result BpfError unit * NetTrack :=
  match batches with
  | [] => (Ok tt, s)
  | b :: batches =>
      let k := handle_all cfg (happened b) k in
      let '(result, s) := visit (by_call b) (round_of cpus (at_time b) k) s in
      match result with Err e => (Err e, s) | Ok _ => collect batches k s end
  end.

(** The keys of processes are padded with zeros. *)
Definition padded (k : Kernel) : Prop := map_Forall (fun key _ => pk_padding key = [0; 0; 0]) (NetKernel.process_stats k).

Lemma update_entry_keys {K} `{Countable K} (P : K -> Prop) stored evicted key now update (m : gmap K StatsValue) :
  P key -> map_Forall (fun key _ => P key) m ->
  map_Forall (fun key _ => P key) (update_entry stored evicted key now update m).
Proof.
  intros Hk Hm. unfold update_entry. destruct (m !! key); [by apply map_Forall_insert_2|].
  assert (map_Forall (fun key _ => P key) (filter (fun e => e.1 ∉ evicted) m)) as Hf.
  { intros k s [Hs _]%map_lookup_filter_Some. by apply (Hm k s). }
  destruct stored; [by apply map_Forall_insert_2|done].
Qed.

Lemma handle_all_padded es k : padded k -> padded (handle_all cfg es k).
Proof.
  revert k. induction es as [|e es IH]; intros k Hk; [done|]. apply IH. unfold padded. rewrite handle_processes.
  destruct e as [c|]; [|done]. destruct (counted cfg k c); [|done]. unfold enter, process_key_of.
  destruct (process_enabled cfg); [|done]. by apply update_entry_keys.
Qed.

(** The reading of a series' statistics. *)
Definition reading_of (key : SeriesKey) (k : Kernel) : option StatsValue :=
  found_of (fun p => host_reading cpus p k) (NetKernel.process_stats k) (NetKernel.peer_stats k) key.

Fixpoint readings (key : SeriesKey) (batches : list (list Event)) (k : Kernel) : list StatsValue :=
  match batches with
  | [] => []
  | es :: batches =>
      let k := handle_all cfg es k in
      match reading_of key k with Some s => [s] | None => [] end ++ readings key batches k
  end.

(** The events between the rounds in which a series is sampled. *)
Fixpoint merged (key : SeriesKey) (last : Z) (pending : list Event) (batches : list Batch) : list (list Event) :=
  match batches with
  | [] => []
  | b :: batches =>
      let es := pending ++ happened b in
      if due_of config key (forced (by_call b)) (at_time b) last
      then es :: merged key (at_time b) [] batches else merged key last es batches
  end.

Lemma merged_all key batches b last pending :
  by_call b = Flushed ->
  concat (merged key last pending (batches ++ [b])) = pending ++ concat (map happened (batches ++ [b])).
Proof.
  intros Hb. revert last pending. induction batches as [|a batches IH]; intros last pending.
  - cbn. rewrite Hb. unfold due_of, due. cbn. by rewrite !app_nil_r.
  - cbn [app merged map concat]. rewrite app_assoc. destruct (due_of _ _ _ _ _); cbn [concat]; by rewrite IH.
Qed.

Lemma merged_Forall (P : Event -> Prop) key last pending batches :
  Forall P pending -> Forall (Forall P) (map happened batches) -> Forall (Forall P) (merged key last pending batches).
Proof.
  revert last pending. induction batches as [|b batches IH]; intros last pending Hp Hb; [done|].
  cbn [map] in Hb. apply Forall_cons in Hb as [Hb Hbs]. cbn [merged].
  assert (Forall P (pending ++ happened b)) by by apply Forall_app.
  destruct (due_of _ _ _ _ _); [apply Forall_cons; split; [done|]|]; by apply IH.
Qed.

Lemma round_finds now k :
  kernel_typed k -> padded k ->
  finds (round_of cpus now k) (fun p => host_reading cpus p k) (NetKernel.process_stats k) (NetKernel.peer_stats k).
Proof.
  intros Hk Hp. split; [intros p; by apply read_global_of|by apply read_processes_of|by apply read_peers_of|].
  intros key c Hc. by apply (Hp key c).
Qed.

(** *** What is reported *)

(** A difference, and the samples it is of. *)
Record Difference := mkDifference { amount : Z; since : Z; until : Z }.

Definition reported (key : SeriesKey) (d : Difference) : Z * Z :=
  reported_value config (kind key) (amount d) (seconds_since (until d) (since d)) (until d).

Hypothesis accepts : forall ms m, user ms m = 0.

Lemma visit_adds v now k s :
  kernel_typed k -> padded k -> length (global_previous s) = 2%nat ->
  (visit v (round_of cpus now k) s).1 = Ok tt /\
  let s' := (visit v (round_of cpus now k) s).2 in
  length (global_previous s') = 2%nat /\
  exists R, adds rng config R s s' /\
  forall key f, kind_stat (kind key) = Some f -> reportable config key ->
    if due_of config key (forced v) now (last_of key s) then
      last_of key s' = now /\
      prev_of key s' = match reading_of key k with Some c => Some c | None => prev_of key s end /\
      R key = report_of config key f (reading_of key k) (prev_of key s) (seconds_since now (last_of key s)) now s' /\
      (reading_of key k <> None -> shown (scope key) s' = false -> full config s')
    else last_of key s' = last_of key s /\ prev_of key s' = prev_of key s /\ R key = [].
Proof using accepts.
  intros Hk Hp Hl.
  assert (visit v = sample_if_due user rng config (forced v)) as -> by by destruct v.
  apply (round_adds user rng config accepts (forced v) _ _ _ _ s (round_finds now k Hk Hp) Hl).
Qed.

(** When a series is sampled, each time with the time of the sample before. *)
Fixpoint sample_times (key : SeriesKey) (last : Z) (batches : list Batch) : list (Z * Z) :=
  match batches with
  | [] => []
  | b :: batches =>
      if due_of config key (forced (by_call b)) (at_time b) last
      then (last, at_time b) :: sample_times key (at_time b) batches else sample_times key last batches
  end.

Definition times_of (d : Difference) : Z * Z := (since d, until d).

(** What is reported of a series over the rounds: the differences of its readings, if
    it is shown. *)
Lemma collect_adds batches k s :
  kernel_typed k -> padded k -> Forall (Forall event_typed) (map happened batches) ->
  length (global_previous s) = 2%nat ->
  (collect batches k s).1 = Ok tt /\
  let s' := (collect batches k s).2 in
  exists R, adds rng config R s s' /\
  forall key f k0 pending, kind_stat (kind key) = Some f -> reportable config key -> handle_all cfg pending k0 = k ->
    let l := readings key (merged key (last_of key s) pending batches) k0 in
    exists ds, map amount ds = map f (deltas (prev_of key s) l) /\
      map times_of ds `sublist_of` sample_times key (last_of key s) batches /\
      R key = (if shown (scope key) s' then map (reported key) ds else []) /\
      (l <> [] -> shown (scope key) s' = false -> full config s').
Proof using accepts.
  revert k s. induction batches as [|b batches IH]; intros k s Hk Hpd Hb Hl; cbn zeta.
  { split; [done|]. exists (fun _ => []). split; [by apply adds_same|]. intros key f k0 pending _ _ _. exists [].
    split_and!; [done|done| |done]. by destruct (shown _ _). }
  cbn [map] in Hb. apply Forall_cons in Hb as [He Hb]. cbn [collect].
  set (k1 := handle_all cfg (happened b) k).
  assert (kernel_typed k1) as Hk1 by by apply net_handle_all_typed.
  assert (padded k1) as Hpd1 by by apply handle_all_padded.
  destruct (visit_adds (by_call b) (at_time b) k1 s Hk1 Hpd1 Hl) as (Hz & Hl1 & R1 & Ha1 & Hr1).
  destruct (visit _ _ s) as [x s1]. cbn [fst snd] in *. subst x.
  destruct (IH k1 s1 Hk1 Hpd1 Hb Hl1) as (Hz2 & R2 & Ha2 & Hr2). split; [done|].
  exists (fun key => R1 key ++ R2 key). split; [by eapply adds_trans|].
  intros key f k0 pending Hf Hrep E. specialize (Hr1 key f Hf Hrep). cbn [merged sample_times].
  assert (handle_all cfg (pending ++ happened b) k0 = k1) as E1 by (unfold k1; rewrite <-E; apply foldl_app).
  destruct (due_of _ _ _ _ _); cycle 1.
  - destruct Hr1 as (H1 & H2 & ->). destruct (Hr2 key f k0 _ Hf Hrep E1) as (ds & Hd & Hs & HR & Hfl).
    rewrite H1, H2 in *. by exists ds.
  - destruct Hr1 as (H1 & H2 & HR1 & Hfl1). cbn [readings]. rewrite E1.
    destruct (Hr2 key f k1 [] Hf Hrep eq_refl) as (ds & Hd & Hs & HR & Hfl). rewrite H1, H2 in *.
    unfold report_of in HR1. destruct (reading_of key k1) as [c|] eqn:Ec; cycle 1.
    { rewrite HR1. exists ds. split_and!; try done. by apply sublist_cons. }
    exists (mkDifference (f (delta c (prev_of key s))) (last_of key s) (at_time b) :: ds).
    assert (shown (scope key) (collect batches k1 s1).2 = shown (scope key) s1) as Hsh.
    { eapply shown_later; [exact Ha2|]. by apply Hfl1. }
    cbn [map app deltas]. split; [by rewrite Hd|]. split; [by apply sublist_skip|]. rewrite HR1, HR, Hsh.
    split; [by destruct (shown _ s1)|]. intros _ Hs1. eapply full_later; [exact Ha2|]. by apply Hfl1.
Qed.

(** *** What adds up *)

Lemma kind_stat_count k f : kind_stat k = Some f -> f ∈ net_counts.
Proof using. clear accepts. unfold net_counts. destruct k; intros [= <-]; set_solver. Qed.

Lemma sum_of_mapped {A B} (g : A -> Z) (f : B -> Z) l l' : map g l = map f l' -> sum_of g l = sum_of f l'.
Proof using.
  intros E. transitivity (sum_of (fun x => x) (map g l)); [by rewrite sum_of_map|]. by rewrite E, sum_of_map.
Qed.

Lemma readings_host key batches k :
  scope key = SHost -> readings key batches k = host_readings cfg cpus (sk_protocol key) batches k.
Proof using.
  intros Hs. revert k. induction batches as [|es batches IH]; intros k; [done|]. cbn [readings host_readings].
  unfold reading_of, found_of. by rewrite Hs, IH.
Qed.

Lemma readings_entries {K} `{Countable K} (entries : Kernel -> gmap K StatsValue) (k' : K) key batches k :
  (forall k, reading_of key k = entries k !! k') -> readings key batches k = entry_readings cfg entries k' batches k.
Proof using.
  intros Hr. revert k. induction batches as [|es batches IH]; intros k; [done|]. cbn [readings entry_readings].
  by rewrite Hr, IH.
Qed.

Definition all_events (batches : list Batch) : list Event := concat (map happened batches).

(** What the calls of a series' scope moved. *)
Definition moved (key : SeriesKey) (f : StatsValue -> Z) (calls : list Call) : Z :=
  match scope key with
  | SHost => total cfg f (calls_of (sk_protocol key) calls)
  | SProcess tgid => total cfg f (calls_for (process_key_of cfg) (process_key tgid (sk_protocol key)) calls)
  | SPeer peer => total cfg f (calls_for (peer_key_of cfg) peer calls)
  end.

Lemma moved_nonneg key f calls : kind_stat (kind key) = Some f -> 0 <= moved key f calls.
Proof using. intros Hf%kind_stat_count. unfold moved. destruct (scope key); by apply net_total_nonneg. Qed.

(** The kernel's map has an entry for the series, and keeps it. *)
Definition kept (key : SeriesKey) (e : Event) : Prop :=
  match scope key with
  | SHost => True
  | SProcess tgid => keeps (process_key_of cfg) process_stored process_evicted (process_key tgid (sk_protocol key)) e
  | SPeer peer => keeps (peer_key_of cfg) peer_stored peer_evicted peer e
  end.

(** The differences of a series' readings, from the start. *)
Lemma readings_add_up key f pids batches t0 :
  kind_stat (kind key) = Some f -> reportable config key -> NoDup cpus ->
  Forall (fun es => Forall event_typed es /\ Forall (on_host cpus) es) batches ->
  let k := kernel_init pids in
  let calls := counted_calls cfg (concat batches) k in
  total cfg f calls <= u64_max ->
  let sum := sum_of f (deltas (prev_of key (NetTrack_init t0)) (readings key batches k)) in
  (scope key <> SHost -> sum <= moved key f calls) /\ (Forall (Forall (kept key)) batches -> sum = moved key f calls).
Proof using.
  intros Hf%kind_stat_count [_ Hrep] Hcpus Hb. cbn zeta. pose proof (net_kernel_init_typed pids) as Hk.
  set (k := kernel_init pids) in *. set (calls := counted_calls cfg (concat batches) k). intros Ht.
  assert (Forall (Forall event_typed) batches) as He by (eapply Forall_impl; [exact Hb|by intros es [? _]]).
  assert (forall keep, total cfg f (List.filter keep calls) <= u64_max) as Hsub.
  { intros keep. pose proof (total_filter cfg f keep calls Hf). lia. }
  unfold moved, kept, prev_of. destruct (scope key) as [|tgid|peer] eqn:Es.
  - split; [done|]. intros _. destruct Hrep as [Hh _]. rewrite (readings_host _ _ _ Es).
    assert (host_count cpus f k (sk_protocol key) = 0) as E0.
    { unfold host_count. clear -Hf. induction cpus as [|c l IH]; [done|]. rewrite sum_of_cons, IH, Z.add_0_r.
      exact (initial_count f 0 Hf). }
    replace (host_previous (sk_protocol key) (NetTrack_init t0)) with StatsValue_default by (by destruct (sk_protocol key)).
    apply host_exact; rewrite ?E0; try done; [exact (initial_count f 0 Hf)|by apply Hsub].
  - rewrite (readings_entries NetKernel.process_stats (process_key tgid (sk_protocol key))).
    2: { intros k'. unfold reading_of, found_of. rewrite Es. by destruct (sk_protocol key). }
    cbn [NetTrack_init process_previous]. rewrite lookup_empty. split.
    + intros _. apply deltas_bounded with (key_of := process_key_of cfg) (stored := process_stored)
        (evicted := process_evicted); try done; [apply handle_processes|apply processes_typed].
    + intros Hkeep. apply (deltas_exact cfg NetKernel.process_stats (process_key_of cfg) process_stored process_evicted
        (handle_processes cfg) processes_typed _ f batches k Hf He Hk Hkeep). by apply Hsub.
  - rewrite (readings_entries NetKernel.peer_stats peer).
    2: { intros k'. unfold reading_of, found_of. by rewrite Es. }
    cbn [NetTrack_init peer_previous]. rewrite lookup_empty. split.
    + intros _. apply deltas_bounded with (key_of := peer_key_of cfg) (stored := peer_stored)
        (evicted := peer_evicted); try done; [apply handle_peers|apply peers_typed].
    + intros Hkeep. apply (deltas_exact cfg NetKernel.peer_stats (peer_key_of cfg) peer_stored peer_evicted
        (handle_peers cfg) peers_typed _ f batches k Hf He Hk Hkeep). by apply Hsub.
Qed.

Lemma ledger_init t0 : ledger rng (fun _ => []) (NetTrack_init t0).
Proof using. by split. Qed.

(** C19. What the network tracker sends on a counter track adds up to what the calls
    moved.  Socket calls return, on any processor and of any process, and processes are
    entered into the filter; in between, at any times, the tracker is polled, consumed
    or flushed, and at the end it is flushed.  The counts of the calls that the
    programs account fit into 64 bits, the callback accepts what it is given, and the
    ids that were drawn differ.  Take a series that is configured: of the host, a
    process or a peer, of a protocol, and of one of the ten kinds of counts (all but
    the two totals of the host).  Then no call of the tracker fails, and the values the
    callback got on the series' track are, in order, differences of that count, each
    as the configuration has it (bytes may be bits per second, over the time since the
    sample before) and of a different one of the times at which the series was due.  The differences add up to what the calls of the host, the process
    or the peer moved: exactly for the host; for a process or a peer to no more than
    that, and exactly that if the kernel's map always had room for it and gave up no
    entry of it, and, for a peer, it has a track or there are less than
    [max_peer_tracks] of them. *)
Theorem net_io_reported key f pids t0 batches b :
  NoDup cpus -> by_call b = Flushed -> kind_stat (kind key) = Some f -> reportable config key ->
  let all := batches ++ [b] in
  Forall (fun b => Forall event_typed (happened b) /\ Forall (on_host cpus) (happened b)) all ->
  let calls := counted_calls cfg (all_events all) (kernel_init pids) in
  total cfg f calls <= u64_max ->
  forall result s, collect all (kernel_init pids) (NetTrack_init t0) = (result, s) ->
  distinct_draws rng (draws (port s)) ->
  result = Ok tt /\
  exists ds,
    match series_ids s !! key with
    | Some id => series_values id (sent (port s)) = map (reported key) ds
    | None => ds = []
    end /\
    map times_of ds `sublist_of` sample_times key t0 all /\
    (scope key <> SHost -> sum_of amount ds <= moved key f calls) /\
    (Forall (kept key) (all_events all) -> shown (scope key) s = true \/ ~ full config s ->
     sum_of amount ds = moved key f calls).
Proof using accepts.
  intros Hcpus Hb Hf Hrep all Hall calls Ht result s Hrun Hdist.
  destruct (collect_adds all (kernel_init pids) (NetTrack_init t0)) as (Hz & R & Ha & Hr).
  { apply net_kernel_init_typed. }
  { apply map_Forall_empty. }
  { apply Forall_map. eapply Forall_impl; [exact Hall|]. by intros ? [? _]. }
  { done. }
  destruct (Hr key f (kernel_init pids) [] Hf Hrep eq_refl) as (ds & Hd & Hs & HR & Hfl).
  rewrite Hrun in *. cbn [fst snd] in *. split; [done|].
  pose proof (ad_ledger _ _ _ _ _ Ha (fun _ => []) Hdist (ledger_init t0)) as [Hvals Hnone _ _ _].
  set (groups := merged key (last_of key (NetTrack_init t0)) [] all) in *.
  assert (concat groups = all_events all) as Eg by by apply merged_all.
  assert (Forall (fun es => Forall event_typed es /\ Forall (on_host cpus) es) groups) as Hg.
  { eapply Forall_impl; [|intros es; apply Forall_and]. apply merged_Forall; [done|]. apply Forall_map.
    eapply Forall_impl; [exact Hall|]. intros ? ?. by apply Forall_and. }
  pose proof (readings_add_up key f pids groups t0 Hf Hrep Hcpus Hg) as [Hle Heq]; [by rewrite Eg|]. rewrite Eg in *.
  fold calls in Hle, Heq. pose proof (sum_of_mapped _ _ _ _ Hd) as Esum.
  destruct (shown (scope key) s) eqn:Esh.
  - exists ds. rewrite <-Esum in Hle, Heq. split.
    { destruct (series_ids s !! key) as [id|] eqn:Ei; [by rewrite (Hvals _ _ Ei), HR|].
      specialize (Hnone _ Ei). cbn in Hnone. rewrite HR in Hnone. by apply map_eq_nil in Hnone. }
    split.
    { assert (last_of key (NetTrack_init t0) = t0) as Et by (unfold last_of; by destruct (scope key)).
      by rewrite Et in Hs. }
    split; [done|]. intros Hkeep _. apply Heq. by apply merged_Forall; [|apply Forall_concat].
  - exists []. split.
    { destruct (series_ids s !! key) as [id|] eqn:Ei; [by rewrite (Hvals _ _ Ei), HR|done]. }
    split; [apply sublist_nil_l|]. split.
    { intros _. by apply moved_nonneg. }
    intros Hkeep [?|Hn]; [done|].
    destruct (readings key groups (kernel_init pids)) as [|r l] eqn:El; [|by destruct Hn; apply Hfl].
    cbn [deltas] in Heq. apply Heq. by apply merged_Forall; [|apply Forall_concat].
Qed.

End Rounds.

(** ** An example *)

(** Two processes send on two processors: one of them twice, to a peer.  The second
    call of the tracker comes too early to sample. *)
Definition demo_net_config : NetTrackConfig :=
  mkNetTrackConfig 9 1 0 false [Tcp; Udp] [Send; Receive] [Host; Process; Peer] [Bytes] [] [] 1024 1024 512.

Definition demo_sock : Sock := mkSock AF_INET 4000 20480 [10; 0; 0; 1] (replicate 16 0).

Definition demo_call (cpu tgid bytes now : Z) : Event :=
  Returned (mkCall cpu tgid (Some demo_sock) None Tcp true bytes now true ∅ true ∅).

Definition demo_early : list Batch :=
  [mkBatch [demo_call 0 7 100 5] 200000000 Polled; mkBatch [demo_call 1 7 20 12] 200000010 Consumed].

Definition demo_last : Batch := mkBatch [demo_call 1 8 8 13; demo_call 0 7 (- EAGAIN) 22] 400000000 Flushed.

Definition demo_peer_key : PeerKey := mkPeerKey 7 0 2 4000 80 0 ([10; 0; 0; 1] ++ replicate 12 0).

(** What was sent on the track of a series. *)
Definition sent_of (key : SeriesKey) (s : NetTrack) : option (list (Z * Z)) :=
  (fun id => series_values id (sent (port s))) <$> series_ids s !! key.

Definition demo_collected : NetTrack :=
  (collect (fun _ _ => 0) Z.of_nat demo_net_config [0; 1] (demo_early ++ [demo_last]) (kernel_init []) (NetTrack_init 0)).2.

Definition demo_series (sc : ScopeKey) : SeriesKey := mkSeriesKey sc Tcp KSendBytes.

Lemma demo_batches_typed :
  Forall (fun b => Forall event_typed (happened b) /\ Forall (on_host [0; 1]) (happened b)) (demo_early ++ [demo_last]).
Proof.
  assert (forall cpu tgid bytes now, cpu ∈ [0; 1] -> in_u 32 tgid -> in_u 64 now ->
    event_typed (demo_call cpu tgid bytes now) /\ on_host [0; 1] (demo_call cpu tgid bytes now)) as H.
  { intros cpu tgid bytes now Hc Ht Hn. split; [|done]. split; [done|done| |done]. intros sk [= <-].
    split; try done; (split; [|done]); repeat (apply Forall_cons; split); try apply Forall_nil_2; done. }
  repeat (apply Forall_cons; split); try apply Forall_nil_2; cbn [happened];
    (split; repeat (apply Forall_cons; split); try apply Forall_nil_2); apply H; (done || set_solver).
Qed.

Lemma demo_all_kept key : Forall (kept demo_net_config key) (all_events (demo_early ++ [demo_last])).
Proof.
  assert (forall cpu tgid bytes now, kept demo_net_config key (demo_call cpu tgid bytes now)) as H.
  { intros cpu tgid bytes now. unfold kept. destruct (scope key); [done| |]; (split; [done|apply not_elem_of_empty]). }
  repeat (apply Forall_cons; split); try apply Forall_nil_2; apply H.
Qed.

(** The host, the first process and its peer. *)
Lemma net_io_reported_witness :
  Forall (fun '(sc, n) => exists ds,
    sent_of (demo_series sc) demo_collected = Some (map (reported demo_net_config (demo_series sc)) ds) /\
    sum_of amount ds = n) [(SHost, 128); (SProcess 7, 120); (SPeer demo_peer_key, 120)].
Proof.
  assert (NoDup [0; 1]) as Hn by by apply (bool_decide_unpack _); vm_compute.
  assert (forall n, distinct_draws Z.of_nat n) as Hd by (intros n i j _ _ H; lia).
  assert (forall sc n id, reportable demo_net_config (demo_series sc) ->
    series_ids demo_collected !! demo_series sc = Some id -> shown sc demo_collected = true ->
    moved demo_net_config (demo_series sc) send_bytes
      (counted_calls (kernel_config demo_net_config) (all_events (demo_early ++ [demo_last])) (kernel_init [])) = n ->
    exists ds, sent_of (demo_series sc) demo_collected = Some (map (reported demo_net_config (demo_series sc)) ds) /\
      sum_of amount ds = n) as H.
  { intros sc n id Hrep Hid Hsh <-.
    destruct (net_io_reported (fun _ _ => 0) Z.of_nat demo_net_config [0; 1] ltac:(done) (demo_series sc) send_bytes
      [] 0 demo_early demo_last Hn eq_refl eq_refl Hrep demo_batches_typed ltac:(by vm_compute) _ _
      (surjective_pairing _) (Hd _)) as (_ & ds & Hv & _ & _ & E).
    exists ds. fold demo_collected in Hv, E. rewrite Hid in Hv. split.
    - unfold sent_of. rewrite Hid. cbn [fmap option_fmap option_map]. by rewrite Hv.
    - apply E; [apply demo_all_kept|by left]. }
  repeat (apply Forall_cons; split); [..|by apply Forall_nil_2]; eapply H; by vm_compute.
Defined.
