(* ===== verification/PerfCounter.v ===== *)
(** * The performance counters

    Hardware and software counters of each processor, and ratios of them
    (src/bpf/src/perfcounter.rs and src/bpf/src/perf_event.rs). *)

From S2P Require Import Prelude Protocol Text Float BpfConfig BpfEvents.
From stdpp Require Import pretty.
From Stdlib Require Import Ascii.
Open Scope Z_scope.

Definition MAX_PERF_COUNTERS : nat := 8.

Definition PERF_EVENT_IOC_ENABLE : Z := 9216.

(** ** Configuration *)

Inductive CounterConfig :=
| Named (name : string)
| Custom (name : string) (perf_type config : Z).

#[export] Instance CounterConfig_eq_dec : EqDecision CounterConfig.
Proof. solve_decision. Defined.

Inductive DerivedCounter := Ipc (cycles_idx instructions_idx : nat).

Record PerfCounterConfig := mkPerfCounterConfig {
  frequency : Z;
  counters : list CounterConfig;
  ringbuf : Z
}.

Definition default_frequency : Z := 9.

Definition default_ringbuf_size : Z := 256 * 1024.

(** The numbers of the kernel's perf interface, as [libbpf_sys] names them. *)
Record PerfNumbers := mkPerfNumbers {
  PERF_TYPE_HARDWARE : Z;
  PERF_TYPE_SOFTWARE : Z;
  PERF_COUNT_HW_CPU_CYCLES : Z;
  PERF_COUNT_HW_INSTRUCTIONS : Z;
  PERF_COUNT_HW_CACHE_REFERENCES : Z;
  PERF_COUNT_HW_CACHE_MISSES : Z;
  PERF_COUNT_HW_BRANCH_INSTRUCTIONS : Z;
  PERF_COUNT_HW_BRANCH_MISSES : Z;
  PERF_COUNT_HW_STALLED_CYCLES_FRONTEND : Z;
  PERF_COUNT_HW_STALLED_CYCLES_BACKEND : Z;
  PERF_COUNT_SW_CPU_CLOCK : Z;
  PERF_COUNT_SW_TASK_CLOCK : Z;
  PERF_COUNT_SW_PAGE_FAULTS : Z;
  PERF_COUNT_SW_CONTEXT_SWITCHES : Z;
  PERF_COUNT_SW_CPU_MIGRATIONS : Z;
  PERF_COUNT_SW_PAGE_FAULTS_MIN : Z;
  PERF_COUNT_SW_PAGE_FAULTS_MAJ : Z
}.

(** The names of the counters that are counted by the kernel. *)
Definition known_counters (sys : PerfNumbers) : list (list string * Z * Z) :=
  let hardware := PERF_TYPE_HARDWARE sys in
  let software := PERF_TYPE_SOFTWARE sys in
  [(["cpu-cycles"], hardware, PERF_COUNT_HW_CPU_CYCLES sys);
   (["cpu-instructions"; "instructions"], hardware, PERF_COUNT_HW_INSTRUCTIONS sys);
   (["cache-references"], hardware, PERF_COUNT_HW_CACHE_REFERENCES sys);
   (["cache-misses"], hardware, PERF_COUNT_HW_CACHE_MISSES sys);
   (["branch-instructions"; "branches"], hardware, PERF_COUNT_HW_BRANCH_INSTRUCTIONS sys);
   (["branch-misses"], hardware, PERF_COUNT_HW_BRANCH_MISSES sys);
   (["stalled-cycles-frontend"], hardware, PERF_COUNT_HW_STALLED_CYCLES_FRONTEND sys);
   (["stalled-cycles-backend"], hardware, PERF_COUNT_HW_STALLED_CYCLES_BACKEND sys);
   (["cpu-clock"], software, PERF_COUNT_SW_CPU_CLOCK sys);
   (["task-clock"], software, PERF_COUNT_SW_TASK_CLOCK sys);
   (["page-faults"; "faults"], software, PERF_COUNT_SW_PAGE_FAULTS sys);
   (["context-switches"; "cs"], software, PERF_COUNT_SW_CONTEXT_SWITCHES sys);
   (["cpu-migrations"; "migrations"], software, PERF_COUNT_SW_CPU_MIGRATIONS sys);
   (["minor-faults"], software, PERF_COUNT_SW_PAGE_FAULTS_MIN sys);
   (["major-faults"], software, PERF_COUNT_SW_PAGE_FAULTS_MAJ sys)]%string.

Definition to_perf_config (sys : PerfNumbers) (self : CounterConfig) : result BpfError (string * Z * Z) :=
  match self with
  | Named name =>
      match List.find (fun '(names, _, _) => bool_decide (name ∈ names)) (known_counters sys) with
      | Some (_, perf_type, config) => Ok (name, perf_type, config)
      | None => Err (LoadError ("unknown performance counter: " ++ name)%string)
      end
  | Custom name perf_type config => Ok (name, perf_type, config)
  end.

(** The counters a configuration stands for, the ratios to derive, and which of the
    counters are there for a ratio only. *)
Definition Expansion : Type := list CounterConfig * list (string * DerivedCounter) * list bool.

Definition expand_counter (counter : CounterConfig) (acc : Expansion * nat) : Expansion * nat :=
  let '((expanded, derived_counters, is_derived_only), current_idx) := acc in
  if decide (counter = Named "ipc") then
    ((expanded ++ [Named "cpu-cycles"; Named "cpu-instructions"],
      derived_counters ++ [("ipc"%string, Ipc current_idx (current_idx + 1))],
      is_derived_only ++ [true; true]), (current_idx + 2)%nat)
  else
    ((expanded ++ [counter], derived_counters, is_derived_only ++ [false]), (current_idx + 1)%nat).

Definition expand_counters (self : PerfCounterConfig) :
    PerfCounterConfig * list (string * DerivedCounter) * list bool :=
  let '((expanded, derived_counters, is_derived_only), _) :=
    foldl (fun acc counter => expand_counter counter acc) (([], [], []), 0%nat) (counters self) in
  (mkPerfCounterConfig (frequency self) expanded (ringbuf self), derived_counters, is_derived_only).

Definition validate (sys : PerfNumbers) (self : PerfCounterConfig) :
    result BpfError (PerfCounterConfig * list (string * DerivedCounter) * list bool) :=
  let '(self, derived_info, is_derived_only) := expand_counters self in
  if is_empty (counters self) then Err (LoadError "no performance counters configured")
  else if Nat.ltb MAX_PERF_COUNTERS (length (counters self)) then
    Err (LoadError ("too many performance counters: " ++ pretty (Z.of_nat (length (counters self)))
      ++ " (max: " ++ pretty (Z.of_nat MAX_PERF_COUNTERS) ++ ")")%string)
  else
    match collect (map (to_perf_config sys) (counters self)) with
    | Err e => Err e
    | Ok _ => Ok (self, derived_info, is_derived_only)
    end.

(** ** Events *)

Record PerfCounterEvent := mkPerfCounterEvent {
  timestamp : Z;
  cpu_id : Z;
  padding : Z;
  ev_counters : list Z
}.

Definition parse_event (data : list Z) : PerfCounterEvent :=
  mkPerfCounterEvent (field 8 0 data) (field 4 8 data) (field 4 12 data) (words MAX_PERF_COUNTERS 16 data).

(** The identifier of the [i]th counter of a processor. *)
Definition counter_id (cpu : Z) (i : nat) : Z := Z.lor (wrap 64 (Z.shiftl cpu 32)) (Z.of_nat i).

(** What a counter has counted since the reading before; a counter that fell has
    started again. *)
Definition counter_difference (previous : option Z) (value : Z) : Z :=
  match previous with
  | Some prev => if prev <=? value then value - prev else value
  | None => 0
  end.

Section PerfCounter.

Variable user : list Message -> Message -> Z.
Variable stream_id : Z.

Definition perf_counter (value : f64) (timestamp id : Z) : Message :=
  Message.Stream stream_id (Event.Counter (Counter.mk _ _ _ _ _ "" (to_bits value) timestamp
    (TrackId.Counter id) Labels.new None)).

(** The counters from the [i]th on; [None] is an index out of range. *)
Fixpoint process_regular (event : PerfCounterEvent) (previous_values : gmap (Z * nat) Z)
    (is_derived_only : list bool) (i : nat) (values : list Z) (p : Port) : option (Z * Port) :=
  match values with
  | [] => Some (0, p)
  | value :: values =>
      derived_only ← is_derived_only !! i;
      if derived_only : bool then process_regular event previous_values is_derived_only (S i) values p
      else
        let delta := counter_difference (previous_values !! (cpu_id event, i)) value in
        let '(result, p) :=
          send user (perf_counter (of_int delta) (timestamp event) (counter_id (cpu_id event) i)) p in
        if negb (result =? 0) then Some (1, p)
        else process_regular event previous_values is_derived_only (S i) values p
  end.

(** The first [n] elements; none is missing. *)
Definition slice_to (n : nat) (l : list Z) : option (list Z) :=
  if Nat.leb n (length l) then Some (take n l) else None.

Definition process_regular_counters (event : PerfCounterEvent) (counters_len : nat)
    (previous_values : gmap (Z * nat) Z) (is_derived_only : list bool) (p : Port) : option (Z * Port) :=
  values ← slice_to counters_len (ev_counters event);
  process_regular event previous_values is_derived_only 0 values p.

(** The difference of the counter at [idx]; the event's value is only looked at
    when there is a previous one. *)
Definition derived_difference (event : PerfCounterEvent) (previous_values : gmap (Z * nat) Z) (idx : nat) : option Z :=
  match previous_values !! (cpu_id event, idx) with
  | Some prev => current ← ev_counters event !! idx; Some (counter_difference (Some prev) current)
  | None => Some 0
  end.

Fixpoint process_derived_counters (event : PerfCounterEvent) (counters_len : nat) (idx : nat)
    (derived_info : list (string * DerivedCounter)) (previous_values : gmap (Z * nat) Z) (p : Port) :
    option (Z * Port) :=
  match derived_info with
  | [] => Some (0, p)
  | (_, Ipc cycles_idx instructions_idx) :: derived_info =>
      cycles_delta ← derived_difference event previous_values cycles_idx;
      instructions_delta ← derived_difference event previous_values instructions_idx;
      let ipc := if 0 <? cycles_delta then ratio instructions_delta cycles_delta else of_int 0 in
      let '(result, p) :=
        send user (perf_counter ipc (timestamp event) (counter_id (cpu_id event) (counters_len + idx))) p in
      if negb (result =? 0) then Some (1, p)
      else process_derived_counters event counters_len (S idx) derived_info previous_values p
  end.

Fixpoint insert_values (cpu : Z) (i : nat) (values : list Z) (previous_values : gmap (Z * nat) Z) : gmap (Z * nat) Z :=
  match values with
  | [] => previous_values
  | value :: values => insert_values cpu (S i) values (<[(cpu, i) := value]> previous_values)
  end.

Definition update_previous_values (event : PerfCounterEvent) (counters_len : nat)
    (previous_values : gmap (Z * nat) Z) : option (gmap (Z * nat) Z) :=
  values ← slice_to counters_len (ev_counters event);
  Some (insert_values (cpu_id event) 0 values previous_values).

(** ** Names *)

Fixpoint zeros (n : nat) : string :=
  match n with O => EmptyString | S n => String.String "0"%char (zeros n) end.

Definition pad (width : nat) (s : string) : string := (zeros (width - String.length s) ++ s)%string.

Definition format_track_name (name : string) (cpu cpu_count : Z) : string :=
  let cpu_width := String.length (pretty (cpu_count - 1)) in
  (name ++ " #" ++ pad cpu_width (pretty cpu))%string.

(** ** The counters are opened *)

(** What the operating system answers. *)
Record PerfSystem := mkPerfSystem {
  perf_event_open : Z -> Z -> option Z -> Z -> result string Z;
  update_counter_map : Z -> Z -> result string unit;
  ioctl : Z -> Z -> result string unit
}.

Variable sys : PerfNumbers.
Variable os : PerfSystem.

(** A timer of each processor. *)
Definition perf_event_per_cpu (nprocs : nat) (type_ config freq : Z) : result string (list Z) :=
  collect (map (fun cpu => perf_event_open os type_ config (Some freq) (Z.of_nat cpu)) (seq 0 nprocs)).

(** The entry of the kernel's map for a counter on a processor. *)
Definition open_counter (counters_len counter_idx : nat) (name : string) (type_ config : Z) (cpu : nat) :
    result BpfError (Z * Z) :=
  match perf_event_open os type_ (wrap 32 config) None (Z.of_nat cpu) with
  | Err e =>
      Err (AttachError ("failed to open perf event for counter " ++ name ++ " on cpu "
        ++ pretty (Z.of_nat cpu) ++ ": " ++ e)%string)
  | Ok fd =>
      let idx := as_signed 32 (wrap 32 (Z.of_nat (cpu * counters_len + counter_idx))) in
      match update_counter_map os idx fd with
      | Err e =>
          Err (MapError ("failed to update perf counter map at idx " ++ pretty idx ++ ": " ++ e)%string)
      | Ok _ =>
          match ioctl os fd PERF_EVENT_IOC_ENABLE with
          | Err e => Err (AttachError ("failed to enable perf counter: " ++ e)%string)
          | Ok _ => Ok (idx, fd)
          end
      end
  end.

Fixpoint open_counters (nprocs counters_len counter_idx : nat) (l : list CounterConfig) :
    result BpfError (list (Z * Z)) :=
  match l with
  | [] => Ok []
  | counter :: l =>
      match to_perf_config sys counter with
      | Err e => Err e
      | Ok (name, type_, config) =>
          match collect (map (open_counter counters_len counter_idx name type_ config) (seq 0 nprocs)) with
          | Err e => Err e
          | Ok entries =>
              match open_counters nprocs counters_len (S counter_idx) l with
              | Err e => Err e
              | Ok rest => Ok (entries ++ rest)
              end
          end
      end
  end.

(** ** Tracks *)

Definition counter_name (counter : CounterConfig) : string :=
  match counter with Named name => name | Custom name _ _ => name end.

Definition perf_track (name : string) (nprocs : Z) (cpu : nat) (i : nat) : Message :=
  Message.Stream stream_id (Event.Track (Track.mk _ _ _ (format_track_name name (Z.of_nat cpu) nprocs)
    (TrackType.Counter (counter_id (Z.of_nat cpu) i) None) (Some (TrackType.Cpu (wrap 32 (Z.of_nat cpu)))))).

(** The counters that have a track of their own, with their positions. *)
Fixpoint shown (i : nat) (l : list CounterConfig) (is_derived_only : list bool) : option (list (nat * string)) :=
  match l with
  | [] => Some []
  | counter :: l =>
      derived_only ← is_derived_only !! i;
      rest ← shown (S i) l is_derived_only;
      Some (if derived_only : bool then rest else (i, counter_name counter) :: rest)
  end.

Definition cpu_tracks (config : PerfCounterConfig) (derived_info : list (string * DerivedCounter))
    (regular : list (nat * string)) (nprocs : Z) (cpu : nat) : list Message :=
  map (fun '(i, name) => perf_track name nprocs cpu i) regular
  ++ map (fun '(idx, (name, _)) => perf_track name nprocs cpu (length (counters config) + idx))
       (zip (seq 0 (length derived_info)) derived_info).

(** ** The collector *)

Record PerfCounter := mkPerfCounter {
  port : Port;
  previous_values : gmap (Z * nat) Z
}.

(** What the handler of records has captured. *)
Record Captured := mkCaptured {
  counters_len : nat;
  derived_info : list (string * DerivedCounter);
  is_derived_only : list bool
}.

(** What [new] asks of the kernel programs. *)
Record KernelConfig := mkKernelConfig {
  events_entries : Z;
  perf_counters_entries : Z;
  counter_count : Z;
  perf_counters_map : list (Z * Z)
}.

(** The collector, on an outbox; the tracks are announced at once. *)
Definition new (num_possible_cpus : result string nat) (config : PerfCounterConfig) (p : Port) :
    option (result BpfError (KernelConfig * Captured * PerfCounter)) :=
  match validate sys config with
  | Err e => Some (Err e)
  | Ok (config, derived_info, is_derived_only) =>
      match num_possible_cpus with
      | Err e => Some (Err (LoadError ("failed to get cpu count: " ++ e)%string))
      | Ok nprocs =>
          let n := length (counters config) in
          match perf_event_per_cpu nprocs (PERF_TYPE_SOFTWARE sys) (PERF_COUNT_SW_CPU_CLOCK sys) (frequency config) with
          | Err e => Some (Err (AttachError ("failed to create timer perf events: " ++ e)%string))
          | Ok timers =>
              match open_counters nprocs n 0 (counters config) with
              | Err e => Some (Err e)
              | Ok entries =>
                  regular ← shown 0 (counters config) is_derived_only;
                  let '(result, p) := until_refused (send user)
                    (concat (map (cpu_tracks config derived_info regular (Z.of_nat nprocs)) (seq 0 nprocs))) p in
                  if negb (result =? 0) then Some (Err (LoadError "callback terminated"))
                  else
                    Some (Ok (mkKernelConfig (wrap 32 (ringbuf config)) (wrap 32 (Z.of_nat (nprocs * n)))
                                (wrap 32 (Z.of_nat n)) entries,
                              mkCaptured n derived_info is_derived_only, mkPerfCounter p ∅))
              end
          end
      end
  end.

(** A record of the ring. *)
Definition handle_event (c : Captured) (event : PerfCounterEvent) (s : PerfCounter) : option (Z * PerfCounter) :=
  '(result, p) ← process_regular_counters event (counters_len c) (previous_values s) (is_derived_only c) (port s);
  if negb (result =? 0) then Some (1, mkPerfCounter p (previous_values s))
  else
    '(result, p) ← process_derived_counters event (counters_len c) 0 (derived_info c) (previous_values s) p;
    if negb (result =? 0) then Some (1, mkPerfCounter p (previous_values s))
    else
      previous ← update_previous_values event (counters_len c) (previous_values s);
      Some (0, mkPerfCounter p previous).

(** The handler unwraps the event, so a record that is none panics. *)
Definition handle_record (c : Captured) (data : list Z) (s : PerfCounter) : option (Z * PerfCounter) :=
  match parse_plain 80 parse_event data "perf counter event" with
  | Ok event => handle_event c event s
  | Err _ => None
  end.

Variable stops : Z -> option (result string unit).

Definition read_ring (what : string) (c : Captured) (records : list (list Z)) (at_end : result string unit)
    (s : PerfCounter) : option (result BpfError unit * PerfCounter) :=
  '(read, s) ← deliver stops (handle_record c) records at_end s;
  match read with
  | Err e => Some (Err (MapError ("failed to " ++ what ++ " events: " ++ e)%string), s)
  | Ok _ => Some (Ok tt, s)
  end.

Definition consume := read_ring "consume".

Definition poll := read_ring "poll".

(** [filter] does nothing. *)
Definition filter (pid : Z) : result BpfError unit := Ok tt.

End PerfCounter.
