(* ===== verification/PerfProps.v ===== *)
(** * Properties of the performance counters

    A configuration that is accepted never makes the handler index out of range; an
    event is reported as a whole or counted again; every counter has a track of its
    own. *)

From S2P Require Import Prelude Protocol Text Float BpfConfig BpfEvents PerfCounter.
From stdpp Require Import pretty.
Open Scope Z_scope.

(** ** Lists without duplicates *)

Lemma NoDup_map_inj {A B} (f : A -> B) l :
  (forall a b, a ∈ l -> b ∈ l -> f a = f b -> a = b) -> NoDup l -> NoDup (map f l).
Proof.
  intros Hf. induction 1 as [|a l Ha _ IH]; [constructor|]. cbn [map]. constructor.
  - intros (b & E & Hb)%list_elem_of_In%in_map_iff. apply list_elem_of_In in Hb. apply Ha.
    rewrite (Hf a b); [done|by left|by right|done].
  - apply IH. intros x y Hx Hy. apply Hf; by right.
Qed.

Lemma NoDup_concat_map {A B} (f : A -> list B) l :
  NoDup l -> (forall a, a ∈ l -> NoDup (f a)) ->
  (forall a b x, a ∈ l -> b ∈ l -> x ∈ f a -> x ∈ f b -> a = b) -> NoDup (concat (map f l)).
Proof.
  induction 1 as [|a l Ha _ IH]; intros Hf Hd; [constructor|]. cbn [map concat]. apply NoDup_app. split_and!.
  - apply Hf. by left.
  - intros x Hx (l' & (b & <- & Hb)%in_map_iff & Hxb)%list_elem_of_In%in_concat.
    apply list_elem_of_In in Hb, Hxb. apply Ha. rewrite (Hd a b x); [done|by left|by right|done|done].
  - apply IH; [intros; apply Hf; by right|]. intros b b' x Hb Hb'. apply Hd; by right.
Qed.

(** ** Expansion *)

(** A ratio refers to two counters that are there for it. *)
Definition derived_ok (expanded : list CounterConfig) (is_derived_only : list bool)
    (derived : string * DerivedCounter) : Prop :=
  let '(name, Ipc cycles_idx instructions_idx) := derived in
  name = "ipc"%string /\
  expanded !! cycles_idx = Some (Named "cpu-cycles") /\ is_derived_only !! cycles_idx = Some true /\
  expanded !! instructions_idx = Some (Named "cpu-instructions") /\
  is_derived_only !! instructions_idx = Some true.

Definition expansion_ok (acc : Expansion * nat) : Prop :=
  let '((expanded, derived, flags), n) := acc in
  length expanded = n /\ length flags = n /\ (2 * length derived <= n)%nat /\
  Forall (derived_ok expanded flags) derived.

Lemma derived_ok_app e f e' f' d : derived_ok e f d -> derived_ok (e ++ e') (f ++ f') d.
Proof.
  destruct d as [name [c i]]. intros (H1 & H2 & H3 & H4 & H5).
  split_and!; [done|by apply lookup_app_l_Some..].
Qed.

Lemma expand_counter_ok acc counter : expansion_ok acc -> expansion_ok (expand_counter counter acc).
Proof.
  destruct acc as [[[e d] f] n]. intros (He & Hf & H2 & Hd). unfold expand_counter.
  destruct (decide _) as [_|_]; cbn.
  - rewrite !length_app, He, Hf. split_and!; [done..|cbn; lia|]. apply Forall_app_2.
    + eapply Forall_impl; [exact Hd|]. intros. by apply derived_ok_app.
    + apply Forall_singleton. split_and!; [done|..].
      all: rewrite lookup_app_r by lia; rewrite ?He, ?Hf.
      1-2: by rewrite Nat.sub_diag.
      all: by replace (n + 1 - n)%nat with 1%nat by lia.
  - rewrite !length_app, He, Hf. split_and!; [done..|lia|].
    eapply Forall_impl; [exact Hd|]. intros. by apply derived_ok_app.
Qed.

Lemma expand_counters_ok self :
  let '(self', derived, flags) := expand_counters self in
  length flags = length (counters self') /\ (2 * length derived <= length (counters self'))%nat /\
  Forall (derived_ok (counters self') flags) derived.
Proof.
  unfold expand_counters.
  assert (expansion_ok (foldl (fun acc counter => expand_counter counter acc) (([], [], []), 0%nat) (counters self)))
    as H.
  { apply foldl_ind; [intros; by apply expand_counter_ok|]. split_and!; [done..|cbn; lia|constructor]. }
  destruct (foldl _ _ _) as [[[e d] f] n]. destruct H as (He & Hf & H2 & Hd). cbn.
  split_and!; [congruence|lia|done].
Qed.

(** What the handler relies on. *)
Record captured_ok (c : Captured) : Prop := {
  co_len : (0 < counters_len c <= MAX_PERF_COUNTERS)%nat;
  co_flags : length (is_derived_only c) = counters_len c;
  co_ratios : (2 * length (derived_info c) <= counters_len c)%nat;
  co_derived : Forall (fun '(_, Ipc cycles instructions) =>
    (cycles < counters_len c)%nat /\ (instructions < counters_len c)%nat) (derived_info c)
}.

Lemma validate_ok sys self self' derived flags :
  validate sys self = Ok (self', derived, flags) ->
  captured_ok (mkCaptured (length (counters self')) derived flags) /\
  Forall (derived_ok (counters self') flags) derived.
Proof.
  unfold validate. pose proof (expand_counters_ok self) as H.
  destruct (expand_counters self) as [[s d] f]. destruct H as (Hf & Hrat & Hd).
  destruct (counters s) as [|c l] eqn:Ec; [done|]. rewrite <-Ec in *. cbn [is_empty].
  destruct (is_empty (counters s)); [done|].
  destruct (Nat.ltb_spec MAX_PERF_COUNTERS (length (counters s))); [done|].
  destruct (collect _); [|done]. intros [= <- <- <-]. split; [|done]. split; cbn.
  - rewrite Ec in *. cbn in *. lia.
  - done.
  - done.
  - eapply Forall_impl; [exact Hd|]. intros [name [cy ins]] (_ & H1 & _ & H2 & _).
    split; by eapply lookup_lt_Some.
Qed.

(** ** Events *)

Section Events.

Variable user : list Message -> Message -> Z.
Variable stream_id : Z.

(** The difference of a counter since the event before, of the counters a ratio is
    of likewise. *)
Definition counted (event : PerfCounterEvent) (previous : gmap (Z * nat) Z) (i : nat) : Z :=
  counter_difference (previous !! (cpu_id event, i)) (nth i (ev_counters event) 0).

Definition ipc_of (event : PerfCounterEvent) (previous : gmap (Z * nat) Z) (derived : DerivedCounter) : f64 :=
  let '(Ipc cycles instructions) := derived in
  if 0 <? counted event previous cycles
  then ratio (counted event previous instructions) (counted event previous cycles) else of_int 0.

(** The messages of an event. *)
Definition shown_counters (c : Captured) : list nat :=
  List.filter (fun i => negb (nth i (is_derived_only c) true)) (seq 0 (counters_len c)).

Definition event_messages (c : Captured) (event : PerfCounterEvent) (previous : gmap (Z * nat) Z) : list Message :=
  map (fun i => perf_counter stream_id (of_int (counted event previous i)) (timestamp event)
                  (counter_id (cpu_id event) i)) (shown_counters c)
  ++ map (fun '(idx, (_, derived)) =>
        perf_counter stream_id (ipc_of event previous derived) (timestamp event)
          (counter_id (cpu_id event) (counters_len c + idx)))
       (zip (seq 0 (length (derived_info c))) (derived_info c)).

(** A result is passed on as one. *)
Definition as_one (r : Z * Port) : Z * Port := let '(z, p) := r in (if negb (z =? 0) then 1 else 0, p).

Lemma as_one_refused m ms p :
  as_one (until_refused (send user) (m :: ms) p) =
  (let '(r, p) := send user m p in if negb (r =? 0) then (1, p) else as_one (until_refused (send user) ms p)).
Proof. cbn. destruct (negb (user (sent p) m =? 0)) eqn:E; [by cbn; rewrite E|done]. Qed.

Lemma process_regular_spec event previous flags values i n p :
  ev_counters event = take i (ev_counters event) ++ values ++ drop (i + length values) (ev_counters event) ->
  (i <= length (ev_counters event))%nat -> (i + length values = n)%nat -> (n <= length flags)%nat ->
  process_regular user stream_id event previous flags i values p =
  Some (as_one (until_refused (send user)
    (map (fun i => perf_counter stream_id (of_int (counted event previous i)) (timestamp event)
                     (counter_id (cpu_id event) i))
       (List.filter (fun i => negb (nth i flags true)) (seq i (length values)))) p)).
Proof.
  revert i p. induction values as [|v values IH]; intros i p Hv Hi Hn Hf; [done|].
  cbn [process_regular length seq List.filter]. cbn [length] in *.
  destruct (lookup_lt_is_Some_2 flags i) as [b Hb]; [lia|]. rewrite Hb. cbn [mbind option_bind].
  rewrite (nth_lookup_Some _ _ _ _ Hb).
  assert (nth i (ev_counters event) 0 = v) as Hnth.
  { rewrite Hv. rewrite app_nth2; rewrite length_take; [|lia].
    replace (i - i `min` length (ev_counters event))%nat with 0%nat by lia. done. }
  assert (forall p, process_regular user stream_id event previous flags (S i) values p =
    Some (as_one (until_refused (send user)
      (map (fun i => perf_counter stream_id (of_int (counted event previous i)) (timestamp event)
                       (counter_id (cpu_id event) i))
         (List.filter (fun i => negb (nth i flags true)) (seq (S i) (length values)))) p))) as IH'.
  { intros p'. apply IH; [|..|lia|lia].
    - assert ((i < length (ev_counters event))%nat) as Hlt.
      { apply (f_equal length) in Hv. rewrite !length_app in Hv. cbn [length] in Hv.
        rewrite length_take, length_drop in Hv. lia. }
      assert (ev_counters event !! i = Some v) as Hl.
      { rewrite Hv, lookup_app_r by (rewrite length_take; lia). rewrite length_take.
        by replace (i - i `min` length (ev_counters event))%nat with 0%nat by lia. }
      rewrite (take_S_r _ _ _ Hl), <-app_assoc. cbn.
      by replace (S (i + length values)) with (i + S (length values))%nat by lia.
    - apply (f_equal length) in Hv. rewrite !length_app in Hv. cbn [length] in Hv.
      rewrite length_take, length_drop in Hv. lia. }
  destruct b; cbn [negb]; [apply IH'|]. cbn [map]. rewrite as_one_refused. unfold counted at 1. rewrite Hnth.
  cbn [send]. destruct (negb _); [done|apply IH'].
Qed.

Lemma derived_difference_spec event previous idx :
  (idx < length (ev_counters event))%nat ->
  derived_difference event previous idx = Some (counted event previous idx).
Proof.
  intros Hi. unfold derived_difference, counted. destruct (previous !! _); [|done].
  destruct (lookup_lt_is_Some_2 (ev_counters event) idx Hi) as [v Hv]. rewrite Hv. cbn.
  by rewrite (nth_lookup_Some _ _ _ _ Hv).
Qed.

Lemma process_derived_spec event n idx derived previous p :
  Forall (fun '(_, Ipc cycles instructions) =>
    (cycles < length (ev_counters event))%nat /\ (instructions < length (ev_counters event))%nat) derived ->
  process_derived_counters user stream_id event n idx derived previous p =
  Some (as_one (until_refused (send user)
    (map (fun '(idx, (_, derived)) =>
        perf_counter stream_id (ipc_of event previous derived) (timestamp event)
          (counter_id (cpu_id event) (n + idx)))
       (zip (seq idx (length derived)) derived)) p)).
Proof.
  intros Hd. revert idx p. induction Hd as [|[name [cy ins]] derived [Hc Hi] _ IH]; intros idx p; [done|].
  cbn [process_derived_counters]. rewrite !derived_difference_spec by done. cbn [mbind option_bind].
  cbn [length seq zip zip_with map]. rewrite as_one_refused. cbn [send ipc_of].
  destruct (negb _); [done|apply IH].
Qed.

(** The values of an event, entered for the next. *)
Definition entered (c : Captured) (event : PerfCounterEvent) (previous : gmap (Z * nat) Z) : gmap (Z * nat) Z :=
  insert_values (cpu_id event) 0 (take (counters_len c) (ev_counters event)) previous.

Lemma insert_values_lookup cpu i values previous cpu' j :
  insert_values cpu i values previous !! (cpu', j) =
  if decide (cpu' = cpu /\ (i <= j < i + length values)%nat) then values !! (j - i)%nat
  else previous !! (cpu', j).
Proof.
  revert i previous. induction values as [|v values IH]; intros i previous; cbn [insert_values length].
  { rewrite decide_False by lia. done. }
  rewrite IH. destruct (decide (cpu' = cpu /\ (S i <= j < S i + length values)%nat)) as [[-> H]|H].
  - rewrite decide_True by (split; [done|lia]). by replace (j - i)%nat with (S (j - S i)) by lia.
  - destruct (decide (cpu' = cpu /\ j = i)) as [[-> ->]|Hne].
    + rewrite lookup_insert_eq, decide_True by (split; [done|lia]). by rewrite Nat.sub_diag.
    + rewrite lookup_insert_ne by (intros [= -> ->]; by apply Hne). rewrite decide_False; [done|]. intros [-> Hj].
      destruct (decide (j = i)); [naive_solver|]. apply H. split; [done|lia].
Qed.

Lemma handle_event_messages c event s :
  captured_ok c -> length (ev_counters event) = MAX_PERF_COUNTERS ->
  handle_event user stream_id c event s =
  Some (let '(r, p) := until_refused (send user) (event_messages c event (previous_values s)) (port s) in
        if negb (r =? 0) then (1, mkPerfCounter p (previous_values s))
        else (0, mkPerfCounter p (entered c event (previous_values s)))).
Proof.
  intros [Hn Hf _ Hd] He. unfold handle_event, process_regular_counters, update_previous_values, slice_to.
  rewrite He. destruct (Nat.leb_spec (counters_len c) MAX_PERF_COUNTERS); [|lia]. cbn [mbind option_bind].
  assert (length (take (counters_len c) (ev_counters event)) = counters_len c) as Hl
    by (rewrite length_take; lia).
  rewrite (process_regular_spec _ _ _ _ _ (counters_len c)) by
    (rewrite ?Hl, ?take_drop, ?Hf; cbn; rewrite ?take_drop; done || lia).
  rewrite Hl. cbn [mbind option_bind]. unfold event_messages. rewrite until_refused_app.
  fold (shown_counters c). set (m1 := map _ (shown_counters c)). set (m2 := map _ (zip _ _)).
  destruct (until_refused (send user) m1 (port s)) as [r1 p1]. cbn [as_one].
  destruct (negb (r1 =? 0)) eqn:E1; cbn [negb]; [by rewrite E1|].
  rewrite process_derived_spec by (eapply Forall_impl; [exact Hd|]; intros [? []]; rewrite He; lia).
  fold m2. destruct (until_refused (send user) m2 p1) as [r2 p2]. cbn.
  by destruct (negb (r2 =? 0)).
Qed.

(** ** Tracks *)

(** The counters of a processor that have a track. *)
Definition tracked (c : Captured) : list nat :=
  shown_counters c ++ seq (counters_len c) (length (derived_info c)).

Definition perf_ok (nprocs : nat) (c : Captured) (s : PerfCounter) : Prop :=
  in_order (sent (port s)) /\
  forall cpu i, 0 <= cpu < Z.of_nat nprocs -> i ∈ tracked c ->
    TrackId.Counter (counter_id cpu i) ∈ described (sent (port s)).

Lemma event_messages_tracked c event previous m t :
  m ∈ event_messages c event previous -> t ∈ refers m ->
  exists i, i ∈ tracked c /\ t = TrackId.Counter (counter_id (cpu_id event) i).
Proof.
  intros Hm Ht. unfold event_messages in Hm. unfold tracked.
  apply elem_of_app in Hm as [Hm|Hm]; apply list_elem_of_In, in_map_iff in Hm.
  - destruct Hm as (i & <- & Hi). cbn in Ht. apply elem_of_cons in Ht as [->|Ht]; [|by apply elem_of_nil in Ht].
    exists i. split; [|done]. apply elem_of_app. left. by apply list_elem_of_In.
  - destruct Hm as ([idx [name derived]] & <- & Hi). cbn in Ht.
    apply elem_of_cons in Ht as [->|Ht]; [|by apply elem_of_nil in Ht].
    exists (counters_len c + idx)%nat. split; [|done]. apply elem_of_app. right.
    apply in_combine_l, in_seq in Hi. apply elem_of_seq. lia.
Qed.

(** Every processor the kernel reports has tracks. *)
Lemma perf_event_ok nprocs c event s z s' :
  captured_ok c -> length (ev_counters event) = MAX_PERF_COUNTERS -> 0 <= cpu_id event < Z.of_nat nprocs ->
  handle_event user stream_id c event s = Some (z, s') -> perf_ok nprocs c s ->
  perf_ok nprocs c s' /\ sent (port s) `prefix_of` sent (port s').
Proof.
  intros Hc He Hcpu Hs [Ho Hd].
  assert (exists ms1 ms2, event_messages c event (previous_values s) = ms1 ++ ms2 /\
    sent (port s') = sent (port s) ++ ms1) as (ms1 & ms2 & Em & Es).
  { rewrite handle_event_messages in Hs by done.
    pose proof (send_all_spec user (event_messages c event (previous_values s)) (port s)) as H.
    destruct (until_refused _ _ _) as [r p]. destruct H as (ms1 & ms2 & H1 & H2 & _). exists ms1, ms2.
    split; [done|]. destruct (negb (r =? 0)); by injection Hs as _ <-. }
  split; [|rewrite Es; by apply prefix_app_r]. split; rewrite Es.
  - apply in_order_app; [done|]. intros m t Hm Ht.
    destruct (event_messages_tracked c event (previous_values s) m t) as (i & Hi & ->); [|done|by apply Hd].
    rewrite Em. apply elem_of_app. by left.
  - intros cpu i Hp Hi. rewrite described_app. apply elem_of_app. left. by apply Hd.
Qed.

End Events.

(** ** The tracks *)

Section New.

Variable user : list Message -> Message -> Z.
Variable stream_id : Z.
Variable sys : PerfNumbers.
Variable os : PerfSystem.

Lemma shown_spec i l flags regular :
  shown i l flags = Some regular -> (i + length l <= length flags)%nat ->
  map fst regular = List.filter (fun i => negb (nth i flags true)) (seq i (length l)).
Proof.
  revert i regular. induction l as [|counter l IH]; intros i regular H Hf; cbn in *; [by injection H as <-|].
  destruct (flags !! i) as [b|] eqn:Eb; [|done]. cbn in H.
  destruct (shown (S i) l flags) as [rest|] eqn:Er; [|done]. cbn in H. injection H as <-.
  rewrite (nth_lookup_Some _ _ _ _ Eb). specialize (IH (S i) rest Er ltac:(lia)).
  destruct b; cbn [negb]; [done|]. cbn. by rewrite IH.
Qed.

Lemma shown_some i l flags : (i + length l <= length flags)%nat -> is_Some (shown i l flags).
Proof.
  revert i. induction l as [|counter l IH]; intros i Hf; cbn in *; [by eexists|].
  destruct (lookup_lt_is_Some_2 flags i) as [b ->]; [lia|]. cbn.
  destruct (IH (S i)) as [rest ->]; [lia|]. by eexists.
Qed.

Lemma described_map {A} (f : A -> Message) (g : A -> TrackId) l :
  (forall a, describes (f a) = [g a]) -> described (map f l) = map g l.
Proof.
  intros H. unfold described. induction l as [|a l IH]; [done|]. cbn [map concat]. by rewrite H, IH.
Qed.

(** The identifiers of the counters of a processor. *)
Definition cpu_ids (c : Captured) (cpu : nat) : list TrackId :=
  map (fun i => TrackId.Counter (counter_id (Z.of_nat cpu) i)) (tracked c).

Lemma cpu_tracks_described config c regular nprocs cpu :
  length (counters config) = counters_len c -> map fst regular = shown_counters c ->
  described (cpu_tracks stream_id config (derived_info c) regular nprocs cpu) = cpu_ids c cpu /\
  forall m, m ∈ cpu_tracks stream_id config (derived_info c) regular nprocs cpu -> refers m = [].
Proof.
  intros Hl Hr. unfold cpu_tracks, cpu_ids, tracked. rewrite <-Hr, Hl. split.
  - rewrite described_app, map_app. f_equal.
    + rewrite (described_map _ (fun e => TrackId.Counter (counter_id (Z.of_nat cpu) e.1))) by by intros [].
      by rewrite map_map.
    + rewrite (described_map _ (fun e => TrackId.Counter (counter_id (Z.of_nat cpu) (counters_len c + e.1))))
        by by intros [? []].
      rewrite <-(map_map (fun e => (counters_len c + e.1)%nat)
        (fun i => TrackId.Counter (counter_id (Z.of_nat cpu) i)) (zip _ _)). f_equal.
      rewrite <-(map_map fst (Nat.add (counters_len c))).
      change (map fst ?l) with (l.*1). rewrite fst_zip by by rewrite length_seq.
      change (map ?f ?l) with (f <$> l). by rewrite fmap_add_seq, Nat.add_0_r.
  - intros m [Hm|Hm]%elem_of_app; apply list_elem_of_In, in_map_iff in Hm as ([i n] & <- & _); [done|].
    by destruct n.
Qed.

Lemma counter_id_sum cpu i :
  0 <= cpu < 2 ^ 32 -> (Z.of_nat i < 2 ^ 32) -> counter_id cpu i = cpu * 2 ^ 32 + Z.of_nat i.
Proof.
  intros Hc Hi. unfold counter_id. rewrite Z.shiftl_mul_pow2 by lia. rewrite wrap_small by lia.
  assert (Z.land (cpu * 2 ^ 32) (Z.of_nat i) = 0) as H0; [|by rewrite Z.add_nocarry_lxor, Z.lxor_lor].
  rewrite <-Z.shiftl_mul_pow2 by lia. apply Z.bits_inj'. intros n Hn.
  rewrite Z.land_spec, Z.bits_0. destruct (Z.ltb_spec n 32).
  - by rewrite Z.shiftl_spec_low.
  - destruct (Z.eq_dec (Z.of_nat i) 0) as [->|]; [by rewrite Z.bits_0, andb_false_r|].
    rewrite (Z.bits_above_log2 (Z.of_nat i)), andb_false_r; [done|lia|].
    apply Z.log2_lt_pow2; [lia|]. apply Z.lt_le_trans with (2 ^ 32); [done|]. apply Z.pow_le_mono_r; lia.
Qed.

Lemma tracked_bound c i : captured_ok c -> i ∈ tracked c -> (i < 12)%nat.
Proof.
  intros [Hn _ Hr _] Hi. unfold MAX_PERF_COUNTERS in Hn. unfold tracked, shown_counters in Hi.
  apply elem_of_app in Hi as [Hi|Hi].
  - apply list_elem_of_In, filter_In in Hi as [Hi%in_seq _]. lia.
  - apply elem_of_seq in Hi. lia.
Qed.

Lemma tracked_nodup c : NoDup (tracked c).
Proof.
  unfold tracked, shown_counters. apply NoDup_app. split_and!.
  - apply NoDup_ListNoDup, List.NoDup_filter, NoDup_ListNoDup, NoDup_seq.
  - intros i Hi Hi2. apply list_elem_of_In, filter_In in Hi as [Hi%in_seq _]. apply elem_of_seq in Hi2. lia.
  - apply NoDup_seq.
Qed.

Lemma cpu_ids_nodup c nprocs :
  captured_ok c -> Z.of_nat nprocs <= 2 ^ 32 -> NoDup (concat (map (cpu_ids c) (seq 0 nprocs))).
Proof.
  intros Hc Hn. apply NoDup_concat_map; [apply NoDup_seq| |].
  - intros cpu Hcpu%elem_of_seq. apply NoDup_map_inj; [|apply tracked_nodup].
    intros i j Hi Hj [= E]. pose proof (tracked_bound c i Hc Hi). pose proof (tracked_bound c j Hc Hj).
    rewrite !counter_id_sum in E by lia. lia.
  - intros cpu cpu' t H1%elem_of_seq H2%elem_of_seq Ht1 Ht2.
    unfold cpu_ids in Ht1, Ht2.
    apply list_elem_of_In, in_map_iff in Ht1 as (i & <- & Hi).
    apply list_elem_of_In, in_map_iff in Ht2 as (j & [= E] & Hj).
    pose proof (tracked_bound c i Hc ltac:(by apply list_elem_of_In)).
    pose proof (tracked_bound c j Hc ltac:(by apply list_elem_of_In)).
    rewrite !counter_id_sum in E by lia. lia.
Qed.

Lemma new_spec nprocs config p0 kernel c s :
  new user stream_id sys os (Ok nprocs) config p0 = Some (Ok (kernel, c, s)) -> in_order (sent p0) ->
  captured_ok c /\ previous_values s = ∅ /\ perf_ok nprocs c s /\
  exists tracks, sent (port s) = sent p0 ++ tracks /\ described tracks = concat (map (cpu_ids c) (seq 0 nprocs)).
Proof.
  intros H Hp0. unfold new in H. destruct (validate sys config) as [[[config' derived] flags]|] eqn:Ev; [|done].
  apply validate_ok in Ev as [Hc _]. set (c0 := mkCaptured _ derived flags) in *.
  destruct (perf_event_per_cpu _ _ _ _ _); [|done]. destruct (open_counters _ _ _ _ _ _); [|done].
  destruct (shown 0 (counters config') flags) as [regular|] eqn:Es; [|done]. cbn [mbind option_bind] in H.
  set (ms := concat _) in *. pose proof (send_all_spec user ms p0) as Hsend.
  destruct (until_refused (send user) ms p0) as [r p]. destruct Hsend as (ms1 & ms2 & Hms & Hp & Hr).
  destruct (Z.eqb_spec r 0) as [Er|]; [|done]. cbn [negb] in H. injection H as _ <- <-. cbn [port previous_values].
  rewrite (Hr Er), app_nil_r in Hms. subst ms1.
  apply shown_spec in Es; [|destruct Hc as [_ Hf _ _]; cbn in *; lia].
  assert (map fst regular = shown_counters c0) as Hreg by done.
  assert (described ms = concat (map (cpu_ids c0) (seq 0 nprocs))) as Hd.
  { unfold ms. generalize (seq 0 nprocs) as l.
    intros l. induction l as [|cpu l IH]; [done|]. cbn [map concat]. rewrite described_app, IH. f_equal.
    by destruct (cpu_tracks_described config' c0 regular (Z.of_nat nprocs) cpu eq_refl Hreg). }
  split_and!; [done|done| |by exists ms].
  split; cbn [port]; rewrite Hp.
  - apply in_order_app; [done|]. intros m t Hm Ht.
    apply list_elem_of_In, in_concat in Hm as (l & (cpu & <- & _)%in_map_iff & Hm).
    destruct (cpu_tracks_described config' c0 regular (Z.of_nat nprocs) cpu eq_refl Hreg) as [_ H0].
    rewrite (H0 m) in Ht by by apply list_elem_of_In. by apply elem_of_nil in Ht.
  - intros cpu i Hcpu Hi. rewrite described_app. apply elem_of_app. right.
    rewrite Hd. apply list_elem_of_In, in_concat.
    exists (cpu_ids c0 (Z.to_nat cpu)). split; [apply in_map, in_seq; lia|].
    apply in_map_iff. exists i. rewrite Z2Nat.id by lia. split; [done|by apply list_elem_of_In].
Qed.

(** The collector announces every counter of every processor once, under an
    identifier of its own. *)
Lemma perf_tracks_announced nprocs config p0 kernel c s :
  new user stream_id sys os (Ok nprocs) config p0 = Some (Ok (kernel, c, s)) ->
  in_order (sent p0) -> Z.of_nat nprocs <= 2 ^ 32 ->
  captured_ok c /\ previous_values s = ∅ /\ perf_ok nprocs c s /\
  exists tracks, sent (port s) = sent p0 ++ tracks /\
    described tracks = concat (map (cpu_ids c) (seq 0 nprocs)) /\ NoDup (described tracks).
Proof.
  intros H Hp0 Hn. destruct (new_spec _ _ _ _ _ _ H Hp0) as (Hc & Hprev & Hok & tracks & Hs & Hd).
  split_and!; [done|done|done|]. exists tracks. split_and!; [done|done|]. rewrite Hd. by apply cpu_ids_nodup.
Qed.

End New.

(** ** Accepted configurations *)

(** What the handler of [new] has captured, for a configuration that is accepted. *)
Definition captured_of (validated : PerfCounterConfig * list (string * DerivedCounter) * list bool) : Captured :=
  let '(config, derived, flags) := validated in mkCaptured (length (counters config)) derived flags.

Lemma words_length n at_ data : length (words n at_ data) = n.
Proof. unfold words. by rewrite length_map, length_seq. Qed.

(** C31. With a configuration that was accepted the handler of a record never panics,
    and it has two outcomes. The callback accepts everything: the differences of the
    counters that are shown since the last event of the processor, and the ratios,
    are sent, and the counters of exactly this processor become the new previous
    values. Or the callback refuses a message: nothing after it is sent, and the
    previous values stay, so the next event counts the difference again. *)
Theorem perf_event_reported user stream_id sys config validated data s :
  validate sys config = Ok validated -> (80 <= length data)%nat ->
  let c := captured_of validated in
  let event := parse_event data in
  exists r s', handle_record user stream_id c data s = Some (r, s') /\
  ((r = 0 /\ sent (port s') = sent (port s) ++ event_messages stream_id c event (previous_values s) /\
    forall cpu j, previous_values s' !! (cpu, j) =
      if decide (cpu = cpu_id event /\ (j < counters_len c)%nat) then ev_counters event !! j
      else previous_values s !! (cpu, j)) \/
   (r = 1 /\ previous_values s' = previous_values s /\
    exists ms1 ms2, event_messages stream_id c event (previous_values s) = ms1 ++ ms2 /\
      sent (port s') = sent (port s) ++ ms1)).
Proof.
  intros Hv Hlen. cbn zeta. destruct validated as [[config' derived] flags].
  apply validate_ok in Hv as [Hc _]. cbn [captured_of]. set (c := mkCaptured _ derived flags) in *.
  unfold handle_record, parse_plain. destruct (Nat.ltb_spec (length data) 80); [lia|].
  set (event := parse_event data).
  assert (length (ev_counters event) = MAX_PERF_COUNTERS) as He by apply words_length.
  rewrite handle_event_messages by done.
  pose proof (send_all_spec user (event_messages stream_id c event (previous_values s)) (port s)) as H0.
  destruct (until_refused _ _ _) as [r p]. destruct H0 as (ms1 & ms2 & Hm & Hp & Hr).
  destruct (Z.eqb_spec r 0) as [E|E]; cbn [negb]; (do 2 eexists; split; [done|]).
  - left. rewrite (Hr E), app_nil_r in Hm. rewrite Hm. split_and!; [done|done|].
    intros cpu j. cbn [previous_values]. unfold entered. rewrite insert_values_lookup, length_take, He.
    destruct Hc as [Hn _ _ _]. rewrite Nat.min_l by lia.
    destruct (decide (cpu = cpu_id event /\ (j < counters_len c)%nat)) as [[-> Hj]|Hn'].
    + rewrite decide_True by (split; [done|lia]). by rewrite Nat.sub_0_r, lookup_take_lt.
    + rewrite decide_False; [done|]. intros [-> Hj]. apply Hn'. split; [done|lia].
  - right. split_and!; [done|done|]. by exists ms1, ms2.
Qed.

(** ** A reading that fails *)

(** The kernel program stores zero for a counter it could not read, and the next
    reading counts everything since the start once more: a counter that goes from
    100 to 150 is reported with a total of 150 instead of 50. *)
Lemma failed_reading_counted_twice :
  let row := [100; 0; 150] in
  let reported := zip_with (fun previous value => counter_difference previous value)
                    (None :: map Some row) row in
  reported = [0; 0; 150] /\ foldr Z.add 0 reported = 150.
Proof. done. Qed.

(** ** An example *)

Definition demo_numbers : PerfNumbers :=
  mkPerfNumbers 0 1 0 1 2 3 4 5 7 8 0 1 2 3 4 5 6.

Definition demo_config : PerfCounterConfig :=
  mkPerfCounterConfig 9 [Named "page-faults"; Named "ipc"; Custom "stalls" 4 163] default_ringbuf_size.

(** An event of processor 1, with a word for each of its counters. *)
Definition demo_event (time : Z) (values : list Z) : list Z :=
  le_bytes 8 time ++ [1; 0; 0; 0; 0; 0; 0; 0] ++ concat (map (le_bytes 8) values).

(** The first event of the processor, and one after 40 faults and 300 cycles. *)
Lemma perf_event_reported_witness :
  exists validated s1 s2,
    validate demo_numbers demo_config = Ok validated /\
    handle_record (fun _ _ => 0) 5 (captured_of validated) (demo_event 10 [2; 100; 50; 0; 0; 0; 0; 0])
      (mkPerfCounter no_port ∅) = Some (0, s1) /\
    handle_record (fun _ _ => 0) 5 (captured_of validated) (demo_event 20 [42; 400; 200; 7; 0; 0; 0; 0]) s1 =
      Some (0, s2) /\
    map (fun r => r.1.1.2) (readings (sent (port s2))) =
      map to_bits [of_int 0; of_int 0; of_int 0; of_int 40; of_int 7; ratio 150 300].
Proof.
  set (v := match validate demo_numbers demo_config with Ok v => v | Err _ => (demo_config, [], []) end).
  assert (Hv : validate demo_numbers demo_config = Ok v) by reflexivity.
  destruct (perf_event_reported (fun _ _ => 0) 5 demo_numbers demo_config v
    (demo_event 10 [2; 100; 50; 0; 0; 0; 0; 0]) (mkPerfCounter no_port ∅) Hv ltac:(cbn; lia))
    as (r1 & s1 & H1 & Hs1).
  assert (r1 = 0) as -> by (revert H1; vm_compute; congruence).
  destruct Hs1 as [(_ & M1 & P1)|(Hr & _)]; [|done].
  destruct (perf_event_reported (fun _ _ => 0) 5 demo_numbers demo_config v
    (demo_event 20 [42; 400; 200; 7; 0; 0; 0; 0]) s1 Hv ltac:(cbn; lia)) as (r2 & s2 & H2 & Hs2).
  exists v, s1, s2. split; [done|]. split; [done|].
  assert (s1 = match handle_record (fun _ _ => 0) 5 (captured_of v) (demo_event 10 [2; 100; 50; 0; 0; 0; 0; 0])
    (mkPerfCounter no_port ∅) with Some (_, s) => s | None => mkPerfCounter no_port ∅ end) as E1 by by rewrite H1.
  assert (r2 = 0) as -> by (revert H2; rewrite E1; vm_compute; congruence).
  split; [done|]. destruct Hs2 as [(_ & M2 & _)|(Hr & _)]; [|done]. rewrite M2, E1. vm_compute. reflexivity.
Defined.
