(* ===== verification/PerfKernel.v ===== *)
(** * The kernel program of the performance counters

    The timer program of src/bpf/src/bpf/perfcounter.bpf.c on the counters that
    [PerfCounter] has opened, and what the collector reports of them. *)

From S2P Require Import Prelude Protocol Text Float BpfConfig BpfEvents KernelRecords PerfCounter PerfProps.
Open Scope Z_scope.

(** ** The program *)

(** The map of opened counters, by index, and the ring. *)
Record Kernel := mkKernel {
  perf_counters : gmap Z Z;
  events : list (list Z)
}.

(** A timer goes off on a processor: the time, what each opened counter has counted
    (nothing if it cannot be read), and for the record of the ring, whether there is
    room and what its padding holds. *)
Record Tick := mkTick {
  processor : Z;
  now : Z;
  count : Z -> option Z;
  room : bool;
  hole : Z
}.

Definition bpf_perf_event_read_value (k : Kernel) (t : Tick) (idx : Z) : option Z :=
  fd ← perf_counters k !! idx; count t fd.

(** The 80 bytes of a [struct perf_counter_event]. *)
Definition event_record (timestamp cpu_id padding : Z) (counters : list Z) : layout :=
  [(8%nat, timestamp); (4%nat, cpu_id); (4%nat, padding)] ++ words_record counters ++ [].

(** The product is of 32 bits, and the index is signed. *)
Definition counter_index (cpu : Z) (counter_count : nat) (i : nat) : Z :=
  as_signed 32 (wrap 32 (cpu * Z.of_nat counter_count + Z.of_nat i)).

Definition read_counters (counter_count : nat) (t : Tick) (k : Kernel) : list Z :=
  let counter_count := if Nat.ltb MAX_PERF_COUNTERS counter_count then MAX_PERF_COUNTERS else counter_count in
  map (fun i =>
    if Nat.ltb i counter_count
    then default 0 (bpf_perf_event_read_value k t (counter_index (processor t) counter_count i))
    else 0) (seq 0 MAX_PERF_COUNTERS).

Definition perfcounter_timer (counter_count : nat) (t : Tick) (k : Kernel) : Kernel :=
  mkKernel (perf_counters k)
    (ringbuf_submit (room t)
       (encode (event_record (now t) (processor t) (hole t) (read_counters counter_count t k))) (events k)).

Definition perfcounter_timers (counter_count : nat) (ts : list Tick) (k : Kernel) : Kernel :=
  foldl (fun k t => perfcounter_timer counter_count t k) k ts.

(** The maps when the collector has entered its counters. *)
Definition kernel_init (config : KernelConfig) : Kernel :=
  mkKernel (foldl (fun m '(idx, fd) => <[idx := fd]> m) ∅ (perf_counters_map config)) [].

(** ** The counters that are opened *)

Section Opened.

Variable sys : PerfNumbers.
Variable os : PerfSystem.

(** The file of a counter on a processor. *)
Definition counter_file (counter : CounterConfig) (cpu : nat) (fd : Z) : Prop :=
  exists name type_ config, to_perf_config sys counter = Ok (name, type_, config) /\
    perf_event_open os type_ (wrap 32 config) None (Z.of_nat cpu) = Ok fd.

Lemma collect_lookup {E A} (l : list (result E A)) l' i a :
  collect l = Ok l' -> l' !! i = Some a -> l !! i = Some (Ok a).
Proof.
  revert l' i. induction l as [|[x|e] l IH]; intros l' i H Ha; cbn in H; [by injection H as <-| |done].
  destruct (collect l) as [l2|]; [|done]. injection H as <-. destruct i as [|i]; cbn in Ha |- *; [congruence|].
  by apply (IH l2).
Qed.

Lemma collect_length {E A} (l : list (result E A)) l' : collect l = Ok l' -> length l' = length l.
Proof.
  revert l'. induction l as [|[x|e] l IH]; intros l' H; cbn in H; [by injection H as <-| |done].
  destruct (collect l) as [l2|]; [|done]. injection H as <-. cbn. by rewrite (IH l2).
Qed.

(** The entry of the [i]th counter on a processor. *)
Definition entry_ok (n j : nat) (l : list CounterConfig) (nprocs : nat) (e : Z * Z) : Prop :=
  exists i counter cpu, l !! i = Some counter /\ (cpu < nprocs)%nat /\
    e.1 = counter_index (Z.of_nat cpu) n (j + i) /\ counter_file counter cpu e.2.

Lemma open_counter_ok n j name type_ config cpu e :
  open_counter os n j name type_ config cpu = Ok e ->
  e.1 = counter_index (Z.of_nat cpu) n j /\ perf_event_open os type_ (wrap 32 config) None (Z.of_nat cpu) = Ok e.2.
Proof.
  unfold open_counter, counter_index. destruct (perf_event_open _ _ _ _ _) as [fd|]; [|done].
  destruct (update_counter_map _ _ _); [|done]. destruct (ioctl _ _ _); [|done]. intros [= <-]. split; [|done].
  cbn [fst]. do 2 f_equal. lia.
Qed.

(** Every counter is opened on every processor, and nothing else is. *)
Lemma open_counters_ok nprocs n j l entries :
  open_counters sys os nprocs n j l = Ok entries ->
  Forall (entry_ok n j l nprocs) entries /\
  forall i counter cpu, l !! i = Some counter -> (cpu < nprocs)%nat ->
    exists fd, counter_file counter cpu fd /\ (counter_index (Z.of_nat cpu) n (j + i), fd) ∈ entries.
Proof.
  revert j entries. induction l as [|counter l IH]; intros j entries H; [by injection H as <-|].
  cbn [open_counters] in H. destruct (to_perf_config sys counter) as [[[name type_] config]|] eqn:Ec; [|done].
  destruct (collect _) as [opened|] eqn:Eo; [|done].
  destruct (open_counters sys os nprocs n (S j) l) as [rest|] eqn:Er; [|done]. injection H as <-.
  specialize (IH (S j) rest Er) as [IH1 IH2]. pose proof (collect_length _ _ Eo) as Hlen.
  rewrite length_map, length_seq in Hlen.
  assert (forall cpu e, opened !! cpu = Some e -> e.1 = counter_index (Z.of_nat cpu) n j /\ counter_file counter cpu e.2) as Hn.
  { intros cpu e He. pose proof (lookup_lt_Some _ _ _ He). pose proof (collect_lookup _ _ _ _ Eo He) as H0.
    change (map ?f ?l) with (f <$> l) in H0. rewrite list_lookup_fmap, lookup_seq_lt in H0 by lia. injection H0 as H0.
    apply open_counter_ok in H0 as [H1 H2]. split; [done|]. by exists name, type_, config. }
  split.
  - apply Forall_app. split.
    + apply Forall_lookup. intros cpu e He. destruct (Hn cpu e He) as [H1 H2]. exists 0%nat, counter, cpu.
      split_and!; [done|apply lookup_lt_Some in He; lia|by rewrite Nat.add_0_r|done].
    + eapply Forall_impl; [exact IH1|]. intros e (i & c & cpu & Hi & Hc & Hx & Hf). exists (S i), c, cpu.
      split_and!; [done|done|by rewrite <-Nat.add_succ_comm|done].
  - intros [|i] c cpu Hi Hcpu.
    + injection Hi as <-. destruct (lookup_lt_is_Some_2 opened cpu ltac:(lia)) as [e He].
      destruct (Hn cpu e He) as [H1 H2]. exists e.2. split; [done|]. apply elem_of_app. left.
      rewrite Nat.add_0_r, <-H1. destruct e. by eapply list_elem_of_lookup_2.
    + destruct (IH2 i c cpu Hi Hcpu) as (fd & Hf & He). exists fd. split; [done|]. apply elem_of_app. right.
      by rewrite <-Nat.add_succ_comm.
Qed.

(** Different counters have different indexes. *)
Lemma counter_index_inj n nprocs cpu cpu' i i' :
  Z.of_nat nprocs * Z.of_nat n <= 2 ^ 31 -> (cpu < nprocs)%nat -> (cpu' < nprocs)%nat -> (i < n)%nat -> (i' < n)%nat ->
  counter_index (Z.of_nat cpu) n i = counter_index (Z.of_nat cpu') n i' -> cpu = cpu' /\ i = i'.
Proof.
  intros Hn Hc Hc' Hi Hi' E.
  assert (forall c k, (c < nprocs)%nat -> (k < n)%nat -> in_u 32 (Z.of_nat c * Z.of_nat n + Z.of_nat k)) as Hb.
  { intros c k H1 H2. unfold in_u. split; [lia|].
    assert (Z.of_nat c * Z.of_nat n + Z.of_nat k < Z.of_nat nprocs * Z.of_nat n) by nia. lia. }
  unfold counter_index in E. rewrite !wrap_small in E by (apply Hb; done).
  apply as_signed_inj in E; [|done|by apply Hb|by apply Hb].
  assert (cpu = cpu') as ->; [|lia]. destruct (Nat.lt_trichotomy cpu cpu') as [Hl|[->|Hl]]; [|done|]; exfalso; nia.
Qed.

Lemma foldl_insert_lookup (l : list (Z * Z)) (m : gmap Z Z) k v :
  (k, v) ∈ l -> (forall v', (k, v') ∈ l -> v' = v) -> foldl (fun m '(k, v) => <[k := v]> m) m l !! k = Some v.
Proof.
  revert m. induction l as [|[k' v'] l IH] using rev_ind; intros m Hin Hu; [by apply elem_of_nil in Hin|].
  rewrite foldl_app. cbn. destruct (decide (k' = k)) as [->|Hne].
  - rewrite lookup_insert_eq. f_equal. apply Hu, elem_of_app. right. by left.
  - rewrite lookup_insert_ne by done. apply IH.
    + apply elem_of_app in Hin as [?|[= E _]%list_elem_of_singleton]; [done|by rewrite E in Hne].
    + intros v2 Hv2. apply Hu, elem_of_app. by left.
Qed.

Lemma file_unique counter cpu fd fd' : counter_file counter cpu fd -> counter_file counter cpu fd' -> fd = fd'.
Proof. intros (n1 & t1 & c1 & E1 & H1) (n2 & t2 & c2 & E2 & H2). congruence. Qed.

(** The program reads a counter of its processor from the file that was opened for
    it. *)
Lemma counters_read nprocs n l entries t k :
  open_counters sys os nprocs n 0 l = Ok entries -> n = length l -> (n <= MAX_PERF_COUNTERS)%nat ->
  Z.of_nat nprocs * Z.of_nat n <= 2 ^ 31 ->
  perf_counters k = foldl (fun m '(idx, fd) => <[idx := fd]> m) ∅ entries ->
  forall cpu i counter, processor t = Z.of_nat cpu -> (cpu < nprocs)%nat -> l !! i = Some counter ->
  exists fd, counter_file counter cpu fd /\ read_counters n t k !! i = Some (default 0 (count t fd)).
Proof.
  intros Ho Hn Hm Hb Hk cpu i counter Ht Hcpu Hi. destruct (open_counters_ok _ _ _ _ _ Ho) as [Ha He].
  destruct (He i counter cpu Hi Hcpu) as (fd & Hf & Hin). exists fd. split; [done|].
  pose proof (lookup_lt_Some _ _ _ Hi) as Hlt. unfold read_counters. change (map ?f ?l) with (f <$> l).
  rewrite list_lookup_fmap, lookup_seq_lt by lia. cbn [fmap option_fmap option_map].
  destruct (Nat.ltb_spec MAX_PERF_COUNTERS n); [lia|]. cbn [Nat.add]. destruct (Nat.ltb_spec i n); [|lia]. do 2 f_equal.
  unfold bpf_perf_event_read_value. rewrite Hk, Ht. rewrite (foldl_insert_lookup entries ∅ _ fd); [done|exact Hin|].
  intros fd' Hin'. apply (proj1 (Forall_forall _ _) Ha) in Hin' as (i' & c' & cpu' & Hi' & Hcpu' & E & Hf'). cbn in E, Hf'.
  pose proof (lookup_lt_Some _ _ _ Hi') as Hlt'.
  apply (counter_index_inj n nprocs) in E as [-> ->]; [|lia|done|done|lia|lia]. rewrite Hi in Hi'. injection Hi' as <-.
  by apply (file_unique counter cpu').
Qed.

End Opened.

(** ** What is reported *)

(** The values sent on a track, by their bits. *)
Definition values_on (track : TrackId) (ms : list Message) : list Z :=
  concat (map (fun m =>
    match event_of m with
    | Event.Counter c => if decide (Counter.track_id c = track) then [Counter.value c] else []
    | _ => []
    end) ms).

(** A row of readings: each as the difference to the one before, the first as the
    difference to [previous]. *)
Fixpoint differences (previous : option Z) (row : list Z) : list Z :=
  match row with
  | [] => []
  | value :: row => counter_difference previous value :: differences (Some value) row
  end.

Lemma values_on_app track ms ms' : values_on track (ms ++ ms') = values_on track ms ++ values_on track ms'.
Proof. unfold values_on. by rewrite map_app, concat_app. Qed.

(** What counts up is reported in parts. *)
Lemma differences_sum v row :
  (forall i x y, (v :: row) !! i = Some x -> (v :: row) !! S i = Some y -> x <= y) ->
  sum_of (fun d => d) (differences (Some v) row) = default v (last row) - v.
Proof.
  revert v. induction row as [|x row IH]; intros v Hs; [cbn; lia|]. cbn [differences]. rewrite sum_of_cons.
  rewrite IH by (intros i a b Ha Hb; by apply (Hs (S i) a b)). cbn [counter_difference].
  specialize (Hs 0%nat v x eq_refl eq_refl). destruct (Z.leb_spec v x); [|lia].
  destruct row as [|y row]; [cbn; lia|]. cbn [last]. destruct (last (y :: row)) eqn:E; cbn; [lia|].
  by apply last_None in E.
Qed.

Section Reported.

Variable user : list Message -> Message -> Z.
Variable stream_id : Z.
Variable stops : Z -> option (result string unit).

Hypothesis accepts : forall ms m, user ms m = 0.
Hypothesis goes_on : stops 0 = None.

Lemma values_on_counters (f : nat -> f64) time cpu' cpu i l :
  0 <= cpu < 2 ^ 32 -> 0 <= cpu' < 2 ^ 32 -> Forall (fun j => (j < 12)%nat) (i :: l) -> NoDup l ->
  values_on (TrackId.Counter (counter_id cpu i)) (map (fun j => perf_counter stream_id (f j) time (counter_id cpu' j)) l) =
  if decide (cpu' = cpu /\ i ∈ l) then [to_bits (f i)] else [].
Proof.
  intros Hc Hc' [Hi Hl]%Forall_cons Hn. induction Hn as [|j l Hj Hn IH].
  { rewrite decide_False; [done|]. by intros [_ ?%elem_of_nil]. }
  apply Forall_cons in Hl as [Hj12 Hl]. specialize (IH Hl). change (j :: l) with ([j] ++ l). rewrite map_app, values_on_app, IH.
  unfold values_on. cbn [map concat event_of perf_counter Counter.track_id Counter.value]. rewrite app_nil_r.
  destruct (decide (TrackId.Counter (counter_id cpu' j) = TrackId.Counter (counter_id cpu i))) as [E|E].
  - injection E as E. rewrite !counter_id_sum in E by lia. assert (cpu' = cpu /\ j = i) as [-> ->] by lia.
    rewrite decide_False by (by intros [_ ?]). rewrite decide_True by (split; [done|by left]). done.
  - cbn [app]. destruct (decide (cpu' = cpu /\ i ∈ l)) as [[-> Hin]|Hin].
    + rewrite decide_True by (split; [done|by right]). done.
    + rewrite decide_False; [done|]. intros [-> [->|Hin']%elem_of_cons]; [done|]. by apply Hin.
Qed.

(** An event gives its processor's counter one value. *)
Lemma values_on_event c event previous cpu i :
  captured_ok c -> 0 <= cpu < 2 ^ 32 -> 0 <= cpu_id event < 2 ^ 32 -> i ∈ shown_counters c ->
  values_on (TrackId.Counter (counter_id cpu i)) (event_messages stream_id c event previous) =
  if decide (cpu_id event = cpu) then [to_bits (of_int (counted event previous i))] else [].
Proof.
  intros Hc Hp Hp' Hi. unfold event_messages. rewrite values_on_app.
  assert (Forall (fun j => (j < 12)%nat) (tracked c)) as Hb
    by (apply Forall_forall; intros j; by apply tracked_bound).
  unfold tracked in Hb. apply Forall_app in Hb as [Hb1 Hb2]. pose proof (tracked_nodup c) as Hn.
  unfold tracked in Hn. apply NoDup_app in Hn as (Hn1 & Hd & Hn2).
  rewrite (values_on_counters (fun i => of_int (counted event previous i))) by
    first [done|apply Forall_cons; split; [by apply (proj1 (Forall_forall _ _) Hb1)|done]].
  assert (values_on (TrackId.Counter (counter_id cpu i))
    (map (fun '(idx, (_, derived)) => perf_counter stream_id (ipc_of event previous derived) (timestamp event)
        (counter_id (cpu_id event) (counters_len c + idx))) (zip (seq 0 (length (derived_info c))) (derived_info c))) = [])
    as ->.
  { assert (forall l : list (nat * (string * DerivedCounter)), Forall (fun e => e.1 ∈ seq 0 (length (derived_info c))) l ->
      values_on (TrackId.Counter (counter_id cpu i))
        (map (fun '(idx, (_, derived)) => perf_counter stream_id (ipc_of event previous derived) (timestamp event)
          (counter_id (cpu_id event) (counters_len c + idx))) l) = []) as Hz.
    { intros l. induction 1 as [|[idx [nm d]] l Hx _ IH]; [done|]. cbn in Hx. unfold values_on in *.
      cbn [map concat event_of perf_counter Counter.track_id]. rewrite IH, app_nil_r. rewrite decide_False; [done|].
      intros [= E]. apply elem_of_seq in Hx.
      assert ((counters_len c + idx)%nat ∈ seq (counters_len c) (length (derived_info c))) as Hs by (apply elem_of_seq; lia).
      pose proof (proj1 (Forall_forall _ _) Hb2 _ Hs) as Hs12. pose proof (proj1 (Forall_forall _ _) Hb1 _ Hi) as Hi12. cbn beta in Hs12, Hi12.
      rewrite !counter_id_sum in E by lia. assert (i = counters_len c + idx)%nat as -> by lia. by apply (Hd _ Hi). }
    apply Hz, Forall_forall. intros [idx d] Hx%list_elem_of_In%in_combine_l. by apply list_elem_of_In. }
  rewrite app_nil_r. destruct (decide (cpu_id event = cpu)) as [E|E].
  - by rewrite decide_True.
  - rewrite decide_False; [done|]. by intros [? _].
Qed.

(** A record of the ring is read back as it was written. *)
Definition tick_typed (t : Tick) : Prop :=
  in_u 32 (processor t) /\ in_u 64 (now t) /\ in_u 32 (hole t) /\ forall fd n, count t fd = Some n -> in_u 64 n.

Definition tick_event (n : nat) (k : Kernel) (t : Tick) : PerfCounterEvent :=
  mkPerfCounterEvent (now t) (processor t) (hole t) (read_counters n t k).

Definition tick_record (n : nat) (k : Kernel) (t : Tick) : list Z :=
  encode (event_record (now t) (processor t) (hole t) (read_counters n t k)).

Lemma read_counters_typed n t k :
  tick_typed t -> Forall (in_u 64) (read_counters n t k) /\ length (read_counters n t k) = MAX_PERF_COUNTERS.
Proof.
  intros (_ & _ & _ & Hc). unfold read_counters. split; [|by rewrite length_map, length_seq].
  apply Forall_map, Forall_true. intros i. cbn beta. destruct (Nat.ltb i _); [|done].
  unfold bpf_perf_event_read_value. destruct (perf_counters k !! _) as [fd|]; [|done]. cbn.
  destruct (count t fd) as [m|] eqn:E; [by apply (Hc fd)|done].
Qed.

Lemma tick_record_read n k t :
  tick_typed t -> parse_plain 80 parse_event (tick_record n k t) "perf counter event" = Ok (tick_event n k t).
Proof.
  intros Ht. destruct (read_counters_typed n t k Ht) as [Hc Hl]. destruct Ht as (Hp & Hn & Hh & _).
  unfold tick_record. rewrite parse_plain_encode.
  2: { unfold event_record. rewrite !sizeof_app, sizeof_words, Hl. done. }
  f_equal. unfold parse_event, tick_event. set (l := read_counters n t k) in *.
  assert (fits (event_record (now t) (processor t) (hole t) l)) as Hf.
  { apply fits_app. split; [by repeat (apply Forall_cons; split)|]. rewrite app_nil_r. apply Forall_map.
    by eapply Forall_impl. }
  assert (words MAX_PERF_COUNTERS 16 (encode (event_record (now t) (processor t) (hole t) l)) = l) as ->
    by by apply words_encode.
  f_equal; read_field 0%nat.
Qed.

(** The ticks of a processor that reach the collector. *)
Definition received (cpu : Z) (t : Tick) : bool := room t && (processor t =? cpu).

Lemma deliver_ticks c k ts s :
  captured_ok c -> Forall tick_typed ts ->
  exists s', deliver stops (handle_record user stream_id c) (map (tick_record (counters_len c) k) (List.filter room ts))
      (Ok tt) s = Some (Ok tt, s') /\
    forall cpu i, 0 <= cpu < 2 ^ 32 -> i ∈ shown_counters c ->
      values_on (TrackId.Counter (counter_id cpu i)) (sent (port s')) =
      values_on (TrackId.Counter (counter_id cpu i)) (sent (port s)) ++
      map (fun d => to_bits (of_int d)) (differences (previous_values s !! (cpu, i))
        (map (fun t => nth i (read_counters (counters_len c) t k) 0) (List.filter (received cpu) ts))).
Proof.
  intros Hc Hts. revert s. induction Hts as [|t ts Ht _ IH]; intros s.
  { exists s. split; [done|]. intros. cbn. by rewrite app_nil_r. }
  cbn [List.filter]. unfold received at 1. destruct (room t) eqn:Er; cbn [andb]; [|apply IH].
  cbn [map deliver]. set (e := tick_event (counters_len c) k t).
  assert (handle_record user stream_id c (tick_record (counters_len c) k t) s = handle_event user stream_id c e s) as ->
    by (unfold handle_record; by rewrite tick_record_read).
  assert (length (ev_counters e) = MAX_PERF_COUNTERS) as Hl by by apply read_counters_typed.
  rewrite (handle_event_messages user stream_id c e s Hc Hl).
  rewrite until_refused_accepted by (intros; apply accepts). cbn [Z.eqb negb].
  set (p := foldl _ (port s) _).
  assert (sent p = sent (port s) ++ event_messages stream_id c e (previous_values s)) as Hp.
  { pose proof (send_all_spec user (event_messages stream_id c e (previous_values s)) (port s)) as H0.
    rewrite until_refused_accepted in H0 by (intros; apply accepts). destruct H0 as (m1 & m2 & Em & E & H0).
    rewrite (H0 eq_refl), app_nil_r in Em. rewrite <-Em in E. exact E. }
  clearbody p. cbn [mbind option_bind]. rewrite goes_on.
  destruct (IH (mkPerfCounter p (entered c e (previous_values s)))) as (s' & -> & Hv). exists s'. split; [done|].
  intros cpu i Hcpu Hi. rewrite Hv by done. cbn [port previous_values]. rewrite Hp, values_on_app.
  rewrite values_on_event by (done || apply Ht). change (cpu_id e) with (processor t).
  assert (Hin : (i < counters_len c)%nat).
  { unfold shown_counters in Hi. apply list_elem_of_In, filter_In in Hi as [Hi%in_seq _]. lia. }
  unfold entered. rewrite insert_values_lookup, length_take, Hl. change (cpu_id e) with (processor t).
  pose proof (co_len c Hc) as Hn. destruct (Z.eqb_spec (processor t) cpu) as [E|E].
  - rewrite decide_True by done. rewrite decide_True by (split; [done|lia]). cbn [map differences].
    rewrite Nat.sub_0_r, lookup_take_lt, <-app_assoc by done.
    assert (ev_counters e !! i = Some (nth i (ev_counters e) 0)) as ->.
    { destruct (lookup_lt_is_Some_2 (ev_counters e) i) as [x Hx]; [lia|]. by rewrite Hx, (nth_lookup_Some _ _ _ _ Hx). }
    unfold counted. change (cpu_id e) with (processor t). rewrite E. done.
  - rewrite decide_False by done. rewrite decide_False by (intros [? _]; congruence). by rewrite app_nil_r.
Qed.

End Reported.

(** ** From the counters to the trace *)

Section Counters.

Variable user : list Message -> Message -> Z.
Variable stream_id : Z.
Variable stops : Z -> option (result string unit).
Variable sys : PerfNumbers.
Variable os : PerfSystem.

Hypothesis accepts : forall ms m, user ms m = 0.
Hypothesis goes_on : stops 0 = None.

(** What [new] has opened. *)
Lemma new_opened nprocs config p0 kernel c s :
  new user stream_id sys os (Ok nprocs) config p0 = Some (Ok (kernel, c, s)) ->
  exists validated, validate sys config = Ok validated /\ c = captured_of validated /\
    open_counters sys os nprocs (counters_len c) 0 (counters validated.1.1) = Ok (perf_counters_map kernel) /\
    counter_count kernel = wrap 32 (Z.of_nat (counters_len c)) /\ previous_values s = ∅ /\ captured_ok c.
Proof.
  unfold new. intros H. destruct (validate sys config) as [[[config' derived] flags]|] eqn:Ev; [|done].
  exists (config', derived, flags). pose proof (validate_ok _ _ _ _ _ Ev) as [Hc _].
  destruct (perf_event_per_cpu _ _ _ _ _); [|done].
  destruct (open_counters _ _ _ _ _ _) as [entries|] eqn:Eo; [|done].
  destruct (shown 0 _ _); [|done]. cbn [mbind option_bind] in H. destruct (until_refused _ _ _) as [r p].
  destruct (negb _); [done|]. injection H as <- <- <-. done.
Qed.

Lemma timers_events n ts k :
  perf_counters (perfcounter_timers n ts k) = perf_counters k /\
  PerfKernel.events (perfcounter_timers n ts k) =
    PerfKernel.events k ++ map (tick_record n k) (List.filter room ts).
Proof.
  revert k. induction ts as [|t ts IH]; intros k; [by rewrite app_nil_r|].
  change (perfcounter_timers n (t :: ts) k) with (perfcounter_timers n ts (perfcounter_timer n t k)).
  destruct (IH (perfcounter_timer n t k)) as [-> ->]. split; [done|].
  assert (forall t', tick_record n (perfcounter_timer n t k) t' = tick_record n k t') as E by done.
  rewrite (map_ext _ _ E). cbn [perfcounter_timer PerfKernel.events List.filter]. unfold ringbuf_submit.
  destruct (room t); [|done]. by rewrite <-app_assoc.
Qed.

(** What a file has counted at the ticks of a processor that are received; a file that
    could not be read has counted nothing. *)
Definition readings_of (cpu : nat) (fd : Z) (ts : list Tick) : list Z :=
  map (fun t => default 0 (count t fd)) (List.filter (received (Z.of_nat cpu)) ts).

(** C34. From the counters of the processors to the trace.  The collector has opened
    its counters; timers go off on the processors, of which the ring has room for
    some, and the collector handles what is in the ring, with a callback that accepts
    everything.  Then it reads all of it, and the values on the track of a shown
    counter of a processor are the differences between successive readings of the
    file that was opened for just this counter on this processor, starting with zero;
    so whatever the ring had no room for, while the counter grows they add up to what
    it counted between the first reading that was received and the last. *)
Theorem perf_counts_reported nprocs config p0 kernel c s ts :
  new user stream_id sys os (Ok nprocs) config p0 = Some (Ok (kernel, c, s)) ->
  Z.of_nat nprocs * 8 <= 2 ^ 31 ->
  Forall (fun t => tick_typed t /\ processor t < Z.of_nat nprocs) ts ->
  let k := perfcounter_timers (Z.to_nat (counter_count kernel)) ts (kernel_init kernel) in
  exists validated s', validate sys config = Ok validated /\
    consume user stream_id stops c (PerfKernel.events k) (Ok tt) s = Some (Ok tt, s') /\
    forall cpu i, (cpu < nprocs)%nat -> i ∈ shown_counters c ->
      exists counter fd, counters validated.1.1 !! i = Some counter /\ counter_file sys os counter cpu fd /\
        let row := readings_of cpu fd ts in
        values_on (TrackId.Counter (counter_id (Z.of_nat cpu) i)) (sent (port s')) =
          values_on (TrackId.Counter (counter_id (Z.of_nat cpu) i)) (sent (port s)) ++
          map (fun d => to_bits (of_int d)) (differences None row) /\
        ((forall j x y, row !! j = Some x -> row !! S j = Some y -> x <= y) ->
         sum_of (fun d => d) (differences None row) = default 0 (last row) - default 0 (head row)).
Proof.
  intros Hnew Hcpus Hts k. destruct (new_opened _ _ _ _ _ _ Hnew) as (v & Hv & -> & Ho & Hn & Hprev & Hc).
  destruct v as [[config' derived] flags]. pose proof Hc as [Hlen _ _ _]. set (c := captured_of _) in *.
  assert (counters_len c = length (counters config')) as Hl by done. cbn [fst] in Ho. unfold MAX_PERF_COUNTERS in Hlen.
  assert (Forall tick_typed ts) as Ht by (eapply Forall_impl; [exact Hts|]; by intros t [? _]).
  assert (Z.to_nat (counter_count kernel) = counters_len c) as En by (rewrite Hn, wrap_small; lia).
  destruct (timers_events (Z.to_nat (counter_count kernel)) ts (kernel_init kernel)) as [_ Hev].
  destruct (deliver_ticks user stream_id stops accepts goes_on c (kernel_init kernel) ts s Hc Ht) as (s' & Hd & Hs').
  exists (config', derived, flags), s'. split; [done|]. split.
  { unfold consume, read_ring, k. rewrite Hev, En. cbn [kernel_init PerfKernel.events app]. by rewrite Hd. }
  intros cpu i Hcpu Hi.
  assert (i < counters_len c)%nat as Hin.
  { unfold shown_counters in Hi. apply list_elem_of_In, filter_In in Hi as [Hi%in_seq _]. lia. }
  destruct (lookup_lt_is_Some_2 (counters config') i) as [counter Hcounter]; [lia|].
  assert (Z.of_nat nprocs * Z.of_nat (counters_len c) <= 2 ^ 31) as Hb by nia.
  destruct (open_counters_ok _ _ _ _ _ _ _ Ho) as [_ He].
  destruct (He i counter cpu Hcounter Hcpu) as (fd & Hfd & _). exists counter, fd. split; [done|]. split; [done|].
  cbn zeta. split.
  - rewrite Hs' by (done || lia). f_equal. f_equal. rewrite Hprev, lookup_empty. f_equal. unfold readings_of.
    apply map_ext_in. intros t [_ Hr]%filter_In. unfold received in Hr. apply andb_true_iff in Hr as [_ Hr%Z.eqb_eq].
    destruct (counters_read sys os nprocs (counters_len c) (counters config') (perf_counters_map kernel) t
      (kernel_init kernel) Ho Hl ltac:(unfold MAX_PERF_COUNTERS; lia) Hb eq_refl cpu i counter Hr Hcpu Hcounter)
      as (fd' & Hfd' & Hread).
    rewrite (file_unique _ _ _ _ _ _ Hfd Hfd'). by apply nth_lookup_Some.
  - intros Hgrow. set (row := readings_of cpu fd ts) in *. destruct row as [|v row]; [done|].
    cbn [differences]. rewrite sum_of_cons, differences_sum by done. cbn [counter_difference head].
    destruct row as [|w row]; [cbn; lia|]. cbn [last]. destruct (last (w :: row)) eqn:E; cbn; [lia|].
    by apply last_None in E.
Qed.

End Counters.

(** Two processors; for the second of three ticks of processor 1 the ring has no
    room. *)
Definition demo_system : PerfSystem :=
  mkPerfSystem (fun type_ config _ cpu => Ok (100 * type_ + 10 * config + cpu)) (fun _ _ => Ok tt) (fun _ _ => Ok tt).

(** Page faults of processor 1, which file 121 counts. *)
Definition demo_count (n : Z) (fd : Z) : option Z := if fd =? 121 then Some n else None.

Definition demo_ticks : list Tick :=
  [mkTick 1 10 (demo_count 2) true 0; mkTick 0 11 (demo_count 9) true 7; mkTick 1 20 (demo_count 30) false 0;
   mkTick 1 30 (demo_count 42) true 0].

Lemma demo_ticks_ok : Forall (fun t => tick_typed t /\ processor t < Z.of_nat 2) demo_ticks.
Proof.
  assert (forall p n g r h, in_u 32 p -> p < 2 -> in_u 64 n -> in_u 32 h -> in_u 64 g ->
    tick_typed (mkTick p n (demo_count g) r h) /\ p < 2) as Ht.
  { intros p n g r h Hp Hp2 Hn Hh Hg. split; [|done]. split_and!; try done. intros fd m. cbn. unfold demo_count.
    destruct (fd =? 121); [|done]. by intros [= <-]. }
  repeat (apply Forall_cons; split); try apply Forall_nil_2; by apply Ht.
Qed.

Definition demo_collector : option (option (KernelConfig * Captured * PerfCounter)) :=
  r ← new (fun _ _ => 0) 5 demo_numbers demo_system (Ok 2%nat) demo_config no_port;
  Some match r with Ok r => Some r | Err _ => None end.

Lemma perf_counts_reported_witness :
  exists kernel c s s', demo_collector = Some (Some (kernel, c, s)) /\
    let k := perfcounter_timers (Z.to_nat (counter_count kernel)) demo_ticks (kernel_init kernel) in
    consume (fun _ _ => 0) 5 (fun _ => None) c (PerfKernel.events k) (Ok tt) s = Some (Ok tt, s') /\
    values_on (TrackId.Counter (counter_id 1 0)) (sent (port s')) = map (fun d => to_bits (of_int d)) [0; 40].
Proof.
  assert (exists kernel c s, demo_collector = Some (Some (kernel, c, s)) /\
    new (fun _ _ => 0) 5 demo_numbers demo_system (Ok 2%nat) demo_config no_port = Some (Ok (kernel, c, s)) /\
    0%nat ∈ shown_counters c /\ values_on (TrackId.Counter (counter_id 1 0)) (sent (port s)) = [])
    as (kernel & c & s & E & Hnew & Hi & Hb).
  { do 3 eexists. split; [by vm_compute|]. split; [by vm_compute|]. split; [left|by vm_compute]. }
  exists kernel, c, s.
  destruct (perf_counts_reported (fun _ _ => 0) 5 (fun _ => None) demo_numbers demo_system (fun _ _ => eq_refl) eq_refl
    2 demo_config no_port kernel c s demo_ticks Hnew ltac:(lia) demo_ticks_ok) as (v & s' & Hv & Hs' & Hvals).
  exists s'. split; [done|]. split; [exact Hs'|].
  destruct (Hvals 1%nat 0%nat ltac:(lia) Hi) as (counter & fd & Hc & Hf & Hrow & _). change (Z.of_nat 1) with 1 in Hrow.
  rewrite Hb in Hrow. rewrite Hrow. injection Hv as <-. injection Hc as <-.
  destruct Hf as (nm & ty & cf & E1 & E2). injection E1 as <- <- <-. injection E2 as <-. by vm_compute.
Defined.
