(* ===== verification/CpuUtil.v ===== *)
(** * The processor times

    The time threads run, and run in the kernel, as shares of the time between two
    rounds of the processors (src/bpf/src/cpuutil.rs). *)

From S2P Require Import Prelude Protocol Text Float BpfConfig BpfEvents.
From stdpp Require Import pretty.
Open Scope Z_scope.

Definition CpuUtilConfig_default_frequency : Z := 9.

Definition CpuUtilConfig_default_ringbuf : Z := 1024 * 1024.

(** ** Events *)

Record CpuEvent := mkCpuEvent {
  ce_tid : Z;
  ce_tgid : Z;
  end_time : Z;
  ce_kernel_time_ns : Z;
  start_time : Z;
  cpu : Z;
  boundary : bool
}.

Definition parse_cpu_event (data : list Z) : CpuEvent :=
  mkCpuEvent (field 4 0 data) (field 4 4 data) (field 8 8 data) (field 8 16 data) (field 8 24 data)
    (field 4 32 data) (negb (field 1 36 data =? 0)).

Record ThreadStats := mkThreadStats {
  cpu_time_ns : Z;
  kernel_time_ns : Z;
  min_timestamp : Z
}.

Definition ThreadStats_default : ThreadStats := mkThreadStats 0 0 u64_max.

(** ** State *)

Record CpuUtil := mkCpuUtil {
  port : Port;
  thread_stats : gmap (Z * Z) ThreadStats;
  submitted_tracks : gset Z;
  track_id_mapping : gmap (Z * Z) (Z * Z);
  boundaries_reported : Z;
  max_timestamp : Z
}.

Definition CpuUtil_init : CpuUtil := mkCpuUtil no_port ∅ ∅ ∅ 0 0.

Definition set_tracks (s : CpuUtil) (p : Port) (submitted : gset Z) (ids : gmap (Z * Z) (Z * Z)) : CpuUtil :=
  mkCpuUtil p (thread_stats s) submitted ids (boundaries_reported s) (max_timestamp s).

Definition set_stats (s : CpuUtil) (stats : gmap (Z * Z) ThreadStats) : CpuUtil :=
  mkCpuUtil (port s) stats (submitted_tracks s) (track_id_mapping s) (boundaries_reported s) (max_timestamp s).

(** What [new] asks of the kernel programs: the ring, the filter, and the processes
    in it, four bytes of the number each. *)
Record KernelConfig := mkKernelConfig {
  events_entries : Z;
  filter_enabled : bool;
  tracked_tgids : list Z
}.

Definition kernel_config (config : CpuUtilConfig) : KernelConfig :=
  mkKernelConfig (wrap 32 (cu_ringbuf config))
    (negb (is_empty (cu_pid_filters config)) || negb (is_empty (cu_filter_process config)))
    (map (wrap 32) (cu_pid_filters config)).

Section CpuUtil.

Variable user : list Message -> Message -> Z.
Variable rng : nat -> Z.

(** The processors, and the iteration order of a hash map with certain keys. *)
Variable nprocs : Z.
Variable iter : gset (Z * Z) -> list (Z * Z).

(** ** A round *)

Definition percent (ns : Z) (elapsed_ns : f64) : f64 := fmul (fdiv (of_int ns) elapsed_ns) (of_int 100).

(** One counter of a thread: its track if there is none yet, then the value. *)
Definition emit_percent (name : string) (pid tid id : Z) (value : f64) (timestamp : Z) (s : CpuUtil) : Z * CpuUtil :=
  let '(result, s) :=
    if decide (id ∈ submitted_tracks s) then (0, s)
    else
      let '(result, p) := send user (counter_track name id "%" (Some (TrackType.Thread tid pid))) (port s) in
      (result,
       set_tracks s p (if result =? 0 then {[id]} ∪ submitted_tracks s else submitted_tracks s)
         (track_id_mapping s)) in
  if negb (result =? 0) then (result, s)
  else
    let '(result, p) := send user (counter_message name value timestamp id "%") (port s) in
    (result, set_tracks s p (submitted_tracks s) (track_id_mapping s)).

Definition report_thread (key : Z * Z) (s : CpuUtil) : Z * CpuUtil :=
  match thread_stats s !! key with
  | None => (0, s)
  | Some stats =>
      let '(pid, tid) := key in
      let elapsed_ns := of_int (max_timestamp s -64 min_timestamp stats) in
      let '(cpu_time_id, kernel_time_id, s) :=
        match track_id_mapping s !! key with
        | Some (cpu_time_id, kernel_time_id) => (cpu_time_id, kernel_time_id, s)
        | None =>
            let '(cpu_time_id, p) := draw rng (port s) in
            let '(kernel_time_id, p) := draw rng p in
            (cpu_time_id, kernel_time_id,
             set_tracks s p (submitted_tracks s) (<[key := (cpu_time_id, kernel_time_id)]> (track_id_mapping s)))
        end in
      let '(result, s) :=
        emit_percent "cpu_time" pid tid cpu_time_id (percent (cpu_time_ns stats) elapsed_ns)
          (min_timestamp stats) s in
      if negb (result =? 0) then (result, s)
      else
        let '(result, s) :=
          emit_percent "kernel_time" pid tid kernel_time_id (percent (kernel_time_ns stats) elapsed_ns)
            (min_timestamp stats) s in
        if negb (result =? 0) then (result, s)
        else (0, set_stats s (<[key := mkThreadStats 0 0 (max_timestamp s)]> (thread_stats s)))
  end.

(** ** An event *)

Definition event_key (event : CpuEvent) : Z * Z := (as_signed 32 (ce_tgid event), as_signed 32 (ce_tid event)).

(** Idle processors and what ran when the collector started are not counted. *)
Definition counted (event : CpuEvent) : bool :=
  negb (ce_tgid event =? 0) && negb (ce_tid event =? 0) && negb (start_time event =? 0).

Definition count_event (event : CpuEvent) (entry : ThreadStats) : ThreadStats :=
  mkThreadStats (cpu_time_ns entry +64 (end_time event -64 start_time event))
    (kernel_time_ns entry +64 ce_kernel_time_ns event)
    (Z.min (min_timestamp entry) (start_time event)).

Definition enter_event (event : CpuEvent) (stats : gmap (Z * Z) ThreadStats) : gmap (Z * Z) ThreadStats :=
  if counted event then
    <[event_key event := count_event event (default ThreadStats_default (stats !! event_key event))]> stats
  else stats.

Definition handle_event (event : CpuEvent) (s : CpuUtil) : Z * CpuUtil :=
  let s :=
    mkCpuUtil (port s) (enter_event event (thread_stats s)) (submitted_tracks s) (track_id_mapping s)
      (boundaries_reported s) (Z.max (max_timestamp s) (end_time event)) in
  if boundary event then
    let boundaries := boundaries_reported s + 1 in
    let full := boundaries =? nprocs in
    let s :=
      mkCpuUtil (port s) (thread_stats s) (submitted_tracks s) (track_id_mapping s)
        (if full then 0 else boundaries) (max_timestamp s) in
    if full then until_refused report_thread (iter (dom (thread_stats s))) s else (0, s)
  else (0, s).

(** The handler unwraps the event, so a record that is none panics. *)
Definition handle_record (data : list Z) (s : CpuUtil) : option (Z * CpuUtil) :=
  match parse_plain 40 parse_cpu_event data "cpu event" with
  | Ok event => Some (handle_event event s)
  | Err _ => None
  end.

Variable stops : Z -> option (result string unit).

Definition read_ring (what : string) (records : list (list Z)) (at_end : result string unit) (s : CpuUtil) :
    option (result BpfError unit * CpuUtil) :=
  '(read, s) ← deliver stops handle_record records at_end s;
  match read with
  | Err e => Some (Err (MapError ("failed to " ++ what ++ " ring buffer: " ++ e)%string), s)
  | Ok _ => Some (Ok tt, s)
  end.

Definition poll := read_ring "poll".

Definition consume := read_ring "consume".

(** [filter]: the process the kernel's map gets, and the map's answer. *)
Definition filter (update : Z -> result string unit) (pid : Z) : result BpfError unit :=
  match update (wrap 32 pid) with
  | Err e => Err (MapError ("failed to add PID filter: " ++ e)%string)
  | Ok _ => Ok tt
  end.

End CpuUtil.
