(* ===== verification/CpuProps.v ===== *)
(** * Properties of the processor times

    The counters of a thread are described first; a round reports what every thread
    ran since the round before. *)

From S2P Require Import Prelude Protocol Text Float BpfConfig BpfEvents CpuUtil.
From stdpp Require Import pretty.
Open Scope Z_scope.

(** ** Tracks *)

Section Tracks.

Variable user : list Message -> Message -> Z.
Variable rng : nat -> Z.
Variable nprocs : Z.
Variable iter : gset (Z * Z) -> list (Z * Z).

(** What was sent before. *)
Variable base : list Message.

Record cpu_ok (s : CpuUtil) : Prop := {
  co_base : base `prefix_of` sent (port s);
  co_order : in_order (sent (port s));
  co_submitted id : id ∈ submitted_tracks s -> TrackId.Counter id ∈ described (sent (port s))
}.

Lemma cpu_ok_same s s' :
  sent (port s') = sent (port s) -> submitted_tracks s' = submitted_tracks s -> cpu_ok s -> cpu_ok s'.
Proof. intros E1 E2 [H0 H1 H2]. split; rewrite ?E1, ?E2; auto. Qed.

Lemma emit_percent_ok name pid tid id value timestamp s :
  cpu_ok s -> cpu_ok (emit_percent user name pid tid id value timestamp s).2.
Proof.
  intros Hs. unfold emit_percent. set (tm := counter_track _ _ _ _).
  set (q := if decide (id ∈ submitted_tracks s) then _ else _).
  assert (cpu_ok q.2 /\ TrackId.Counter id ∈ described (sent (port q.2))) as [Hq Hid].
  { destruct Hs as [Hb Ho Hsub]. unfold q. destruct (decide _) as [Hin|Hin].
    { split; [done|by apply Hsub]. }
    cbn [send]. assert (TrackId.Counter id ∈ described (sent (port s) ++ [tm])) as Hd
      by (apply described_snoc; right; cbn; set_solver).
    split; [|done]. split; cbn.
    - by apply prefix_app_r.
    - constructor; [done|]. cbn. by intros t Ht%elem_of_nil.
    - intros i Hi. destruct (_ =? 0).
      + apply elem_of_union in Hi as [->%elem_of_singleton|Hi]; [done|]. apply described_snoc. left. auto.
      + apply described_snoc. left. auto. }
  destruct q as [result s1]. cbn in Hq, Hid. destruct (negb _); [done|]. destruct Hq as [Hb Ho Hsub].
  cbn. split; cbn.
  - by apply prefix_app_r.
  - constructor; [done|]. cbn. by intros t [->|[]%elem_of_nil]%elem_of_cons.
  - intros i Hi. apply described_snoc. left. auto.
Qed.

Lemma report_thread_ok key s : cpu_ok s -> cpu_ok (report_thread user rng key s).2.
Proof.
  intros Hs. unfold report_thread. destruct (thread_stats s !! key) as [stats|]; [|done].
  destruct key as [pid tid]. set (q := match track_id_mapping s !! _ with Some _ => _ | None => _ end).
  assert (cpu_ok q.2) as Hq.
  { unfold q. destruct (track_id_mapping s !! _) as [[c k]|]; [done|]. cbn. by apply (cpu_ok_same s). }
  destruct q as [[c k] s1]. cbn in Hq.
  pose proof (emit_percent_ok "cpu_time" pid tid c
    (percent (cpu_time_ns stats) (of_int (max_timestamp s -64 min_timestamp stats))) (min_timestamp stats) s1 Hq) as H2.
  destruct (emit_percent _ "cpu_time" _ _ _ _ _ s1) as [r s2]. cbn in H2. destruct (negb _); [done|].
  pose proof (emit_percent_ok "kernel_time" pid tid k
    (percent (kernel_time_ns stats) (of_int (max_timestamp s -64 min_timestamp stats))) (min_timestamp stats) s2 H2) as H3.
  destruct (emit_percent _ "kernel_time" _ _ _ _ _ s2) as [r' s3]. cbn in H3. destruct (negb _); [done|].
  by apply (cpu_ok_same s3).
Qed.

Lemma cpu_event_ok event s : cpu_ok s -> cpu_ok (handle_event user rng nprocs iter event s).2.
Proof.
  intros Hs. unfold handle_event. destruct (boundary event); [|by apply (cpu_ok_same s)]. cbn [boundaries_reported].
  destruct (_ =? nprocs); [|by apply (cpu_ok_same s)].
  apply until_refused_ind; [|by apply (cpu_ok_same s)]. intros. by apply report_thread_ok.
Qed.

Lemma handle_record_ok data s r s' :
  handle_record user rng nprocs iter data s = Some (r, s') -> cpu_ok s -> cpu_ok s'.
Proof.
  unfold handle_record. destruct (parse_plain _ _ _ _); [|done]. intros [= H] Hs.
  change s' with (r, s').2. rewrite <-H. by apply cpu_event_ok.
Qed.

End Tracks.

(** ** An interval *)

(** The events of a thread that count. *)
Definition events_of (key : Z * Z) (events : list CpuEvent) : list CpuEvent :=
  List.filter (fun event => counted event && bool_decide (event_key event = key)) events.

Definition total (f : CpuEvent -> Z) (events : list CpuEvent) : Z := foldr (fun e n => f e + n) 0 events.

Definition ran (event : CpuEvent) : Z := end_time event - start_time event.

(** What is kept of a thread after some events, from what was kept before. *)
Definition after_events (events : list CpuEvent) (before : ThreadStats) : ThreadStats :=
  mkThreadStats (cpu_time_ns before + total ran events) (kernel_time_ns before + total ce_kernel_time_ns events)
    (foldl Z.min (min_timestamp before) (map start_time events)).

Definition latest (events : list CpuEvent) (before : Z) : Z := foldl Z.max before (map end_time events).

(** Times the kernel program can report. *)
Definition event_ok (event : CpuEvent) : Prop :=
  0 <= start_time event <= end_time event /\ end_time event <= u64_max /\ 0 <= ce_kernel_time_ns event.

(** Sums fit into 64 bits. *)
Definition sums_ok (events : list CpuEvent) (before : ThreadStats) : Prop :=
  0 <= cpu_time_ns before /\ cpu_time_ns before + total ran events <= u64_max /\
  0 <= kernel_time_ns before /\ kernel_time_ns before + total ce_kernel_time_ns events <= u64_max.

Lemma total_nonneg f events : Forall (fun e => 0 <= f e) events -> 0 <= total f events.
Proof. induction 1; cbn; [lia|]. unfold total in *. cbn. lia. Qed.

Lemma total_cons f e events : total f (e :: events) = f e + total f events.
Proof. done. Qed.

Lemma events_of_cons key event events :
  events_of key (event :: events) =
  (if counted event && bool_decide (event_key event = key) then [event] else []) ++ events_of key events.
Proof. unfold events_of. cbn [List.filter]. by destruct (_ && _). Qed.

Lemma events_of_ok key events : Forall event_ok events -> Forall event_ok (events_of key events).
Proof.
  rewrite !Forall_forall. intros H e He. apply list_elem_of_In, filter_In in He as [He _].
  by apply H, list_elem_of_In.
Qed.

Lemma totals_nonneg events :
  Forall event_ok events -> 0 <= total ran events /\ 0 <= total ce_kernel_time_ns events.
Proof.
  intros H. split; apply total_nonneg; (eapply Forall_impl; [exact H|]); unfold event_ok, ran; cbn; lia.
Qed.

Lemma count_event_after event before :
  event_ok event -> sums_ok [event] before -> count_event event before = after_events [event] before.
Proof.
  intros (H1 & H2 & H3) (S1 & S2 & S3 & S4). unfold count_event, after_events, total, ran, u64_max in *. cbn in *.
  rewrite (wrap_small 64 (end_time event - start_time event)) by lia.
  rewrite !wrap_small by lia. f_equal; lia.
Qed.

Lemma after_events_app e1 e2 before :
  after_events (e1 ++ e2) before = after_events e2 (after_events e1 before).
Proof.
  unfold after_events. cbn. rewrite map_app, foldl_app.
  assert (forall f, total f (e1 ++ e2) = total f e1 + total f e2) as H.
  { intros f. unfold total. induction e1 as [|e e1 IH]; [done|]. cbn. lia. }
  rewrite !H. f_equal; lia.
Qed.

Lemma after_events_nil before : after_events [] before = before.
Proof. destruct before. unfold after_events. cbn. f_equal; lia. Qed.

(** The statistics after some events, thread by thread. *)
Lemma entered_lookup events stats key :
  Forall event_ok events -> sums_ok (events_of key events) (default ThreadStats_default (stats !! key)) ->
  foldl (fun m e => enter_event e m) stats events !! key =
  match events_of key events with
  | [] => stats !! key
  | _ => Some (after_events (events_of key events) (default ThreadStats_default (stats !! key)))
  end.
Proof.
  intros He. revert stats. induction He as [|event events He0 He IH]; intros stats Hsum; [done|]. cbn [foldl].
  rewrite events_of_cons in *. destruct (totals_nonneg _ (events_of_ok key events He)) as [N1 N2].
  unfold enter_event. destruct (counted event) eqn:Ec; cbn [andb] in *; [|by rewrite IH].
  destruct (bool_decide_reflect (event_key event = key)) as [Hk|Hk].
  - subst key. set (st := default ThreadStats_default (stats !! event_key event)) in *.
    cbn [app] in *. unfold sums_ok in Hsum. rewrite !total_cons in Hsum.
    assert (0 <= ran event /\ 0 <= ce_kernel_time_ns event) as [P1 P2] by (unfold event_ok, ran in *; lia).
    rewrite count_event_after by (done || (unfold sums_ok, total; cbn; lia)).
    rewrite IH by (rewrite lookup_insert_eq; unfold sums_ok, after_events, total; cbn -[foldr]; cbn; unfold total in *; lia).
    rewrite lookup_insert_eq. cbn [default from_option]. unfold id.
    change (event :: events_of (event_key event) events) with ([event] ++ events_of (event_key event) events).
    rewrite after_events_app. by destruct (events_of (event_key event) events) eqn:E; rewrite ?after_events_nil.
  - cbn [app] in *. rewrite IH by (by rewrite lookup_insert_ne). by rewrite lookup_insert_ne.
Qed.

Lemma latest_app e1 e2 before : latest (e1 ++ e2) before = latest e2 (latest e1 before).
Proof. unfold latest. by rewrite map_app, foldl_app. Qed.

(** ** A round that is accepted *)

Section Accepted.

Variable user : list Message -> Message -> Z.
Variable rng : nat -> Z.
Variable nprocs : Z.
Variable iter : gset (Z * Z) -> list (Z * Z).

(** The callback accepts everything, and a map is iterated over key by key. *)
Hypothesis accepts : forall ms m, user ms m = 0.
Hypothesis iterates : forall s, iter s ≡ₚ elements s.

Definition same_statistics (s s' : CpuUtil) : Prop :=
  thread_stats s' = thread_stats s /\ max_timestamp s' = max_timestamp s /\
  boundaries_reported s' = boundaries_reported s.

Lemma emit_percent_accepted name pid tid id value timestamp s :
  let r := emit_percent user name pid tid id value timestamp s in
  r.1 = 0 /\ same_statistics s r.2 /\
  readings (sent (port r.2)) = readings (sent (port s)) ++ [(name, to_bits value, timestamp, Some "%"%string)].
Proof.
  unfold emit_percent. destruct (decide _); cbn; rewrite !accepts; cbn; rewrite ?accepts; cbn.
  all: split; [done|split; [done|]]; by rewrite !readings_snoc, ?app_nil_r.
Qed.

(** What is reported of a thread at the time [until]. *)
Definition thread_readings (until : Z) (stats : ThreadStats) : list (string * Z * Z * option string) :=
  let elapsed_ns := of_int (until - min_timestamp stats) in
  [("cpu_time", to_bits (percent (cpu_time_ns stats) elapsed_ns), min_timestamp stats, Some "%");
   ("kernel_time", to_bits (percent (kernel_time_ns stats) elapsed_ns), min_timestamp stats, Some "%")]%string.

Lemma report_thread_accepted key stats s :
  thread_stats s !! key = Some stats -> 0 <= min_timestamp stats <= max_timestamp s -> max_timestamp s <= u64_max ->
  let r := report_thread user rng key s in
  r.1 = 0 /\ thread_stats r.2 = <[key := mkThreadStats 0 0 (max_timestamp s)]> (thread_stats s) /\
  max_timestamp r.2 = max_timestamp s /\ boundaries_reported r.2 = boundaries_reported s /\
  readings (sent (port r.2)) = readings (sent (port s)) ++ thread_readings (max_timestamp s) stats.
Proof.
  intros Hk Hmin Hmax. cbn zeta. unfold report_thread. rewrite Hk. destruct key as [pid tid].
  rewrite wrap_small by (unfold u64_max in *; lia).
  set (q := match track_id_mapping s !! _ with Some _ => _ | None => _ end).
  assert (same_statistics s q.2 /\ readings (sent (port q.2)) = readings (sent (port s))) as [(Q1 & Q2 & Q3) Q4].
  { unfold q. by destruct (track_id_mapping s !! _) as [[c k]|]. }
  destruct q as [[c k] s1]. cbn in Q1, Q2, Q3, Q4. set (elapsed := of_int _).
  destruct (emit_percent_accepted "cpu_time" pid tid c (percent (cpu_time_ns stats) elapsed)
    (min_timestamp stats) s1) as (Z1 & (A1 & A2 & A3) & A4).
  destruct (emit_percent _ "cpu_time" _ _ _ _ _ s1) as [r s2]. cbn in Z1, A1, A2, A3, A4. subst r. cbn [negb Z.eqb].
  destruct (emit_percent_accepted "kernel_time" pid tid k (percent (kernel_time_ns stats) elapsed)
    (min_timestamp stats) s2) as (Z2 & (B1 & B2 & B3) & B4).
  destruct (emit_percent _ "kernel_time" _ _ _ _ _ s2) as [r s3]. cbn in Z2, B1, B2, B3, B4. subst r.
  cbn [negb Z.eqb fst snd set_stats thread_stats max_timestamp boundaries_reported port].
  split_and!; [done|by rewrite B1, A1, Q1, B2, A2, Q2|by rewrite B2, A2|by rewrite B3, A3|].
  rewrite B4, A4, Q4. by rewrite <-app_assoc.
Qed.

Lemma round_accepted l s :
  NoDup l -> max_timestamp s <= u64_max ->
  (forall key, key ∈ l -> exists stats, thread_stats s !! key = Some stats /\
    0 <= min_timestamp stats <= max_timestamp s) ->
  let r := until_refused (report_thread user rng) l s in
  r.1 = 0 /\ max_timestamp r.2 = max_timestamp s /\ boundaries_reported r.2 = boundaries_reported s /\
  (forall key, thread_stats r.2 !! key =
    if decide (key ∈ l) then Some (mkThreadStats 0 0 (max_timestamp s)) else thread_stats s !! key) /\
  readings (sent (port r.2)) = readings (sent (port s)) ++
    concat (map (fun key => thread_readings (max_timestamp s) (default ThreadStats_default (thread_stats s !! key))) l).
Proof.
  cbn zeta. intros Hl. revert s. induction Hl as [|key l Hkey Hl IH]; intros s Hmax Hs.
  { by rewrite app_nil_r. }
  cbn [until_refused map concat]. destruct (Hs key) as (stats & Hst & Hmin); [by left|].
  destruct (report_thread_accepted key stats s Hst Hmin Hmax) as (Z1 & A1 & A2 & A3 & A4).
  destruct (report_thread user rng key s) as [r s1]. cbn in Z1, A1, A2, A3, A4. subst r. cbn [negb Z.eqb].
  destruct (IH s1) as (-> & B1 & B2 & B3 & ->).
  { by rewrite A2. }
  { intros k Hk. rewrite A1, A2, lookup_insert_ne by by intros ->. apply Hs. by right. }
  rewrite B1, B2, A2, A3, A4, Hst. split_and!; [done..| |].
  - intros k. rewrite B3, A1, A2. destruct (decide (k = key)) as [->|Hne].
    + rewrite decide_False by done. by rewrite lookup_insert_eq, decide_True by by left.
    + rewrite lookup_insert_ne by done. apply decide_ext. rewrite elem_of_cons. split; [by right|by intros [->|]].
  - rewrite <-app_assoc. do 2 f_equal. f_equal. apply map_ext_in. intros k Hk.
    rewrite A1, lookup_insert_ne; [done|]. intros ->. by apply Hkey, list_elem_of_In.
Qed.

(** ** From round to round *)

Definition boundaries (events : list CpuEvent) : Z := Z.of_nat (length (List.filter boundary events)).

(** Events that do not end a round are only counted. *)
Lemma counting events s :
  boundaries_reported s + boundaries events < nprocs ->
  until_refused (handle_event user rng nprocs iter) events s =
  (0, mkCpuUtil (port s) (foldl (fun m e => enter_event e m) (thread_stats s) events) (submitted_tracks s)
        (track_id_mapping s) (boundaries_reported s + boundaries events) (latest events (max_timestamp s))).
Proof.
  revert s. induction events as [|event events IH]; intros s Hb.
  { cbn. rewrite Z.add_0_r. by destruct s. }
  unfold boundaries in *. cbn [until_refused List.filter] in *. unfold handle_event.
  destruct (boundary event); cbn [length] in Hb; cbn [boundaries_reported thread_stats max_timestamp port].
  - destruct (Z.eqb_spec (boundaries_reported s + 1) nprocs); [lia|]. cbn [negb Z.eqb].
    rewrite IH by (cbn; lia). cbn. do 2 f_equal. lia.
  - cbn [negb Z.eqb]. by rewrite IH by (cbn; lia).
Qed.

(** The threads that are known after some events. *)
Definition known (events : list CpuEvent) (s : CpuUtil) : gset (Z * Z) :=
  dom (foldl (fun m e => enter_event e m) (thread_stats s) events).

Record interval_ok (events : list CpuEvent) (s : CpuUtil) : Prop := {
  io_events : Forall event_ok events;
  io_sums key : sums_ok (events_of key events) (default ThreadStats_default (thread_stats s !! key));
  io_times key stats : thread_stats s !! key = Some stats -> 0 <= min_timestamp stats <= max_timestamp s;
  io_max : 0 <= max_timestamp s <= u64_max
}.

Lemma latest_bound events before :
  Forall event_ok events -> 0 <= before <= u64_max -> before <= latest events before <= u64_max.
Proof.
  intros H. revert before. induction H as [|e events He _ IH]; intros before Hb; [cbn; lia|].
  unfold latest in *. cbn. unfold event_ok in He. specialize (IH (Z.max before (end_time e)) ltac:(lia)). lia.
Qed.

Lemma latest_event events e before : e ∈ events -> end_time e <= latest events before.
Proof.
  assert (forall l b, b <= foldl Z.max b l) as Hmono.
  { induction l as [|x l IH]; intros b; cbn; [lia|]. specialize (IH (Z.max b x)). lia. }
  intros (l1 & l2 & ->)%list_elem_of_split. unfold latest. rewrite map_app, foldl_app. cbn.
  pose proof (Hmono (map end_time l2) (Z.max (foldl Z.max before (map end_time l1)) (end_time e))). lia.
Qed.

Lemma after_min events before b :
  Forall event_ok events -> events <> [] \/ 0 <= min_timestamp before <= b -> 0 <= min_timestamp before ->
  (forall e, e ∈ events -> end_time e <= b) -> 0 <= min_timestamp (after_events events before) <= b.
Proof.
  intros He Hne Hb Hl. cbn.
  assert (0 <= foldl Z.min (min_timestamp before) (map start_time events)) as Hpos.
  { clear Hne Hl. revert Hb. generalize (min_timestamp before). induction He as [|e events He0 _ IH]; [done|].
    intros z Hz. cbn. apply IH. unfold event_ok in He0. lia. }
  assert (forall l z, foldl Z.min z l <= z) as Hmono.
  { induction l as [|x l IH]; intros z; cbn; [lia|]. specialize (IH (Z.min z x)). lia. }
  split; [done|]. destruct events as [|e events].
  - destruct Hne as [|Hm]; [done|]. cbn. lia.
  - cbn. pose proof (Hmono (map start_time events) (Z.min (min_timestamp before) (start_time e))).
    specialize (Hl e ltac:(by left)). apply Forall_cons in He as [He _]. unfold event_ok in He. lia.
Qed.

(** The statistics of a thread after an interval. *)
Lemma interval_stats events s key st :
  interval_ok events s -> foldl (fun m e => enter_event e m) (thread_stats s) events !! key = Some st ->
  st = after_events (events_of key events) (default ThreadStats_default (thread_stats s !! key)) /\
  0 <= min_timestamp st <= latest events (max_timestamp s).
Proof.
  intros [He Hsum Htimes Hmax] Hk. rewrite entered_lookup in Hk by done.
  set (until := latest events (max_timestamp s)).
  assert (forall e, e ∈ events_of key events -> end_time e <= until) as Hends.
  { intros e Hin. apply latest_event. apply list_elem_of_In, filter_In in Hin as [Hin _]. by apply list_elem_of_In. }
  assert (max_timestamp s <= until) as Hu
    by (pose proof (latest_bound events _ He Hmax) as Hlb; fold until in Hlb; lia).
  destruct (events_of key events) as [|e l] eqn:El.
  - rewrite after_events_nil, Hk. split; [done|]. specialize (Htimes key st Hk). lia.
  - injection Hk as <-. split; [done|]. rewrite <-El in *.
    apply after_min; [by apply events_of_ok|left; by rewrite El| |done].
    destruct (thread_stats s !! key) as [b|] eqn:Eb; [|cbn; unfold u64_max; lia].
    specialize (Htimes key b Eb). cbn. lia.
Qed.

(** C25. A round of the processor times, from the round before to the event in which
    the last processor reports its boundary: it is the only one that reports, and it
    reports every known thread once with exactly the time its counted events ran, and
    ran in the kernel, over the time since the thread was last reported (or first
    ran); every thread then starts from zero at the latest time seen, so nothing is
    counted twice or lost. *)
Theorem cpu_round_reports events last s :
  interval_ok (events ++ [last]) s -> boundary last = true ->
  boundaries_reported s + boundaries events + 1 = nprocs ->
  let all := events ++ [last] in
  let until := latest all (max_timestamp s) in
  let r := until_refused (handle_event user rng nprocs iter) all s in
  r.1 = 0 /\ boundaries_reported r.2 = 0 /\ max_timestamp r.2 = until /\
  (forall key, thread_stats r.2 !! key =
    if decide (key ∈ known all s) then Some (mkThreadStats 0 0 until) else None) /\
  readings (sent (port r.2)) = readings (sent (port s)) ++
    concat (map (fun key => thread_readings until
                   (after_events (events_of key all) (default ThreadStats_default (thread_stats s !! key))))
              (iter (known all s))).
Proof.
  intros Hok Hlast Hb. cbn zeta. set (all := events ++ [last]) in *.
  pose proof (until_refused_app (handle_event user rng nprocs iter) events [last] s) as Eall. fold all in Eall.
  rewrite Eall, counting by lia. clear Eall. cbn [negb Z.eqb until_refused].
  unfold handle_event. rewrite Hlast. cbn [boundaries_reported thread_stats max_timestamp port submitted_tracks track_id_mapping].
  rewrite Hb, Z.eqb_refl.
  set (stats := enter_event last _).
  assert (stats = foldl (fun m e => enter_event e m) (thread_stats s) all) as Estats
    by (unfold all; by rewrite foldl_app).
  assert (Z.max (latest events (max_timestamp s)) (end_time last) = latest all (max_timestamp s)) as ->
    by (unfold all; by rewrite latest_app).
  set (until := latest all (max_timestamp s)).
  set (s0 := mkCpuUtil _ stats _ _ 0 until).
  assert (forall key st, stats !! key = Some st ->
    st = after_events (events_of key all) (default ThreadStats_default (thread_stats s !! key)) /\
    0 <= min_timestamp st <= until) as Hst.
  { intros key st. rewrite Estats. by apply interval_stats. }
  destruct Hok as [He Hsum Htimes Hmax].
  assert (NoDup (iter (dom stats))) as Hnd by (rewrite iterates; apply NoDup_elements).
  assert (forall key, key ∈ iter (dom stats) <-> key ∈ dom stats) as Hin
    by (intros key; by rewrite iterates, elem_of_elements).
  destruct (round_accepted (iter (dom stats)) s0 Hnd) as (R1 & R2 & R3 & R4 & R5).
  { cbn. pose proof (latest_bound all _ He Hmax) as Hlb. fold until in Hlb. lia. }
  { intros key Hk%Hin%elem_of_dom. destruct Hk as [st Hk]. exists st. split; [done|]. cbn. by apply (Hst key). }
  destruct (until_refused (report_thread user rng) (iter (dom stats)) s0) as [z s'].
  cbn in R1, R2, R3, R4, R5. subst z. cbn [negb Z.eqb fst snd].
  assert (known all s = dom stats) as Ek by (unfold known; by rewrite Estats).
  rewrite Ek. split_and!; [done|done|done| |].
  - intros key. rewrite R4. destruct (decide (key ∈ iter (dom stats))) as [Hk|Hk]; rewrite Hin in Hk.
    + by rewrite decide_True.
    + rewrite decide_False by done. by apply not_elem_of_dom.
  - rewrite R5. f_equal. f_equal. apply map_ext_in. intros key Hk%list_elem_of_In%Hin%elem_of_dom.
    destruct Hk as [st Hk]. rewrite Hk. cbn. by destruct (Hst key st Hk) as [<- _].
Qed.

End Accepted.

(** Two processors; a thread runs on both of them, another on one. *)
Lemma cpu_round_reports_witness :
  let events := [mkCpuEvent 7 5 2000 100 1000 0 false; mkCpuEvent 8 5 3000 0 2000 0 true;
                 mkCpuEvent 0 0 3500 0 2500 1 false] in
  let last := mkCpuEvent 7 5 5000 400 3000 1 true in
  let r := until_refused (handle_event (fun _ _ => 0) Z.of_nat 2 elements) (events ++ [last]) CpuUtil_init in
  interval_ok (events ++ [last]) CpuUtil_init /\ r.1 = 0 /\ max_timestamp r.2 = 5000 /\
  length (readings (sent (port r.2))) = 4%nat.
Proof.
  cbn zeta. set (events := [_; _; _]). set (last := mkCpuEvent 7 _ _ _ _ _ _).
  assert (interval_ok (events ++ [last]) CpuUtil_init) as Hok.
  { split.
    - repeat constructor; vm_compute; done.
    - intros key. cbn [thread_stats CpuUtil_init]. rewrite lookup_empty.
      destruct (decide (key = (5, 7))) as [->|H7]; [vm_compute; by split_and!|].
      destruct (decide (key = (5, 8))) as [->|H8]; [vm_compute; by split_and!|].
      unfold events, last. cbn [app]. rewrite !events_of_cons.
      change (event_key (mkCpuEvent 7 5 _ _ _ _ _)) with (5, 7). change (event_key (mkCpuEvent 8 5 _ _ _ _ _)) with (5, 8).
      rewrite !(bool_decide_eq_false_2 ((5, _) = key)) by congruence. vm_compute. by split_and!.
    - intros key stats. cbn [thread_stats CpuUtil_init]. by rewrite lookup_empty.
    - vm_compute. by split. }
  destruct (cpu_round_reports (fun _ _ => 0) Z.of_nat 2 elements ltac:(done) ltac:(done) events last CpuUtil_init
    Hok eq_refl eq_refl) as (H1 & _ & H3 & _ & H5).
  split_and!; [done|exact H1|exact H3|]. rewrite H5. vm_compute. done.
Defined.
