(* ===== verification/CpuKernel.v ===== *)
(** * The kernel program of the processor times

    The programs of src/bpf/src/bpf/cpuutil.bpf.c on the state of each processor and
    the ring, and what the collector of [CpuUtil] counts of their records: the time a
    thread ran is the time the scheduler gave it. *)

From S2P Require Import Prelude BpfEvents KernelRecords BpfConfig CpuUtil CpuProps.
Open Scope Z_scope.

(** ** State *)

(** What runs on a processor, since when, and its time in the kernel. *)
Record CpuState := mkCpuState {
  cs_tid : Z;
  cs_tgid : Z;
  cs_start_time : Z;
  cs_kernel_start_time : Z;
  cs_kernel_time_acc : Z;
  cs_in_kernel : bool
}.

Definition cpu_state_zero : CpuState := mkCpuState 0 0 0 0 0 false.

(** The map of one state per processor, the filter, and the records in the ring. *)
Record Kernel := mkKernel {
  cpu_states : gmap Z CpuState;
  followed_tgids : gset Z;
  ring : list (list Z)
}.

Definition state_of (c : Z) (k : Kernel) : CpuState := default cpu_state_zero (cpu_states k !! c).

Definition set_state (c : Z) (s : CpuState) (k : Kernel) : Kernel :=
  mkKernel (<[c := s]> (cpu_states k)) (followed_tgids k) (ring k).

(** A [task_struct], as far as it is read. *)
Record Task := mkTask { task_pid : Z; task_tgid : Z }.

(** Whether the ring has room, and what it held where a record has a hole. *)
Record Slot := mkSlot { room : bool; hole : Z }.

Section Programs.

Variable cfg : KernelConfig.

Definition should_track_tgid (k : Kernel) (tgid : Z) : bool :=
  if negb (filter_enabled cfg) then true
  else if tgid =? 0 then true
  else bool_decide (tgid ∈ followed_tgids k).

(** The 40 bytes of a [struct cpu_event]. *)
Definition event_record (e : CpuEvent) (hole : Z) : layout :=
  [(4%nat, ce_tid e); (4%nat, ce_tgid e); (8%nat, end_time e); (8%nat, ce_kernel_time_ns e);
   (8%nat, start_time e); (4%nat, cpu e); (1%nat, Z.b2z (boundary e)); (3%nat, hole)].

Definition submit_cpu_event (slot : Slot) (c : Z) (state : CpuState) (end_time : Z) (boundary : bool) (k : Kernel) :
    Kernel :=
  let kernel_time :=
    if cs_in_kernel state && (0 <? cs_kernel_start_time state)
    then cs_kernel_time_acc state +64 (end_time -64 cs_kernel_start_time state)
    else cs_kernel_time_acc state in
  let e := mkCpuEvent (cs_tid state) (cs_tgid state) end_time kernel_time (cs_start_time state) c boundary in
  mkKernel (cpu_states k) (followed_tgids k) (ringbuf_submit (room slot) (encode (event_record e (hole slot))) (ring k)).

Definition set_tgid (tgid : Z) (s : CpuState) : CpuState :=
  mkCpuState (cs_tid s) tgid (cs_start_time s) (cs_kernel_start_time s) (cs_kernel_time_acc s) (cs_in_kernel s).

Definition handle_sched_switch (slot : Slot) (c : Z) (prev next : Task) (now : Z) (k : Kernel) : Kernel :=
  let state := state_of c k in
  let k :=
    if (cs_tid state =? task_pid prev) && negb (cs_tid state =? 0) then
      let state := set_tgid (task_tgid prev) state in
      if should_track_tgid k (cs_tgid state) then submit_cpu_event slot c state now false k else k
    else k in
  set_state c (mkCpuState (task_pid next) 0 now 0 0 false) k.

Definition handle_sys_enter (c tid now : Z) (k : Kernel) : Kernel :=
  let state := state_of c k in
  if negb (cs_tid state =? tid) then k
  else if cs_in_kernel state then k
  else
    set_state c (mkCpuState (cs_tid state) (cs_tgid state) (cs_start_time state) now (cs_kernel_time_acc state) true) k.

Definition handle_sys_exit (c tid now : Z) (k : Kernel) : Kernel :=
  let state := state_of c k in
  if negb (cs_tid state =? tid) then k
  else if cs_in_kernel state && (0 <? cs_kernel_start_time state) then
    set_state c (mkCpuState (cs_tid state) (cs_tgid state) (cs_start_time state) 0
      (cs_kernel_time_acc state +64 (now -64 cs_kernel_start_time state)) false) k
  else
    set_state c (mkCpuState (cs_tid state) (cs_tgid state) (cs_start_time state) (cs_kernel_start_time state)
      (cs_kernel_time_acc state) false) k.

Definition handle_boundary_event (slot : Slot) (c : Z) (current : Task) (now : Z) (k : Kernel) : Kernel :=
  let state := state_of c k in
  let state := if should_track_tgid k (task_tgid current) then set_tgid (task_tgid current) state else state in
  let k := submit_cpu_event slot c state now true k in
  set_state c (mkCpuState (cs_tid state) (cs_tgid state) now
    (if cs_in_kernel state then now else cs_kernel_start_time state) 0 (cs_in_kernel state)) k.

(** What happens on a processor, and a process entered into the filter. *)
Inductive Tracepoint :=
| SchedSwitch (c : Z) (prev next : Task) (now : Z) (slot : Slot)
| SysEnter (c : Z) (current : Task) (now : Z)
| SysExit (c : Z) (current : Task) (now : Z)
| Boundary (c : Z) (current : Task) (now : Z) (slot : Slot)
| Filter (tgid : Z).

Definition handle (t : Tracepoint) (k : Kernel) : Kernel :=
  match t with
  | SchedSwitch c prev next now slot => handle_sched_switch slot c prev next now k
  | SysEnter c current now => handle_sys_enter c (task_pid current) now k
  | SysExit c current now => handle_sys_exit c (task_pid current) now k
  | Boundary c current now slot => handle_boundary_event slot c current now k
  | Filter tgid => mkKernel (cpu_states k) ({[tgid]} ∪ followed_tgids k) (ring k)
  end.

Definition handle_all (ts : list Tracepoint) (k : Kernel) : Kernel := foldl (fun k t => handle t k) k ts.

Definition kernel_init : Kernel := mkKernel ∅ (list_to_set (tracked_tgids cfg)) [].

(** ** The time the scheduler gives *)

#[export] Instance Task_eq_dec : EqDecision Task.
Proof. solve_decision. Defined.

(** The time [th] had since [since], when [cur] is what runs. *)
Definition stint (th : Task) (cur : option Task) (since : option Z) (until : Z) : Z :=
  match cur, since with
  | Some th', Some t => if decide (th' = th) then until - t else 0
  | _, _ => 0
  end.

(** The time a thread runs on processor [c] until [until]: between the switches to
    it and away from it.  What runs before the first switch is not known. *)
Fixpoint cpu_time (c : Z) (th : Task) (cur : option Task) (since : option Z) (ts : list Tracepoint) (until : Z) : Z :=
  match ts with
  | [] => stint th cur since until
  | SchedSwitch c' _ next now _ :: ts =>
      if c' =? c then stint th cur since now + cpu_time c th (Some next) (Some now) ts until
      else cpu_time c th cur since ts until
  | _ :: ts => cpu_time c th cur since ts until
  end.

(** The part of it between the entry into a system call and its exit, or the switch
    to another thread. *)
Fixpoint syscall_time (c : Z) (th : Task) (cur : option Task) (entered : option Z) (ts : list Tracepoint) (until : Z) :
    Z :=
  match ts with
  | [] => stint th cur entered until
  | SchedSwitch c' _ next now _ :: ts =>
      if c' =? c then stint th cur entered now + syscall_time c th (Some next) None ts until
      else syscall_time c th cur entered ts until
  | SysEnter c' _ now :: ts =>
      if c' =? c then syscall_time c th cur (Some (default now entered)) ts until
      else syscall_time c th cur entered ts until
  | SysExit c' _ now :: ts =>
      if c' =? c then stint th cur entered now + syscall_time c th cur None ts until
      else syscall_time c th cur entered ts until
  | _ :: ts => syscall_time c th cur entered ts until
  end.

(** What is switched away from, enters and leaves a system call, or is interrupted
    by the timer is what runs. *)
Fixpoint scheduled (c : Z) (cur : option Task) (ts : list Tracepoint) : Prop :=
  match ts with
  | [] => True
  | SchedSwitch c' prev next _ _ :: ts =>
      if c' =? c then (forall th, cur = Some th -> th = prev) /\ scheduled c (Some next) ts else scheduled c cur ts
  | SysEnter c' current _ :: ts | SysExit c' current _ :: ts | Boundary c' current _ _ :: ts =>
      (c' = c -> forall th, cur = Some th -> th = current) /\ scheduled c cur ts
  | Filter _ :: ts => scheduled c cur ts
  end.

Definition time_of (t : Tracepoint) (before : Z) : Z :=
  match t with
  | SchedSwitch _ _ _ now _ | SysEnter _ _ now | SysExit _ _ now | Boundary _ _ now _ => now
  | Filter _ => before
  end.

Fixpoint clock_ok (time : Z) (ts : list Tracepoint) : Prop :=
  match ts with
  | [] => True
  | t :: ts => time <= time_of t time /\ clock_ok (time_of t time) ts
  end.

(** The end of a run that began at [time]. *)
Definition clock_after (time : Z) (ts : list Tracepoint) : Z := foldl (fun time t => time_of t time) time ts.

Definition task_ok (t : Task) : Prop := in_u 32 (task_pid t) /\ in_u 32 (task_tgid t).

Definition slot_ok (s : Slot) : Prop := room s = true /\ in_u 24 (hole s).

(** Widths, and room in the ring. *)
Definition tracepoint_ok (t : Tracepoint) : Prop :=
  match t with
  | SchedSwitch c prev next now slot =>
      in_u 32 c /\ task_ok prev /\ task_ok next /\ in_u 64 now /\ slot_ok slot
  | SysEnter c current now | SysExit c current now => in_u 32 c /\ task_ok current /\ in_u 64 now
  | Boundary c current now slot => in_u 32 c /\ task_ok current /\ in_u 64 now /\ slot_ok slot
  | Filter _ => True
  end.

(** ** What is in the ring *)

Definition decoded (k : Kernel) : list CpuEvent :=
  omap (fun data => match parse_plain 40 parse_cpu_event data "cpu event" with Ok e => Some e | Err _ => None end)
    (ring k).

(** How the collector knows a thread. *)
Definition key_of (th : Task) : Z * Z := (as_signed 32 (task_tgid th), as_signed 32 (task_pid th)).

(** What the collector counts for a thread on a processor. *)
Definition reports (c : Z) (th : Task) (k : Kernel) : list CpuEvent :=
  List.filter (fun e => cpu e =? c) (events_of (key_of th) (decoded k)).

Lemma event_record_read e h :
  fits (event_record e h) -> parse_plain 40 parse_cpu_event (encode (event_record e h)) "cpu event" = Ok e.
Proof.
  intros H. rewrite parse_plain_encode by (cbn; lia). f_equal. destruct e as [tid tgid e kt s c b].
  unfold parse_cpu_event. f_equal; try read_field 0%nat.
  assert (field 1 36 (encode (event_record (mkCpuEvent tid tgid e kt s c b) h)) = Z.b2z b) as ->
    by read_field 0%nat. by destruct b.
Qed.

(** The record of an event, as it is submitted. *)
Definition event_of_state (c : Z) (s : CpuState) (now : Z) (b : bool) : CpuEvent :=
  mkCpuEvent (cs_tid s) (cs_tgid s) now
    (if cs_in_kernel s && (0 <? cs_kernel_start_time s)
     then cs_kernel_time_acc s +64 (now -64 cs_kernel_start_time s)
     else cs_kernel_time_acc s) (cs_start_time s) c b.

Definition wanted (c : Z) (th : Task) (e : CpuEvent) : bool :=
  (cpu e =? c) && (counted e && bool_decide (event_key e = key_of th)).

Lemma reports_submit c th slot c' s now b k :
  room slot = true -> fits (event_record (event_of_state c' s now b) (hole slot)) ->
  reports c th (submit_cpu_event slot c' s now b k) =
  reports c th k ++ (let e := event_of_state c' s now b in if wanted c th e then [e] else []).
Proof.
  intros Hr Hf. set (e := event_of_state c' s now b) in *.
  assert (decoded (submit_cpu_event slot c' s now b k) = decoded k ++ [e]) as Hd.
  { unfold decoded, submit_cpu_event, ringbuf_submit. rewrite Hr. cbn [ring]. fold (event_of_state c' s now b). fold e.
    rewrite omap_app. cbn [omap list_omap]. by rewrite event_record_read. }
  clearbody e. unfold reports, wanted, events_of. rewrite Hd, !List.filter_app. f_equal. cbn [List.filter].
  destruct (counted e && _); cbn; by destruct (cpu e =? c).
Qed.

Lemma reports_set_state c th c' s k : reports c th (set_state c' s k) = reports c th k.
Proof. done. Qed.

Lemma state_of_set c c' s k : state_of c (set_state c' s k) = if c' =? c then s else state_of c k.
Proof.
  unfold state_of. cbn. destruct (Z.eqb_spec c' c) as [->|Hne]; [by rewrite lookup_insert_eq|].
  by rewrite lookup_insert_ne.
Qed.

(** ** One processor *)

(** What the program keeps for a processor on which [cur] runs. *)
Record sound (cur : option Task) (time : Z) (s : CpuState) : Prop := {
  so_none : cur = None -> cs_tid s = 0;
  so_some th : cur = Some th ->
    task_ok th /\ cs_tid s = task_pid th /\ (cs_tgid s = 0 \/ cs_tgid s = task_tgid th) /\ 0 < cs_start_time s;
  so_tgid : in_u 32 (cs_tgid s);
  so_start : 0 <= cs_start_time s <= time;
  so_kernel : cs_in_kernel s = true ->
    0 < cs_kernel_start_time s <= time /\ cs_kernel_time_acc s <= cs_kernel_start_time s - cs_start_time s;
  so_acc : 0 <= cs_kernel_time_acc s <= time - cs_start_time s
}.

(** What is not reported yet. *)
Definition entered (s : CpuState) : option Z := if cs_in_kernel s then Some (cs_kernel_start_time s) else None.

Definition share (th : Task) (cur : option Task) (amount : Z) : Z :=
  match cur with Some th' => if decide (th' = th) then amount else 0 | None => 0 end.

Lemma stint_shift th cur a b until : stint th cur (Some a) until = share th cur (b - a) + stint th cur (Some b) until.
Proof. unfold stint, share. destruct cur as [th'|]; [|done]. destruct (decide _); lia. Qed.

Lemma cpu_time_shift c th cur a b ts until :
  cpu_time c th cur (Some a) ts until = share th cur (b - a) + cpu_time c th cur (Some b) ts until.
Proof.
  induction ts as [|t ts IH]; [apply stint_shift|]. destruct t; cbn [cpu_time]; try apply IH.
  destruct (_ =? c); [|apply IH]. rewrite (stint_shift th cur a b). lia.
Qed.

Lemma syscall_time_shift c th cur a b ts until :
  syscall_time c th cur (Some a) ts until = share th cur (b - a) + syscall_time c th cur (Some b) ts until.
Proof.
  induction ts as [|t ts IH]; [apply stint_shift|].
  destruct t; cbn [syscall_time]; try (destruct (_ =? c)); try apply IH; rewrite (stint_shift th cur a b); lia.
Qed.

Lemma cpu_time_none c th since ts until : cpu_time c th None since ts until = cpu_time c th None None ts until.
Proof.
  induction ts as [|t ts IH]; [done|]. destruct t; cbn [cpu_time]; try apply IH. by destruct (_ =? c).
Qed.

(** The time in the kernel that an event reports. *)
Definition kernel_so_far (s : CpuState) (now : Z) : Z :=
  cs_kernel_time_acc s + if cs_in_kernel s then now - cs_kernel_start_time s else 0.

Lemma sound_later cur time now s : sound cur time s -> time <= now -> sound cur now s.
Proof. intros [H1 H2 H3 H4 H5 H6] Hle. split; auto; [lia| |lia]. intros Hk. destruct (H5 Hk). lia. Qed.

Lemma event_of_state_sound c cur now s b h :
  sound cur now s -> in_u 64 now -> in_u 32 c -> in_u 24 h ->
  event_of_state c s now b =
    mkCpuEvent (cs_tid s) (cs_tgid s) now (kernel_so_far s now) (cs_start_time s) c b /\
  fits (event_record (event_of_state c s now b) h).
Proof.
  intros [H1 H2 H3 H4 H5 H6] Hn Hc Hh. unfold in_u in *. assert (0 <= cs_tid s < 2 ^ 32) as Ht.
  { destruct cur as [th|]; [destruct (H2 th eq_refl) as ([? ?] & -> & _); done|]. rewrite H1 by done. lia. }
  assert (event_of_state c s now b =
    mkCpuEvent (cs_tid s) (cs_tgid s) now (kernel_so_far s now) (cs_start_time s) c b) as E.
  { unfold event_of_state, kernel_so_far. f_equal. destruct (cs_in_kernel s); cbn [andb]; [|lia].
    destruct (H5 eq_refl). destruct (Z.ltb_spec 0 (cs_kernel_start_time s)); [|lia]. by rewrite !wrap_small by (rewrite ?wrap_small; lia). }
  split; [exact E|]. rewrite E. unfold fits, event_record, kernel_so_far in *.
  repeat first [apply Forall_cons; split | apply Forall_nil_2]; cbn; unfold in_u; try lia.
  - destruct (cs_in_kernel s); [destruct (H5 eq_refl)|]; lia.
  - destruct b; cbn; lia.
Qed.

(** A thread that the collector can tell from idle processors. *)
Definition thread_ok (th : Task) : Prop := task_ok th /\ task_pid th <> 0 /\ task_tgid th <> 0.

Lemma wanted_sound c th cur time s e :
  sound cur time s -> thread_ok th -> (cur = Some th -> cs_tgid s = task_tgid th) ->
  ce_tid e = cs_tid s -> ce_tgid e = cs_tgid s -> start_time e = cs_start_time s -> cpu e = c ->
  wanted c th e = bool_decide (cur = Some th).
Proof.
  intros [H1 H2 H3 H4 _ _] ((Hp & Hg) & Hp0 & Hg0) Hsame E1 E2 E3 <-. unfold wanted, counted, event_key, key_of.
  rewrite Z.eqb_refl, E1, E2, E3. cbn [andb]. destruct cur as [th'|]; [|by rewrite (H1 eq_refl), andb_false_r].
  destruct (H2 th' eq_refl) as ((Hp' & Hg') & Ht & Htg & Hs). rewrite Ht.
  destruct (Z.eqb_spec (cs_start_time s) 0); [lia|].
  destruct (decide (th' = th)) as [->|Hne].
  - rewrite (Hsame eq_refl). destruct (Z.eqb_spec (task_tgid th) 0), (Z.eqb_spec (task_pid th) 0); try done. cbn.
    by rewrite !bool_decide_true.
  - rewrite (bool_decide_false (Some th' = Some th)) by congruence.
    destruct Htg as [Hz|Hz]; rewrite Hz; [done|]. apply andb_false_iff. right. apply bool_decide_false. intros [= Ea Eb].
    apply (as_signed_inj 32) in Ea, Eb; try done. apply Hne. destruct th', th. cbn in *. by subst.
Qed.

(** What an event adds to the times that are reported of a thread. *)
Lemma submit_totals c th slot cur now s b k :
  sound cur now s -> thread_ok th -> (cur = Some th -> cs_tgid s = task_tgid th) ->
  in_u 64 now -> in_u 32 c -> slot_ok slot ->
  let k' := submit_cpu_event slot c s now b k in
  total ran (reports c th k') = total ran (reports c th k) + share th cur (now - cs_start_time s) /\
  total ce_kernel_time_ns (reports c th k') =
    total ce_kernel_time_ns (reports c th k) + share th cur (kernel_so_far s now).
Proof.
  intros Hs Hth Hsame Hn Hc [Hr Hh] k'. destruct (event_of_state_sound c cur now s b (hole slot) Hs Hn Hc Hh) as [E Hf].
  assert (forall f l1 l2, total f (l1 ++ l2) = total f l1 + total f l2) as Happ.
  { intros f l1 l2. unfold total. induction l1 as [|e l1 IH]; cbn; lia. }
  assert (wanted c th (event_of_state c s now b) = bool_decide (cur = Some th)) as Hw
    by (rewrite E; by apply (wanted_sound c th cur now s)).
  unfold k'. split.
  - rewrite reports_submit, Happ by done. cbn zeta. rewrite Hw. f_equal. rewrite E. unfold share, ran, total.
    destruct cur as [th'|]; [|done]. destruct (decide (th' = th)) as [->|Hne].
    + rewrite bool_decide_true by done. cbn. lia.
    + rewrite bool_decide_false by congruence. done.
  - rewrite reports_submit, Happ by done. cbn zeta. rewrite Hw. f_equal. rewrite E. unfold share, total.
    destruct cur as [th'|]; [|done]. destruct (decide (th' = th)) as [->|Hne].
    + rewrite bool_decide_true by done. cbn. lia.
    + rewrite bool_decide_false by congruence. done.
Qed.

(** Events of other processors are others' reports. *)
Lemma reports_other c c' th slot s now b k :
  c' <> c -> in_u 32 c' -> reports c th (submit_cpu_event slot c' s now b k) = reports c th k.
Proof.
  intros Hne Hc. unfold submit_cpu_event, ringbuf_submit. destruct (room slot); [|done].
  set (l := event_record _ _). unfold reports, decoded. cbn [ring]. rewrite omap_app. cbn [omap list_omap].
  rewrite parse_plain_encode by (cbn; lia). unfold events_of. rewrite !List.filter_app.
  assert (cpu (parse_cpu_event (encode l)) = c') as Hl.
  { unfold parse_cpu_event. cbn [cpu].
    by apply (field_encode (take 5 l) 4 c' (drop 6 l)). }
  cbn [List.filter]. destruct (counted _ && _); cbn [List.filter]; [|apply app_nil_r].
  rewrite Hl. destruct (Z.eqb_spec c' c); [congruence|]. apply app_nil_r.
Qed.

(** *** Step by step *)

(** The times of a thread, reported and not, and what the scheduler gave it. *)
Record accounts (c : Z) (th : Task) (cur cur' : option Task) (k k' : Kernel) (ts ts' : list Tracepoint) : Prop := {
  ac_cpu until :
    total ran (reports c th k') + cpu_time c th cur' (Some (cs_start_time (state_of c k'))) ts' until =
    total ran (reports c th k) + cpu_time c th cur (Some (cs_start_time (state_of c k))) ts until;
  ac_kernel until :
    total ce_kernel_time_ns (reports c th k') + share th cur' (cs_kernel_time_acc (state_of c k')) +
      syscall_time c th cur' (entered (state_of c k')) ts' until =
    total ce_kernel_time_ns (reports c th k) + share th cur (cs_kernel_time_acc (state_of c k)) +
      syscall_time c th cur (entered (state_of c k)) ts until
}.

Lemma accounts_trans c th cur cur1 cur2 k k1 k2 ts ts1 ts2 :
  accounts c th cur cur1 k k1 ts ts1 -> accounts c th cur1 cur2 k1 k2 ts1 ts2 -> accounts c th cur cur2 k k2 ts ts2.
Proof. intros [H1 H2] [H3 H4]. split; intros u; [by rewrite H3|by rewrite H4]. Qed.

Lemma share_add th cur a b : share th cur (a + b) = share th cur a + share th cur b.
Proof. unfold share. destruct cur as [th'|]; [|done]. destruct (decide _); lia. Qed.

Lemma stint_share th cur a until : stint th cur (Some a) until = share th cur (until - a).
Proof. done. Qed.

Lemma share_kernel th cur s now :
  share th cur (kernel_so_far s now) = share th cur (cs_kernel_time_acc s) + stint th cur (entered s) now.
Proof.
  unfold kernel_so_far, entered. rewrite share_add. f_equal. destruct (cs_in_kernel s); [done|].
  unfold share, stint. destruct cur as [th'|]; [|done]. by destruct (decide _).
Qed.

Lemma sound_tgid cur time s th :
  sound cur time s -> cur = Some th -> sound cur time (set_tgid (task_tgid th) s).
Proof.
  intros [H1 H2 H3 H4 H5 H6] E. subst cur. destruct (H2 th eq_refl) as ((? & Hg) & ? & ? & ?).
  split; try done. intros th' [= <-]. split_and!; try done. by right.
Qed.

Lemma share_other th th' amount : th' <> th -> share th (Some th') amount = 0.
Proof. intros. unfold share. by rewrite decide_False. Qed.

(** A switch reports what ran, if it is followed. *)
Lemma switch_reported c th prev now slot cur k :
  sound cur now (state_of c k) -> thread_ok th -> should_track_tgid k (task_tgid th) = true ->
  in_u 64 now -> in_u 32 c -> slot_ok slot -> (forall th, cur = Some th -> th = prev) ->
  let state := state_of c k in
  let k1 :=
    if (cs_tid state =? task_pid prev) && negb (cs_tid state =? 0) then
      let state := set_tgid (task_tgid prev) state in
      if should_track_tgid k (cs_tgid state) then submit_cpu_event slot c state now false k else k
    else k in
  total ran (reports c th k1) = total ran (reports c th k) + share th cur (now - cs_start_time state) /\
  total ce_kernel_time_ns (reports c th k1) =
    total ce_kernel_time_ns (reports c th k) + share th cur (kernel_so_far state now).
Proof.
  intros Hs Hth Htr Hn Hc Hslot Hprev state k1. unfold k1. clear k1. destruct cur as [th'|].
  - pose proof (Hprev th' eq_refl) as ->. destruct (so_some _ _ _ Hs prev eq_refl) as (_ & Ht & _ & Hstart).
    fold state in Ht. rewrite Ht, Z.eqb_refl. cbn [andb negb].
    destruct (Z.eqb_spec (task_pid prev) 0) as [E0|E0]; cbn [negb].
    { assert (prev <> th) as Hne by (intros ->; by destruct Hth as (_ & ? & _)). rewrite !share_other by done. lia. }
    cbn [cs_tgid set_tgid]. destruct (should_track_tgid k (task_tgid prev)) eqn:Et.
    + apply (submit_totals c th slot (Some prev) now (set_tgid (task_tgid prev) state) false k); try done.
      * by apply sound_tgid.
      * by intros [= ->].
    + assert (prev <> th) as Hne by (intros ->; congruence). rewrite !share_other by done. lia.
  - unfold state. rewrite (so_none _ _ _ Hs eq_refl). cbn [share]. destruct ((0 =? _) && _) eqn:E; [|lia].
    apply andb_true_iff in E as [_ E]. done.
Qed.

(** A switch on the processor. *)
Lemma switch_accounts c th prev next now slot cur k ts :
  sound cur now (state_of c k) -> thread_ok th -> should_track_tgid k (task_tgid th) = true ->
  tracepoint_ok (SchedSwitch c prev next now slot) -> 0 < now -> (forall th, cur = Some th -> th = prev) ->
  let k' := handle_sched_switch slot c prev next now k in
  sound (Some next) now (state_of c k') /\
  accounts c th cur (Some next) k k' (SchedSwitch c prev next now slot :: ts) ts.
Proof.
  intros Hs Hth Htr (Hc & Hprev & Hnext & Hn & Hslot) Hpos Hprev_eq.
  destruct (switch_reported c th prev now slot cur k Hs Hth Htr Hn Hc Hslot Hprev_eq) as [Hr Hk].
  cbn zeta. unfold handle_sched_switch. set (k1 := if (_ =? _) && _ then _ else k) in *. split.
  - rewrite state_of_set, Z.eqb_refl. split; cbn; try done; try lia.
    intros th' [= <-]. split_and!; try done. by left.
  - split; intros u; rewrite reports_set_state, state_of_set, Z.eqb_refl; cbn [cs_start_time cs_kernel_time_acc];
      cbn [cpu_time syscall_time]; rewrite Z.eqb_refl.
    + rewrite Hr, stint_share. lia.
    + rewrite Hk, share_kernel. unfold entered at 2. cbn [cs_in_kernel].
      assert (share th (Some next) 0 = 0) as -> by (unfold share; by destruct (decide _)). lia.
Qed.

Lemma enter_accounts c th current now cur k ts :
  sound cur now (state_of c k) -> 0 < now -> (forall th, cur = Some th -> th = current) ->
  let k' := handle_sys_enter c (task_pid current) now k in
  sound cur now (state_of c k') /\ accounts c th cur cur k k' (SysEnter c current now :: ts) ts.
Proof.
  intros Hs Hpos Hcur. cbn zeta. unfold handle_sys_enter.
  destruct (Z.eqb_spec (cs_tid (state_of c k)) (task_pid current)) as [Et|Et]; cbn [negb].
  - destruct (cs_in_kernel (state_of c k)) eqn:Ek.
    + split; [done|]. split; intros u; cbn [cpu_time syscall_time]; [lia|]. rewrite Z.eqb_refl.
      unfold entered. by rewrite Ek.
    + rewrite state_of_set, Z.eqb_refl. split.
      { destruct Hs as [H1 H2 H3 H4 H5 H6]. by split; cbn; try done; try lia. }
      split; intros u; rewrite reports_set_state, state_of_set, Z.eqb_refl; cbn [cs_start_time cs_kernel_time_acc];
        cbn [cpu_time syscall_time]; [lia|]. rewrite Z.eqb_refl. unfold entered. rewrite Ek. cbn. lia.
  - split; [done|]. assert (cur = None) as -> by (destruct cur as [th'|]; [|done];
      pose proof (Hcur th' eq_refl) as ->; by destruct (so_some _ _ _ Hs current eq_refl) as (_ & ? & _)).
    split; intros u; cbn [cpu_time syscall_time]; [lia|]. rewrite Z.eqb_refl. f_equal.
    generalize (entered (state_of c k)), (Some (default now (entered (state_of c k)))).
    induction ts as [|t ts IH]; intros a b; [done|].
    destruct t; cbn [syscall_time]; try destruct (_ =? c); try apply IH; done.
Qed.

Lemma exit_accounts c th current now cur k ts :
  sound cur now (state_of c k) -> in_u 64 now -> (forall th, cur = Some th -> th = current) ->
  let k' := handle_sys_exit c (task_pid current) now k in
  sound cur now (state_of c k') /\ accounts c th cur cur k k' (SysExit c current now :: ts) ts.
Proof.
  intros Hs Hn Hcur. cbn zeta. unfold handle_sys_exit.
  destruct (Z.eqb_spec (cs_tid (state_of c k)) (task_pid current)) as [Et|Et]; cbn [negb].
  - destruct (cs_in_kernel (state_of c k)) eqn:Ek; cbn [andb].
    + destruct (so_kernel _ _ _ Hs Ek) as [Hks Hacc]. pose proof (so_acc _ _ _ Hs) as Ha.
      pose proof (so_start _ _ _ Hs) as Hst. unfold in_u in Hn.
      destruct (Z.ltb_spec 0 (cs_kernel_start_time (state_of c k))); [|lia].
      rewrite !wrap_small by (rewrite ?wrap_small; lia). rewrite state_of_set, Z.eqb_refl. split.
      { destruct Hs as [H1 H2 H3 H4 H5 H6]. split; cbn; try done; lia. }
      split; intros u; rewrite reports_set_state, state_of_set, Z.eqb_refl; cbn [cs_start_time cs_kernel_time_acc];
        cbn [cpu_time syscall_time]; [lia|]. rewrite Z.eqb_refl, share_add. unfold entered at 1 2. rewrite Ek.
      cbn [cs_in_kernel]. rewrite stint_share. lia.
    + rewrite state_of_set, Z.eqb_refl. split.
      { destruct Hs as [H1 H2 H3 H4 H5 H6]. by split. }
      split; intros u; rewrite reports_set_state, state_of_set, Z.eqb_refl; cbn [cs_start_time cs_kernel_time_acc];
        cbn [cpu_time syscall_time]; [lia|]. rewrite Z.eqb_refl. unfold entered. rewrite Ek. cbn.
      unfold stint at 1. destruct cur as [th'|]; lia.
  - split; [done|]. assert (cur = None) as -> by (destruct cur as [th'|]; [|done];
      pose proof (Hcur th' eq_refl) as ->; by destruct (so_some _ _ _ Hs current eq_refl) as (_ & ? & _)).
    split; intros u; cbn [cpu_time syscall_time]; [lia|]. rewrite Z.eqb_refl. cbn. f_equal.
    generalize (entered (state_of c k)), (@None Z). induction ts as [|t ts IH]; intros a b; [done|].
    destruct t; cbn [syscall_time]; try destruct (_ =? c); try apply IH; done.
Qed.

Lemma boundary_accounts c th current now slot cur k ts :
  sound cur now (state_of c k) -> thread_ok th -> should_track_tgid k (task_tgid th) = true ->
  tracepoint_ok (Boundary c current now slot) -> 0 < now -> (forall th, cur = Some th -> th = current) ->
  let k' := handle_boundary_event slot c current now k in
  sound cur now (state_of c k') /\ accounts c th cur cur k k' (Boundary c current now slot :: ts) ts /\
  cs_start_time (state_of c k') = now /\ cs_kernel_time_acc (state_of c k') = 0 /\
  (cs_in_kernel (state_of c k') = true -> cs_kernel_start_time (state_of c k') = now).
Proof.
  intros Hs Hth Htr (Hc & Hcurok & Hn & Hslot) Hpos Hcur. cbn zeta. unfold handle_boundary_event.
  set (s := if should_track_tgid k (task_tgid current) then _ else _).
  assert (sound cur now s) as Hs'.
  { unfold s. destruct (should_track_tgid k (task_tgid current)); [|done]. destruct cur as [th'|].
    - pose proof (Hcur th' eq_refl) as ->. by apply (sound_tgid (Some current)).
    - destruct Hs as [H1 H2 H3 H4 H5 H6]. split; try done. apply Hcurok. }
  assert (cs_start_time s = cs_start_time (state_of c k) /\ cs_kernel_time_acc s = cs_kernel_time_acc (state_of c k) /\
    cs_in_kernel s = cs_in_kernel (state_of c k) /\ entered s = entered (state_of c k)) as (E1 & E2 & E3 & E4)
    by (unfold s; by destruct (should_track_tgid k (task_tgid current))).
  destruct (submit_totals c th slot cur now s true k) as [Hr Hk]; try done.
  { intros ->. pose proof (Hcur th eq_refl) as <-. unfold s. by rewrite Htr. }
  rewrite state_of_set, Z.eqb_refl. cbn [cs_start_time cs_kernel_time_acc cs_kernel_start_time cs_in_kernel].
  split_and!; [|split; intros u|done|done|by intros ->].
  - destruct Hs' as [H1 H2 H3 H4 H5 H6]. split; cbn; try done; try lia.
    + intros th' E. destruct (H2 th' E) as (? & ? & ? & ?). by split_and!.
    + intros ->. lia.
  - rewrite reports_set_state, state_of_set, Z.eqb_refl. cbn [cs_start_time cpu_time]. rewrite Hr, E1.
    rewrite (cpu_time_shift c th cur (cs_start_time (state_of c k)) now). lia.
  - rewrite reports_set_state, state_of_set, Z.eqb_refl. cbn [cs_kernel_time_acc syscall_time].
    rewrite Hk, share_kernel, E2, E4. unfold entered at 2. cbn [cs_in_kernel cs_kernel_start_time]. rewrite E3.
    assert (share th cur 0 = 0) as -> by (unfold share; destruct cur; [by destruct (decide _)|done]).
    unfold entered. destruct (cs_in_kernel (state_of c k)).
    + rewrite (syscall_time_shift c th cur (cs_kernel_start_time (state_of c k)) now), stint_share. lia.
    + unfold stint. destruct cur; lia.
Qed.

(** A tracepoint of another processor. *)
Lemma other_accounts c th cur k t ts :
  tracepoint_ok t ->
  match t with
  | SchedSwitch c' _ _ _ _ | SysEnter c' _ _ | SysExit c' _ _ | Boundary c' _ _ _ => c' <> c
  | Filter _ => True
  end ->
  state_of c (handle t k) = state_of c k /\ accounts c th cur cur k (handle t k) (t :: ts) ts.
Proof.
  intros Ht Hne.
  assert (state_of c (handle t k) = state_of c k /\ reports c th (handle t k) = reports c th k) as [E1 E2].
  { destruct t as [c' prev next now slot|c' current now|c' current now|c' current now slot|g]; cbn [handle]; try done.
    - destruct Ht as (Hc & _). unfold handle_sched_switch. rewrite state_of_set, reports_set_state.
      destruct (Z.eqb_spec c' c); [done|]. destruct (_ && _); [|done]. destruct (should_track_tgid _ _); [|done].
      split; [done|]. by apply reports_other.
    - unfold handle_sys_enter. destruct (negb _); [done|]. destruct (cs_in_kernel _); [done|].
      rewrite state_of_set. by destruct (Z.eqb_spec c' c).
    - unfold handle_sys_exit. destruct (negb _); [done|].
      destruct (_ && _); rewrite state_of_set; by destruct (Z.eqb_spec c' c).
    - destruct Ht as (Hc & _). unfold handle_boundary_event. rewrite state_of_set, reports_set_state.
      destruct (Z.eqb_spec c' c); [done|]. split; [done|]. by apply reports_other. }
  split; [done|]. split; intros u; rewrite E1, E2; destruct t; cbn [cpu_time syscall_time]; try done;
    by destruct (Z.eqb_spec c0 c).
Qed.

Lemma handle_tracked t k tgid : should_track_tgid k tgid = true -> should_track_tgid (handle t k) tgid = true.
Proof.
  assert (forall k', followed_tgids k ⊆ followed_tgids k' -> should_track_tgid k tgid = true ->
    should_track_tgid k' tgid = true) as H.
  { intros k' Hsub. unfold should_track_tgid. destruct (negb _); [done|]. destruct (tgid =? 0); [done|].
    rewrite !bool_decide_eq_true. set_solver. }
  apply H. destruct t as [c prev next now slot|c current now|c current now|c current now slot|g]; cbn [handle].
  - unfold handle_sched_switch. cbn [followed_tgids set_state].
    destruct (_ && _); [|reflexivity]. destruct (should_track_tgid k (cs_tgid _)); reflexivity.
  - unfold handle_sys_enter. destruct (negb _); [reflexivity|]. destruct (cs_in_kernel _); reflexivity.
  - unfold handle_sys_exit. destruct (negb _); [reflexivity|]. destruct (_ && _); reflexivity.
  - reflexivity.
  - cbn. set_solver.
Qed.

(** ** Whole runs *)

Definition last_task (c : Z) (cur : option Task) (ts : list Tracepoint) : option Task :=
  foldl (fun cur t => match t with
    | SchedSwitch c' _ next _ _ => if c' =? c then Some next else cur
    | _ => cur
    end) cur ts.

Lemma step_accounts c th t ts cur time k :
  thread_ok th -> sound cur time (state_of c k) -> scheduled c cur (t :: ts) -> 0 < time -> time <= time_of t time ->
  tracepoint_ok t -> should_track_tgid k (task_tgid th) = true ->
  let cur' := last_task c cur [t] in
  sound cur' (time_of t time) (state_of c (handle t k)) /\ scheduled c cur' ts /\
  accounts c th cur cur' k (handle t k) (t :: ts) ts.
Proof.
  intros Hth Hs0 Hsch Hpos Hle Ht Htr. pose proof (sound_later _ _ _ _ Hs0 Hle) as Hs.
  destruct t as [c' prev next now slot|c' current now|c' current now|c' current now slot|g];
    cbn [scheduled time_of last_task foldl handle] in *.
  5: { destruct (other_accounts c th cur k (Filter g) ts) as [E Ha]; try done. }
  all: destruct (Z.eqb_spec c' c) as [->|Hne].
  - destruct Hsch as [Hp Hsch].
    destruct (switch_accounts c th prev next now slot cur k ts) as [H1 H2]; (done || lia).
  - destruct (other_accounts c th cur k (SchedSwitch c' prev next now slot) ts) as [E Ha]; [done..|].
    cbn [handle] in *. by rewrite E.
  - destruct Hsch as [Hp Hsch]. specialize (Hp eq_refl). pose proof Ht as (_ & _ & Hn).
    destruct (enter_accounts c th current now cur k ts) as [H1 H2]; (done || lia).
  - destruct Hsch as [Hp Hsch]. destruct (other_accounts c th cur k (SysEnter c' current now) ts) as [E Ha]; [done..|].
    cbn [handle] in *. by rewrite E.
  - destruct Hsch as [Hp Hsch]. specialize (Hp eq_refl). pose proof Ht as (_ & _ & Hn).
    destruct (exit_accounts c th current now cur k ts) as [H1 H2]; (done || lia).
  - destruct Hsch as [Hp Hsch]. destruct (other_accounts c th cur k (SysExit c' current now) ts) as [E Ha]; [done..|].
    cbn [handle] in *. by rewrite E.
  - destruct Hsch as [Hp Hsch]. specialize (Hp eq_refl).
    destruct (boundary_accounts c th current now slot cur k ts) as (H1 & H2 & _); (done || lia).
  - destruct Hsch as [Hp Hsch].
    destruct (other_accounts c th cur k (Boundary c' current now slot) ts) as [E Ha]; [done..|].
    cbn [handle] in *. by rewrite E.
Qed.

Lemma run_accounts c th ts ts' cur time k :
  thread_ok th -> sound cur time (state_of c k) -> scheduled c cur (ts ++ ts') -> 0 < time -> clock_ok time ts ->
  Forall tracepoint_ok ts -> should_track_tgid k (task_tgid th) = true ->
  let cur' := last_task c cur ts in
  sound cur' (clock_after time ts) (state_of c (handle_all ts k)) /\ scheduled c cur' ts' /\
  should_track_tgid (handle_all ts k) (task_tgid th) = true /\ time <= clock_after time ts /\
  accounts c th cur cur' k (handle_all ts k) (ts ++ ts') ts'.
Proof.
  intros Hth. revert cur time k. induction ts as [|t ts IH]; intros cur time k Hs Hsch Hpos Hc Hok Htr.
  { by split_and!. }
  apply Forall_cons in Hok as [Ht Hok]. destruct Hc as [Hle Hc].
  destruct (step_accounts c th t (ts ++ ts') cur time k Hth Hs Hsch Hpos Hle Ht Htr) as (Hs' & Hsch' & Ha).
  destruct (IH _ _ _ Hs' Hsch' ltac:(lia) Hc Hok (handle_tracked t k _ Htr)) as (I1 & I2 & I3 & I4 & I5).
  cbn [app last_task foldl handle_all clock_after] in *. split_and!; [exact I1|exact I2|exact I3|by etrans|].
  eapply accounts_trans; [exact Ha|exact I5].
Qed.

Lemma sound_init c : sound None 1 (state_of c kernel_init).
Proof. unfold state_of, kernel_init. cbn. rewrite lookup_empty. by split. Qed.

Lemma reports_init c th : reports c th kernel_init = [].
Proof. done. Qed.

(** The processor of a tracepoint. *)
Definition processor_of (t : Tracepoint) : option Z :=
  match t with
  | SchedSwitch c _ _ _ _ | SysEnter c _ _ | SysExit c _ _ | Boundary c _ _ _ => Some c
  | Filter _ => None
  end.

(** The last thing that happens on a processor is a boundary. *)
Definition closed (c : Z) (ts : list Tracepoint) (until : Z) : Prop :=
  exists ts1 current slot ts2, ts = ts1 ++ Boundary c current until slot :: ts2 /\
    Forall (fun t => processor_of t <> Some c) ts2.

Lemma quiet_reports c th ts k :
  Forall tracepoint_ok ts -> Forall (fun t => processor_of t <> Some c) ts ->
  reports c th (handle_all ts k) = reports c th k.
Proof.
  revert k. induction ts as [|t ts IH]; intros k Hok Hq; [done|].
  apply Forall_cons in Hok as [Ht Hok], Hq as [Hn Hq].
  change (handle_all (t :: ts) k) with (handle_all ts (handle t k)). rewrite IH by done.
  destruct t as [c' prev next now slot|c' current now|c' current now|c' current now slot|g]; cbn [handle]; try done;
    assert (c' <> c) as Hne by (intros ->; by apply Hn).
  - destruct Ht as (Hc & _). unfold handle_sched_switch. rewrite reports_set_state.
    destruct (_ && _); [|done]. destruct (should_track_tgid k (cs_tgid _)); [|done]. by apply reports_other.
  - unfold handle_sys_enter. destruct (negb _); [done|]. by destruct (cs_in_kernel _).
  - unfold handle_sys_exit. destruct (negb _); [done|]. by destruct (_ && _).
  - destruct Ht as (Hc & _). unfold handle_boundary_event. rewrite reports_set_state. by apply reports_other.
Qed.

Lemma quiet_times c th cur since ts1 ts2 until :
  Forall (fun t => processor_of t <> Some c) ts2 ->
  cpu_time c th cur since (ts1 ++ ts2) until = cpu_time c th cur since ts1 until /\
  syscall_time c th cur since (ts1 ++ ts2) until = syscall_time c th cur since ts1 until.
Proof.
  intros Hq. revert cur since. induction ts1 as [|t ts1 IH]; intros cur since; cbn [app].
  - induction Hq as [|t ts2 Hn _ IH]; [done|].
    destruct t; cbn [cpu_time syscall_time]; try done;
      (destruct (Z.eqb_spec c0 c); [exfalso; apply Hn; cbn; congruence|]); done.
  - destruct t; cbn [cpu_time syscall_time]; try (destruct (_ =? c));
      rewrite ?(proj1 (IH _ _)), ?(proj2 (IH _ _)); done.
Qed.

Lemma clock_split time ts1 t ts2 :
  clock_ok time (ts1 ++ t :: ts2) -> clock_ok time ts1 /\ clock_after time ts1 <= time_of t (clock_after time ts1).
Proof.
  revert time. induction ts1 as [|t1 ts1 IH]; intros time Hc; [by destruct Hc|].
  destruct Hc as [? Hc]. destruct (IH _ Hc). by split.
Qed.

Lemma stint_now th cur until : stint th cur (Some until) until = 0.
Proof. unfold stint. destruct cur; [destruct (decide _); lia|done]. Qed.

Lemma share_zero th cur : share th cur 0 = 0.
Proof. unfold share. destruct cur; [by destruct (decide _)|done]. Qed.

Lemma stint_none th cur until : stint th cur None until = 0.
Proof. by destruct cur. Qed.

(** What is reported of a thread on a processor up to a boundary is its time. *)
Lemma reports_exact c th ts until :
  thread_ok th -> scheduled c None ts -> clock_ok 1 ts -> Forall tracepoint_ok ts -> closed c ts until ->
  should_track_tgid kernel_init (task_tgid th) = true ->
  total ran (reports c th (handle_all ts kernel_init)) = cpu_time c th None None ts until /\
  total ce_kernel_time_ns (reports c th (handle_all ts kernel_init)) = syscall_time c th None None ts until.
Proof.
  intros Hth Hsch Hc Hok (ts1 & current & slot & ts2 & -> & Hq) Htr.
  destruct (clock_split _ _ _ _ Hc) as [Hc1 Hle]. cbn [time_of] in Hle.
  apply Forall_app in Hok as [Hok1 [Hb Hok2]%Forall_cons].
  set (b := Boundary c current until slot) in *.
  destruct (run_accounts c th ts1 (b :: ts2) None 1 kernel_init Hth (sound_init c) Hsch ltac:(lia) Hc1 Hok1 Htr)
    as (Hs & Hsch' & Htr' & Hge & Ha).
  set (k1 := handle_all ts1 kernel_init) in *. cbn [scheduled b] in Hsch'. destruct Hsch' as [Hcur _].
  apply (sound_later _ _ until) in Hs; [|done].
  destruct (boundary_accounts c th current until slot (last_task c None ts1) k1 ts2) as (_ & Ha2 & E1 & E2 & E3);
    try done; [lia|by apply Hcur|].
  assert (handle_all (ts1 ++ b :: ts2) kernel_init = handle_all ts2 (handle b k1)) as ->
    by (unfold handle_all; by rewrite foldl_app).
  rewrite quiet_reports by done. change (handle_boundary_event slot c current until k1) with (handle b k1) in *.
  pose proof (accounts_trans _ _ _ _ _ _ _ _ _ _ _ Ha Ha2) as [H1 H2].
  specialize (H1 until). specialize (H2 until). rewrite reports_init, E1, E2, share_zero in *.
  destruct (quiet_times c th (last_task c None ts1) (Some until) [] ts2 until Hq) as [Q1 _].
  destruct (quiet_times c th (last_task c None ts1) (entered (state_of c (handle b k1))) [] ts2 until Hq) as [_ Q2].
  cbn [app] in Q1, Q2. rewrite Q1, cpu_time_none in H1. rewrite Q2 in H2. cbn [cpu_time syscall_time] in H1, H2.
  rewrite stint_now in H1. cbn [total foldr] in *. split; [lia|].
  assert (stint th (last_task c None ts1) (entered (state_of c (handle b k1))) until = 0) as Hz.
  { unfold entered. destruct (cs_in_kernel _) eqn:Ek; [rewrite (E3 eq_refl); apply stint_now|apply stint_none]. }
  assert (state_of c kernel_init = cpu_state_zero) as Hinit by done.
  rewrite Hz, Hinit in H2. cbn [entered cs_in_kernel cpu_state_zero share cs_kernel_time_acc] in H2. lia.
Qed.

(** ** What the collector counts *)

(** An event that is submitted. *)
Lemma submit_decoded slot c cur now s b k :
  sound cur now s -> in_u 64 now -> in_u 32 c -> slot_ok slot ->
  exists e, decoded (submit_cpu_event slot c s now b k) = decoded k ++ [e] /\ event_ok e /\ cpu e = c.
Proof.
  intros Hs Hn Hc [Hr Hh]. destruct (event_of_state_sound c cur now s b (hole slot) Hs Hn Hc Hh) as [E Hf].
  exists (event_of_state c s now b). split_and!; [| |done].
  - unfold decoded, submit_cpu_event, ringbuf_submit. rewrite Hr. cbn [ring].
    fold (event_of_state c s now b). rewrite omap_app. cbn [omap list_omap]. by rewrite event_record_read.
  - rewrite E. unfold event_ok, in_u, u64_max, kernel_so_far in *. cbn. destruct Hs as [_ _ _ Hst Hk Ha].
    destruct (cs_in_kernel s); [destruct (Hk eq_refl)|]; lia.
Qed.

Lemma step_decoded c cur t ts time k :
  processor_of t = Some c -> sound cur time (state_of c k) -> scheduled c cur (t :: ts) ->
  time <= time_of t time -> tracepoint_ok t ->
  exists l, decoded (handle t k) = decoded k ++ l /\ Forall (fun e => event_ok e /\ cpu e = c) l.
Proof.
  intros Hp Hs0 Hsch Hle Ht. pose proof (sound_later _ _ _ _ Hs0 Hle) as Hs.
  destruct t as [c' prev next now slot|c' current now|c' current now|c' current now slot|g]; cbn in Hp; try done;
    injection Hp as ->; cbn [scheduled time_of handle] in *.
  - rewrite Z.eqb_refl in Hsch. destruct Hsch as [Hprev _], Ht as (Hc & _ & _ & Hn & Hslot).
    unfold handle_sched_switch. unfold decoded at 1. cbn [ring set_state].
    destruct (Z.eqb_spec (cs_tid (state_of c k)) (task_pid prev)) as [E|]; cbn [andb];
      [|exists []; by rewrite app_nil_r].
    destruct (Z.eqb_spec (cs_tid (state_of c k)) 0) as [|E0]; cbn [negb]; [exists []; by rewrite app_nil_r|].
    destruct (should_track_tgid k (cs_tgid _)); [|exists []; by rewrite app_nil_r].
    destruct cur as [th|]; [|by rewrite (so_none _ _ _ Hs) in E0]. pose proof (Hprev th eq_refl) as ->.
    destruct (submit_decoded slot c (Some prev) now (set_tgid (task_tgid prev) (state_of c k)) false k) as (e & Hd & He);
      try done; [by apply sound_tgid|]. exists [e]. split; [exact Hd|by constructor].
  - exists []. rewrite app_nil_r. split; [|constructor]. unfold handle_sys_enter. destruct (negb _); [done|].
    by destruct (cs_in_kernel _).
  - exists []. rewrite app_nil_r. split; [|constructor]. unfold handle_sys_exit. destruct (negb _); [done|].
    by destruct (_ && _).
  - destruct Hsch as [Hcur _], Ht as (Hc & Hcurok & Hn & Hslot). unfold handle_boundary_event.
    set (s := if should_track_tgid k (task_tgid current) then _ else _).
    assert (sound cur now s) as Hs'.
    { unfold s. destruct (should_track_tgid k (task_tgid current)); [|done]. destruct cur as [th'|].
      - pose proof (Hcur eq_refl th' eq_refl) as ->. by apply (sound_tgid (Some current)).
      - destruct Hs as [H1 H2 H3 H4 H5 H6]. split; try done. apply Hcurok. }
    destruct (submit_decoded slot c cur now s true k) as (e & Hd & He); try done.
    exists [e]. split; [exact Hd|by constructor].
Qed.

(** Every record is an event of one of the processors. *)
Lemma run_decoded (cs : list Z) th ts ts' :
  thread_ok th -> should_track_tgid kernel_init (task_tgid th) = true ->
  (forall c, c ∈ cs -> scheduled c None (ts ++ ts')) -> clock_ok 1 (ts ++ ts') -> Forall tracepoint_ok (ts ++ ts') ->
  (forall t c, t ∈ ts -> processor_of t = Some c -> c ∈ cs) ->
  Forall (fun e => event_ok e /\ cpu e ∈ cs) (decoded (handle_all ts kernel_init)).
Proof.
  intros Hth Htr. revert ts'. induction ts as [|t ts IH] using rev_ind; intros ts' Hsch Hc Hok Hcs; [constructor|].
  rewrite <-app_assoc in Hc, Hok. cbn [app] in Hc, Hok.
  assert (forall c, c ∈ cs -> scheduled c None (ts ++ t :: ts')) as Hsch'
    by (intros c Hin; specialize (Hsch c Hin); by rewrite <-app_assoc in Hsch).
  assert (Forall (fun e => event_ok e /\ cpu e ∈ cs) (decoded (handle_all ts kernel_init))) as Hd.
  { apply (IH (t :: ts')); [done..|].
    intros t0 c Ht0. apply Hcs. set_solver. }
  unfold handle_all. rewrite foldl_app. cbn [foldl]. fold (handle_all ts kernel_init).
  apply Forall_app in Hok as [Hok1 [Ht _]%Forall_cons]. destruct (clock_split _ _ _ _ Hc) as [Hc1 Hle].
  destruct (processor_of t) as [c|] eqn:Ep; [|by destruct t].
  assert (c ∈ cs) as Hin by (apply (Hcs t); set_solver).
  destruct (run_accounts c th ts (t :: ts') None 1 kernel_init Hth (sound_init c)) as (Hs & Hs' & _); auto; [lia|].
  destruct (step_decoded c _ t ts' _ _ Ep Hs Hs' Hle Ht) as (l & -> & Hl). apply Forall_app. split; [done|].
  eapply Forall_impl; [exact Hl|]. by intros e [? ->].
Qed.

Lemma total_by_processor f (cs : list Z) th k :
  NoDup cs -> Forall (fun e => cpu e ∈ cs) (decoded k) ->
  total f (events_of (key_of th) (decoded k)) = sum_of (fun c => total f (reports c th k)) cs.
Proof.
  intros Hcs Hd. unfold reports. assert (Forall (fun e => cpu e ∈ cs) (events_of (key_of th) (decoded k))) as He.
  { rewrite Forall_forall in Hd. apply Forall_forall. intros e [He _]%list_elem_of_In%filter_In.
    by apply Hd, list_elem_of_In. }
  induction He as [|e l Hin _ IH].
  - clear. unfold sum_of. induction cs as [|c cs IH]; [done|]. cbn in *. lia.
  - rewrite total_cons, IH. clear IH Hd. revert Hin. induction Hcs as [|c cs Hc Hcs IH]; intros Hin.
    { by apply elem_of_nil in Hin. }
    rewrite !sum_of_cons.
    assert (forall c, total f (List.filter (fun e => cpu e =? c) (e :: l)) =
      (if cpu e =? c then f e else 0) + total f (List.filter (fun e => cpu e =? c) l)) as Hf.
    { intros c'. cbn [List.filter]. destruct (cpu e =? c'); [apply total_cons|lia]. }
    rewrite Hf. destruct (Z.eqb_spec (cpu e) c) as [<-|Hne].
    + rewrite (sum_of_ext (fun c => total f (List.filter (fun e => cpu e =? c) (e :: l)))
        (fun c => total f (List.filter (fun e => cpu e =? c) l)) cs); [lia|].
      intros c Hin'. rewrite Hf. destruct (Z.eqb_spec (cpu e) c) as [<-|]; [done|lia].
    + apply elem_of_cons in Hin as [|Hin]; [done|]. specialize (IH Hin). lia.
Qed.

End Programs.

(** C10. From the scheduler's switches to the collector's sums.  On any processors,
    with room in the ring, after a run that ends with a boundary on each of them: the
    time the collector has counted for a thread of a followed process is exactly the
    time between the switches to it and away from it, on all processors together,
    whatever boundaries cut it up; and its time in the kernel is the part of it from
    the entry into a system call to the exit or to the next switch. *)
Theorem cpu_times_counted cfg (cs : list Z) until th ts :
  NoDup cs -> thread_ok th -> should_track_tgid cfg (kernel_init cfg) (task_tgid th) = true ->
  (forall t c, t ∈ ts -> processor_of t = Some c -> c ∈ cs) ->
  (forall c, c ∈ cs -> scheduled c None ts /\ closed c ts (until c)) ->
  clock_ok 1 ts -> Forall tracepoint_ok ts ->
  let ran_for := sum_of (fun c => cpu_time c th None None ts (until c)) cs in
  let in_kernel := sum_of (fun c => syscall_time c th None None ts (until c)) cs in
  ran_for <= u64_max -> in_kernel <= u64_max ->
  let stats := foldl (fun m e => enter_event e m) ∅ (decoded (handle_all cfg ts (kernel_init cfg))) in
  match stats !! key_of th with
  | Some st => cpu_time_ns st = ran_for /\ kernel_time_ns st = in_kernel
  | None => ran_for = 0 /\ in_kernel = 0
  end.
Proof.
  intros Hcs Hth Htr Hin Hsch Hc Hok ran_for in_kernel H1 H2 stats. unfold stats. clear stats.
  set (k := handle_all cfg ts (kernel_init cfg)).
  assert (Forall (fun e => event_ok e /\ cpu e ∈ cs) (decoded k)) as Hd.
  { apply (run_decoded cfg cs th ts []); rewrite ?app_nil_r; try done. by intros c []%Hsch. }
  assert (Forall event_ok (decoded k)) as He by (eapply Forall_impl; [exact Hd|]; by intros e []).
  assert (Forall (fun e => cpu e ∈ cs) (decoded k)) as Hp by (eapply Forall_impl; [exact Hd|]; by intros e []).
  assert (total ran (events_of (key_of th) (decoded k)) = ran_for) as E1.
  { rewrite (total_by_processor ran cs) by done. apply sum_of_ext. intros c Hcin. destruct (Hsch c Hcin).
    by apply (reports_exact cfg c th ts). }
  assert (total ce_kernel_time_ns (events_of (key_of th) (decoded k)) = in_kernel) as E2.
  { rewrite (total_by_processor ce_kernel_time_ns cs) by done. apply sum_of_ext. intros c Hcin.
    destruct (Hsch c Hcin). by apply (reports_exact cfg c th ts). }
  rewrite (entered_lookup (decoded k) ∅ (key_of th) He).
  2: { rewrite lookup_empty. unfold sums_ok. rewrite E1, E2. cbn. lia. }
  rewrite lookup_empty. destruct (events_of (key_of th) (decoded k)) as [|e l]; [by rewrite <-E1, <-E2|].
  unfold after_events. rewrite E1, E2. cbn. lia.
Qed.

(** ** Examples *)

Definition demo_slot : Slot := mkSlot true 0.

(** Thread 7 runs on two processors; on the first it is interrupted by a boundary in
    the middle of a system call. *)
Definition demo_ts : list Tracepoint :=
  let t7 := mkTask 7 6 in let t8 := mkTask 8 6 in let idle := mkTask 0 0 in
  [SchedSwitch 0 t8 t7 100 demo_slot; SysEnter 0 t7 120; Boundary 0 t7 150 demo_slot; SysExit 0 t7 160;
   SchedSwitch 0 t7 t8 200 demo_slot; SchedSwitch 1 idle t7 300 demo_slot; Boundary 1 t7 350 demo_slot;
   Boundary 0 t8 400 demo_slot].

Definition demo_until (c : Z) : Z := if c =? 0 then 400 else 350.

Definition demo_config : KernelConfig := mkKernelConfig 4096 true [6].

Lemma demo_scheduled c : c ∈ [0; 1] -> scheduled c None demo_ts /\ closed c demo_ts (demo_until c).
Proof.
  intros Hc. apply elem_of_cons in Hc as [E|Hc]; [|apply list_elem_of_singleton in Hc as E]; subst c.
  - split; [cbn; repeat split; intros; simplify_eq; done|].
    exists (take 7 demo_ts), (mkTask 8 6), demo_slot, []. split; [done|constructor].
  - split; [cbn; repeat split; intros; simplify_eq; done|].
    exists (take 6 demo_ts), (mkTask 7 6), demo_slot, (drop 7 demo_ts). split; [done|by repeat constructor].
Qed.

Lemma demo_ts_ok : clock_ok 1 demo_ts /\ Forall tracepoint_ok demo_ts.
Proof. split; [cbn; lia|]. repeat (apply Forall_cons; split); try apply Forall_nil_2; by repeat split. Qed.

Lemma cpu_times_counted_witness :
  let stats := foldl (fun m e => enter_event e m) ∅ (decoded (handle_all demo_config demo_ts (kernel_init demo_config))) in
  match stats !! (6, 7) with
  | Some st => cpu_time_ns st = 150 /\ kernel_time_ns st = 40
  | None => 150 = 0 /\ 40 = 0
  end.
Proof.
  destruct demo_ts_ok as [H1 H2].
  refine (cpu_times_counted demo_config [0; 1] demo_until (mkTask 7 6) demo_ts _ _ _ _ demo_scheduled H1 H2 _ _).
  - repeat constructor; set_solver.
  - by repeat split.
  - by vm_compute.
  - intros t c Hin. repeat (apply elem_of_cons in Hin as [E|Hin]; [subst t; intros [= <-]; set_solver|]).
    by apply elem_of_nil in Hin.
  - by vm_compute.
  - by vm_compute.
Defined.

(** A thread that sleeps in a system call is in the kernel again when it goes on,
    which the program does not see: of the fifty units in this call ten are counted. *)
Example resumed_call_lost :
  let t7 := mkTask 7 6 in let t8 := mkTask 8 6 in
  let ts := [SchedSwitch 0 t8 t7 10 demo_slot; SysEnter 0 t7 20; SchedSwitch 0 t7 t8 30 demo_slot;
    SchedSwitch 0 t8 t7 50 demo_slot; SysExit 0 t7 90; SchedSwitch 0 t7 t8 100 demo_slot] in
  map (fun e => (ran e, ce_kernel_time_ns e))
    (events_of (6, 7) (decoded (handle_all demo_config ts (kernel_init demo_config)))) = [(20, 10); (50, 0)].
Proof. vm_compute. reflexivity. Qed.
