(* ===== verification/Profiler.v ===== *)
(** * The profiler

    Call stacks sampled by the kernel, resolved by the crate [interned-symbolizer]
    and reported with the interned data they need (src/bpf/src/profiler.rs). *)

From S2P Require Import Prelude Protocol Text Float BpfConfig BpfEvents Symbolizer.
Open Scope Z_scope.

Definition STACK_DEPTH : nat := 127.

Definition ProfilerConfig_default : ProfilerConfig :=
  {| pr_frequency := 0;
     pr_kernel_samples := false;
     pr_user_samples := false;
     pr_pid_filters := [];
     pr_filter_process := [];
     pr_debug_syms := false;
     pr_perf_map := false;
     pr_map_files := false;
     pr_ringbuf := 0 |}.

(** What a configuration says that only has an empty table. *)
Definition ProfilerConfig_of_empty : ProfilerConfig :=
  {| pr_frequency := 99;
     pr_kernel_samples := false;
     pr_user_samples := true;
     pr_pid_filters := [];
     pr_filter_process := [];
     pr_debug_syms := true;
     pr_perf_map := false;
     pr_map_files := true;
     pr_ringbuf := 256 * 1024 |}.

(** ** Events *)

Record PerfEvent := mkPerfEvent {
  timestamp : Z;
  tgid : Z;
  pid : Z;
  cpu_id : Z;
  ustack_id : Z;
  kstack_id : Z
}.

Definition parse_perf_event (data : list Z) : PerfEvent :=
  mkPerfEvent (field 8 0 data) (field 4 8 data) (field 4 12 data) (field 4 16 data)
    (as_signed 32 (field 4 20 data)) (as_signed 32 (field 4 24 data)).

(** A record of the ring, and the stacks of the kernel's map while it is handled:
    the addresses behind an id, [STACK_DEPTH] of them. *)
Definition StackRecord : Type := list Z * (Z -> option (list Z)).

(** The position of the last address that is not zero. *)
Fixpoint last_non_zero (frames : list Z) : option nat :=
  match frames with
  | [] => None
  | x :: frames =>
      match last_non_zero frames with
      | Some n => Some (S n)
      | None => if x =? 0 then None else Some 0%nat
      end
  end.

Definition get_stack_frames (answer : option (list Z)) : list Z :=
  match answer with
  | Some frames => take (S (default 0%nat (last_non_zero frames))) frames
  | None => []
  end.

Definition create_sample (event : PerfEvent) (callstack_iid : Z) : Sample.t Z Z Z :=
  Sample.mk _ _ _ (cpu_id event) (TrackId.Thread (as_signed 32 (pid event)) (as_signed 32 (tgid event)))
    (timestamp event) callstack_iid CpuMode_Unknown.

(** ** The collector *)

Record Profiler := mkProfiler { port : Port; symbolizer : Symbolizer }.

(** What [new] asks of the kernel programs. *)
Record KernelConfig := mkKernelConfig {
  events_entries : Z;
  filter_tgid : bool;
  collect_kstack : bool;
  collect_ustack : bool;
  filtered_pids : list Z
}.

Definition kernel_config (config : ProfilerConfig) : KernelConfig :=
  mkKernelConfig (wrap 32 (pr_ringbuf config))
    (negb (BpfConfig.is_empty (pr_pid_filters config)) || negb (BpfConfig.is_empty (pr_filter_process config)))
    (pr_kernel_samples config) (pr_user_samples config) (map (wrap 32) (pr_pid_filters config)).

Definition process_config (config : ProfilerConfig) : ProcessConfig :=
  mkProcessConfig (pr_debug_syms config) (pr_perf_map config) (pr_map_files config).

(** The state [new] ends with, once the programs are loaded and attached. *)
Definition Profiler_init (config : ProfilerConfig) : Profiler :=
  mkProfiler no_port (Symbolizer_new (process_config config)).

Section Profiler.

Variable user : list Message -> Message -> Z.
Variable stream_id : Z.

(** The symbolizer of [blazesym], and the hash of a list of frame ids. *)
Variable blaze : Source -> list Z -> result Z (list Symbolized).
Variable hash_callstack : list Z -> Z.

Definition stacks_of (event : PerfEvent) (stackmap : Z -> option (list Z)) : list Z * list Z :=
  (if 0 <=? ustack_id event then get_stack_frames (stackmap (ustack_id event)) else [],
   if 0 <=? kstack_id event then get_stack_frames (stackmap (kstack_id event)) else []).

Definition data_message (data : InternedData.t Z) : Message :=
  Message.Stream stream_id (Event.InternedData data).

Definition sample_message (event : PerfEvent) (callstack_iid : Z) : Message :=
  Message.Stream stream_id (Event.Sample (create_sample event callstack_iid)).

Definition handle_event (event : PerfEvent) (stackmap : Z -> option (list Z)) (s : Profiler) : Z * Profiler :=
  let '(ustack_frames, kstack_frames) := stacks_of event stackmap in
  if is_empty ustack_frames && is_empty kstack_frames then (0, s)
  else
    match symbolize blaze (sy_cfg (symbolizer s)) (as_signed 32 (tgid event)) ustack_frames kstack_frames with
    | Err _ => (0, s)
    | Ok interned =>
        let '(callstack_iid, interned_data_opt, cache) := data hash_callstack interned (sy_cache (symbolizer s)) in
        let symbolizer := mkSymbolizer cache (sy_cfg (symbolizer s)) in
        let '(result, p) :=
          match interned_data_opt with
          | Some interned_data => send user (data_message interned_data) (port s)
          | None => (0, port s)
          end in
        if negb (result =? 0) then (result, mkProfiler p symbolizer)
        else
          let '(result, p) := send user (sample_message event callstack_iid) p in
          (result, mkProfiler p symbolizer)
    end.

(** The handler unwraps the event, so a record that is none panics. *)
Definition handle_record (record : StackRecord) (s : Profiler) : option (Z * Profiler) :=
  let '(bytes, stackmap) := record in
  match parse_plain 32 parse_perf_event bytes "perf event" with
  | Ok event => Some (handle_event event stackmap s)
  | Err _ => None
  end.

Variable stops : Z -> option (result string unit).

Definition read_ring (what : string) (records : list StackRecord) (at_end : result string unit) (s : Profiler) :
    option (result BpfError unit * Profiler) :=
  '(read, s) ← deliver stops handle_record records at_end s;
  match read with
  | Err e => Some (Err (MapError ("failed to " ++ what ++ " events: " ++ e)%string), s)
  | Ok _ => Some (Ok tt, s)
  end.

Definition consume := read_ring "consume".

Definition poll := read_ring "poll".

(** [filter]: the process the kernel's map gets, and the map's answer. *)
Definition filter (update : Z -> result string unit) (pid : Z) : result BpfError unit :=
  match update (wrap 32 pid) with
  | Err e => Err (MapError ("failed to update filter map: " ++ e)%string)
  | Ok _ => Ok tt
  end.

End Profiler.

Example stack_frames :
  get_stack_frames (Some (7 :: 0 :: 9 :: replicate 124 0)) = [7; 0; 9] /\
  get_stack_frames None = [] /\
  get_stack_frames (Some (replicate STACK_DEPTH 0)) = [0].
Proof. by vm_compute. Qed.
