(* ===== verification/ProfilerProps.v ===== *)
(** * Properties of the profiler

    Whoever keeps the interned data of the profiler's stream can resolve every
    sample to the addresses the kernel recorded. *)

From S2P Require Import Prelude Protocol Text Float BpfConfig BpfEvents Symbolizer SymbolizerProps Profiler.
Open Scope Z_scope.

Section Resolve.

Variable user : list Message -> Message -> Z.
Variable stream_id : Z.
Variable blaze : Source -> list Z -> result Z (list Symbolized).
Variable hash : list Z -> Z.
Variable config : ProfilerConfig.
Variable name_of : Z -> Z -> Symbolized.

(** The callback accepts everything, and the symbolizer, asked with the options of this
    configuration, names an address of a process, or of the kernel, the same way every
    time it answers. *)
Hypothesis accepts : forall ms m, user ms m = 0.
Hypothesis names_user : forall pid l syms,
  blaze (SourceProcess (wrap 32 pid) (process_config config)) l = Ok syms -> syms = map (name_of pid) l.
Hypothesis names_kernel : forall l syms, blaze SourceKernel l = Ok syms -> syms = map (name_of (-1)) l.

Definition StackEvent : Type := PerfEvent * (Z -> option (list Z)).

(** What is resolved of an event: nothing, if there is no stack or no symbols. *)
Definition interned_of (cfg : ProcessConfig) (e : StackEvent) : option Interned :=
  let '(event, stackmap) := e in
  let '(u, k) := stacks_of event stackmap in
  if is_empty u && is_empty k then None
  else match symbolize blaze cfg (as_signed 32 (tgid event)) u k with Ok i => Some i | Err _ => None end.

(** The events that are sampled. *)
Definition sampled (cfg : ProcessConfig) (events : list StackEvent) : list (PerfEvent * Interned) :=
  omap (fun e => (fun i => (e.1, i)) <$> interned_of cfg e) events.

Definition handle (e : StackEvent) (s : Profiler) : Z * Profiler :=
  handle_event user stream_id blaze hash e.1 e.2 s.

Lemma handle_event_accepted e s :
  handle e s =
  match interned_of (sy_cfg (symbolizer s)) e with
  | None => (0, s)
  | Some i =>
      let '(id, od, cache) := data hash i (sy_cache (symbolizer s)) in
      (0, mkProfiler (mkPort (sent (port s)
            ++ match od with Some d => [data_message stream_id d] | None => [] end
            ++ [sample_message stream_id e.1 id]) (draws (port s)))
          (mkSymbolizer cache (sy_cfg (symbolizer s))))
  end.
Proof.
  destruct e as [event stackmap]. unfold handle, handle_event, interned_of. cbn [fst snd].
  destruct (stacks_of event stackmap) as [u k]. destruct (is_empty u && is_empty k); [done|].
  destruct (symbolize _ _ _ _ _) as [i|]; [|done].
  destruct (data hash i _) as [[id [d|]] cache]; cbn; rewrite ?accepts; cbn; rewrite ?accepts;
    by rewrite <-?app_assoc.
Qed.

(** The symbols of an event belong to the addresses the kernel recorded. *)
Lemma interned_of_ok event stackmap i :
  interned_of (process_config config) (event, stackmap) = Some i ->
  interned_ok name_of i /\
  frame_keys i = map (fun a => (as_signed 32 (tgid event), a)) (rev (stacks_of event stackmap).1)
                 ++ map (fun a => (-1, a)) (stacks_of event stackmap).2.
Proof.
  unfold interned_of. destruct (stacks_of event stackmap) as [u k]. cbn [fst snd].
  destruct (is_empty u && is_empty k) eqn:E; [done|].
  destruct (symbolize _ _ _ _ _) as [i'|] eqn:Es; [|done]. intros [= ->]. revert Es.
  unfold symbolize. rewrite E.
  destruct (if negb (is_empty u) then _ else _) as [us|] eqn:Eu; cbn; [|done].
  destruct (if negb (is_empty k) then _ else _) as [ks|] eqn:Ek; cbn; [|done].
  destruct (is_empty us && is_empty ks); [done|]. intros Hi. injection Hi as <-. unfold interned_ok, frame_keys. cbn. split; [split|done].
  - destruct (is_empty u) eqn:Eue; cbn in Eu; [injection Eu as <-; by destruct u|].
    destruct (blaze _ u) as [us'|] eqn:Eb; cbn in Eu; [|done]. injection Eu as <-. by apply names_user in Eb.
  - destruct (is_empty k) eqn:Eke; cbn in Ek; [injection Ek as <-; by destruct k|].
    destruct (blaze _ k) as [ks'|] eqn:Eb; cbn in Ek; [|done]. injection Ek as <-. by apply names_kernel in Eb.
Qed.

(** The messages for the sampled events, in order: each sample is the event's, with
    the data it needs in front of it, and resolves in the tables of a reader that
    has kept what was sent so far. *)
Fixpoint answered (samples : list (PerfEvent * Interned)) (t : tables) (ms : list Message) : Prop :=
  match samples with
  | [] => ms = []
  | (event, i) :: samples =>
      exists id od ms',
        ms = match od with Some d => [data_message stream_id d] | None => [] end
             ++ sample_message stream_id event id :: ms' /\
        stack_resolves name_of (receive t od) i id /\ answered samples (receive t od) ms'
  end.

Lemma handle_all_accepted events s t stacks :
  stream_ok name_of hash (sy_cache (symbolizer s)) t stacks
    (map snd (sampled (sy_cfg (symbolizer s)) events)) ->
  exists ms s', until_refused handle events s = (0, s') /\
    sent (port s') = sent (port s) ++ ms /\ answered (sampled (sy_cfg (symbolizer s)) events) t ms.
Proof.
  revert s t stacks. induction events as [|e events IH]; intros s t stacks Hok.
  { exists [], s. split_and!; [done|by rewrite app_nil_r|done]. }
  cbn [until_refused]. rewrite handle_event_accepted. unfold sampled in *. cbn [omap list_omap] in *.
  destruct (interned_of (sy_cfg (symbolizer s)) e) as [i|] eqn:Ei; cbn [fmap option_fmap option_map] in *.
  - cbn [map snd] in Hok. apply stream_step in Hok. destruct (data hash i _) as [[id od] cache].
    destruct Hok as [Hdata Hok]. cbn [negb Z.eqb].
    set (s1 := mkProfiler _ (mkSymbolizer cache _)).
    destruct (IH s1 (receive t od) _ Hok) as (ms & s' & -> & Hs & Ha). do 2 eexists. split; [done|].
    split; [rewrite Hs; cbn [port s1 sent]; by rewrite <-app_assoc|].
    cbn [answered]. exists id, od, ms. split_and!; [by rewrite <-app_assoc| |done].
    exists (stack_ids i (sy_cache (symbolizer s))). by destruct Hdata.
  - cbn [negb Z.eqb]. by apply (IH s t stacks).
Qed.

Lemma sampled_ok events : Forall (interned_ok name_of) (map snd (sampled (process_config config) events)).
Proof.
  apply Forall_forall. intros i (e & <- & He)%list_elem_of_In%in_map_iff. apply list_elem_of_In in He.
  unfold sampled in He. apply list_elem_of_omap in He as ([event stackmap] & _ & Hi).
  destruct (interned_of _ (event, stackmap)) as [i|] eqn:E; [|done]. cbn in Hi. injection Hi as <-.
  by apply interned_of_ok in E as [H _].
Qed.

(** Every event of the profiler whose stacks can be resolved becomes one sample, in
    order, and a reader that keeps the interned data sent in front of it resolves the
    call stack of the sample to the recorded addresses and their names: the user frames
    from the outermost to the innermost, then the kernel frames; an event without
    stacks, or without symbols, becomes nothing. *)
Lemma profiler_samples_resolve events :
  let cfg := process_config config in
  let samples := map snd (sampled cfg events) in
  stream_size samples < u64_max ->
  (forall l l', l ∈ hashed hash Cache.new samples -> l' ∈ hashed hash Cache.new samples ->
    hash l = hash l' -> l = l') ->
  exists s', until_refused handle events (Profiler_init config) = (0, s') /\
    answered (sampled cfg events) no_tables (sent (port s')) /\
    Forall (fun '(event, i) => exists stackmap, (event, stackmap) ∈ events /\
      frame_keys i = map (fun a => (as_signed 32 (tgid event), a)) (rev (stacks_of event stackmap).1)
                     ++ map (fun a => (-1, a)) (stacks_of event stackmap).2) (sampled cfg events).
Proof.
  intros cfg samples Hsize Hcoll.
  destruct (handle_all_accepted events (Profiler_init config) no_tables [])
    as (ms & s' & Hr & Hs & Ha).
  { apply stream_start; [apply sampled_ok|done|done]. }
  exists s'. split_and!; [done|by rewrite Hs|].
  apply Forall_forall. intros [event i] He. unfold sampled in He.
  apply list_elem_of_omap in He as ([event' stackmap] & Hin & Hi).
  destruct (interned_of cfg (event', stackmap)) as [i'|] eqn:E; [|done]. cbn in Hi. injection Hi as <- <-.
  exists stackmap. split; [done|]. by apply interned_of_ok in E as [_ H].
Qed.

End Resolve.

(** ** An example *)

Definition demo_blaze (source : Source) (l : list Z) : result Z (list Symbolized) :=
  Ok (map (demo_names 7) l).

(** A thread sampled twice in user code and once, elsewhere, in the kernel as well. *)
Definition demo_stacks (id : Z) : option (list Z) :=
  if id =? 1 then Some [16; 32; 0; 0] else if id =? 2 then Some [16; 64] else Some [4096; 0].

Definition demo_events : list StackEvent :=
  [(mkPerfEvent 100 7 8 0 1 (-1), demo_stacks); (mkPerfEvent 200 7 8 0 1 (-1), demo_stacks);
   (mkPerfEvent 300 7 8 0 (-14) (-14), demo_stacks); (mkPerfEvent 400 7 8 1 2 3, demo_stacks)].

Lemma profiler_samples_resolve_witness :
  let samples := sampled demo_blaze (process_config ProfilerConfig_default) demo_events in
  stream_size (map snd samples) < u64_max /\ length samples = 3%nat /\
  exists s', until_refused (handle (fun _ _ => 0) 4 demo_blaze demo_hash) demo_events
      (Profiler_init ProfilerConfig_default) = (0, s') /\
    answered 4 (fun _ => demo_names 7) samples no_tables (sent (port s')).
Proof.
  cbn zeta. split_and!; [reflexivity|reflexivity|].
  destruct (profiler_samples_resolve (fun _ _ => 0) 4 demo_blaze demo_hash ProfilerConfig_default
    (fun _ => demo_names 7) ltac:(done) ltac:(intros ? ? ? [= <-]; done) ltac:(intros ? ? [= <-]; done) demo_events) as (s' & Hr & Ha & _).
  - reflexivity.
  - intros l l'.
    change (hashed _ _ _) with [[0; 1]; [0; 1]; [2; 1; 3]].
    rewrite !elem_of_cons, !elem_of_nil. intros; repeat destruct_or?; subst; try done.
  - exists s'. split; [exact Hr|exact Ha].
Defined.
