(* ===== verification/ProfilerKernel.v ===== *)
(** * The kernel program of the profiler

    The timer program of src/bpf/src/bpf/profiler.bpf.c, the map of stacks it fills,
    and what [Profiler] reports of the stacks it has taken. *)

From S2P Require Import Prelude Protocol Text Float BpfConfig BpfEvents KernelRecords Symbolizer SymbolizerProps Profiler.
From S2P Require Import ProfilerProps.
Open Scope Z_scope.

(** ** State *)

(** The processes of the filter, the stacks by their ids, and the ring. *)
Record Kernel := mkKernel {
  filtered : gset Z;
  stackmap : gmap Z (list Z);
  events : list (list Z)
}.

(** A stack as it is when the timer goes off, and what [bpf_get_stackid] answers for
    it: its id, or a negative error. *)
Record Stack := mkStack { stack_id : Z; frames : list Z }.

(** The timer goes off on a processor, in a thread; the ring may have no room, and its
    memory is not cleared. *)
Record Tick := mkTick {
  processor : Z;
  current_tgid : Z;
  current_pid : Z;
  now : Z;
  user_stack : Stack;
  kernel_stack : Stack;
  room : bool;
  hole : Z
}.

(** ** The program *)

(** A value of the map has [STACK_DEPTH] addresses. *)
Definition padded (l : list Z) : list Z := l ++ replicate (STACK_DEPTH - length l) 0.

(** The stack of an id is replaced, as [BPF_F_REUSE_STACKID] asks for. *)
Definition bpf_get_stackid (s : Stack) (m : gmap Z (list Z)) : Z * gmap Z (list Z) :=
  (stack_id s, if 0 <=? stack_id s then <[stack_id s := padded (frames s)]> m else m).

Definition take_stack (collect : bool) (s : Stack) (m : gmap Z (list Z)) : Z * gmap Z (list Z) :=
  if collect then bpf_get_stackid s m else (-1, m).

(** The 32 bytes of a [struct perf_sample_event]. *)
Definition event_record (e : PerfEvent) (hole : Z) : layout :=
  [(8%nat, timestamp e); (4%nat, tgid e); (4%nat, pid e); (4%nat, cpu_id e); (4%nat, wrap 32 (ustack_id e));
   (4%nat, wrap 32 (kstack_id e)); (4%nat, hole)].

Section Program.

Variable cfg : KernelConfig.

Definition apply_tgid_filter (k : Kernel) (tgid : Z) : Z :=
  if negb (filter_tgid cfg) then 0 else if bool_decide (tgid ∈ filtered k) then 0 else 1.

Definition profiler_perf_event (t : Tick) (k : Kernel) : Kernel :=
  if current_pid t =? 0 then k
  else if 0 <? apply_tgid_filter k (current_tgid t) then k
  else if negb (room t) then k
  else
    let '(ustack_id, m) := take_stack (collect_ustack cfg) (user_stack t) (stackmap k) in
    let '(kstack_id, m) := take_stack (collect_kstack cfg) (kernel_stack t) m in
    let e := mkPerfEvent (now t) (current_tgid t) (current_pid t) (processor t) ustack_id kstack_id in
    mkKernel (filtered k) m (ringbuf_submit true (encode (event_record e (hole t))) (events k)).

(** The timer goes off, or the collector enters a process into the filter. *)
Inductive KernelEvent := Timer (t : Tick) | Filter (tgid : Z).

Definition handle (e : KernelEvent) (k : Kernel) : Kernel :=
  match e with
  | Timer t => profiler_perf_event t k
  | Filter tgid => mkKernel ({[tgid]} ∪ filtered k) (stackmap k) (events k)
  end.

Definition handle_all (es : list KernelEvent) (k : Kernel) : Kernel := foldl (fun k e => handle e k) k es.

Definition kernel_init : Kernel := mkKernel (list_to_set (filtered_pids cfg)) ∅ [].

(** ** What is recorded *)

Definition recorded (k : Kernel) (t : Tick) : bool :=
  negb (current_pid t =? 0) && (apply_tgid_filter k (current_tgid t) =? 0) && room t.

Fixpoint recorded_ticks (es : list KernelEvent) (k : Kernel) : list Tick :=
  match es with
  | [] => []
  | e :: es =>
      match e with Timer t => if recorded k t then [t] else [] | Filter _ => [] end ++ recorded_ticks es (handle e k)
  end.

(** The event of a tick. *)
Definition tick_event (t : Tick) : PerfEvent :=
  mkPerfEvent (now t) (current_tgid t) (current_pid t) (processor t)
    (if collect_ustack cfg then stack_id (user_stack t) else -1)
    (if collect_kstack cfg then stack_id (kernel_stack t) else -1).

(** The stacks that are taken of a tick. *)
Definition taken (collect : bool) (s : Stack) : list Z := if collect && (0 <=? stack_id s) then frames s else [].

Definition stacks_taken (t : Tick) : list Z * list Z :=
  (taken (collect_ustack cfg) (user_stack t), taken (collect_kstack cfg) (kernel_stack t)).

(** A stack that was taken ends in an address and is not too deep. *)
Definition stack_ok (s : Stack) : Prop :=
  - 2 ^ 31 <= stack_id s < 2 ^ 31 /\
  (0 <= stack_id s -> (length (frames s) <= STACK_DEPTH)%nat /\ exists a, last (frames s) = Some a /\ a <> 0).

Record tick_typed (t : Tick) : Prop := {
  tt_processor : in_u 32 (processor t);
  tt_tgid : in_u 32 (current_tgid t);
  tt_pid : in_u 32 (current_pid t);
  tt_now : in_u 64 (now t);
  tt_hole : in_u 32 (hole t);
  tt_user : stack_ok (user_stack t);
  tt_kernel : stack_ok (kernel_stack t)
}.

(** No id was given to two stacks. *)
Definition ids_name (stack_of : Z -> list Z) (t : Tick) : Prop :=
  forall s, s = user_stack t \/ s = kernel_stack t -> 0 <= stack_id s -> frames s = stack_of (stack_id s).

Lemma apply_tgid_filter_cases k tgid : apply_tgid_filter k tgid = 0 \/ apply_tgid_filter k tgid = 1.
Proof. unfold apply_tgid_filter. destruct (negb _); [by left|]. destruct (bool_decide _); auto. Qed.

Lemma take_stack_id collect s m : (take_stack collect s m).1 = if collect then stack_id s else -1.
Proof. by destruct collect. Qed.

Lemma handle_timer t k :
  profiler_perf_event t k =
  if recorded k t then
    mkKernel (filtered k)
      (take_stack (collect_kstack cfg) (kernel_stack t) (take_stack (collect_ustack cfg) (user_stack t) (stackmap k)).2).2
      (events k ++ [encode (event_record (tick_event t) (hole t))])
  else k.
Proof.
  unfold profiler_perf_event, recorded, tick_event. destruct (current_pid t =? 0); [done|].
  destruct (apply_tgid_filter_cases k (current_tgid t)) as [->| ->]; cbn [Z.ltb Z.compare Z.eqb negb andb]; [|done].
  destruct (room t); [|done]. cbn [negb].
  pose proof (take_stack_id (collect_ustack cfg) (user_stack t) (stackmap k)) as E1.
  destruct (take_stack (collect_ustack cfg) _ _) as [u m]. cbn [fst snd] in *. subst u.
  pose proof (take_stack_id (collect_kstack cfg) (kernel_stack t) m) as E2.
  destruct (take_stack (collect_kstack cfg) _ _) as [u' m']. cbn [fst snd] in *. subst u'. done.
Qed.

(** *** The map of stacks *)

Section Stacks.

Context (stack_of : Z -> list Z).

Definition named (m : gmap Z (list Z)) : Prop := forall id v, m !! id = Some v -> v = padded (stack_of id).

(** [id] is known, if it is one. *)
Definition known (m : gmap Z (list Z)) (id : Z) : Prop := 0 <= id -> is_Some (m !! id).

Lemma take_stack_named collect s m :
  (0 <= stack_id s -> frames s = stack_of (stack_id s)) -> named m -> named (take_stack collect s m).2.
Proof.
  intros Hs Hm. destruct collect; [|done]. cbn. destruct (Z.leb_spec 0 (stack_id s)); [|done].
  intros id v. destruct (decide (id = stack_id s)) as [->|Hne].
  - rewrite lookup_insert_eq, Hs by done. by intros [= <-].
  - rewrite lookup_insert_ne by done. apply Hm.
Qed.

Lemma take_stack_more collect s m id : is_Some (m !! id) -> is_Some ((take_stack collect s m).2 !! id).
Proof.
  intros H. destruct collect; [|done]. cbn. destruct (0 <=? stack_id s); [|done].
  destruct (decide (id = stack_id s)) as [->|Hne]; [by rewrite lookup_insert_eq|by rewrite lookup_insert_ne].
Qed.

Lemma take_stack_known collect s m :
  known (take_stack collect s m).2 (if collect then stack_id s else -1).
Proof.
  intros H. destruct collect; [|lia]. cbn. destruct (Z.leb_spec 0 (stack_id s)); [by rewrite lookup_insert_eq|lia].
Qed.

Definition event_named (e : KernelEvent) : Prop := match e with Timer t => ids_name stack_of t | Filter _ => True end.

Lemma handle_stacks e k :
  event_named e -> named (stackmap k) ->
  named (stackmap (handle e k)) /\ (forall id, is_Some (stackmap k !! id) -> is_Some (stackmap (handle e k) !! id)) /\
  (forall t, e = Timer t -> recorded k t = true ->
     known (stackmap (handle e k)) (ustack_id (tick_event t)) /\ known (stackmap (handle e k)) (kstack_id (tick_event t))).
Proof.
  intros He Hk. destruct e as [t|tgid]; [|split; [done|by split]]. cbn [handle]. rewrite handle_timer.
  destruct (recorded k t) eqn:Er; [|split_and!; [done|done|]; intros t' [= <-]; by rewrite Er].
  cbn [stackmap]. split_and!.
  - apply take_stack_named; [by apply He; right|]. apply take_stack_named; [by apply He; left|done].
  - intros id H. by apply take_stack_more, take_stack_more.
  - intros t' [= <-] _. split; [|apply take_stack_known]. intros H. by apply take_stack_more, take_stack_known.
Qed.

Lemma run_stacks es k :
  Forall event_named es -> named (stackmap k) ->
  let k' := handle_all es k in
  named (stackmap k') /\ (forall id, is_Some (stackmap k !! id) -> is_Some (stackmap k' !! id)) /\
  Forall (fun t => known (stackmap k') (ustack_id (tick_event t)) /\ known (stackmap k') (kstack_id (tick_event t)))
    (recorded_ticks es k).
Proof.
  intros He. revert k. induction He as [|e es He _ IH]; intros k Hk; [by split_and!|]. cbn zeta.
  change (handle_all (e :: es) k) with (handle_all es (handle e k)).
  destruct (handle_stacks e k He Hk) as (H1 & H2 & H3). destruct (IH (handle e k) H1) as (I1 & I2 & I3).
  split_and!; [done|intros id Hid; by apply I2, H2|]. cbn [recorded_ticks]. apply Forall_app. split; [|done].
  destruct e as [t|]; [|done]. destruct (recorded k t) eqn:Er; [|done]. apply Forall_singleton.
  destruct (H3 t eq_refl Er) as [K1 K2]. split; intros Hid; [by apply I2, K1|by apply I2, K2].
Qed.

End Stacks.

(** *** The ring *)

Lemma run_events es k :
  events (handle_all es k) = events k ++ map (fun t => encode (event_record (tick_event t) (hole t))) (recorded_ticks es k).
Proof.
  revert k. induction es as [|e es IH]; intros k; [by rewrite app_nil_r|].
  change (handle_all (e :: es) k) with (handle_all es (handle e k)). rewrite IH. cbn [recorded_ticks].
  rewrite map_app, app_assoc. f_equal. destruct e as [t|]; [|by rewrite app_nil_r]. cbn [handle]. rewrite handle_timer.
  destruct (recorded k t); [done|by rewrite app_nil_r].
Qed.

Lemma in_recorded es k t : t ∈ recorded_ticks es k -> Timer t ∈ es.
Proof.
  revert k. induction es as [|e es IH]; intros k H; [by apply elem_of_nil in H|]. cbn [recorded_ticks] in H.
  apply elem_of_app in H as [H|H]; [|right; by eapply IH]. destruct e as [t'|]; [|by apply elem_of_nil in H].
  destruct (recorded k t'); [|by apply elem_of_nil in H]. apply list_elem_of_singleton in H as ->. by left.
Qed.

(** Only threads of followed processes are recorded. *)
Lemma recorded_followed es k t :
  t ∈ recorded_ticks es k ->
  current_pid t <> 0 /\ (filter_tgid cfg = true -> current_tgid t ∈ filtered (handle_all es k)).
Proof.
  assert (forall es k, filtered k ⊆ filtered (handle_all es k)) as Hmono.
  { clear. intros es. induction es as [|e es IH]; intros k; [done|].
    change (handle_all (e :: es) k) with (handle_all es (handle e k)). rewrite <-IH. destruct e as [t|]; [|set_solver].
    cbn [handle]. rewrite handle_timer. by destruct (recorded k t). }
  revert k. induction es as [|e es IH]; intros k H; [by apply elem_of_nil in H|]. cbn [recorded_ticks] in H.
  apply elem_of_app in H as [H|H]; [|by apply (IH (handle e k))]. destruct e as [t'|]; [|by apply elem_of_nil in H].
  destruct (recorded k t') eqn:Er; [|by apply elem_of_nil in H]. apply list_elem_of_singleton in H as ->.
  unfold recorded in Er. apply andb_true_iff in Er as [[Hp Hf]%andb_true_iff _]. split.
  - intros E. by rewrite E in Hp.
  - intros Hc. unfold apply_tgid_filter in Hf. rewrite Hc in Hf. cbn in Hf.
    destruct (bool_decide_reflect (current_tgid t' ∈ filtered k)) as [Hin|]; [|done]. by apply (Hmono (Timer t' :: es) k).
Qed.

(** *** Reading back *)

Lemma as_signed_wrap w x : 0 < w -> - 2 ^ (w - 1) <= x < 2 ^ (w - 1) -> as_signed w (wrap w x) = x.
Proof.
  intros Hw Hx. unfold as_signed, wrap. assert (2 ^ w = 2 * 2 ^ (w - 1)) as E.
  { rewrite <-Z.pow_succ_r by lia. f_equal. lia. }
  rewrite Z.mod_mod by lia. destruct (Z.ltb_spec x 0).
  - rewrite <-(Z.mod_add x 1) by lia. rewrite Z.mod_small by lia. destruct (Z.ltb_spec (x + 1 * 2 ^ w) (2 ^ (w - 1))); lia.
  - rewrite Z.mod_small by lia. destruct (Z.ltb_spec x (2 ^ (w - 1))); lia.
Qed.

Lemma record_read t :
  tick_typed t ->
  parse_plain 32 parse_perf_event (encode (event_record (tick_event t) (hole t))) "perf event" = Ok (tick_event t).
Proof.
  intros Ht. destruct Ht as [H1 H2 H3 H4 H5 [Hu _] [Hk _]]. rewrite parse_plain_encode by (cbn; lia). f_equal.
  assert (forall b s, - 2 ^ 31 <= stack_id s < 2 ^ 31 -> - 2 ^ 31 <= (if b : bool then stack_id s else -1) < 2 ^ 31) as Hid
    by (intros [] s Hs; lia).
  pose proof (Hid (collect_ustack cfg) _ Hu) as Hu'. pose proof (Hid (collect_kstack cfg) _ Hk) as Hk'.
  assert (fits (event_record (tick_event t) (hole t))) as Hf.
  { repeat (apply Forall_cons; split); try apply Forall_nil_2; try done; by apply wrap_bound. }
  unfold parse_perf_event. set (l := event_record _ _) in *.
  assert (field 4 20 (encode l) = wrap 32 (ustack_id (tick_event t))) as -> by read_field 0%nat.
  assert (field 4 24 (encode l) = wrap 32 (kstack_id (tick_event t))) as -> by read_field 0%nat.
  rewrite !as_signed_wrap by (done || cbn; lia).
  assert (field 8 0 (encode l) = now t) as -> by read_field 0%nat.
  assert (field 4 8 (encode l) = current_tgid t) as -> by read_field 0%nat.
  assert (field 4 12 (encode l) = current_pid t) as -> by read_field 0%nat.
  assert (field 4 16 (encode l) = processor t) as -> by read_field 0%nat.
  done.
Qed.

(** The zeros behind a stack are cut off again. *)
Lemma last_non_zero_padded l a n :
  last l = Some a -> a <> 0 -> last_non_zero (l ++ replicate n 0) = Some (pred (length l)).
Proof.
  intros Hl Ha. assert (last_non_zero (replicate n 0) = None) as Hz.
  { induction n as [|n IH]; [done|]. cbn. by rewrite IH. }
  induction l as [|x l IH]; [done|]. destruct l as [|y l].
  - injection Hl as ->. cbn. rewrite Hz. by destruct (Z.eqb_spec a 0).
  - change (last_non_zero ((x :: y :: l) ++ replicate n 0)) with
      (match last_non_zero ((y :: l) ++ replicate n 0) with
       | Some n => Some (S n) | None => if x =? 0 then None else Some 0%nat end).
    by rewrite (IH Hl).
Qed.

Lemma get_stack_frames_padded l :
  (length l <= STACK_DEPTH)%nat -> (exists a, last l = Some a /\ a <> 0) -> get_stack_frames (Some (padded l)) = l.
Proof.
  intros Hl (a & Hla & Ha). unfold get_stack_frames, padded. rewrite (last_non_zero_padded l a) by done.
  cbn [default from_option]. destruct l as [|x l]; [done|]. cbn [length pred]. by rewrite take_app_length'.
Qed.

(** The stacks of an event are those that were taken, if no id was reused. *)
Lemma stacks_of_tick stack_of m t :
  named stack_of m -> ids_name stack_of t -> tick_typed t ->
  known m (ustack_id (tick_event t)) -> known m (kstack_id (tick_event t)) ->
  stacks_of (tick_event t) (fun id => m !! id) = stacks_taken t.
Proof.
  intros Hm Hn [_ _ _ _ _ Hu Hk] Ku Kk.
  assert (forall (collect : bool) s, s = user_stack t \/ s = kernel_stack t -> stack_ok s ->
    known m (if collect then stack_id s else -1) ->
    (if 0 <=? (if collect then stack_id s else -1) then get_stack_frames (m !! (if collect then stack_id s else -1)) else []) =
    taken collect s) as H.
  { intros [] s Hs [_ Hok] Hkn; [|done]. unfold taken. cbn [andb]. destruct (Z.leb_spec 0 (stack_id s)) as [Hle|]; [|done].
    destruct (Hkn Hle) as [v Hv]. rewrite Hv. rewrite (Hm _ _ Hv), <-(Hn s Hs Hle).
    apply get_stack_frames_padded; by apply Hok. }
  unfold stacks_of, stacks_taken, tick_event in *. cbn [ustack_id kstack_id] in *. f_equal; apply H; auto.
Qed.

End Program.

(** ** From the stacks to the trace *)

Section Recorded.

Variable user : list Message -> Message -> Z.
Variable stream_id : Z.
Variable blaze : Source -> list Z -> result Z (list Symbolized).
Variable hash : list Z -> Z.
Variable config : ProfilerConfig.
Variable name_of : Z -> Z -> Symbolized.
Variable stops : Z -> option (result string unit).

(** The callback accepts everything, and the symbolizer, asked with the options of this
    configuration, names an address of a process, or of the kernel, the same way every
    time it answers: its names are stable over the run. *)
Hypothesis accepts : forall ms m, user ms m = 0.
Hypothesis goes_on : stops 0 = None.
Hypothesis names_user : forall pid l syms,
  blaze (SourceProcess (wrap 32 pid) (process_config config)) l = Ok syms -> syms = map (name_of pid) l.
Hypothesis names_kernel : forall l syms, blaze SourceKernel l = Ok syms -> syms = map (name_of (-1)) l.

Lemma deliver_samples cfg lookup ts s :
  Forall tick_typed ts ->
  deliver stops (handle_record user stream_id blaze hash)
    (map (fun t => (encode (event_record (tick_event cfg t) (hole t)), lookup)) ts) (Ok tt) s =
  Some (Ok tt, (until_refused (ProfilerProps.handle user stream_id blaze hash)
    (map (fun t => (tick_event cfg t, lookup)) ts) s).2).
Proof.
  intros Ht. revert s. induction Ht as [|t ts Ht _ IH]; intros s; [done|]. cbn [map deliver until_refused].
  set (bytes := encode _).
  assert (handle_record user stream_id blaze hash (bytes, lookup) s =
    Some (ProfilerProps.handle user stream_id blaze hash (tick_event cfg t, lookup) s)) as ->
    by (unfold handle_record, bytes; by rewrite record_read).
  pose proof (handle_event_accepted user stream_id blaze hash accepts (tick_event cfg t, lookup) s) as E.
  assert (exists s1, ProfilerProps.handle user stream_id blaze hash (tick_event cfg t, lookup) s = (0, s1)) as [s1 ->].
  { rewrite E. destruct (interned_of _ _ _) as [i|]; [|by eexists]. destruct (data hash i _) as [[id od] cache]. by eexists. }
  cbn [mbind option_bind]. rewrite goes_on. apply IH.
Qed.

(** C28. From the stacks of the threads to the trace.  Timers go off in any threads, and
    the collector enters processes into the filter; then the collector handles what
    is in the ring, with a callback that accepts everything.  Let no id of the
    kernel's map have been given to two stacks, no two different stacks that are
    interned have the same hash, the interned data be less than [2^64] items, and the
    names [blazesym] gives with the options of the configuration be stable: the same
    for an address of a process, or of the kernel, whenever it answers in this run (a
    process that maps other code there breaks that).  Then every tick in a thread of a
    followed process that the ring had room for, and whose stacks have symbols,
    becomes one sample, in order; a reader that keeps the interned data sent in front
    of it resolves the call stack of the sample to the addresses of the stacks the
    thread had at the tick, and to their names: the user frames from the outermost
    to the innermost, then the kernel frames. *)
Theorem profile_recorded es stack_of :
  let cfg := kernel_config config in
  let k := handle_all cfg es (kernel_init cfg) in
  let ticks := recorded_ticks cfg es (kernel_init cfg) in
  let lookup id := stackmap k !! id in
  let samples := sampled blaze (process_config config) (map (fun t => (tick_event cfg t, lookup)) ticks) in
  (forall t, Timer t ∈ es -> tick_typed t /\ ids_name stack_of t) ->
  stream_size (map snd samples) < u64_max ->
  (forall l l', l ∈ hashed hash Cache.new (map snd samples) -> l' ∈ hashed hash Cache.new (map snd samples) ->
    hash l = hash l' -> l = l') ->
  exists s',
    consume user stream_id blaze hash stops (map (fun data => (data, lookup)) (events k)) (Ok tt) (Profiler_init config) =
      Some (Ok tt, s') /\
    answered stream_id name_of samples no_tables (sent (port s')) /\
    Forall (fun '(event, i) => exists t, t ∈ ticks /\ event = tick_event cfg t /\
      frame_keys i = map (fun a => (as_signed 32 (current_tgid t), a)) (rev (stacks_taken cfg t).1)
                     ++ map (fun a => (-1, a)) (stacks_taken cfg t).2) samples /\
    Forall (fun t => current_pid t <> 0 /\ (filter_tgid cfg = true -> current_tgid t ∈ filtered k)) ticks.
Proof.
  intros cfg k ticks lookup samples Hes Hsize Hcoll.
  assert (Forall tick_typed ticks) as Ht.
  { apply Forall_forall. intros t Hin%in_recorded. by apply Hes. }
  destruct (profiler_samples_resolve user stream_id blaze hash config name_of accepts names_user names_kernel
    (map (fun t => (tick_event cfg t, lookup)) ticks) Hsize Hcoll) as (s' & Hr & Ha & Hf).
  exists s'. split_and!.
  - unfold consume, read_ring, k. rewrite run_events, map_app. cbn [kernel_init events map app]. rewrite map_map.
    fold ticks. rewrite (deliver_samples cfg lookup ticks _ Ht), Hr. done.
  - done.
  - eapply Forall_impl; [exact Hf|]. intros [event i] (m & Hin & Hk).
    apply list_elem_of_In, in_map_iff in Hin as (t & Heq & Hin). injection Heq as <- <-. apply list_elem_of_In in Hin.
    exists t. split_and!; [done|done|]. pose proof (in_recorded cfg es _ t Hin) as Htin.
    assert (Forall (event_named stack_of) es) as Hnamed by (apply Forall_forall; intros [t'|] H'; [by apply Hes|done]).
    destruct (run_stacks cfg stack_of es (kernel_init cfg) Hnamed) as (N1 & _ & N3); [by intros id v|].
    destruct (proj1 (Forall_forall _ _) N3 t Hin) as [Ku Kk].
    pose proof (stacks_of_tick cfg stack_of (stackmap k) t N1 (proj2 (Hes t Htin)) (proj1 (Hes t Htin)) Ku Kk) as E.
    fold lookup in E. rewrite E in Hk. exact Hk.
  - apply Forall_forall. intros t Hin. by apply (recorded_followed cfg es (kernel_init cfg)).
Qed.

End Recorded.

(** ** Examples *)

Definition demo_profile : ProfilerConfig :=
  {| pr_frequency := 99; pr_kernel_samples := true; pr_user_samples := true; pr_pid_filters := [7];
     pr_filter_process := []; pr_debug_syms := true; pr_perf_map := false; pr_map_files := true; pr_ringbuf := 4096 |}.

Definition demo_stack_of (id : Z) : list Z := if id =? 1 then [16; 32] else if id =? 2 then [16; 64] else [4096].

Definition demo_tick (tgid pid now uid kid : Z) : KernelEvent :=
  Timer (mkTick 0 tgid pid now (mkStack uid (demo_stack_of uid)) (mkStack kid (demo_stack_of kid)) true 0).

(** A thread sampled in user code, one of another process, the idle thread, and the
    first again, in a system call. *)
Definition demo_ticks : list KernelEvent :=
  [demo_tick 7 8 100 1 (-14); demo_tick 9 9 110 2 (-14); demo_tick 0 0 120 (-14) 3; demo_tick 7 8 400 2 3].

Lemma demo_profile_ticks_ok t : Timer t ∈ demo_ticks -> tick_typed t /\ ids_name demo_stack_of t.
Proof.
  assert (forall id, id = -14 \/ id = 1 \/ id = 2 \/ id = 3 -> stack_ok (mkStack id (demo_stack_of id))) as Hs.
  { intros id Hid. split; [cbn; lia|]. cbn. intros _. unfold demo_stack_of.
    destruct Hid as [->|[->|[->| ->]]]; (split; [cbn; unfold STACK_DEPTH; lia|by eexists]). }
  assert (forall tgid pid now uid kid, Timer t = demo_tick tgid pid now uid kid -> in_u 32 tgid -> in_u 32 pid ->
    in_u 64 now -> (uid = -14 \/ uid = 1 \/ uid = 2 \/ uid = 3) -> (kid = -14 \/ kid = 1 \/ kid = 2 \/ kid = 3) ->
    tick_typed t /\ ids_name demo_stack_of t) as H.
  { intros tgid pid now uid kid [= ->] Ht Hp Hn Hu Hk. split; [|by intros s [->| ->]].
    split; cbn; [done|done|done|done|done|by apply Hs..]. }
  unfold demo_ticks. rewrite !elem_of_cons, elem_of_nil. intros [E|[E|[E|[E|[]]]]]; eapply H; (exact E || (unfold in_u; lia)).
Qed.

(** A symbolizer whose names depend on its options. *)
Definition demo_options_blaze (source : Source) (l : list Z) : result Z (list Symbolized) :=
  match source with
  | SourceProcess _ cfg => Ok (map (demo_names (if debug_syms cfg then 7 else 8)) l)
  | SourceKernel => Ok (map (demo_names 7) l)
  end.

Lemma profile_recorded_witness :
  let cfg := kernel_config demo_profile in
  let k := handle_all cfg demo_ticks (kernel_init cfg) in
  let ticks := recorded_ticks cfg demo_ticks (kernel_init cfg) in
  let samples := sampled demo_options_blaze (process_config demo_profile)
    (map (fun t => (tick_event cfg t, fun id => stackmap k !! id)) ticks) in
  map current_pid ticks = [8; 8] /\ map (stacks_taken cfg) ticks = [([16; 32], []); ([16; 64], [4096])] /\
  exists s', consume (fun _ _ => 0) 4 demo_options_blaze demo_hash (fun _ => None)
      (map (fun data => (data, fun id => stackmap k !! id)) (events k)) (Ok tt) (Profiler_init demo_profile) =
      Some (Ok tt, s') /\
    answered 4 (fun _ => demo_names 7) samples no_tables (sent (port s')).
Proof.
  cbn zeta. split; [by vm_compute|]. split; [by vm_compute|].
  destruct (profile_recorded (fun _ _ => 0) 4 demo_options_blaze demo_hash demo_profile (fun _ => demo_names 7)
    (fun _ => None) ltac:(done) ltac:(done) ltac:(intros ? ? ? [= <-]; done) ltac:(intros ? ? [= <-]; done) demo_ticks demo_stack_of demo_profile_ticks_ok) as (s' & Hr & Ha & _).
  - by vm_compute.
  - intros l l'. match goal with |- context [hashed ?h ?c ?s] => assert (hashed h c s = [[0; 1]; [2; 1; 3]]) as -> by by vm_compute end.
    rewrite !elem_of_cons, !elem_of_nil. intros; repeat destruct_or?; subst; try done.
  - exists s'. split; [exact Hr|exact Ha].
Defined.

(** The map is asked to reuse the id of a stack for another with the same hash: the
    record that still waits in the ring is resolved to the wrong one. *)
Example reused_id_wrong_stack :
  let cfg := kernel_config demo_profile in
  let tick now frames := Timer (mkTick 0 7 8 now (mkStack 1 frames) (mkStack (-14) []) true 0) in
  let es := [tick 100 [16; 32]; tick 200 [48; 80]] in
  let k := handle_all cfg es (kernel_init cfg) in
  map (fun t => stacks_of (tick_event cfg t) (fun id => stackmap k !! id)) (recorded_ticks cfg es (kernel_init cfg)) =
  [([48; 80], []); ([48; 80], [])].
Proof. by vm_compute. Qed.
