(* ===== verification/BpfCounts.v ===== *)
(** * Differences of the kernel's counts

    The statistics of a device, of a process, of a host and of a peer only grow while
    the kernel keeps their entry; the differences that [BlockTrack] and [NetTrack]
    take of them add up to what was counted. *)

From S2P Require Import Prelude BpfEvents BlockTrack BlockReports NetTrack NetProps.
Open Scope Z_scope.

Lemma device_stats_well_formed data : well_formed (parse_device_stats data).
Proof.
  split; [done|]. apply Forall_forall. intros o Ho. cbn [parse_device_stats ds_operations] in Ho.
  apply list_elem_of_In, in_map_iff in Ho as (i & <- & _).
  by split; cbn [parse_operation_stats service_histogram total_histogram]; unfold words; rewrite length_map, length_seq.
Qed.

(** However often the maps of the kernel are read, nothing is counted twice or
    lost: for every count of a device's statistics (bytes, requests, errors,
    latencies, each bucket of the histograms) and of the network statistics, the
    differences to the reading before add up to the last readings of the
    incarnations, as long as the count does not fall within one; a new incarnation,
    recognised by its first-seen time, starts from zero. *)
Lemma counts_add_up (datas : list (list Z)) :
  (forall f, f ∈ device_counts -> let l := map parse_device_stats datas in
     grows f l -> sum_of f (deltas None l) = sum_of f (finals l)) /\
  (forall f, f ∈ net_counts -> let l := map parse_value datas in
     grows f l -> sum_of f (deltas None l) = sum_of f (finals l)).
Proof.
  split; intros f Hf l Hg; unfold l in *; apply deltas_add_up; try done.
  - by apply device_counts_of.
  - apply Forall_forall. intros r (data & <- & _)%list_elem_of_In%in_map_iff. apply device_stats_well_formed.
  - by apply net_counts_of.
  - by apply Forall_true.
Qed.

(** Three readings of a device; before the third the kernel had dropped its entry. *)
Definition demo_reading (bytes seen : Z) : list Z :=
  le_bytes 8 bytes ++ replicate 2816 0 ++ le_bytes 8 seen ++ replicate 8 0.

Lemma counts_add_up_witness :
  let l := map parse_device_stats [demo_reading 100 7; demo_reading 150 7; demo_reading 20 90] in
  let f r := os_bytes (operation_of 0 r) in
  f ∈ device_counts /\ grows f l /\ map f (deltas None l) = [100; 50; 20] /\ sum_of f (finals l) = 170.
Proof.
  cbn zeta. set (f := fun r => os_bytes (operation_of 0 r)).
  assert (f ∈ device_counts) as Hf.
  { unfold device_counts. apply elem_of_app. right. left. }
  assert (grows f (map parse_device_stats [demo_reading 100 7; demo_reading 150 7; demo_reading 20 90])) as Hg.
  { vm_compute. split; [by intros|]. by split. }
  pose proof (proj1 (counts_add_up [demo_reading 100 7; demo_reading 150 7; demo_reading 20 90]) f Hf Hg) as H.
  split; [done|]. split; [done|]. split; [by vm_compute|]. cbn zeta in H. rewrite <-H. by vm_compute.
Defined.
