(* ===== verification/Collectors.v ===== *)
(** * The collectors together

    What every collector of the crate [bpf] promises to whoever runs it, as a class
    with an instance for each of the seven; and the thread tracker with its rounds
    (src/bpf/src/threadtrack.rs). *)

From S2P Require Import BlockDevices BlockTrack BlockSamples BlockProps NetTrack NetSamples NetProps.
From S2P Require Import PerfCounter PerfProps CpuUtil CpuProps Profiler BpfProcesses SchedTrace.
From S2P Require Import Prelude Protocol Text Float Symbolizer BpfConfig BpfEvents.
Open Scope Z_scope.

(** ** The interface *)

(** A collector reads what the kernel has for it and hands messages to the callback;
    its outbox can be exchanged, so that collectors share a callback. *)
Class Collects (C : Type) := {
  inbox : Type;
  outbox : C -> Port;
  with_outbox : Port -> C -> C;
  consume : inbox -> C -> option (result BpfError unit * C);
  poll : inbox -> C -> option (result BpfError unit * C)
}.

Arguments inbox C {_}.

(** What it promises: its messages are in order, given that they were so far and that
    what it found described still is; it takes nothing back. *)
Class Collector (C : Type) `{Collects C} := {
  acceptable : inbox C -> Prop;
  fine : C -> Prop;
  outbox_with p c : outbox (with_outbox p c) = p;
  with_outbox_with p p' c : with_outbox p' (with_outbox p c) = with_outbox p' c;
  fine_in_order c : fine c -> in_order (sent (outbox c));
  fine_with p c : fine c -> in_order (sent p) -> sent (outbox c) `prefix_of` sent p -> fine (with_outbox p c);
  consume_fine i c r c' : consume i c = Some (r, c') -> fine c -> acceptable i ->
    fine c' /\ sent (outbox c) `prefix_of` sent (outbox c');
  poll_fine i c r c' : poll i c = Some (r, c') -> fine c -> acceptable i ->
    fine c' /\ sent (outbox c) `prefix_of` sent (outbox c')
}.

(** Some collectors have to be forced to report what is left. *)
Class Flushes (C : Type) `{Collector C} := {
  flush : inbox C -> C -> option (result BpfError unit * C);
  flush_fine i c r c' : flush i c = Some (r, c') -> fine c -> acceptable i ->
    fine c' /\ sent (outbox c) `prefix_of` sent (outbox c')
}.

(** A collector with what was fixed when it was made: its configuration, or the
    stream it reports on. *)
Record Configured (K C : Type) := mkConfigured { conf : K; coll : C }.

Arguments mkConfigured {K C} conf coll.
Arguments conf {K C} _.
Arguments coll {K C} _.

Definition on_coll {K C} (run : K -> C -> option (result BpfError unit * C)) (c : Configured K C) :
    option (result BpfError unit * Configured K C) :=
  '(r, s) ← run (conf c) (coll c);
  Some (r, mkConfigured (conf c) s).

(** ** Lemmas *)

Lemma on_coll_inv {K C} (run : K -> C -> option (result BpfError unit * C)) c r c' :
  on_coll run c = Some (r, c') -> conf c' = conf c /\ run (conf c) (coll c) = Some (r, coll c').
Proof.
  unfold on_coll. destruct (run (conf c) (coll c)) as [[r' s]|]; [|done]. by intros [= <- <-].
Qed.

Lemma described_prefix ms ms' t : ms `prefix_of` ms' -> t ∈ described ms -> t ∈ described ms'.
Proof. intros [k ->] Ht. rewrite described_app. apply elem_of_app. by left. Qed.

(** Messages that refer to no track of a collector's own making. *)
Lemma in_order_plain ms ms' :
  in_order ms -> Forall (fun m => refers m = []) ms' -> in_order (ms ++ ms').
Proof.
  intros Hms Hp. apply in_order_app; [done|]. intros m t Hm Ht.
  rewrite Forall_forall in Hp. rewrite (Hp m Hm) in Ht. by apply elem_of_nil in Ht.
Qed.

(** ** The instances *)

Section Instances.

Variable user : list Message -> Message -> Z.
Variable rng : nat -> Z.
Variable stops : Z -> option (result string unit).

(** *** Processor times *)

Section Cpu.

Variable nprocs : Z.
Variable iter : gset (Z * Z) -> list (Z * Z).

Definition cpu_with (p : Port) (c : CpuUtil.CpuUtil) : CpuUtil.CpuUtil :=
  CpuUtil.set_tracks c p (CpuUtil.submitted_tracks c) (CpuUtil.track_id_mapping c).

#[export] Instance CpuUtil_collects : Collects CpuUtil.CpuUtil := {
  inbox := list (list Z) * result string unit;
  outbox := CpuUtil.port;
  with_outbox := cpu_with;
  consume i := CpuUtil.consume user rng nprocs iter stops i.1 i.2;
  poll i := CpuUtil.poll user rng nprocs iter stops i.1 i.2
}.

Lemma cpu_fine what i c r c' :
  CpuUtil.read_ring user rng nprocs iter stops what i.1 i.2 c = Some (r, c') ->
  CpuProps.cpu_ok [] c -> CpuProps.cpu_ok [] c' /\ sent (CpuUtil.port c) `prefix_of` sent (CpuUtil.port c').
Proof.
  unfold CpuUtil.read_ring. intros H Hc.
  destruct (deliver _ _ _ _ _) as [[read c1]|] eqn:E; [|done]. cbn in H.
  assert (CpuProps.cpu_ok (sent (CpuUtil.port c)) c1) as [Hb Ho Hs].
  { revert E. apply deliver_ind; [intros; by eapply CpuProps.handle_record_ok|].
    destruct Hc as [_ Ho Hs]. by split. }
  replace c' with c1 by (destruct read; by injection H as _ <-). split; [|done].
  split; [apply prefix_nil|done|done].
Qed.

#[export] Instance CpuUtil_collector : Collector CpuUtil.CpuUtil.
Proof.
  refine {| acceptable _ := True; fine := CpuProps.cpu_ok [] |}.
  - done.
  - done.
  - by intros c [_ Ho _].
  - intros p c [_ Ho Hs] Hp Hpre. split; cbn; [apply prefix_nil|done|].
    intros id Hid. by eapply described_prefix, Hs.
  - intros i c r c' H Hc _. exact (cpu_fine "consume" i c r c' H Hc).
  - intros i c r c' H Hc _. exact (cpu_fine "poll" i c r c' H Hc).
Defined.

End Cpu.

(** *** The network *)

Definition NetCollector : Type := Configured NetTrackConfig NetSamples.NetTrack.

#[export] Instance NetTrack_collects : Collects NetCollector := {
  inbox := NetSamples.Round;
  outbox c := NetSamples.port (coll c);
  with_outbox p c := mkConfigured (conf c) (NetSamples.set_port (coll c) p);
  consume i := on_coll (fun config s => Some (NetSamples.consume user rng config i s));
  poll i := on_coll (fun config s => Some (NetSamples.poll user rng config i s))
}.

Definition net_fine (c : NetCollector) : Prop := NetProps.net_ok (conf c) [] (coll c).

Lemma net_round_fine force i c r c' :
  on_coll (fun config s => Some (NetSamples.sample_if_due user rng config force i s)) c = Some (r, c') ->
  net_fine c -> net_fine c' /\ sent (NetSamples.port (coll c)) `prefix_of` sent (NetSamples.port (coll c')).
Proof.
  intros [E [= H]]%on_coll_inv [_ Ho Hs Hp Hl]. unfold net_fine. rewrite E.
  change (coll c') with (r, coll c').2. rewrite <-H.
  destruct (NetProps.sample_if_due_ok user rng (conf c) (sent (NetSamples.port (coll c))) force i (coll c))
    as [Hb Ho' Hs' Hp' Hl'].
  { by split. }
  split; [|done]. split; [apply prefix_nil|done..].
Qed.

#[export] Instance NetTrack_collector : Collector NetCollector.
Proof.
  refine {| acceptable _ := True; fine := net_fine |}.
  - done.
  - done.
  - by intros c [_ Ho _ _ _].
  - intros p c [_ Ho Hs Hp Hl] Hord Hpre. split; cbn; [apply prefix_nil|done| | |done].
    + intros id Hid. by eapply described_prefix, Hs.
    + intros key id Hid. by eapply described_prefix, Hp.
  - intros i c r c' H Hc _. exact (net_round_fine false i c r c' H Hc).
  - intros i c r c' H Hc _. exact (net_round_fine false i c r c' H Hc).
Defined.

#[export] Instance NetTrack_flushes : Flushes NetCollector.
Proof.
  refine {| flush i := on_coll (fun config s => Some (NetSamples.flush user rng config i s)) |}.
  intros i c r c' H Hc _. exact (net_round_fine true i c r c' H Hc).
Defined.

(** *** Block devices *)

Section Block.

Variable fs : BlockDevices.FileSystem.
Variable iter : gset Z -> list Z.

Definition BlockCollector : Type := Configured BlockTrack.BlockIoConfig BlockSamples.BlockIo.

#[export] Instance BlockIo_collects : Collects BlockCollector := {
  inbox := BlockSamples.Round;
  outbox c := BlockSamples.port (coll c);
  with_outbox p c := mkConfigured (conf c) (BlockSamples.set_port (coll c) p);
  consume i := on_coll (fun config => BlockSamples.consume fs user rng config iter stops i);
  poll i := on_coll (fun config => BlockSamples.poll fs user rng config iter stops i)
}.

Definition block_fine (c : BlockCollector) : Prop := BlockProps.block_ok [] (coll c).

Lemma block_round_fine what force i c r c' :
  on_coll (fun config => BlockSamples.spans_then_samples fs user rng config iter stops what force i) c =
    Some (r, c') ->
  block_fine c -> block_fine c' /\ sent (BlockSamples.port (coll c)) `prefix_of` sent (BlockSamples.port (coll c')).
Proof.
  intros [E H]%on_coll_inv [_ Ho Hr Hs].
  destruct (BlockProps.round_ok fs user rng (conf c) iter (sent (BlockSamples.port (coll c))) stops what force i
    (coll c) r (coll c') H) as [Hb Ho' Hr' Hs'].
  { by split. }
  split; [|done]. split; [apply prefix_nil|done..].
Qed.

#[export] Instance BlockIo_collector : Collector BlockCollector.
Proof.
  refine {| acceptable _ := True; fine := block_fine |}.
  - done.
  - done.
  - by intros c [_ Ho _ _].
  - intros p c [_ Ho Hr Hs] Hord Hpre. split; cbn; [apply prefix_nil|done| |].
    + intros dev id Hid. by eapply described_prefix, (Hr dev).
    + intros key id Hid. by eapply described_prefix, (Hs key).
  - intros i c r c' H Hc _. exact (block_round_fine "consume" false i c r c' H Hc).
  - intros i c r c' H Hc _. exact (block_round_fine "poll" false i c r c' H Hc).
Defined.

#[export] Instance BlockIo_flushes : Flushes BlockCollector.
Proof.
  refine {| flush i := on_coll (fun config => BlockSamples.flush fs user rng config iter stops i) |}.
  intros i c r c' H Hc _. exact (block_round_fine "flush" true i c r c' H Hc).
Defined.

End Block.

(** *** Performance counters *)

Section Perf.

Variable processors : nat.

(** The collector, with its stream and what the handler of its records has captured. *)
Definition PerfCollector : Type := Configured (Z * PerfCounter.Captured) PerfCounter.PerfCounter.

#[export] Instance PerfCounter_collects : Collects PerfCollector := {
  inbox := list (list Z) * result string unit;
  outbox c := PerfCounter.port (coll c);
  with_outbox p c :=
    mkConfigured (conf c) (PerfCounter.mkPerfCounter p (PerfCounter.previous_values (coll c)));
  consume i := on_coll (fun k => PerfCounter.consume user k.1 stops k.2 i.1 i.2);
  poll i := on_coll (fun k => PerfCounter.poll user k.1 stops k.2 i.1 i.2)
}.

Definition perf_fine (c : PerfCollector) : Prop :=
  PerfProps.captured_ok (conf c).2 /\ PerfProps.perf_ok processors (conf c).2 (coll c).

(** The kernel program reports processors there are. *)
Definition known_processors (i : list (list Z) * result string unit) : Prop :=
  forall data, data ∈ i.1 -> 0 <= PerfCounter.cpu_id (PerfCounter.parse_event data) < Z.of_nat processors.

Lemma perf_read_fine what i c r c' :
  on_coll (fun k => PerfCounter.read_ring user k.1 stops what k.2 i.1 i.2) c = Some (r, c') ->
  perf_fine c -> known_processors i ->
  perf_fine c' /\ sent (PerfCounter.port (coll c)) `prefix_of` sent (PerfCounter.port (coll c')).
Proof.
  intros [Econf H]%on_coll_inv [Hc Hp] Hi. unfold PerfCounter.read_ring in H.
  destruct (deliver _ _ _ _ _) as [[read s1]|] eqn:E; [|done]. cbn in H.
  assert (PerfProps.perf_ok processors (conf c).2 s1 /\
    sent (PerfCounter.port (coll c)) `prefix_of` sent (PerfCounter.port s1)) as [H1 H2].
  { revert E. apply (deliver_ind_in (fun s => PerfProps.perf_ok processors (conf c).2 s /\
      sent (PerfCounter.port (coll c)) `prefix_of` sent (PerfCounter.port s))); [|by split].
    intros data s z s' Hd Hh [Hs Hpre]. unfold PerfCounter.handle_record, parse_plain in Hh.
    destruct (Nat.ltb _ 80); [done|].
    eapply PerfProps.perf_event_ok in Hh as [Hs' Hpre']; [|done|apply PerfProps.words_length|by apply Hi|done].
    split; [done|by etrans]. }
  unfold perf_fine. rewrite Econf. by replace (coll c') with s1 by (destruct read; by injection H as _ <-).
Qed.

#[export] Instance PerfCounter_collector : Collector PerfCollector.
Proof.
  refine {| acceptable := known_processors; fine := perf_fine |}.
  - done.
  - done.
  - by intros c [_ [Ho _]].
  - intros p c [Hc [Ho Hd]] Hord Hpre. split; [done|]. split; [done|]. intros cpu i Hcpu Hi.
    by eapply described_prefix, Hd.
  - intros i c r c' H Hc Hi. exact (perf_read_fine "consume" i c r c' H Hc Hi).
  - intros i c r c' H Hc Hi. exact (perf_read_fine "poll" i c r c' H Hc Hi).
Defined.

End Perf.

(** *** The profiler *)

Section Profiler.

Variable blaze : Source -> list Z -> result Z (list Symbolized).
Variable hash_callstack : list Z -> Z.

(** The collector, with its stream. *)
Definition ProfilerCollector : Type := Configured Z Profiler.Profiler.

#[export] Instance Profiler_collects : Collects ProfilerCollector := {
  inbox := list Profiler.StackRecord * result string unit;
  outbox c := Profiler.port (coll c);
  with_outbox p c := mkConfigured (conf c) (Profiler.mkProfiler p (Profiler.symbolizer (coll c)));
  consume i := on_coll (fun stream_id => Profiler.consume user stream_id blaze hash_callstack stops i.1 i.2);
  poll i := on_coll (fun stream_id => Profiler.poll user stream_id blaze hash_callstack stops i.1 i.2)
}.

(** Samples are on the tracks of threads. *)
Lemma profiler_plain stream_id event stackmap c :
  let c' := (Profiler.handle_event user stream_id blaze hash_callstack event stackmap c).2 in
  exists ms, sent (Profiler.port c') = sent (Profiler.port c) ++ ms /\ Forall (fun m => refers m = []) ms.
Proof.
  cbn zeta. unfold Profiler.handle_event. destruct (Profiler.stacks_of event stackmap) as [u k].
  destruct (_ && _); [by exists []; rewrite app_nil_r|].
  destruct (Symbolizer.symbolize _ _ _ _ _) as [i|]; [|by exists []; rewrite app_nil_r].
  destruct (data hash_callstack i _) as [[id od] cache]. destruct od as [d|]; cbn.
  - destruct (negb _); cbn; [by eexists [_]; split; [|repeat constructor]|].
    rewrite <-app_assoc. by eexists [_; _]; split; [|repeat constructor].
  - by eexists [_]; split; [|repeat constructor].
Qed.

Lemma profiler_fine what i c r c' :
  on_coll (fun stream_id => Profiler.read_ring user stream_id blaze hash_callstack stops what i.1 i.2) c =
    Some (r, c') ->
  in_order (sent (Profiler.port (coll c))) ->
  in_order (sent (Profiler.port (coll c'))) /\
  sent (Profiler.port (coll c)) `prefix_of` sent (Profiler.port (coll c')).
Proof.
  intros [_ H]%on_coll_inv Hc. unfold Profiler.read_ring in H.
  destruct (deliver _ _ _ _ _) as [[read c1]|] eqn:E; [|done]. cbn in H.
  assert (in_order (sent (Profiler.port c1)) /\
    sent (Profiler.port (coll c)) `prefix_of` sent (Profiler.port c1)) as H1.
  { revert E. apply (deliver_ind (fun s => in_order (sent (Profiler.port s)) /\
      sent (Profiler.port (coll c)) `prefix_of` sent (Profiler.port s))); [|by split].
    intros [bytes stackmap] s z s' Hh [Hs Hpre]. unfold Profiler.handle_record in Hh.
    destruct (parse_plain _ _ _ _) as [event|]; [|done]. injection Hh as Hh.
    destruct (profiler_plain (conf c) event stackmap s) as (ms & Es & Hms). rewrite Hh in Es. cbn in Es. rewrite Es.
    split; [by apply in_order_plain|by apply prefix_app_r]. }
  by replace (coll c') with c1 by (destruct read; by injection H as _ <-).
Qed.

#[export] Instance Profiler_collector : Collector ProfilerCollector.
Proof.
  refine {| acceptable _ := True; fine c := in_order (sent (Profiler.port (coll c))) |}.
  - done.
  - done.
  - done.
  - done.
  - intros i c r c' H Hc _. exact (profiler_fine "consume" i c r c' H Hc).
  - intros i c r c' H Hc _. exact (profiler_fine "poll" i c r c' H Hc).
Defined.

End Profiler.

(** *** The scheduler trace *)

Section Sched.

Variable symbolize : Z -> result string (list (option string)).

#[export] Instance SchedTrace_collects : Collects SchedTrace.SchedTraceState := {
  inbox := list (list Z) * result string unit;
  outbox c := mkPort (SchedTrace.sched_received c) (SchedTrace.draws c);
  with_outbox p c := SchedTrace.mkSchedTraceState (SchedTrace.thread_track_ids c) (draws p) (sent p);
  consume i := SchedTrace.sched_consume user rng symbolize stops i.1 i.2;
  poll i := SchedTrace.sched_poll user rng symbolize stops i.1 i.2
}.

Record sched_fine (base : list Message) (c : SchedTrace.SchedTraceState) : Prop := {
  sf_base : base `prefix_of` SchedTrace.sched_received c;
  sf_order : in_order (SchedTrace.sched_received c);
  sf_tracks key id : SchedTrace.thread_track_ids c !! key = Some id ->
    TrackId.Custom id ∈ described (SchedTrace.sched_received c)
}.

Lemma sched_event_fine base data c :
  sched_fine base c -> sched_fine base (SchedTrace.sched_event user rng symbolize data c).2.
Proof.
  intros [Hb Ho Ht]. unfold SchedTrace.sched_event.
  destruct (SchedTrace.SchedSpanEvent_try_from data) as [event|]; [|by split].
  set (q := SchedTrace.or_insert_track _ _ _ c).
  assert (sched_fine base q.2 /\ TrackId.Custom q.1 ∈ described (SchedTrace.sched_received q.2)) as [[Hb' Ho' Ht'] Hid].
  { unfold q, SchedTrace.or_insert_track.
    destruct (SchedTrace.thread_track_ids c !! _) as [id|] eqn:E; cbn; [split; [by split|by eapply Ht]|].
    set (id := rng _). set (m := SchedTrace.sched_track _ id).
    assert (TrackId.Custom id ∈ described (SchedTrace.sched_received c ++ [m])) as Hd
      by (apply described_snoc; right; cbn; set_solver).
    split; [|done]. split; cbn; [by apply prefix_app_r|constructor; [done|cbn; set_solver]|].
    intros key i. destruct (decide (key = SchedTrace.thread_key event)) as [->|Hne].
    - rewrite lookup_insert_eq. by intros [= <-].
    - rewrite lookup_insert_ne by done. intros Hk. apply described_snoc. left. by eapply Ht. }
  destruct q as [id c1]. cbn in Hb', Ho', Ht', Hid. cbn. destruct (negb _); cbn.
  all: split; cbn; [by apply prefix_app_r|constructor; [done|]|].
  all: try (cbn; by intros t [->|[]%elem_of_nil]%elem_of_cons).
  all: intros key i Hk; apply described_snoc; left; by eapply Ht'.
Qed.

Lemma sched_read_fine what i c r c' :
  SchedTrace.sched_read user rng symbolize stops what i.1 i.2 c = Some (r, c') -> sched_fine [] c ->
  sched_fine [] c' /\ SchedTrace.sched_received c `prefix_of` SchedTrace.sched_received c'.
Proof.
  unfold SchedTrace.sched_read. intros H [_ Ho Ht].
  destruct (deliver _ _ _ _ _) as [[read c1]|] eqn:E; [|done]. cbn in H. injection H as _ <-.
  assert (sched_fine (SchedTrace.sched_received c) c1) as [Hb Ho' Ht'].
  { revert E. apply deliver_ind; [|by split]. intros data s z s' [= Hh] Hs.
    change s' with (z, s').2. rewrite <-Hh. by apply sched_event_fine. }
  split; [|done]. split; [apply prefix_nil|done..].
Qed.

#[export] Instance SchedTrace_collector : Collector SchedTrace.SchedTraceState.
Proof.
  refine {| acceptable _ := True; fine := sched_fine [] |}.
  - by intros [].
  - done.
  - by intros c [].
  - intros p c [_ Ho Ht] Hord Hpre. split; cbn; [apply prefix_nil|done|].
    intros key id Hid. by eapply described_prefix, Ht.
  - intros i c r c' H Hc _. exact (sched_read_fine "consume" i c r c' H Hc).
  - intros i c r c' H Hc _. exact (sched_read_fine "poll" i c r c' H Hc).
Defined.

End Sched.

(** *** The thread tracker *)

Section Threads.

Variable update : BpfConfig.Collector -> Z -> result string unit.
Variable clock_gettime : list Message -> option (Z * Z).
Variable built : BpfConfig.Collector -> bool.
Variable filters : BpfConfig.Collector -> gset string.

(** The tracker, whether /proc was scanned, and the ids drawn by others. *)
Record ThreadTracker := mkThreadTracker { tracker : Tracker; proc_scanned : bool; others : nat }.

Record Threads := mkThreads {
  proc : result string (list (option ProcEntry));
  ring : list (list Z);
  ring_end : result string unit
}.

Definition track_threads (what : string) (i : Threads) (c : ThreadTracker) :
    option (result BpfError unit * ThreadTracker) :=
  '(r, scanned, s) ←
    BpfProcesses.scan_and_read user update clock_gettime built filters stops what (proc_scanned c)
      (proc i) (ring i) (ring_end i) (tracker c);
  Some (r, mkThreadTracker s scanned (others c)).

#[export] Instance ThreadTracker_collects : Collects ThreadTracker := {
  inbox := Threads;
  outbox c := mkPort (received (tracker c)) (others c);
  with_outbox p c :=
    mkThreadTracker (mkTracker (watched_tgids (tracker c)) (tracked_tgids (tracker c)) (sent p))
      (proc_scanned c) (draws p);
  consume := track_threads "consume";
  poll := track_threads "poll"
}.

(** Everything received is in order, what was received before is still there. *)
Definition tracker_fine (base : list Message) (s : Tracker) : Prop :=
  base `prefix_of` received s /\ in_order (received s).

Lemma callback_fine base m s :
  refers m = [] -> tracker_fine base s ->
  tracker_fine base (BpfProcesses.callback user update clock_gettime built filters m s).2.
Proof.
  intros Hm [Hb Ho]. unfold BpfProcesses.callback. destruct (existsb built all_collectors).
  - destruct (wrapper_spec user update clock_gettime built filters m s) as (_ & _ & Hr).
    cbn zeta in Hr. unfold tracker_fine. rewrite Hr. split; [by apply prefix_app_r|].
    apply in_order_plain; [done|]. constructor; [done|]. unfold follow_up.
    destruct (thread_track m) as [[tid pid]|]; [|constructor].
    destruct (_ && _); repeat constructor.
  - cbn. split; [by apply prefix_app_r|]. apply in_order_plain; [done|]. by constructor.
Qed.

Lemma track_message_plain name ty pid : refers (track_message name ty (Some (TrackType.Process pid))) = [].
Proof. done. Qed.

Lemma scan_entry_fine base entry s :
  tracker_fine base s -> tracker_fine base (scan_entry user update clock_gettime built filters entry s).
Proof.
  intros Hs. unfold scan_entry. destruct entry as [entry|]; [|done]. destruct (proc_name entry); [|done].
  destruct (parse_i32 _) as [pid|]; [|done]. set (s1 := match proc_comm entry with Some _ => _ | None => s end).
  assert (tracker_fine base s1) as H1.
  { unfold s1. destruct (proc_comm entry); [|done]. by apply callback_fine. }
  destruct (proc_tasks entry) as [tasks|]; [|done]. apply foldl_ind; [|done].
  intros task s2 H2. unfold scan_task. destruct task as [task|]; [|done]. destruct (task_name task); [|done].
  destruct (parse_i32 _) as [tid|]; [|done]. destruct (tid =? pid); [done|].
  destruct (task_comm task); [|done]. by apply callback_fine.
Qed.

Lemma ring_event_fine base data s z s' :
  ring_event user update clock_gettime built filters data s = Some (z, s') ->
  tracker_fine base s -> tracker_fine base s'.
Proof.
  unfold ring_event. destruct (ThreadEvent_try_from data) as [event|]; [|done].
  destruct (thread_message event) as [m|] eqn:E; [|done]. cbn. intros [= H] Hs.
  change s' with (z, s').2. rewrite <-H. apply callback_fine; [|done].
  unfold thread_message in E. destruct (filename_str event); [|done]. cbn in E.
  destruct (negb _); [by injection E as <-|]. destruct (comm_str event); [|done]. cbn in E. by injection E as <-.
Qed.

Lemma track_threads_fine what i c r c' :
  track_threads what i c = Some (r, c') -> in_order (received (tracker c)) ->
  in_order (received (tracker c')) /\ received (tracker c) `prefix_of` received (tracker c').
Proof.
  unfold track_threads, scan_and_read. intros H Ho. set (base := received (tracker c)) in *.
  assert (tracker_fine base (tracker c)) as H0 by by split.
  set (q := if proc_scanned c then _ else _) in H.
  assert (tracker_fine base q.2) as Hq.
  { unfold q. destruct (proc_scanned c); [done|]. unfold scan_proc. destruct (proc i) as [entries|]; [|done].
    cbn. apply foldl_ind; [|done]. intros. by apply scan_entry_fine. }
  destruct q as [[[]|e] s1]; cbn in Hq, H.
  - destruct (deliver _ _ _ _ s1) as [[read s2]|] eqn:E; [|done]. cbn in H. injection H as _ <-. cbn.
    assert (tracker_fine base s2) as [Hb2 Ho2]; [|done].
    revert E. apply deliver_ind; [|done]. intros. by eapply ring_event_fine.
  - injection H as _ <-. cbn. by destruct Hq.
Qed.

#[export] Instance ThreadTracker_collector : Collector ThreadTracker.
Proof.
  refine {| acceptable _ := True; fine c := in_order (received (tracker c)) |}.
  - by intros [].
  - done.
  - done.
  - done.
  - intros i c r c' H Hc _. exact (track_threads_fine "consume" i c r c' H Hc).
  - intros i c r c' H Hc _. exact (track_threads_fine "poll" i c r c' H Hc).
Defined.

End Threads.

End Instances.
