(* ===== verification/BpfConsumer.v ===== *)
(** * The consumer of all collectors

    [BpfObject::consumer] and the rounds of [BpfConsumer] (src/bpf/src/lib.rs), over
    any collectors that keep the interface of [Collectors]; and the collectors of
    the code. *)

From S2P Require Import BlockDevices BlockTrack BlockSamples BlockProps BlockReports NetTrack NetSamples NetProps.
From S2P Require Import PerfCounter PerfProps CpuUtil CpuProps Profiler BpfProcesses SchedTrace.
From S2P Require Import Prelude Protocol Text Float Symbolizer BpfConfig BpfEvents Collectors.
Open Scope Z_scope.

(** ** Rounds *)

Section Rounds.

Context {Thr Cpu Net Blk Prof Sch Perf : Type}.
Context `{Collector Thr} `{Collector Cpu} `{Flushes Net} `{Flushes Blk}.
Context `{Collector Prof} `{Collector Sch} `{Collector Perf}.

(** The collectors there are, and the callback they share. *)
Record BpfConsumer := mkBpfConsumer {
  log : Port;
  threadtrack : option Thr;
  cpuutil : option Cpu;
  nettrack : option Net;
  block_io : option Blk;
  profiler : option Prof;
  schedtrace : option Sch;
  perfcounter : option Perf
}.

(** What the kernel has for each of them. *)
Record Inboxes := mkInboxes {
  for_threadtrack : inbox Thr;
  for_cpuutil : inbox Cpu;
  for_nettrack : inbox Net;
  for_block_io : inbox Blk;
  for_profiler : inbox Prof;
  for_schedtrace : inbox Sch;
  for_perfcounter : inbox Perf
}.

(** A collector, if there is one, runs on the shared callback. *)
Definition run_one {C} `{Collects C} (run : C -> option (result BpfError unit * C)) (c : option C) (p : Port) :
    option (result BpfError unit * option C * Port) :=
  match c with
  | None => Some (Ok tt, None, p)
  | Some c => '(r, c) ← run (with_outbox p c); Some (r, Some c, outbox c)
  end.

Definition Step : Type := BpfConsumer -> option (result BpfError unit * BpfConsumer).

(** Steps in turn, until one fails. *)
Fixpoint in_turn (steps : list Step) (s : BpfConsumer) : option (result BpfError unit * BpfConsumer) :=
  match steps with
  | [] => Some (Ok tt, s)
  | step :: steps =>
      '(r, s) ← step s;
      match r with
      | Err e => Some (Err e, s)
      | Ok _ => in_turn steps s
      end
  end.

Definition on_threadtrack run : Step := fun s =>
  '(r, c, p) ← run_one run (threadtrack s) (log s);
  Some (r, mkBpfConsumer p c (cpuutil s) (nettrack s) (block_io s) (profiler s) (schedtrace s) (perfcounter s)).

Definition on_cpuutil run : Step := fun s =>
  '(r, c, p) ← run_one run (cpuutil s) (log s);
  Some (r, mkBpfConsumer p (threadtrack s) c (nettrack s) (block_io s) (profiler s) (schedtrace s) (perfcounter s)).

Definition on_nettrack run : Step := fun s =>
  '(r, c, p) ← run_one run (nettrack s) (log s);
  Some (r, mkBpfConsumer p (threadtrack s) (cpuutil s) c (block_io s) (profiler s) (schedtrace s) (perfcounter s)).

Definition on_block_io run : Step := fun s =>
  '(r, c, p) ← run_one run (block_io s) (log s);
  Some (r, mkBpfConsumer p (threadtrack s) (cpuutil s) (nettrack s) c (profiler s) (schedtrace s) (perfcounter s)).

Definition on_profiler run : Step := fun s =>
  '(r, c, p) ← run_one run (profiler s) (log s);
  Some (r, mkBpfConsumer p (threadtrack s) (cpuutil s) (nettrack s) (block_io s) c (schedtrace s) (perfcounter s)).

Definition on_schedtrace run : Step := fun s =>
  '(r, c, p) ← run_one run (schedtrace s) (log s);
  Some (r, mkBpfConsumer p (threadtrack s) (cpuutil s) (nettrack s) (block_io s) (profiler s) c (perfcounter s)).

Definition on_perfcounter run : Step := fun s =>
  '(r, c, p) ← run_one run (perfcounter s) (log s);
  Some (r, mkBpfConsumer p (threadtrack s) (cpuutil s) (nettrack s) (block_io s) (profiler s) (schedtrace s) c).

Definition consume_steps (i : Inboxes) : list Step :=
  [on_threadtrack (consume (for_threadtrack i)); on_cpuutil (consume (for_cpuutil i));
   on_nettrack (consume (for_nettrack i)); on_block_io (consume (for_block_io i));
   on_profiler (consume (for_profiler i)); on_schedtrace (consume (for_schedtrace i));
   on_perfcounter (consume (for_perfcounter i))].

Definition poll_steps (i : Inboxes) : list Step :=
  [on_threadtrack (poll (for_threadtrack i)); on_cpuutil (poll (for_cpuutil i));
   on_nettrack (poll (for_nettrack i)); on_block_io (poll (for_block_io i));
   on_profiler (poll (for_profiler i)); on_schedtrace (poll (for_schedtrace i));
   on_perfcounter (poll (for_perfcounter i))].

Definition flush_steps (i : Inboxes) : list Step :=
  [on_nettrack (flush (for_nettrack i)); on_block_io (flush (for_block_io i))].

Definition consume_all (i : Inboxes) : Step := in_turn (consume_steps i).

Definition poll_all (i : Inboxes) : Step := in_turn (poll_steps i).

Definition flush_all (i : Inboxes) : Step := in_turn (flush_steps i).

(** ** Every round keeps the log in order *)

(** A collector that is there is fine when it gets the log. *)
Definition fine_with_log {C} `{Collector C} (p : Port) (c : option C) : Prop :=
  forall c', c = Some c' -> fine (with_outbox p c').

Record consumer_fine (s : BpfConsumer) : Prop := {
  cf_order : in_order (sent (log s));
  cf_threadtrack : fine_with_log (log s) (threadtrack s);
  cf_cpuutil : fine_with_log (log s) (cpuutil s);
  cf_nettrack : fine_with_log (log s) (nettrack s);
  cf_block_io : fine_with_log (log s) (block_io s);
  cf_profiler : fine_with_log (log s) (profiler s);
  cf_schedtrace : fine_with_log (log s) (schedtrace s);
  cf_perfcounter : fine_with_log (log s) (perfcounter s)
}.

Lemma fine_with_later {C} `{Collector C} p p' (c : option C) :
  fine_with_log p c -> in_order (sent p') -> sent p `prefix_of` sent p' -> fine_with_log p' c.
Proof.
  intros Hc Hp Hpre c' ->. rewrite <-(with_outbox_with p). apply fine_with; [by apply Hc|done|].
  by rewrite outbox_with.
Qed.

(** A collector that keeps its promise when it runs. *)
Definition keeps {C} `{Collector C} (run : C -> option (result BpfError unit * C)) : Prop :=
  forall c r c', run c = Some (r, c') -> fine c ->
    fine c' /\ sent (outbox c) `prefix_of` sent (outbox c').

Lemma run_one_fine {C} `{Collector C} run (c : option C) p r c' p' :
  run_one run c p = Some (r, c', p') -> keeps run -> fine_with_log p c -> in_order (sent p) ->
  fine_with_log p' c' /\ in_order (sent p') /\ sent p `prefix_of` sent p'.
Proof.
  intros Hrun Hk Hc Hp. unfold run_one in Hrun. destruct c as [c|].
  - destruct (run (with_outbox p c)) as [[r1 c1]|] eqn:E; [|done]. cbn in Hrun. injection Hrun as <- <- <-.
    destruct (Hk _ _ _ E (Hc c eq_refl)) as [Hf Hpre]. pose proof (fine_in_order c1 Hf) as Ho.
    rewrite outbox_with in Hpre. split_and!; [|done|done]. intros c2 [= <-]. by apply fine_with.
  - injection Hrun as <- <- <-. by split_and!.
Qed.

Definition step_fine (step : Step) : Prop :=
  forall s r s', step s = Some (r, s') -> consumer_fine s ->
    consumer_fine s' /\ sent (log s) `prefix_of` sent (log s').

(** The collector that runs is fine afterwards; the others get a longer log. *)
Ltac one_collector :=
  intros Hk s r s' Hs [Ho Ht Hc Hn Hb Hp Hsc Hpe];
  match type of Hs with context [run_one ?run ?c ?p] =>
    destruct (run_one run c p) as [[[r1 c1] p1]|] eqn:E; [|discriminate Hs]
  end;
  injection Hs as _ <-;
  match goal with E : run_one _ _ _ = _ |- _ =>
    apply run_one_fine in E as (Hc1 & Ho1 & Hpre); [|assumption..]
  end;
  split; [split; cbn; try assumption; eapply fine_with_later; eassumption|assumption].

Lemma on_threadtrack_fine run : keeps run -> step_fine (on_threadtrack run).
Proof. unfold on_threadtrack. one_collector. Qed.

Lemma on_cpuutil_fine run : keeps run -> step_fine (on_cpuutil run).
Proof. unfold on_cpuutil. one_collector. Qed.

Lemma on_nettrack_fine run : keeps run -> step_fine (on_nettrack run).
Proof. unfold on_nettrack. one_collector. Qed.

Lemma on_block_io_fine run : keeps run -> step_fine (on_block_io run).
Proof. unfold on_block_io. one_collector. Qed.

Lemma on_profiler_fine run : keeps run -> step_fine (on_profiler run).
Proof. unfold on_profiler. one_collector. Qed.

Lemma on_schedtrace_fine run : keeps run -> step_fine (on_schedtrace run).
Proof. unfold on_schedtrace. one_collector. Qed.

Lemma on_perfcounter_fine run : keeps run -> step_fine (on_perfcounter run).
Proof. unfold on_perfcounter. one_collector. Qed.

Lemma in_turn_fine steps : Forall step_fine steps -> step_fine (in_turn steps).
Proof.
  induction 1 as [|step steps Hstep _ IH]; intros s r s' Hs Hf.
  - injection Hs as _ <-. done.
  - cbn in Hs. destruct (step s) as [[r1 s1]|] eqn:E; [|done]. cbn in Hs.
    destruct (Hstep s r1 s1 E Hf) as [Hf1 Hpre1].
    destruct r1; [|by injection Hs as _ <-]. destruct (IH s1 r s' Hs Hf1) as [Hf2 Hpre2].
    split; [done|by etrans].
Qed.

(** Everything the kernel has is acceptable. *)
Definition inboxes_ok (i : Inboxes) : Prop :=
  acceptable (for_threadtrack i) /\ acceptable (for_cpuutil i) /\ acceptable (for_nettrack i) /\
  acceptable (for_block_io i) /\ acceptable (for_profiler i) /\ acceptable (for_schedtrace i) /\
  acceptable (for_perfcounter i).

Lemma keeps_consume {C} `{Collector C} i : acceptable i -> keeps (consume (C := C) i).
Proof. intros Hi c r c' Hr Hc. by eapply consume_fine. Qed.

Lemma keeps_poll {C} `{Collector C} i : acceptable i -> keeps (poll (C := C) i).
Proof. intros Hi c r c' Hr Hc. by eapply poll_fine. Qed.

Lemma keeps_flush {C} `{Flushes C} i : acceptable i -> keeps (flush (C := C) i).
Proof. intros Hi c r c' Hr Hc. by eapply flush_fine. Qed.

(** Rounds of any kind, as long as none panics. *)
Inductive rounds : BpfConsumer -> BpfConsumer -> Prop :=
| rounds_refl s : rounds s s
| rounds_step s i round r s1 s2 :
    inboxes_ok i -> round ∈ [consume_all i; poll_all i; flush_all i] -> round s = Some (r, s1) ->
    rounds s1 s2 -> rounds s s2.

Ltac each_step tac :=
  repeat first [apply Forall_nil_2 | apply Forall_cons_2];
  first [apply on_threadtrack_fine | apply on_cpuutil_fine | apply on_nettrack_fine | apply on_block_io_fine
    | apply on_profiler_fine | apply on_schedtrace_fine | apply on_perfcounter_fine];
  tac; assumption.

Lemma all_fine i round : inboxes_ok i -> round ∈ [consume_all i; poll_all i; flush_all i] -> step_fine round.
Proof.
  intros (A1 & A2 & A3 & A4 & A5 & A6 & A7) Hr.
  repeat (apply elem_of_cons in Hr as [->|Hr]); [..|by apply elem_of_nil in Hr]; apply in_turn_fine.
  - each_step ltac:(apply keeps_consume).
  - each_step ltac:(apply keeps_poll).
  - each_step ltac:(apply keeps_flush).
Qed.

Lemma rounds_fine s s' : rounds s s' -> consumer_fine s -> consumer_fine s'.
Proof.
  induction 1 as [|s i round r s1 s2 Hi Hin Hr _ IH]; [done|]. intros Hs. apply IH.
  by eapply (all_fine i round Hi Hin).
Qed.

End Rounds.

(** ** The collectors of the code *)

Section Consumer.

Variable user : list Message -> Message -> Z.
Variable rng : nat -> Z.
Variable stops : Z -> option (result string unit).
Variable fs : FileSystem.
Variable iter_mounts : gmap Z (list MountInfo) -> list (Z * list MountInfo).
Variable iter_devices : gset Z -> list Z.
Variable iter_threads : gset (Z * Z) -> list (Z * Z).
Variable blaze : Source -> list Z -> result Z (list Symbolized).
Variable hash_callstack : list Z -> Z.
Variable kernel_symbols : Z -> result string (list (option string)).
Variable sys : PerfNumbers.
Variable os : PerfSystem.
Variable update : BpfConfig.Collector -> Z -> result string unit.
Variable clock_gettime : list Message -> option (Z * Z).

(** The processors, when the collectors are made and later; the clock; and whether the
    kernel takes the programs of a collector. *)
Variable num_possible_cpus : result string nat.
Variable now : Z.

Inductive Programs := Cpuutil | Nettrack | Blocktrack | Profiling | Schedtrace | Perfcounter | Threadtrack.

Variable load : Programs -> result BpfError unit.

Variable obj : BpfConfig.BpfObject BlockIoConfig PerfCounterConfig.

Definition processors : nat := match num_possible_cpus with Ok n => n | Err _ => 0 end.

(** A value, an error, or a panic. *)
Definition made (A : Type) : Type := option (result BpfError A).

Definition and_then {A B} (m : made A) (f : A -> made B) : made B :=
  match m with
  | Some (Ok a) => f a
  | Some (Err e) => Some (Err e)
  | None => None
  end.

Definition loaded {A} (programs : Programs) (make : made A) : made A := and_then (Some (load programs)) (fun _ => make).

Definition optional {K A} (config : option K) (make : K -> made A) : made (option A) :=
  match config with
  | Some config => and_then (make config) (fun a => Some (Ok (Some a)))
  | None => Some (Ok None)
  end.

Definition make_cpuutil (config : CpuUtilConfig) : made CpuUtil.CpuUtil :=
  loaded Cpuutil match num_possible_cpus with Ok _ => Some (Ok CpuUtil_init) | Err _ => None end.

Definition make_nettrack (config : NetTrackConfig) : made NetCollector :=
  and_then (Some (NetTrack.validate config)) (fun _ =>
  loaded Nettrack (
  and_then (Some (NetTrack.tracked_tgids (nt_pid_filters config))) (fun _ =>
  Some (Ok (mkConfigured config (NetTrack_init now)))))).

Definition make_block_io (config : BlockIoConfig) : made BlockCollector :=
  and_then (Some (BlockTrack.validate config)) (fun _ =>
  and_then (Some (plan fs config)) (fun _ =>
  loaded Blocktrack
    (Some (Ok (mkConfigured config (BlockIo_init (DeviceRegistry_new fs iter_mounts) now)))))).

Definition make_profiler (stream_id : Z) (config : ProfilerConfig) : made ProfilerCollector :=
  loaded Profiling (Some (Ok (mkConfigured stream_id (Profiler_init config)))).

Definition make_schedtrace (config : SchedTraceConfig) : made SchedTraceState :=
  loaded Schedtrace (Some (Ok sched_init)).

Definition make_perfcounter (stream_id : Z) (p : Port) (config : PerfCounterConfig) : made PerfCollector :=
  and_then (Some (PerfCounter.validate sys config)) (fun _ =>
  loaded Perfcounter (
  and_then (PerfCounter.new user stream_id sys os num_possible_cpus config p) (fun '(_, c, s) =>
  Some (Ok (mkConfigured (stream_id, c) s))))).

Definition make_threadtrack (config : ThreadTrackerConfig) : made ThreadTracker :=
  loaded Threadtrack (Some (Ok (mkThreadTracker (mkTracker (o_watched_tgids obj) ∅ []) false 0))).

Definition Consumer : Type :=
  @BpfConsumer ThreadTracker CpuUtil.CpuUtil NetCollector BlockCollector ProfilerCollector SchedTraceState
    PerfCollector.

(** [BpfObject::consumer]; a stream is allocated for each collector that needs one. *)
Definition consumer (stream_allocator : StreamIdAllocator) : made (Consumer * StreamIdAllocator) :=
  and_then (optional (o_cpuutils obj) make_cpuutil) (fun cpuutil =>
  and_then (optional (o_nettrack obj) make_nettrack) (fun nettrack =>
  and_then (optional (o_block_io obj) make_block_io) (fun block_io =>
  let '(profiler_stream, stream_allocator) :=
    if o_profiler obj then StreamIdAllocator.allocate stream_allocator else (0, stream_allocator) in
  and_then (optional (o_profiler obj) (make_profiler profiler_stream)) (fun profiler =>
  and_then (optional (o_schedtrace obj) make_schedtrace) (fun schedtrace =>
  let '(perf_stream, stream_allocator) :=
    if o_perfcounter obj then StreamIdAllocator.allocate stream_allocator else (0, stream_allocator) in
  and_then (optional (o_perfcounter obj) (make_perfcounter perf_stream no_port)) (fun perfcounter =>
  and_then (optional (o_threadtrack obj) make_threadtrack) (fun threadtrack =>
  let log := match perfcounter with Some c => PerfCounter.port (coll c) | None => no_port end in
  Some (Ok (mkBpfConsumer log threadtrack cpuutil nettrack block_io profiler schedtrace perfcounter,
            stream_allocator))))))))).

(** The collectors keep the interface. *)
#[local] Instance threads_collects : Collects ThreadTracker :=
  ThreadTracker_collects user stops update clock_gettime (is_built obj) (o_filters obj).

#[local] Instance threads_collector : Collector ThreadTracker :=
  ThreadTracker_collector user stops update clock_gettime (is_built obj) (o_filters obj).

#[local] Instance cpu_collects : Collects CpuUtil.CpuUtil :=
  CpuUtil_collects user rng stops (Z.of_nat processors) iter_threads.

#[local] Instance cpu_collector : Collector CpuUtil.CpuUtil :=
  CpuUtil_collector user rng stops (Z.of_nat processors) iter_threads.

#[local] Instance net_collects : Collects NetCollector := NetTrack_collects user rng.

#[local] Instance net_collector : Collector NetCollector := NetTrack_collector user rng.

#[local] Instance net_flushes : Flushes NetCollector := NetTrack_flushes user rng.

#[local] Instance block_collects : Collects BlockCollector := BlockIo_collects user rng stops fs iter_devices.

#[local] Instance block_collector : Collector BlockCollector := BlockIo_collector user rng stops fs iter_devices.

#[local] Instance block_flushes : Flushes BlockCollector := BlockIo_flushes user rng stops fs iter_devices.

#[local] Instance profiler_collects : Collects ProfilerCollector :=
  Profiler_collects user stops blaze hash_callstack.

#[local] Instance profiler_collector : Collector ProfilerCollector :=
  Profiler_collector user stops blaze hash_callstack.

#[local] Instance sched_collects : Collects SchedTraceState := SchedTrace_collects user rng stops kernel_symbols.

#[local] Instance sched_collector : Collector SchedTraceState := SchedTrace_collector user rng stops kernel_symbols.

#[local] Instance perf_collects : Collects PerfCollector := PerfCounter_collects user stops.

#[local] Instance perf_collector : Collector PerfCollector := PerfCounter_collector user stops processors.

(** Rounds of the collectors of the code. *)
Definition ConsumerInboxes : Type :=
  @Inboxes ThreadTracker CpuUtil.CpuUtil NetCollector BlockCollector ProfilerCollector SchedTraceState
    PerfCollector _ _ _ _ _ _ _.

Definition inboxes (threads : Threads) (cpus : list (list Z) * result string unit) (net : NetSamples.Round)
    (blocks : BlockSamples.Round) (stacks : list Profiler.StackRecord * result string unit)
    (sched perf : list (list Z) * result string unit) : ConsumerInboxes :=
  @mkInboxes _ _ _ _ _ _ _ threads_collects cpu_collects net_collects block_collects profiler_collects
    sched_collects perf_collects threads cpus net blocks stacks sched perf.

Definition consume_round (i : ConsumerInboxes) (s : Consumer) : option (result BpfError unit * Consumer) :=
  consume_all i s.

Definition consumer_rounds : Consumer -> Consumer -> Prop := rounds.

Lemma consume_round_runs i s r s' : inboxes_ok i -> consume_round i s = Some (r, s') -> consumer_rounds s s'.
Proof.
  intros Hi H. apply (rounds_step s i (consume_all i) r s' s'); [done|by left|exact H|constructor].
Qed.

Lemma and_then_ok {A B} (m : made A) (f : A -> made B) b :
  and_then m f = Some (Ok b) -> exists a, m = Some (Ok a) /\ f a = Some (Ok b).
Proof. destruct m as [[a|]|]; [|done|done]. intros H. by exists a. Qed.

Lemma optional_ok {K A} (config : option K) (make : K -> made A) x a :
  optional config make = Some (Ok x) -> x = Some a -> exists k, make k = Some (Ok a).
Proof.
  intros H ->. unfold optional in H. destruct config as [k|]; [|done].
  apply and_then_ok in H as (a' & Ha & [= ->]). by exists k.
Qed.

Lemma loaded_ok {A} programs (make : made A) a : loaded programs make = Some (Ok a) -> make = Some (Ok a).
Proof. unfold loaded. by intros (? & _ & H)%and_then_ok. Qed.

Lemma make_perfcounter_ok stream config c :
  make_perfcounter stream no_port config = Some (Ok c) -> perf_fine processors c.
Proof.
  unfold make_perfcounter. intros (? & _ & H)%and_then_ok. apply loaded_ok, and_then_ok in H as ([[k c0] s] & Hn & [= <-]).
  unfold perf_fine, processors. cbn. destruct num_possible_cpus as [n|e] eqn:E.
  - apply new_spec in Hn as (H1 & _ & H2 & _); [|constructor]. done.
  - unfold PerfCounter.new in Hn. by destruct (PerfCounter.validate _ _) as [[[]]|].
Qed.

Lemma consumer_made alloc s alloc' : consumer alloc = Some (Ok (s, alloc')) -> consumer_fine s.
Proof.
  unfold consumer. intros (c1 & Hc1 & H)%and_then_ok. apply and_then_ok in H as (c2 & Hc2 & H).
  apply and_then_ok in H as (c3 & Hc3 & H). destruct (if o_profiler obj then _ else _) as [ps a1].
  apply and_then_ok in H as (c4 & Hc4 & H). apply and_then_ok in H as (c5 & Hc5 & H).
  destruct (if o_perfcounter obj then _ else _) as [qs a2].
  apply and_then_ok in H as (c6 & Hc6 & H). apply and_then_ok in H as (c7 & Hc7 & [= <- _]).
  set (l := match c6 with Some c => PerfCounter.port (coll c) | None => no_port end).
  assert ((forall c, c6 = Some c -> perf_fine processors c) /\ in_order (sent l)) as [Hp Ho].
  { assert (forall c, c6 = Some c -> perf_fine processors c) as Hp.
    { intros c ->. destruct (optional_ok _ _ _ c Hc6 eq_refl) as [k Hk]. by apply make_perfcounter_ok in Hk. }
    split; [done|]. unfold l. destruct c6 as [c|]; [|constructor]. by destruct (Hp c eq_refl) as [_ [Ho _]]. }
  split; cbn.
  - done.
  - intros c ->. done.
  - intros c Ec. destruct (optional_ok _ _ _ c Hc1 Ec) as [k Hk%loaded_ok].
    destruct num_possible_cpus; [|done]. injection Hk as <-.
    split; cbn; [apply prefix_nil|done|set_solver].
  - intros c Ec. destruct (optional_ok _ _ _ c Hc2 Ec) as [k Hk]. unfold make_nettrack in Hk.
    apply and_then_ok in Hk as (? & _ & Hk%loaded_ok). apply and_then_ok in Hk as (? & _ & [= <-]).
    split; cbn; [apply prefix_nil|done|set_solver|done|rewrite map_size_empty; lia].
  - intros c Ec. destruct (optional_ok _ _ _ c Hc3 Ec) as [k Hk]. unfold make_block_io in Hk.
    apply and_then_ok in Hk as (? & _ & Hk). apply and_then_ok in Hk as (? & _ & Hk%loaded_ok).
    injection Hk as <-. split; cbn; [apply prefix_nil|done|done|done].
  - intros c ->. done.
  - intros c Ec. destruct (optional_ok _ _ _ c Hc5 Ec) as [k Hk%loaded_ok]. injection Hk as <-.
    split; cbn; [apply prefix_nil|done|done].
  - intros c Ec. destruct (Hp c Ec) as [H1 [H2 H3]]. subst c6. cbn in l. split; [done|]. by split.
Qed.

(** C12. Whatever consumer the configuration makes, with whichever of the seven
    collectors, and whatever rounds of consume, poll and flush it runs, with the
    kernel's records, the maps and the answers of the callback as they may be: in
    everything the callback got, a message that refers to a counter or a custom track
    comes after the message that describes the track. *)
Theorem collectors_in_order alloc s s' alloc' :
  consumer alloc = Some (Ok (s, alloc')) -> consumer_rounds s s' ->
  forall before m after t,
    sent (log s') = before ++ m :: after -> t ∈ refers m -> t ∈ described before.
Proof.
  intros Hs Hr before m after t. apply in_order_split.
  apply consumer_made in Hs. by destruct (rounds_fine s s' Hr Hs).
Qed.

End Consumer.

(** ** An example *)

(** A run that can be seen to succeed, without its state being computed. *)
Definition succeeds {A} (run : option (result BpfError unit * A)) : bool :=
  match run with Some (Ok _, _) => true | _ => false end.

Lemma succeeds_with {A} (run : option (result BpfError unit * A)) d :
  succeeds run = true -> run = Some (Ok tt, match run with Some (_, s) => s | None => d end).
Proof. by destruct run as [[[[]|e] s]|]. Qed.

(** Processor times and the network, on one processor. *)
Definition demo_object : BpfConfig.BpfObject BlockIoConfig PerfCounterConfig :=
  {| o_threadtrack := None;
     o_cpuutils := Some {| cu_frequency := 9; cu_pid_filters := []; cu_filter_process := []; cu_ringbuf := 4096 |};
     o_nettrack := Some NetProps.demo_net_config;
     o_block_io := None;
     o_profiler := None;
     o_schedtrace := None;
     o_perfcounter := None;
     o_filters := fun _ => ∅;
     o_watched_tgids := ∅ |}.

(** A thread ran for half of a round, and some bytes were sent. *)
Definition demo_cpu_records : list (list Z) :=
  [le_bytes 4 8 ++ le_bytes 4 7 ++ le_bytes 8 3000 ++ le_bytes 8 0 ++ le_bytes 8 1000 ++ [0; 0; 0; 0; 1; 0; 0; 0]].

Lemma collectors_in_order_witness :
  let user := fun (_ : list Message) (_ : Message) => 0 in
  let make := consumer user demo_files (fun _ => []) demo_numbers
      (mkPerfSystem (fun _ _ _ _ => Err "") (fun _ _ => Ok tt) (fun _ _ => Ok tt)) (Ok 1%nat) 0 (fun _ => Ok tt) demo_object in
  exists (s s' : Consumer) alloc', make StreamIdAllocator.new = Some (Ok (s, alloc')) /\
    length (sent (log s')) = 20%nat /\
    forall before m after t, sent (log s') = before ++ m :: after -> t ∈ refers m -> t ∈ described before.
Proof.
  cbn zeta.
  set (i := inboxes (fun _ _ => 0) Z.of_nat (fun _ => None) demo_files elements elements (fun _ _ => Err 0)
    (fun _ => 0) (fun _ => Err ""%string) (fun _ _ => Ok tt) (fun _ => None) (Ok 1%nat) demo_object
    (mkThreads (Ok []) [] (Ok tt)) (demo_cpu_records, Ok tt) NetProps.demo_round
    (BlockSamples.mkRound [] (Ok tt) 0 (Ok []) (Ok [])) ([], Ok tt) ([], Ok tt) ([], Ok tt)).
  set (s := mkBpfConsumer no_port None (Some CpuUtil_init) (Some (mkConfigured NetProps.demo_net_config (NetTrack_init 0)))
    None None None None : Consumer).
  set (after_round := match consume_round _ _ _ _ _ _ _ _ _ _ _ _ _ i s with Some (_, s') => s' | None => s end).
  exists s, after_round, StreamIdAllocator.new. split; [reflexivity|]. split; [by vm_compute|].
  refine (collectors_in_order (fun _ _ => 0) Z.of_nat (fun _ => None) demo_files (fun _ => []) elements elements
    (fun _ _ => Err 0) (fun _ => 0) (fun _ => Err ""%string) demo_numbers
    (mkPerfSystem (fun _ _ _ _ => Err ""%string) (fun _ _ => Ok tt) (fun _ _ => Ok tt)) (fun _ _ => Ok tt) (fun _ => None)
    (Ok 1%nat) 0 (fun _ => Ok tt) demo_object StreamIdAllocator.new s after_round StreamIdAllocator.new eq_refl _).
  refine (consume_round_runs _ _ _ _ _ _ _ _ _ _ _ _ _ i s (Ok tt) after_round _ _).
  - split_and!; try exact I. by intros data Hd%elem_of_nil.
  - apply succeeds_with. by vm_compute.
Defined.
