(* ===== verification/Recorder.v ===== *)
(** * The recorder

    The program itself (src/kinetrace/src/bin/kinetrace.rs, config.rs): the agents
    it starts, the rounds of its loop, in which it reads the ring of the agents and
    runs the collectors, and the converter both hand their events to. *)

From S2P Require Import AgentIpc AgentState AgentClient.
From S2P Require Import BlockDevices BlockTrack BlockSamples BlockProps BlockReports NetTrack NetSamples NetProps.
From S2P Require Import PerfCounter PerfProps CpuUtil CpuProps Profiler BpfProcesses SchedTrace Symbolizer Text Float.
From S2P Require Import Prelude Protocol Perfetto Converter ConverterProps.
From S2P Require Import BpfConfig BpfEvents Collectors BpfConsumer.
Open Scope Z_scope.

(** ** Configuration *)

Record UserConfig := mkUserConfig {
  uc_socket : string;
  uc_log_filter : string;
  uc_random_process_id : option bool
}.

Definition default_log_filter : string := "DEBUG".

Definition default_buffer_size : Z := Z.shiftl 8 20.

(** ** The agents *)

Section Clients.

Context {P : Type} `{AgentClient.Peer P}.
Variable serialize_message : ControlMessage -> serializer.

(** The size of the consumer's memory, and its two descriptors. *)
Variable data_size memory_fd notification_fd : Z.

Definition start_client (config : UserConfig) : Client.M (P := P) unit :=
  match uc_random_process_id config with
  | Some random_process_id =>
      Client.start_with_options serialize_message data_size memory_fd notification_fd (uc_log_filter config)
        Monotonic [(Agent.RANDOM_PROCESS_ID_OPTION, VBool random_process_id)]
  | None => Client.start serialize_message data_size memory_fd notification_fd (uc_log_filter config)
  end.

(** A client is stopped, whatever comes of it. *)
Definition stop_client (client : AgentClient P) : AgentClient P := (Client.stop serialize_message client).2.

(** The clients of the configuration, each with the peer behind its socket.  After a
    failure the clients started before are stopped, and all are dropped. *)
Fixpoint start_clients (configs : list (UserConfig * P)) (user_clients : list (AgentClient P)) :
    result AgentError unit * list (AgentClient P) :=
  match configs with
  | [] => (Ok tt, user_clients)
  | (config, peer) :: configs =>
      let '(start_result, client) := start_client config (Client.new peer) in
      match start_result with
      | Ok _ => start_clients configs (user_clients ++ [client])
      | Err e => (Err e, map (Client.drop_stream ∘ stop_client) user_clients ++ [Client.drop_stream client])
      end
  end.

Definition keepalive (user_clients : list (AgentClient P)) : list (AgentClient P) :=
  map (fun client => (Client.send_continue serialize_message client).2) user_clients.

(** Either every agent was started, or the first that was not ends the program and
    no connection is left, to the agents before it neither. *)
Lemma start_clients_spec configs started :
  let run '(config, peer) := start_client config (Client.new peer) in
  match start_clients configs started with
  | (Ok _, clients) =>
      Forall (fun c => (run c).1 = Ok tt) configs /\ clients = started ++ map (fun c => (run c).2) configs
  | (Err e, clients) =>
      (exists before config after, configs = before ++ config :: after /\
        Forall (fun c => (run c).1 = Ok tt) before /\ (run config).1 = Err e /\
        length clients = (length started + S (length before))%nat) /\
      Forall (fun client => stream client = false) clients
  end.
Proof.
  cbn zeta. revert started. induction configs as [|[config p] configs IH]; intros started; cbn [start_clients].
  { cbn. by rewrite app_nil_r. }
  destruct (start_client config (Client.new p)) as [[[]|e] client] eqn:E.
  - specialize (IH (started ++ [client])). destruct (start_clients configs _) as [[[]|e] clients].
    + destruct IH as [Ha ->]. split; [constructor; [by rewrite E|done]|]. cbn [map]. by rewrite E, <-app_assoc.
    + destruct IH as [(before & c & after & -> & Hb & He & Hl) Hs]. split; [|done].
      exists ((config, p) :: before), c, after. split_and!; [done|constructor; [by rewrite E|done]|done|].
      rewrite Hl, length_app. cbn. lia.
  - split.
    + exists [], (config, p), configs. split_and!; [done|constructor|by rewrite E|].
      rewrite length_app, length_map. cbn. lia.
    + apply Forall_app_2; [|by apply Forall_singleton]. apply Forall_forall.
      by intros c (c0 & <- & _)%list_elem_of_In%in_map_iff.
Qed.

End Clients.

(** ** The loop *)

Section Recorder.

(** The collectors, by their interface. *)
Context {Thr Cpu Net Blk Prof Sch Perf : Type}.
Context `{Collector Thr} `{Collector Cpu} `{Flushes Net} `{Flushes Blk}.
Context `{Collector Prof} `{Collector Sch} `{Collector Perf}.
Context `{ArchivedInts}.

Abbreviation Consumer := (@BpfConsumer Thr Cpu Net Blk Prof Sch Perf).
Abbreviation Inboxes := (@BpfConsumer.Inboxes Thr Cpu Net Blk Prof Sch Perf _ _ _ _ _ _ _).

(** [Record::as_event]: [rkyv::access] on the bytes of a record. *)
Variable as_event : list Z -> result RkyvError (Event.t u32_le i32_le u64_le i64_le f64_le).

Section Loop.

Context {W : Type} `{Sink W}.

(** The collectors, the converter, and what was converted so far: for each message
    whether it came from a collector. *)
Record Recorder := mkRecorder {
  bpf : Consumer;
  converter : PerfettoConverter W;
  converted : list (bool * Message)
}.

(** The callback of the collectors: a message that cannot be converted is logged,
    and every message is accepted. *)
Definition callback (m : Message) (c : PerfettoConverter W) : Z * PerfettoConverter W :=
  (0, (Converter.convert_message m c).2).

(** The value the callback returns, for the collectors. *)
Definition accept (_ : list Message) (_ : Message) : Z := 0.

Definition convert_all (ms : list Message) (c : PerfettoConverter W) : PerfettoConverter W :=
  foldl (fun c m => (callback m c).2) c ms.

(** A record of the ring. *)
Definition convert_record (bytes : list Z) (r : Recorder) : Recorder :=
  match as_event bytes with
  | Err _ => r
  | Ok event =>
      mkRecorder (bpf r) (Converter.convert_archived_event event None (converter r)).2
        (converted r ++ [(false, Message.Event (native_event event))])
  end.

(** The records the consumer has, each with the termination flag as it is found
    after it. *)
Fixpoint drain (records : list (list Z * bool)) (r : Recorder) : Recorder :=
  match records with
  | [] => r
  | (bytes, terminated) :: records =>
      let r := convert_record bytes r in
      if terminated : bool then r else drain records r
  end.

(** A round of the collectors: its result is logged; what it sent was converted.
    Since every message is accepted, it does not matter to the collectors that the
    converter runs between them. *)
Definition bpf_round (step : Step) (r : Recorder) : option Recorder :=
  '(_, s) ← step (bpf r);
  let fresh := drop (length (sent (log (bpf r)))) (sent (log s)) in
  Some (mkRecorder s (convert_all fresh (converter r)) (converted r ++ map (pair true) fresh)).

(** An iteration of the loop: the records of the ring, and what the kernel has for
    the collectors. *)
Record Iteration := mkIteration {
  records : list (list Z * bool);
  for_bpf : Inboxes
}.

Definition iterate (i : Iteration) (r : Recorder) : option Recorder :=
  bpf_round (consume_all (for_bpf i)) (drain (records i) r).

(** The loop, until it finds the termination flag set. *)
Fixpoint main_loop (its : list Iteration) (r : Recorder) : option Recorder :=
  match its with
  | [] => Some r
  | i :: its => r ← iterate i r; main_loop its r
  end.

(** The collectors are flushed, then the output. *)
Definition finish (i : Inboxes) (r : Recorder) : option (result ConvertError unit * Recorder) :=
  r ← bpf_round (flush_all i) r;
  let '(flushed, c) := Converter.flush (converter r) in
  Some (flushed, mkRecorder (bpf r) c (converted r)).

(** The start: the collectors were made and have sent what they send at once. *)
Definition start (s : Consumer) (w : W) : Recorder :=
  mkRecorder s (convert_all (sent (log s)) (Converter.new w)) (map (pair true) (sent (log s))).

End Loop.

(** ** What the trace holds *)

(** The track a value, a span or an instant is reported on, and the packets it is
    reported with. *)
Definition reported_on (m : Message) : option (TrackId * (option Z -> list TracePacket)) :=
  match event_of m with
  | Event.Counter c => Some (Counter.track_id c, counter_packets c)
  | Event.Span sp => Some (Span.track_id sp, span_packets sp)
  | Event.Instant i => Some (Instant.track_id i, instant_packets i)
  | _ => None
  end.

(** The packets of a message, in a trace with the tracks [tm]: those of a collector
    about a track of its own are there, on that track. *)
Definition message_packets (tm : gmap TrackId Z) (entry : bool * Message) (ps : list TracePacket) : Prop :=
  let '(from_bpf, m) := entry in
  match reported_on m with
  | Some (t, packets) =>
      from_bpf = true -> invented t = true ->
      exists u tracks, tm !! t = Some u /\ Forall is_descriptor tracks /\ ps = tracks ++ packets (Some u)
  | None => True
  end.

Definition from_bpf (l : list (bool * Message)) : list Message := map snd (List.filter fst l).

Abbreviation Log := (list TracePacket).

(** The converter after some messages; [ms] are those of the collectors. *)
Record trace_ok (cv : PerfettoConverter Log) (history : list (bool * Message)) (ms : list Message) : Prop := {
  to_bpf : from_bpf history = ms;
  to_trace : exists c tm log chunks,
    cv = mkConverter (mkWriter log c) tm /\ tracks_ok false c tm log /\
    1000 <= c <= 1000 + 4 * Z.of_nat (length history) /\
    concat chunks = log /\ Forall2 (message_packets tm) history chunks /\
    forall t, t ∈ described ms -> is_Some (tm !! t)
}.

Lemma from_bpf_app l1 l2 : from_bpf (l1 ++ l2) = from_bpf l1 ++ from_bpf l2.
Proof. unfold from_bpf. by rewrite List.filter_app, map_app. Qed.

Lemma message_packets_mono tm tm' entry ps :
  tm ⊆ tm' -> message_packets tm entry ps -> message_packets tm' entry ps.
Proof.
  intros Hsub. destruct entry as [b m]. unfold message_packets. destruct (reported_on m) as [[t packets]|]; [|done].
  intros Hp Hb Ht. destruct (Hp Hb Ht) as (u & tracks & Hu & Htr). exists u, tracks. split; [|done].
  by eapply lookup_weaken.
Qed.

(** A message whose tracks are known, if it is a collector's, keeps the trace. *)
Lemma trace_step cv history ms b m :
  trace_ok cv history ms -> Z.of_nat (length history) < 2 ^ 61 ->
  (b = true -> forall t, t ∈ refers m -> t ∈ described ms) ->
  trace_ok (Converter.convert_message m cv).2 (history ++ [(b, m)]) (if b then ms ++ [m] else ms).
Proof.
  intros [Hbpf (c & tm & log & chunks & -> & Hok & Hc & Hlog & Hch & Hd)] Hlen Hrefs. split.
  { rewrite from_bpf_app, Hbpf. destruct b; cbn; [done|by rewrite app_nil_r]. }
  destruct (runs_message false m c tm log Hok) as ([] & c' & tm' & ps & Hm & Hc' & Hsub & Hok' & Heff);
    [lia|unfold u64_max; lia|done|].
  exists c', tm', (log ++ ps), (chunks ++ [ps]). rewrite Hm.
  split_and!; [done|done|lia|rewrite length_app; cbn; lia| | |].
  - rewrite concat_app, Hlog. cbn. by rewrite app_nil_r.
  - apply Forall2_app; [eapply Forall2_impl; [exact Hch|]; intros; by eapply message_packets_mono|].
    apply Forall2_cons. split; [|done]. unfold message_packets, reported_on.
    assert ((message_event m).1 = event_of m) as Eev by by destruct m. rewrite Eev in Heff.
    destruct (event_of m) as [cn|sp|i|d|sa|t] eqn:Em; try done; cbn [event_effect] in Heff.
    + destruct Heff as [-> ->]. intros -> Ht. destruct (Hd (Counter.track_id cn)) as [u Hu].
      { apply Hrefs; [done|]. unfold refers. rewrite Em. cbn [List.filter]. rewrite Ht. by left. }
      exists u, []. by rewrite Hu.
    + destruct Heff as (tracks & Htr & -> & _). intros -> Ht. destruct (Hd (Span.track_id sp)) as [u Hu].
      { apply Hrefs; [done|]. unfold refers. rewrite Em. cbn [List.filter]. rewrite Ht. by left. }
      rewrite (lookup_weaken _ _ _ _ Hu Hsub). by exists u, tracks.
    + destruct Heff as (tracks & Htr & -> & _). intros -> Ht. destruct (Hd (Instant.track_id i)) as [u Hu].
      { apply Hrefs; [done|]. unfold refers. rewrite Em. cbn [List.filter]. rewrite Ht. by left. }
      rewrite (lookup_weaken _ _ _ _ Hu Hsub). by exists u, tracks.
  - intros t Ht. assert (t ∈ described ms \/ b = true /\ t ∈ describes m) as [Ht'|[-> Ht']].
    { destruct b; [|by left]. apply described_snoc in Ht as [Ht|Ht]; [by left|by right]. }
    + destruct (Hd t Ht') as [u Hu]. exists u. by eapply lookup_weaken.
    + assert ((message_event m).1 = event_of m) as Eev by by destruct m. rewrite Eev in Heff.
      unfold describes in Ht'. destruct (event_of m) as [cn|sp|i|d|sa|tr]; try by apply elem_of_nil in Ht'.
      apply list_elem_of_singleton in Ht' as ->. cbn [event_effect] in Heff. unfold track_effect in Heff.
      destruct (tm !! TrackType.to_id (Track.track_type tr)) as [u|] eqn:Eu.
      * destruct Heff as [-> _]. by exists u.
      * destruct Heff as [[u Hu] _]. by exists u.
Qed.

Lemma trace_all cv history ms fresh :
  trace_ok cv history ms -> in_order (ms ++ fresh) ->
  Z.of_nat (length (history ++ map (pair true) fresh)) <= 2 ^ 61 ->
  trace_ok (convert_all fresh cv) (history ++ map (pair true) fresh) (ms ++ fresh).
Proof.
  revert cv history ms. induction fresh as [|m fresh IH]; intros cv history ms Hok Hord Hlen.
  { by rewrite !app_nil_r. }
  cbn [convert_all foldl map callback snd]. rewrite length_app in Hlen. cbn [map length] in Hlen.
  change (m :: fresh) with ([m] ++ fresh) in *.
  change ((true, m) :: map (pair true) fresh) with ([(true, m)] ++ map (pair true) fresh).
  rewrite !app_assoc in *. apply IH; [|done|].
  - apply (trace_step _ _ _ true); [done|lia|]. intros _ t Ht. eapply in_order_split; [exact Hord| |exact Ht].
    by rewrite <-app_assoc.
  - rewrite !length_app. cbn [length]. lia.
Qed.

(** The state of the recorder. *)
Definition recorder_ok (r : Recorder) : Prop :=
  consumer_fine (bpf r) /\ trace_ok (converter r) (converted r) (sent (log (bpf r))).

Lemma start_ok s :
  consumer_fine s -> Z.of_nat (length (sent (log s))) <= 2 ^ 61 -> recorder_ok (start s ([] : Log)).
Proof.
  intros Hs Hlen. split; [done|]. cbn [start converter converted bpf].
  apply (trace_all (Converter.new []) [] []).
  - split; [done|]. exists 1000, ∅, [], []. split_and!; try done; [apply (tracks_ok_init false)|by intros t Ht%elem_of_nil].
  - apply cf_order, Hs.
  - cbn [app]. by rewrite length_map.
Qed.

Lemma convert_record_ok bytes r :
  recorder_ok r -> Z.of_nat (length (converted (convert_record bytes r))) <= 2 ^ 61 ->
  recorder_ok (convert_record bytes r).
Proof.
  intros [Hs Ht] Hlen. unfold convert_record in *. destruct (as_event bytes) as [event|e]; [|done].
  split; [done|]. cbn [converter converted bpf] in *. rewrite archived_event_native.
  change (Converter.convert_event (native_event event) None) with
    (Converter.convert_message (W := Log) (Message.Event (native_event event))).
  apply (trace_step _ _ _ false); [done| |done]. rewrite length_app in Hlen. cbn in Hlen. lia.
Qed.

Lemma convert_record_grows bytes r :
  (length (converted r) <= length (converted (convert_record (W := Log) bytes r)))%nat.
Proof. unfold convert_record. destruct (as_event bytes); cbn; [rewrite length_app; lia|done]. Qed.

Lemma drain_grows l r : (length (converted r) <= length (converted (drain (W := Log) l r)))%nat.
Proof.
  revert r. induction l as [|[bytes terminated] l IH]; intros r; [done|]. cbn [drain].
  pose proof (convert_record_grows bytes r). destruct terminated; [done|].
  specialize (IH (convert_record bytes r)). lia.
Qed.

Lemma drain_ok l r :
  recorder_ok r -> Z.of_nat (length (converted (drain l r))) <= 2 ^ 61 -> recorder_ok (drain l r).
Proof.
  revert r. induction l as [|[bytes terminated] l IH]; intros r Hr Hlen; [done|]. cbn [drain] in *.
  destruct terminated; [by apply convert_record_ok|].
  apply IH; [|done]. apply convert_record_ok; [done|].
  pose proof (drain_grows l (convert_record bytes r)). lia.
Qed.

Lemma bpf_round_ok step r r' :
  bpf_round step r = Some r' -> step_fine step -> recorder_ok r -> Z.of_nat (length (converted r')) <= 2 ^ 61 ->
  recorder_ok r'.
Proof.
  unfold bpf_round. intros Hr Hstep [Hs Ht] Hlen. destruct (step (bpf r)) as [[res s]|] eqn:E; [|done].
  cbn in Hr. injection Hr as <-. cbn [converted] in Hlen.
  destruct (Hstep _ _ _ E Hs) as [Hs' [fresh Hf]]. split; [done|]. cbn [bpf converter converted] in *.
  rewrite Hf, drop_app_length in *. apply trace_all; [done| |done]. rewrite <-Hf. apply cf_order, Hs'.
Qed.

Lemma bpf_round_grows step (r r' : Recorder (W := Log)) :
  bpf_round step r = Some r' -> (length (converted r) <= length (converted r'))%nat.
Proof.
  unfold bpf_round. destruct (step (bpf r)) as [[res s]|]; [|done]. cbn. intros [= <-]. cbn.
  rewrite length_app. lia.
Qed.

Lemma main_loop_grows its (r r' : Recorder (W := Log)) :
  main_loop its r = Some r' -> (length (converted r) <= length (converted r'))%nat.
Proof.
  revert r. induction its as [|i its IH]; intros r; cbn [main_loop]; [by intros [= <-]|].
  destruct (iterate i r) as [r1|] eqn:E; [|done]. cbn. intros Hr. apply IH in Hr.
  apply bpf_round_grows in E. pose proof (drain_grows (records i) r). lia.
Qed.

Lemma main_loop_ok its r r' :
  main_loop its r = Some r' -> Forall (fun i => inboxes_ok (for_bpf i)) its -> recorder_ok r ->
  Z.of_nat (length (converted r')) <= 2 ^ 61 -> recorder_ok r'.
Proof.
  intros Hr Hi. revert r Hr. induction Hi as [|i its Hi _ IH]; intros r Hr Hok Hlen; cbn [main_loop] in Hr.
  { by injection Hr as <-. }
  destruct (iterate i r) as [r1|] eqn:E; [|done]. cbn in Hr.
  pose proof (main_loop_grows _ _ _ Hr) as Hg. unfold iterate in E. pose proof (bpf_round_grows _ _ _ E) as Hg1.
  apply (IH r1 Hr); [|done].
  apply (bpf_round_ok _ _ _ E); [by apply (all_fine (for_bpf i)); [|by left]| |lia].
  apply drain_ok; [done|lia].
Qed.

(** What holds of a trace, whatever the collectors: see [recorder_trace] below. *)
Definition trace_complete (r : Recorder (W := Log)) : Prop :=
  from_bpf (converted r) = sent (log (bpf r)) /\
  exists c tm chunks, converter r = mkConverter (mkWriter (concat chunks) c) tm /\
    Forall2 (message_packets tm) (converted r) chunks /\ closed (concat chunks) /\
    (forall t t' u, tm !! t = Some u -> tm !! t' = Some u -> t = t') /\
    (forall t u, tm !! t = Some u -> described_as (concat chunks) u t).

Lemma any_recorder_trace s its last r res r' :
  consumer_fine s -> Forall (fun i => inboxes_ok (for_bpf i)) its -> inboxes_ok last ->
  main_loop its (start s ([] : Log)) = Some r -> finish last r = Some (res, r') ->
  Z.of_nat (length (converted r')) <= 2 ^ 61 ->
  res = Ok tt /\ trace_complete r'.
Proof.
  intros Hs Hits Hlast Hr Hf Hlen. unfold finish in Hf.
  destruct (bpf_round _ r) as [r1|] eqn:E; [|done]. cbn in Hf. injection Hf as <- <-. cbn [converted] in Hlen.
  pose proof (main_loop_grows _ _ _ Hr) as Hg0. pose proof (bpf_round_grows _ _ _ E) as Hg1.
  cbn [start converted] in Hg0. rewrite length_map in Hg0.
  assert (recorder_ok r1) as [_ [Hb (c & tm & log & chunks & Hcv & ((Hcl & _) & Htm & Hinj) & _ & <- & Hch & _)]].
  { apply (bpf_round_ok _ _ _ E); [apply (all_fine last); [done|by do 2 right; left]| |done].
    apply (main_loop_ok its _ _ Hr); [done| |lia]. apply start_ok; [done|lia]. }
  split; [done|]. split; [exact Hb|]. exists c, tm, chunks. cbn [converter converted].
  rewrite Hcv. split_and!; [done|done|done|done|]. intros t u Ht. by apply Htm.
Qed.

End Recorder.

(** ** The recorder of the code *)

Section Code.

Context `{ArchivedInts}.
Variable as_event : list Z -> result RkyvError (Event.t u32_le i32_le u64_le i64_le f64_le).
Variable rng : nat -> Z.
Variable stops : Z -> option (result string unit).
Variable fs : FileSystem.
Variable iter_mounts : gmap Z (list MountInfo) -> list (Z * list MountInfo).
Variable iter_devices : gset Z -> list Z.
Variable iter_threads : gset (Z * Z) -> list (Z * Z).
Variable blaze : Source -> list Z -> result Z (list Symbolized).
Variable hash_callstack : list Z -> Z.
Variable kernel_symbols : Z -> result string (list (option string)).
Variable sys : PerfNumbers.
Variable os : PerfSystem.
Variable update : BpfConfig.Collector -> Z -> result string unit.
Variable clock_gettime : list Message -> option (Z * Z).
Variable num_possible_cpus : result string nat.
Variable now : Z.
Variable load : Programs -> result BpfError unit.
Variable obj : BpfConfig.BpfObject BlockIoConfig PerfCounterConfig.

#[local] Instance code_threads_collects : Collects ThreadTracker :=
  threads_collects accept stops update clock_gettime obj.
#[local] Instance code_threads : Collector ThreadTracker :=
  threads_collector accept stops update clock_gettime obj.
#[local] Instance code_cpu_collects : Collects CpuUtil.CpuUtil :=
  cpu_collects accept rng stops iter_threads num_possible_cpus.
#[local] Instance code_cpu : Collector CpuUtil.CpuUtil :=
  cpu_collector accept rng stops iter_threads num_possible_cpus.
#[local] Instance code_net_collects : Collects NetCollector := net_collects accept rng.
#[local] Instance code_net : Collector NetCollector := net_collector accept rng.
#[local] Instance code_net_flushes : Flushes NetCollector := net_flushes accept rng.
#[local] Instance code_block_collects : Collects BlockCollector := block_collects accept rng stops fs iter_devices.
#[local] Instance code_block : Collector BlockCollector := block_collector accept rng stops fs iter_devices.
#[local] Instance code_block_flushes : Flushes BlockCollector := block_flushes accept rng stops fs iter_devices.
#[local] Instance code_profiler_collects : Collects ProfilerCollector :=
  profiler_collects accept stops blaze hash_callstack.
#[local] Instance code_profiler : Collector ProfilerCollector :=
  profiler_collector accept stops blaze hash_callstack.
#[local] Instance code_sched_collects : Collects SchedTraceState := sched_collects accept rng stops kernel_symbols.
#[local] Instance code_sched : Collector SchedTraceState := sched_collector accept rng stops kernel_symbols.
#[local] Instance code_perf_collects : Collects PerfCollector := perf_collects accept stops.
#[local] Instance code_perf : Collector PerfCollector := perf_collector accept stops num_possible_cpus.

Abbreviation CodeInboxes := (@Inboxes ThreadTracker CpuUtil.CpuUtil NetCollector BlockCollector ProfilerCollector
  SchedTraceState PerfCollector _ _ _ _ _ _ _).

Abbreviation CodeIteration := (@Iteration ThreadTracker CpuUtil.CpuUtil NetCollector BlockCollector ProfilerCollector
  SchedTraceState PerfCollector _ _ _ _ _ _ _).

Abbreviation CodeRecorder := (@Recorder ThreadTracker CpuUtil.CpuUtil NetCollector BlockCollector ProfilerCollector
  SchedTraceState PerfCollector (list TracePacket)).

(** A recording: the consumer of the configuration, with the callback that accepts
    everything; the iterations of the loop; the last flush. *)
Definition record_trace (alloc : StreamIdAllocator) (its : list CodeIteration) (last : CodeInboxes) :
    option (result BpfError (result ConvertError unit * CodeRecorder)) :=
  made ← consumer accept fs iter_mounts sys os num_possible_cpus now load obj alloc;
  match made with
  | Err e => Some (Err e)
  | Ok (s, _) => r ← main_loop as_event its (start s []); r' ← finish last r; Some (Ok r')
  end.

(** C39. A recording, from whatever configuration, whatever the kernel, the maps and
    the agents deliver and however the two are interleaved, in which nothing panics:
    the recorder converts exactly what the collectors sent, in the order in which they
    sent it; no value, span or instant of a collector about a track of its own is lost
    in the converter, each becomes its packets, once and in order, on the one track of
    its id; every track is described in front of the packets that refer to it, and two
    ids never share one.  The last flush succeeds when the output does. *)
Theorem recorder_trace alloc its last res r :
  record_trace alloc its last = Some (Ok (res, r)) ->
  Forall (fun i => inboxes_ok (for_bpf i)) its -> inboxes_ok last -> Z.of_nat (length (converted r)) <= 2 ^ 61 ->
  res = Ok tt /\ trace_complete r.
Proof.
  unfold record_trace. destruct (consumer _ _ _ _ _ _ _ _ _ _) as [[[s alloc']|e]|] eqn:Es; [|done..].
  cbn [mbind option_bind]. destruct (main_loop _ _ _) as [r1|] eqn:Er; [|done]. cbn [mbind option_bind].
  destruct (finish _ _) as [[res' r']|] eqn:Ef; [|done]. cbn [mbind option_bind]. intros [= <- <-] Hits Hlast Hlen.
  apply (consumer_made accept rng stops fs iter_mounts iter_devices iter_threads blaze hash_callstack kernel_symbols
    sys os update clock_gettime) in Es.
  eapply any_recorder_trace; [exact Es|exact Hits|exact Hlast|exact Er|exact Ef|exact Hlen].
Qed.

End Code.

(** ** An example *)

Definition demo_ints : ArchivedInts := {|
  u16_le := Z; u16_native := id; u32_le := Z; u32_native := id; i32_le := Z; i32_native := id;
  u64_le := Z; u64_native := id; i64_le := Z; i64_native := id; f64_le := Z; f64_native := id
|}.

(** A record that is an event of an agent, and one that is none. *)
Definition demo_as_event (bytes : list Z) : result RkyvError (Event.t Z Z Z Z Z) :=
  match bytes with
  | [] => Err OutOfSpaceError
  | byte :: _ => Ok (Event.Counter {| Counter.name := "requests"; Counter.value := byte; Counter.timestamp := 1;
      Counter.track_id := TrackId.Process 7; Counter.labels := Labels.mk _ _ [] [] [] []; Counter.unit := None |})
  end.

(** A recording that succeeds with a certain result, without its state being shown. *)
Definition recorded {A} (P : A -> bool) (run : option (result BpfError (result ConvertError unit * A))) : bool :=
  match run with Some (Ok (Ok _, r)) => P r | _ => false end.

Lemma recorded_with {A} (P : A -> bool) run :
  recorded P run = true -> exists r, run = Some (Ok (Ok tt, r)) /\ P r = true.
Proof. destruct run as [[[[[]|e] r]|e]|]; [|done..]. intros HP. by exists r. Qed.

Lemma recorder_trace_witness :
  let accepted := @record_trace demo_ints demo_as_event Z.of_nat (fun _ => None) demo_files (fun _ => []) elements
    elements (fun _ _ => Err 0) (fun _ => 0) (fun _ => Err ""%string) demo_numbers
    (mkPerfSystem (fun _ _ _ _ => Err ""%string) (fun _ _ => Ok tt) (fun _ _ => Ok tt)) (fun _ _ => Ok tt)
    (fun _ => None) (Ok 1%nat) 0 (fun _ => Ok tt) demo_object StreamIdAllocator.new in
  let i := inboxes accept Z.of_nat (fun _ => None) demo_files elements elements (fun _ _ => Err 0)
    (fun _ => 0) (fun _ => Err ""%string) (fun _ _ => Ok tt) (fun _ => None) (Ok 1%nat) demo_object
    (mkThreads (Ok []) [] (Ok tt)) (demo_cpu_records, Ok tt) NetProps.demo_round
    (BlockSamples.mkRound [] (Ok tt) 0 (Ok []) (Ok [])) ([], Ok tt) ([], Ok tt) ([], Ok tt) in
  exists res r, accepted [mkIteration [([5], false); ([], false)] i] i = Some (Ok (res, r)) /\
    length (converted r) = 29%nat /\ res = Ok tt /\ trace_complete r.
Proof.
  intros accepted i.
  destruct (recorded_with (fun r => bool_decide (length (converted r) = 29%nat))
    (accepted [mkIteration [([5], false); ([], false)] i] i)) as (r & Hrun & Hlen); [by vm_compute|].
  apply bool_decide_eq_true in Hlen. exists (Ok tt), r. split; [exact Hrun|]. split; [exact Hlen|].
  eapply (@recorder_trace demo_ints); [exact Hrun|apply Forall_singleton| |rewrite Hlen; lia].
  all: repeat split; clear -H; by apply elem_of_nil in H.
Defined.
