(* ===== verification/EventPath.v ===== *)
(** * The path of an event

    From the calls of [AgentHandle::submit] (src/agent/src/extension.rs) in many
    threads, through the interleaved ring of [Submission], to what the loop of
    [Recorder] converts.  The flag that says that a thread's track was sent is in a
    slot of a [ThreadLocal], which a later thread gets when the first has ended: a
    [caller] is a slot with the calls of the threads that have it, one after the
    other.  An executable schedule of the interleaving is at the end, with an example
    in which a slot is used again. *)

From stdpp Require Import functions.
From S2P Require Import BlockDevices BlockTrack BlockReports PerfCounter PerfProps CpuUtil Profiler BpfProcesses SchedTrace Symbolizer Text Float.
From S2P Require Import Perfetto Converter ConverterProps BpfConfig BpfEvents Collectors BpfConsumer Recorder.
From S2P Require Import Prelude RingMem RingSpec Ring RingSystem RingRuns Protocol AgentIpc Submission.
Open Scope Z_scope.

(** ** The threads of an agent *)

Section Callers.

Context (serialize_event : Event -> serializer) (pid : Z).

(** A slot of [thread_names_sent]: its flag, with the thread that set it; the calls
    the threads that have the slot will make, the one it is in first; and what the
    calls before returned. *)
Record caller := mkCaller {
  named_by : option Thread;
  todo : list (Thread * Event);
  returned : list (Thread * Event * bool)
}.

(** The track that names the calling thread, while the slot's flag is not set. *)
Definition name_track (c : caller) : option Event :=
  match named_by c, todo c with
  | None, (thread, _) :: _ => thread_track pid thread
  | _, _ => None
  end.

(** What [AgentHandle::submit] gives to the producer next. *)
Definition next_submission (c : caller) : option Event :=
  match todo c with
  | [] => None
  | (_, event) :: _ => Some (default event (name_track c))
  end.

(** It goes on when the producer returns: the call fails with its track, else the flag
    is set and the event submitted, which ends the call. *)
Definition goes_on (c : caller) (ok : bool) : caller :=
  match todo c with
  | [] => c
  | (thread, event) :: rest =>
      let named := Some (default thread (named_by c)) in
      match name_track c with
      | Some _ =>
          if ok then mkCaller named (todo c) (returned c)
          else mkCaller None rest (returned c ++ [(thread, event, false)])
      | None => mkCaller named rest (returned c ++ [(thread, event, ok)])
      end
  end.

(** Its calls with nobody else at the ring. *)
Fixpoint call_alone (submissions fuel : nat) (obs1 obs2 : nat -> bool) (strategy : WakeupStrategy)
    (c : caller) (r : RingBuf) (eventfd : Z) : option (caller * RingBuf * Z) :=
  match submissions, next_submission c with
  | S n, Some event =>
      '(res, r, eventfd) ← submit serialize_event fuel
        (match name_track c with Some _ => obs1 | None => obs2 end) strategy event r eventfd;
      call_alone n fuel obs1 obs2 strategy (goes_on c (is_ok res)) r eventfd
  | _, _ => Some (c, r, eventfd)
  end.

(** The caller is [AgentHandle::submit]. *)
Lemma caller_is_handle fuel obs1 obs2 strategy thread event sent named r eventfd :
  bool_decide (th_key thread ∈ sent) = bool_decide (is_Some named) ->
  call_alone 2 fuel obs1 obs2 strategy (mkCaller named [(thread, event)] []) r eventfd =
  ('(res, sent', r', eventfd') ← handle_submit serialize_event fuel obs1 obs2 strategy pid thread event sent r eventfd;
   Some (mkCaller (if bool_decide (th_key thread ∈ sent') then Some (default thread named) else None) []
     [(thread, event, is_ok res)], r', eventfd')).
Proof.
  intros Es. unfold handle_submit. rewrite Es. destruct named as [first|].
  - rewrite bool_decide_true by done. cbn. destruct (submit _ _ _ _ _ _ _) as [[[res r1] e1]|]; [|done]. cbn. by rewrite Es.
  - assert (bool_decide (th_key thread ∈ sent ∪ {[th_key thread]}) = true) as Eu by (apply bool_decide_eq_true; set_solver).
    cbn -[submit]. unfold name_track, thread_track. cbn -[submit].
    destruct (th_name thread) as [name|] eqn:En; cbn -[submit].
    + destruct (submit _ _ _ _ _ _ _) as [[[[[]|err] r1] e1]|]; cbn -[submit]; [|by rewrite Es|done].
      destruct (submit _ _ _ _ _ _ _) as [[[res r2] e2]|]; cbn; [|done]. by rewrite Eu.
    + destruct (submit _ _ _ _ _ _ _) as [[[res r2] e2]|]; cbn; [|done]. by rewrite Eu.
Qed.

(** ** What was submitted through a slot *)

Context (calls : nat -> list (Thread * Event)).

Definition caller_start (t : nat) : caller := mkCaller None (calls t) [].

(** The calls that returned. *)
Definition called (c : caller) : list (Thread * Event) := map fst (returned c).

(** The events whose calls succeeded, and the track in front of them. *)
Definition accepted (c : caller) : list Event := map (fun call => call.1.2) (List.filter snd (returned c)).

Definition naming (c : caller) : list Event := option_list (named_by c ≫= thread_track pid).

Definition failed (calls : list (Thread * Event * bool)) : Prop := Forall (fun call => call.2 = false) calls.

(** The thread a slot is named after is that of the first call whose track, if it has a
    name, got room: the calls before it have failed, and without it all have. *)
Definition named_first (c : caller) : Prop :=
  match named_by c with
  | None => failed (returned c)
  | Some thread =>
      exists n event, (called c ++ todo c) !! n = Some (thread, event) /\ (n <= length (returned c))%nat /\
        failed (take n (returned c))
  end.

Lemma failed_accepted c : failed (returned c) -> accepted c = [].
Proof.
  unfold failed, accepted. induction (returned c) as [|[call ok] l IH]; [done|]. intros [Hok Hl]%Forall_cons.
  cbn in *. subst ok. by apply IH.
Qed.

Lemma accepted_snoc c named rest call ok :
  accepted (mkCaller named rest (returned c ++ [(call, ok)])) = accepted c ++ (if ok : bool then [call.2] else []).
Proof. unfold accepted. cbn. rewrite List.filter_app, map_app. by destruct ok. Qed.

(** One more call has returned. *)
Lemma named_first_more c thread event rest ok :
  todo c = (thread, event) :: rest -> named_first c ->
  named_first (mkCaller (Some (default thread (named_by c))) rest (returned c ++ [(thread, event, ok)])).
Proof.
  unfold named_first, called. cbn. intros Ht Hc. rewrite map_app, <-app_assoc. cbn. rewrite length_app. cbn.
  destruct (named_by c) as [first|]; cbn.
  - destruct Hc as (n & e & Hn & Hle & Hf). exists n, e. rewrite <-Ht. split; [done|]. split; [lia|].
    by rewrite take_app_le.
  - exists (length (returned c)), event. split.
    { rewrite lookup_app_r by (rewrite length_map; lia). by rewrite length_map, Nat.sub_diag. }
    split; [lia|]. by rewrite take_app_length.
Qed.

Lemma caller_behaves t acc c :
  behaves next_submission goes_on (caller_start t) acc c ->
  called c ++ todo c = calls t /\ acc = naming c ++ accepted c /\ named_first c.
Proof.
  intros Hb. remember (caller_start t) as c0 eqn:E0.
  assert (forall acc c event ok, next_submission c = Some event ->
    called c ++ todo c = calls t /\ acc = naming c ++ accepted c /\ named_first c ->
    let c' := goes_on c ok in
    called c' ++ todo c' = calls t /\ acc ++ (if ok then [event] else []) = naming c' ++ accepted c' /\ named_first c')
    as Hstep.
  2: { induction Hb as [|acc c event Hb IH Hs|acc c event Hb IH Hs].
    - subst c0. split_and!; [done..|]. by apply Forall_nil_2.
    - specialize (Hstep _ _ _ false Hs IH). by rewrite app_nil_r in Hstep.
    - exact (Hstep _ _ _ true Hs IH). }
  clear. intros acc c event ok Hs (Hc & -> & Hn). cbn zeta. unfold next_submission, goes_on in *.
  destruct (todo c) as [|[th e] rest] eqn:Et; [done|]. injection Hs as <-.
  assert (forall named, called (mkCaller named rest (returned c ++ [(th, e, ok)])) ++ rest = calls t) as Hcalled.
  { intros named. unfold called. cbn. by rewrite map_app, <-app_assoc. }
  unfold name_track. rewrite Et. destruct (named_by c) as [first|] eqn:En.
  - split; [by apply Hcalled|]. split.
    + rewrite accepted_snoc. unfold naming. cbn. by rewrite En, <-app_assoc.
    + pose proof (named_first_more c th e rest ok Et Hn) as Hm. by rewrite En in Hm.
  - pose proof Hn as Hf. unfold named_first in Hf. rewrite En in Hf. pose proof (failed_accepted c Hf) as Ha.
    destruct (thread_track pid th) as [track|] eqn:Etr; [destruct ok|].
    + split; [exact Hc|]. unfold naming, accepted in *. cbn. rewrite En, Etr, Ha. split; [done|].
      unfold named_first. cbn. exists (length (returned c)), e. split.
      { unfold called. rewrite lookup_app_r by (rewrite length_map; lia). by rewrite length_map, Nat.sub_diag. }
      split; [done|]. by rewrite firstn_all.
    + split; [by apply Hcalled|]. rewrite accepted_snoc. unfold naming. cbn. rewrite En, Ha. split; [done|].
      apply Forall_app. split; [done|]. by apply Forall_singleton.
    + split; [by apply Hcalled|]. rewrite accepted_snoc. unfold naming. cbn. rewrite En, Etr, Ha. split; [done|].
      pose proof (named_first_more c th e rest ok Et Hn) as Hm. rewrite En in Hm. exact Hm.
Qed.

End Callers.

(** ** What the loop converts *)

Section Loop.

Context {Thr Cpu Net Blk Prof Sch Perf : Type}.
Context `{Collector Thr} `{Collector Cpu} `{Flushes Net} `{Flushes Blk}.
Context `{Collector Prof} `{Collector Sch} `{Collector Perf}.
Context `{ArchivedInts} {W : Type} `{Sink W}.
Variable as_event : list Z -> result RkyvError (Event.t u32_le i32_le u64_le i64_le f64_le).

Abbreviation Rec := (@Recorder Thr Cpu Net Blk Prof Sch Perf W).

(** The records a round reads: the one after which it finds the flag is its last. *)
Fixpoint consumed (records : list (list Z * bool)) : list (list Z) :=
  match records with
  | [] => []
  | (bytes, terminated) :: records => bytes :: if terminated : bool then [] else consumed records
  end.

(** The messages of the agents among those converted. *)
Definition from_agents (l : list (bool * Message)) : list Message := map snd (List.filter (fun m => negb m.1) l).

(** The message of a record. *)
Definition decoded (bytes : list Z) : option Message :=
  match as_event bytes with Ok event => Some (Message.Event (native_event event)) | Err _ => None end.

Lemma from_agents_app l1 l2 : from_agents (l1 ++ l2) = from_agents l1 ++ from_agents l2.
Proof. unfold from_agents. by rewrite List.filter_app, map_app. Qed.

Lemma from_agents_const (b : bool) ms : from_agents (map (pair b) ms) = if b then [] else ms.
Proof. unfold from_agents. induction ms as [|m ms IH]; destruct b; cbn in *; [done..| |]; by rewrite IH. Qed.

(** A state is the one before it with more messages converted. *)
Definition extends (r r' : Rec) (agents : list Message) : Prop :=
  exists fresh, converted r' = converted r ++ fresh /\ converter r' = convert_all (map snd fresh) (converter r) /\
    from_agents fresh = agents.

Lemma extends_trans r1 r2 r3 l1 l2 : extends r1 r2 l1 -> extends r2 r3 l2 -> extends r1 r3 (l1 ++ l2).
Proof.
  intros (f1 & E1 & C1 & <-) (f2 & E2 & C2 & <-). exists (f1 ++ f2). rewrite E2, E1, C2, C1. split_and!.
  - by rewrite app_assoc.
  - unfold convert_all. by rewrite map_app, foldl_app.
  - apply from_agents_app.
Qed.

Lemma drain_extends records (r : Rec) : extends r (drain as_event records r) (omap decoded (consumed records)).
Proof.
  revert r. induction records as [|[bytes terminated] records IH]; intros r; cbn [drain consumed].
  { exists []. by rewrite app_nil_r. }
  assert (extends r (convert_record as_event bytes r) (omap decoded [bytes])) as Hb.
  { unfold convert_record. cbn [omap list_omap]. unfold decoded. destruct (as_event bytes) as [event|e]; [|exists []; by rewrite app_nil_r].
    exists [(false, Message.Event (native_event event))]. by rewrite archived_event_native. }
  destruct terminated; [done|]. specialize (IH (convert_record as_event bytes r)).
  change (bytes :: consumed records) with ([bytes] ++ consumed records). rewrite omap_app.
  by eapply extends_trans.
Qed.

Lemma bpf_round_extends step (r r' : Rec) : bpf_round step r = Some r' -> extends r r' [].
Proof.
  unfold bpf_round. destruct (step (bpf r)) as [[res s]|]; [|done]. cbn. intros [= <-].
  eexists. split; [done|]. split; [by rewrite map_map, map_id|by rewrite from_agents_const].
Qed.

Lemma main_loop_extends its (r r' : Rec) :
  main_loop as_event its r = Some r' -> extends r r' (omap decoded (concat (map (fun i => consumed (records i)) its))).
Proof.
  revert r. induction its as [|i its IH]; intros r; cbn [main_loop map concat].
  { intros [= ->]. exists []. by rewrite app_nil_r. }
  destruct (iterate as_event i r) as [r1|] eqn:E; [|done]. cbn [mbind option_bind]. intros Hr. rewrite omap_app.
  eapply extends_trans; [|by apply IH]. unfold iterate in E.
  rewrite <-(app_nil_r (omap decoded (consumed _))). eapply extends_trans; [apply drain_extends|by eapply bpf_round_extends].
Qed.

Lemma recorder_extends its last s w (r r' : Rec) res :
  main_loop as_event its (start s w) = Some r -> finish last r = Some (res, r') ->
  from_agents (converted r') = omap decoded (concat (map (fun i => consumed (records i)) its)) /\
  converter r' = (Converter.flush (convert_all (map snd (converted r')) (Converter.new w))).2.
Proof.
  intros Hr Hf. apply main_loop_extends in Hr. unfold finish in Hf.
  destruct (bpf_round _ r) as [r1|] eqn:E; [|done]. cbn [mbind option_bind] in Hf. apply bpf_round_extends in E.
  destruct (Converter.flush (converter r1)) as [flushed c] eqn:Efl. injection Hf as <- <-. cbn [converted converter].
  destruct (extends_trans _ _ _ _ _ Hr E) as (fresh & -> & Hc & Ha). cbn [start converted converter] in *. split.
  - by rewrite from_agents_app, from_agents_const, Ha, app_nil_r.
  - rewrite map_app, map_map, map_id. unfold convert_all in *. by rewrite foldl_app, <-Hc, Efl.
Qed.

End Loop.

(** ** From the calls to the trace *)

Section Path.

Context `{ArchivedInts}.
Context (as_event : list Z -> result RkyvError (Event.t u32_le i32_le u64_le i64_le f64_le)).
Context (serialize_event : Event -> serializer) (strategy : nat -> WakeupStrategy).
Context (pid : Z) (calls : nat -> list (Thread * Event)).

Hypothesis serializable_events : forall event, serializable (serialize_event event).

(** The runs of an agent whose threads make these calls, through their slots. *)
Definition agent_runs : Z -> list label -> list (nat * Event) -> sys -> (nat -> client) -> Prop :=
  submissions serialize_event strategy (next_submission pid) (goes_on pid) (caller_start calls).

(** What was put into the ring through a slot, in order: the track of the thread the
    slot is named after, the events whose calls succeeded, and what the present call
    has got room for. *)
Definition slot_events (s : sys) (cs : nat -> client) (t : nat) : list Event :=
  naming pid (control (cs t)) ++ accepted (control (cs t)) ++ pending (state_of (s_threads s) t) (cs t).

Lemma agent_slots D tr evs s cs t :
  is_power_of_two D = true -> 8 <= D <= 2 ^ 32 -> agent_runs D tr evs s cs -> reserved_bytes tr <= 2 ^ 62 ->
  called (control (cs t)) ++ todo (control (cs t)) = calls t /\ named_first (control (cs t)) /\
  events_of t evs = slot_events s cs t.
Proof using serializable_events.
  intros Hpow HD Hs Hb. destruct (submissions_inv _ _ _ _ _ serializable_events _ _ _ _ _ Hpow HD Hs Hb) as [q [_ _ _ _ Hh]].
  destruct (Hh t) as (acc & Hacc & He). apply caller_behaves in Hacc as (? & -> & ?).
  unfold slot_events. by rewrite app_assoc.
Qed.

Lemma deliveries_events D tr evs s cs :
  is_power_of_two D = true -> 8 <= D <= 2 ^ 32 -> agent_runs D tr evs s cs -> reserved_bytes tr <= 2 ^ 62 ->
  (length (deliveries tr) <= length evs)%nat /\
  deliveries tr = map (fun ev => image serialize_event ev.2) (take (length (deliveries tr)) evs).
Proof using serializable_events.
  intros Hpow HD Hs Hb. destruct (submissions_inv _ _ _ _ _ serializable_events _ _ _ _ _ Hpow HD Hs Hb) as [q [Hq HI Hsl _ _]].
  assert (wf_queue empty_queue) as Hwf by done.
  destruct (replay_received _ _ _ Hwf Hq) as [_ Hrec]. cbn in Hrec.
  destruct Hsl as (evs1 & evs2 & -> & Hdone & Hlive). destruct q as [gone live held].
  destruct (received_events serialize_event cs gone live held evs1 evs2) as [n Hn]; [exact (inv_wf _ _ HI)|done..|].
  rewrite Hn in Hrec. rewrite <-Hrec, length_map, length_take. split; [lia|]. f_equal.
  destruct (decide (n <= length (evs1 ++ evs2))%nat); [by rewrite Nat.min_l|].
  by rewrite Nat.min_r, !take_ge by lia.
Qed.

(** Labels are maps: archived ones come in an order of their own. *)
Record same_labels (l l' : Labels.t Z Z) : Prop := {
  sl_strings : Labels.strings l' ≡ₚ Labels.strings l;
  sl_ints : Labels.ints l' ≡ₚ Labels.ints l;
  sl_bools : Labels.bools l' ≡ₚ Labels.bools l;
  sl_floats : Labels.floats l' ≡ₚ Labels.floats l
}.

Definition labels_of (event : Event) : Labels.t Z Z :=
  match event with
  | Event.Counter c => Counter.labels _ _ _ _ _ c
  | Event.Span s => Span.labels s
  | Event.Instant i => Instant.labels i
  | _ => Labels.new
  end.

Definition relabelled (l : Labels.t Z Z) (event : Event) : Event :=
  match event with
  | Event.Counter c =>
      Event.Counter (Counter.mk _ _ _ _ _ (Counter.name c) (Counter.value c) (Counter.timestamp c)
        (Counter.track_id c) l (Counter.unit _ _ _ _ _ c))
  | Event.Span s =>
      Event.Span (Span.mk _ _ _ _ _ (Span.name s) (Span.span_id _ _ _ _ _ s) (Span.start_timestamp s)
        (Span.end_timestamp s) (Span.track_id s) l)
  | Event.Instant i =>
      Event.Instant (Instant.mk _ _ _ _ _ (Instant.name i) (Instant.timestamp i) (Instant.track_id i) l)
  | _ => event
  end.

(** The same event, up to the order of its labels. *)
Definition same_event (event event' : Event) : Prop :=
  exists l, same_labels (labels_of event) l /\ event' = relabelled l event.

(** [rkyv] reads back what it wrote, for the events of the run. *)
Definition reads_back (evs : list (nat * Event)) : Prop :=
  forall t event, (t, event) ∈ evs ->
    exists archived, as_event (image serialize_event event) = Ok archived /\ same_event event (native_event archived).

(** A message that carries an event. *)
Definition carries (m : Message) (ev : nat * Event) : Prop :=
  exists event, m = Message.Event event /\ same_event ev.2 event.

Lemma decoded_events evs n :
  reads_back evs ->
  Forall2 carries (omap (decoded as_event) (map (fun ev => image serialize_event ev.2) (take n evs))) (take n evs).
Proof using.
  revert n. induction evs as [|[t event] evs IH]; intros [|n] Hr; [done..|]. cbn [take map].
  destruct (Hr t event) as (a & Ha & Hn); [by left|]. cbn. unfold decoded at 1. rewrite Ha.
  apply Forall2_cons. split; [by eexists|]. apply IH. intros t' event' Hin. apply (Hr t'). by right.
Qed.

Variable rng : nat -> Z.
Variable stops : Z -> option (result string unit).
Variable fs : FileSystem.
Variable iter_mounts : gmap Z (list MountInfo) -> list (Z * list MountInfo).
Variable iter_devices : gset Z -> list Z.
Variable iter_threads : gset (Z * Z) -> list (Z * Z).
Variable blaze : Source -> list Z -> result Z (list Symbolized).
Variable hash_callstack : list Z -> Z.
Variable kernel_symbols : Z -> result string (list (option string)).
Variable numbers : PerfNumbers.
Variable os : PerfSystem.
Variable update : BpfConfig.Collector -> Z -> result string unit.
Variable clock_gettime : list Message -> option (Z * Z).
Variable num_possible_cpus : result string nat.
Variable now : Z.
Variable load : Programs -> result BpfError unit.
Variable obj : BpfConfig.BpfObject BlockIoConfig PerfCounterConfig.

Abbreviation recording := (record_trace as_event rng stops fs iter_mounts iter_devices iter_threads blaze hash_callstack
  kernel_symbols numbers os update clock_gettime num_possible_cpus now load obj).

(** C23. The threads of an agent call [AgentHandle::submit] concurrently, in whatever
    interleaving with each other and with the consumer, while a recording reads their
    ring; a slot of the handle's [ThreadLocal] is used by one thread after the other.
    What was put into the ring through a slot is, in order, the track that names the
    thread of the first call that got it in (or which has no name), once, and then
    exactly the events whose calls succeeded, in the order of the calls, with at most
    one more for the call that is under way; all calls before that first one have
    failed, and a later thread of the slot sends no track.  The messages the recording
    converts that no collector sent are the first of the events of all slots, in the
    order in which they got room, each once and as it was submitted but for the order
    of its labels.  The trace is the conversion of all messages in the order in which
    they came.  (The ring holds at most 4 GiB, the positions have not passed [2^62],
    and [rkyv] reads back what it wrote, with the labels in any order.) *)
Theorem events_reach_the_trace D tr evs s cs alloc its last res r :
  is_power_of_two D = true -> 8 <= D <= 2 ^ 32 -> agent_runs D tr evs s cs -> reserved_bytes tr <= 2 ^ 62 ->
  reads_back evs ->
  recording alloc its last = Some (Ok (res, r)) ->
  concat (map (fun i => consumed (records i)) its) = deliveries tr ->
  (forall t, called (control (cs t)) ++ todo (control (cs t)) = calls t /\ named_first (control (cs t)) /\
    events_of t evs = slot_events s cs t) /\
  (length (deliveries tr) <= length evs)%nat /\
  Forall2 carries (from_agents (converted r)) (take (length (deliveries tr)) evs) /\
  converter r = (Converter.flush (convert_all (map snd (converted r)) (Converter.new []))).2.
Proof using serializable_events.
  intros Hpow HD Hs Hb Hrk Hrun Hc. destruct (deliveries_events D tr evs s cs) as [Hlen E]; [done..|].
  split; [intros t; by eapply agent_slots|]. split; [done|].
  unfold record_trace in Hrun. destruct (BpfConsumer.consumer _ _ _ _ _ _ _ _ _ _) as [[[b alloc']|e]|]; [|done..].
  cbn [mbind option_bind] in Hrun. destruct (main_loop _ _ _) as [r1|] eqn:Er; [|done]. cbn [mbind option_bind] in Hrun.
  destruct (finish _ _) as [[res' r']|] eqn:Ef; [|done]. cbn [mbind option_bind] in Hrun. injection Hrun as <- <-.
  destruct (recorder_extends as_event its last b [] r1 r' res' Er Ef) as [Ha Hcv]. split; [|done].
  rewrite Ha, Hc. rewrite E at 1. by apply decoded_events.
Qed.

End Path.

(** ** An example

    A thread with a name submits an event; when it has ended, a thread with another
    name gets its slot and submits one.  A thread without a name uses another slot. *)

Definition labelled (labels : list (string * Z)) : Event :=
  Event.Instant (Instant.mk _ _ _ _ _ "tock" 3 (TrackId.Thread 7 4) (Labels.mk _ _ [] labels [] [])).

Definition other_instant : Event := labelled [("a", 1); ("b", 2)]%string.

Definition demo_track : Event :=
  Event.Track (Track.mk _ _ _ "worker" (TrackType.Thread 42 7) (Some (TrackType.Process 7))).

(** The labels are read in another order. *)
Definition demo_read (bytes : list Z) : result RkyvError (Event.t Z Z Z Z Z) :=
  match bytes with
  | [_] => Ok demo_track
  | 2 :: _ => Ok demo_instant
  | _ => Ok (labelled [("b", 2); ("a", 1)]%string)
  end.

Definition later_thread : Thread := mkThread 0 (Some "helper"%string) 44.

Definition demo_calls (t : nat) : list (Thread * Event) :=
  match t with
  | 0%nat => [(demo_thread, demo_instant); (later_thread, other_instant)]
  | 1%nat => [(mkThread 1 None 43, other_instant)]
  | _ => []
  end.

(** The thread of the second slot gets room and is done while the first fills its
    track; the consumer reads three of the four records. *)
Definition demo_turns : list turn :=
  repeat (Thread_turn 0 true) 6 ++ repeat (Thread_turn 1 true) 18 ++ repeat Consumer_turn 4 ++
  repeat (Thread_turn 0 true) 41 ++ repeat Consumer_turn 12.

Definition demo_submissions : option (list label * list (nat * Event) * RingSystem.sys * (nat -> client)) :=
  exec_turns demo_serialize (fun _ => NoWakeup) (next_submission 7) (goes_on 7) demo_turns [] []
    (init 128) (client_start (caller_start demo_calls)).

Definition demo_evs : list (nat * Event) :=
  [(0%nat, demo_track); (1%nat, other_instant); (0%nat, demo_instant); (0%nat, other_instant)].

Lemma same_event_refl e : same_event e e.
Proof. exists (labels_of e). split; [done|]. by destruct e as [[]|[]|[]|?|?|?]. Qed.

Lemma demo_reads_back : @reads_back demo_ints demo_read demo_serialize demo_evs.
Proof.
  assert (same_event other_instant (labelled [("b", 2); ("a", 1)]%string)) as Ho.
  { eexists. split; [|done]. split; try done. apply Permutation_swap. }
  intros t event Hin. apply list_elem_of_In in Hin.
  destruct Hin as [[= <- <-]|[[= <- <-]|[[= <- <-]|[[= <- <-]|[]]]]];
    [exists demo_track|exists (labelled [("b", 2); ("a", 1)]%string)|exists demo_instant|exists (labelled [("b", 2); ("a", 1)]%string)];
    (split; [done|]); apply same_event_refl || exact Ho.
Qed.

Lemma events_reach_the_trace_witness :
  let accepted := @record_trace demo_ints demo_read Z.of_nat (fun _ => None) demo_files (fun _ => []) elements
    elements (fun _ _ => Err 0) (fun _ => 0) (fun _ => Err ""%string) demo_numbers
    (mkPerfSystem (fun _ _ _ _ => Err ""%string) (fun _ _ => Ok tt) (fun _ _ => Ok tt)) (fun _ _ => Ok tt)
    (fun _ => None) (Ok 1%nat) 0 (fun _ => Ok tt) demo_object StreamIdAllocator.new in
  let i := inboxes accept Z.of_nat (fun _ => None) demo_files elements elements (fun _ _ => Err 0)
    (fun _ => 0) (fun _ => Err ""%string) (fun _ _ => Ok tt) (fun _ => None) (Ok 1%nat) demo_object
    (mkThreads (Ok []) [] (Ok tt)) (demo_cpu_records, Ok tt) NetProps.demo_round
    (BlockSamples.mkRound [] (Ok tt) 0 (Ok []) (Ok [])) ([], Ok tt) ([], Ok tt) ([], Ok tt) in
  let its := [mkIteration [([6], false)] i; mkIteration [] i; mkIteration [([3; 0; 0; 0; 0; 0; 0; 0], false); ([2; 1; 0; 0; 0; 0; 0; 0], true)] i] in
  exists out r, demo_submissions = Some out /\ accepted its i = Some (Ok (Ok tt, r)) /\
    out.1.1.2 = demo_evs /\
    events_of 0 out.1.1.2 = [demo_track] ++ [demo_instant; other_instant] ++ [] /\
    events_of 0 out.1.1.2 = slot_events 7 out.1.2 out.2 0 /\
    Forall2 carries (from_agents (converted r)) (take 3 demo_evs).
Proof.
  intros accepted i its.
  assert (option_map (fun o => (deliveries o.1.1.1, o.1.1.2, reserved_bytes o.1.1.1)) demo_submissions =
    Some ([[6]; [3; 0; 0; 0; 0; 0; 0; 0]; [2; 1; 0; 0; 0; 0; 0; 0]], demo_evs, 64)) as Hout by (vm_compute; reflexivity).
  destruct demo_submissions as [out|] eqn:E; [|discriminate]. injection Hout as Hdel Hevs Hbytes.
  destruct (recorded_with (fun _ => true) (accepted its i)) as (r & Hrun & _); [by vm_compute|].
  exists out, r. split; [done|]. split; [exact Hrun|]. split; [exact Hevs|].
  destruct (@events_reach_the_trace demo_ints demo_read demo_serialize (fun _ => NoWakeup) 7 demo_calls
    demo_serializable Z.of_nat (fun _ => None) demo_files (fun _ => []) elements
    elements (fun _ _ => Err 0) (fun _ => 0) (fun _ => Err ""%string) demo_numbers
    (mkPerfSystem (fun _ _ _ _ => Err ""%string) (fun _ _ => Ok tt) (fun _ _ => Ok tt)) (fun _ _ => Ok tt)
    (fun _ => None) (Ok 1%nat) 0 (fun _ => Ok tt) demo_object 128 out.1.1.1 out.1.1.2 out.1.2 out.2
    StreamIdAllocator.new its i (Ok tt) r) as (Hslots & _ & Hfrom & _).
  - reflexivity.
  - lia.
  - eapply exec_turns_sound; [apply sub_nil|exact E].
  - rewrite Hbytes. lia.
  - rewrite Hevs. exact demo_reads_back.
  - exact Hrun.
  - rewrite Hdel. reflexivity.
  - rewrite Hdel, Hevs in Hfrom. split; [by rewrite Hevs|]. split; [exact (proj2 (proj2 (Hslots 0%nat)))|exact Hfrom].
Defined.
